(** * A shallow embedding of the teaching kernel's core

    Frame pools, page-fault handling, virtual-memory pools, the schedulers,
    the interrupt-driven disk client and the sequential file layer, each
    transcribed from its C++ source into a functional model, followed by the
    statements proved about them.

    Conventions.
    - The kernel is compiled for 32-bit x86: [unsigned long] and
      [unsigned int] are 32 bits wide.  Such values are integers of [Z] and
      every operation that can leave the range is wrapped with [u32].
    - A failed [assert] halts the kernel; a function that can reach one
      returns [option], and [None] is the halt.
    - Pointers to threads are modelled by the thread they designate, the
      null pointer by [None].  Linked queues with head and tail pointers are
      modelled by the list of their nodes, head first. *)

From Stdlib Require Import ZArith Lia List Bool.
From stdpp Require Import base list.

#[local] Open Scope Z_scope.

(* ===================================================================== *)
(** * Part I: the model                                                   *)
(* ===================================================================== *)

(** ** Machine words *)

Definition u32 (x : Z) : Z := x mod 2 ^ 32.
Definition u8 (x : Z) : Z := x mod 2 ^ 8.

(** ** Threads

    The thread class lives outside the modelled sources.  A thread carries
    the identifier returned by [ThreadId()]; identifiers are handed out by a
    counter, one per thread object, so two thread pointers are equal exactly
    when their identifiers are. *)

Record Thread := mkThread { ThreadId : Z }.

#[global] Instance Thread_eq_dec : EqDecision Thread.
Proof. solve_decision. Defined.

(* --------------------------------------------------------------------- *)
(** ** The cooperative scheduler of MP5 (MP5/MP5_Sources/scheduler.C)     *)
(* --------------------------------------------------------------------- *)

Module SchedMP5.

(** Modelled from the spec: the [Queue] class behind [ready_queue] is
    declared in scheduler.H, which is not among the sources.  The spec
    describes it as an ordered sequence of threads with FIFO enqueue and
    dequeue: [enqueue] appends at the tail, [dequeue] removes the head and
    yields the null pointer on an empty queue. *)
Definition enqueue (q : list Thread) (t : Thread) : list Thread := q ++ [t].

Definition dequeue (q : list Thread) : option Thread * list Thread :=
  match q with
  | [] => (None, [])
  | t :: q' => (Some t, q')
  end.

(** The scheduler object together with the two pieces of machine state its
    methods touch: the interrupt flag and the running thread
    ([Thread::CurrentThread()], replaced by [Thread::dispatch_to]). *)
Record State := mkState {
  ready_queue : list Thread;
  qsize : Z;
  interrupts_enabled : bool;
  current_thread : option Thread
}.

Definition Scheduler : State :=
  {| ready_queue := []; qsize := 0;
     interrupts_enabled := false; current_thread := None |}.

Definition disable_if_enabled (s : State) : State :=
  if interrupts_enabled s
  then {| ready_queue := ready_queue s; qsize := qsize s;
          interrupts_enabled := false; current_thread := current_thread s |}
  else s.

Definition enable_if_disabled (s : State) : State :=
  if negb (interrupts_enabled s)
  then {| ready_queue := ready_queue s; qsize := qsize s;
          interrupts_enabled := true; current_thread := current_thread s |}
  else s.

(** [Scheduler::yield]. *)
Definition yield (s : State) : State :=
  let s := disable_if_enabled s in
  if qsize s =? 0 then s
  else
    let '(new_thread, q) := dequeue (ready_queue s) in
    let s := {| ready_queue := q; qsize := qsize s - 1;
                interrupts_enabled := interrupts_enabled s;
                current_thread := current_thread s |} in
    let s := enable_if_disabled s in
    {| ready_queue := ready_queue s; qsize := qsize s;
       interrupts_enabled := interrupts_enabled s;
       current_thread := new_thread |}.

(** [Scheduler::resume]; [Scheduler::add] has the same body. *)
Definition resume (t : Thread) (s : State) : State :=
  let s := disable_if_enabled s in
  let s := {| ready_queue := enqueue (ready_queue s) t; qsize := qsize s + 1;
              interrupts_enabled := interrupts_enabled s;
              current_thread := current_thread s |} in
  enable_if_disabled s.

Definition add := resume.

(** The loop of [Scheduler::terminate]:
    [for (index = 0; index < qsize; index++)], whose bound [qsize] is
    decremented by the body when the target is met.  [index] grows and
    [qsize] never does, so the body runs at most [qsize] times: with that
    much fuel the loop has always left by its own test.  Dequeuing from an
    empty queue hands back the null pointer, whose [ThreadId()] call
    crashes ([None]). *)
Fixpoint terminate_loop (fuel : nat) (index : Z) (_thread : Thread)
    (q : list Thread) (qs : Z) : option (list Thread * Z) :=
  match fuel with
  | O => Some (q, qs)
  | S fuel' =>
      if index <? qs then
        match dequeue q with
        | (None, _) => None
        | (Some top, q') =>
            if negb (ThreadId top =? ThreadId _thread)
            then terminate_loop fuel' (index + 1) _thread (enqueue q' top) qs
            else terminate_loop fuel' (index + 1) _thread q' (qs - 1)
        end
      else Some (q, qs)
  end.

(** [Scheduler::terminate]. *)
Definition terminate (_thread : Thread) (s : State) : option State :=
  let s := disable_if_enabled s in
  match terminate_loop (Z.to_nat (qsize s)) 0 _thread
          (ready_queue s) (qsize s) with
  | None => None
  | Some (q, qs) =>
      Some (enable_if_disabled
              {| ready_queue := q; qsize := qs;
                 interrupts_enabled := interrupts_enabled s;
                 current_thread := current_thread s |})
  end.

End SchedMP5.

(* --------------------------------------------------------------------- *)
(** ** The round-robin scheduler of MP5 (class RRScheduler, same file)    *)
(* --------------------------------------------------------------------- *)

Module RRScheduler.

(** The queue holds thread pointers; [handle_interrupt] hands it whatever
    [Thread::CurrentThread()] returns, the null pointer included, so an
    element is an [option Thread].  Modelled from the spec, as for the
    cooperative scheduler: [enqueue] appends at the tail, [dequeue] removes
    the head and yields the null pointer on an empty queue. *)
Definition enqueue (q : list (option Thread)) (t : option Thread)
    : list (option Thread) := q ++ [t].

Definition dequeue (q : list (option Thread))
    : option Thread * list (option Thread) :=
  match q with
  | [] => (None, [])
  | t :: q' => (t, q')
  end.

(** The scheduler object with the machine state its methods touch: the
    interrupt flag, the running thread, and the bytes sent to I/O ports by
    [Machine::outportb], oldest first, each with its port. *)
Record State := mkState {
  ready_rr_queue : list (option Thread);
  rr_qsize : Z;
  ticks : Z;
  hz : Z;
  interrupts_enabled : bool;
  current_thread : option Thread;
  ports : list (Z * Z)
}.

(** [Machine::outportb(port, data)]: one byte goes out. *)
Definition outportb (port data : Z) (s : State) : State :=
  {| ready_rr_queue := ready_rr_queue s; rr_qsize := rr_qsize s;
     ticks := ticks s; hz := hz s;
     interrupts_enabled := interrupts_enabled s;
     current_thread := current_thread s;
     ports := ports s ++ [(port, u8 data)] |}.

Definition with_interrupts (b : bool) (s : State) : State :=
  {| ready_rr_queue := ready_rr_queue s; rr_qsize := rr_qsize s;
     ticks := ticks s; hz := hz s;
     interrupts_enabled := b;
     current_thread := current_thread s;
     ports := ports s |}.

Definition disable_if_enabled (s : State) : State :=
  if interrupts_enabled s then with_interrupts false s else s.

Definition enable_if_disabled (s : State) : State :=
  if negb (interrupts_enabled s) then with_interrupts true s else s.

(** [RRScheduler::set_frequency]: the divisor is computed on [int]s, whose
    division truncates; a frequency of 0 is a division by zero, the halt. *)
Definition set_frequency (_hz : Z) (s : State) : option State :=
  if _hz =? 0 then None
  else
    let s := {| ready_rr_queue := ready_rr_queue s; rr_qsize := rr_qsize s;
                ticks := ticks s; hz := _hz;
                interrupts_enabled := interrupts_enabled s;
                current_thread := current_thread s;
                ports := ports s |} in
    let divisor := Z.quot 1193180 _hz in
    let s := outportb 0x43 0x34 s in
    let s := outportb 0x40 (Z.land divisor 0xFF) s in
    Some (outportb 0x40 (Z.shiftr divisor 8) s).

(** The constructor, on the machine state it finds. *)
Definition RRScheduler (interrupts : bool) (running : option Thread)
    (sent : list (Z * Z)) : option State :=
  set_frequency 5
    {| ready_rr_queue := []; rr_qsize := 0; ticks := 0; hz := 5;
       interrupts_enabled := interrupts; current_thread := running;
       ports := sent |}.

(** [RRScheduler::yield]. *)
Definition yield (s : State) : State :=
  let s := outportb 0x20 0x20 s in
  let s := disable_if_enabled s in
  if rr_qsize s =? 0 then s
  else
    let '(new_thread, q) := dequeue (ready_rr_queue s) in
    let s := {| ready_rr_queue := q; rr_qsize := rr_qsize s - 1;
                ticks := 0; hz := hz s;
                interrupts_enabled := interrupts_enabled s;
                current_thread := current_thread s;
                ports := ports s |} in
    let s := enable_if_disabled s in
    {| ready_rr_queue := ready_rr_queue s; rr_qsize := rr_qsize s;
       ticks := ticks s; hz := hz s;
       interrupts_enabled := interrupts_enabled s;
       current_thread := new_thread;
       ports := ports s |}.

(** [RRScheduler::resume]; [RRScheduler::add] has the same body. *)
Definition resume (_thread : option Thread) (s : State) : State :=
  let s := disable_if_enabled s in
  let s := {| ready_rr_queue := enqueue (ready_rr_queue s) _thread;
              rr_qsize := rr_qsize s + 1;
              ticks := ticks s; hz := hz s;
              interrupts_enabled := interrupts_enabled s;
              current_thread := current_thread s;
              ports := ports s |} in
  enable_if_disabled s.

Definition add := resume.

(** [RRScheduler::handle_interrupt], the timer tick. *)
Definition handle_interrupt (s : State) : State :=
  let s := {| ready_rr_queue := ready_rr_queue s; rr_qsize := rr_qsize s;
              ticks := ticks s + 1; hz := hz s;
              interrupts_enabled := interrupts_enabled s;
              current_thread := current_thread s;
              ports := ports s |} in
  if ticks s >=? hz s then
    let s := {| ready_rr_queue := ready_rr_queue s; rr_qsize := rr_qsize s;
                ticks := 0; hz := hz s;
                interrupts_enabled := interrupts_enabled s;
                current_thread := current_thread s;
                ports := ports s |} in
    yield (resume (current_thread s) s)
  else s.

End RRScheduler.

(* --------------------------------------------------------------------- *)
(** ** The FIFO scheduler of MP6 (MP6/MP6_Sources/scheduler.C)            *)
(* --------------------------------------------------------------------- *)

Module SchedMP6.

(** [ready_queue] is the list of the nodes from [ready_queue_head] to
    [ready_queue_tail]; both pointers are null exactly when it is empty. *)
Record State := mkState {
  ready_queue : list Thread;
  queue_size : Z;
  current_thread : option Thread
}.

Definition Scheduler : State :=
  {| ready_queue := []; queue_size := 0; current_thread := None |}.

(** [Scheduler::resume]: a null thread is ignored, any other is appended
    behind the tail. *)
Definition resume (_thread : option Thread) (s : State) : State :=
  match _thread with
  | None => s
  | Some t =>
      {| ready_queue := ready_queue s ++ [t];
         queue_size := queue_size s + 1;
         current_thread := current_thread s |}
  end.

Definition add := resume.

(** [Scheduler::yield]: the running thread is first put back on the queue,
    then the head is taken off and dispatched to. *)
Definition yield (s : State) : State :=
  let s := match current_thread s with
           | Some t => resume (Some t) s
           | None => s
           end in
  match ready_queue s with
  | next_thread :: q =>
      {| ready_queue := q; queue_size := queue_size s - 1;
         current_thread := Some next_thread |}
  | [] => s
  end.

(** The search of [Scheduler::terminate]: walk the nodes with [current] and
    [previous]; unlink the first node that holds [_thread] and stop. *)
Fixpoint unlink (_thread : Thread) (q : list Thread) : option (list Thread) :=
  match q with
  | [] => None
  | current :: rest =>
      if decide (current = _thread) then Some rest
      else match unlink _thread rest with
           | Some rest' => Some (current :: rest')
           | None => None
           end
  end.

(** [Scheduler::terminate]. *)
Definition terminate (_thread : option Thread) (s : State) : State :=
  match _thread with
  | None => s
  | Some t =>
      match unlink t (ready_queue s) with
      | Some q =>
          {| ready_queue := q; queue_size := queue_size s - 1;
             current_thread := current_thread s |}
      | None => s
      end
  end.

End SchedMP6.

(* --------------------------------------------------------------------- *)
(** ** The interrupt-driven disk client (nonblocking_disk.C, IRQ14 variant) *)
(* --------------------------------------------------------------------- *)

Module NonBlockingDisk.

(** The disk object with the global [System::SCHEDULER] it wakes threads
    through ([None] when that pointer is null).  The blocked queue is the
    list of nodes from [blocked_queue_head] to [blocked_queue_tail]. *)
Record State := mkState {
  blocked_queue : list Thread;
  waiting_for_interrupt : bool;
  SCHEDULER : option SchedMP6.State
}.

(** [NonBlockingDisk::wake_next_blocked_thread]. *)
Definition wake_next_blocked_thread (d : State) : State :=
  match blocked_queue d, SCHEDULER d with
  | node_to_wake :: rest, Some sched =>
      {| blocked_queue := rest;
         waiting_for_interrupt :=
           match rest with
           | [] => false
           | _ => waiting_for_interrupt d
           end;
         SCHEDULER := Some (SchedMP6.resume (Some node_to_wake) sched) |}
  | _, _ => d
  end.

(** [NonBlockingDisk::handle_interrupt]; [is_busy] is the BSY bit of the
    status register as read by [is_busy()] on entry. *)
Definition handle_interrupt (is_busy : bool) (d : State) : State :=
  if negb is_busy then wake_next_blocked_thread d else d.

(** The ready queue seen through the scheduler pointer. *)
Definition ready (d : State) : list Thread :=
  match SCHEDULER d with
  | Some sched => SchedMP6.ready_queue sched
  | None => []
  end.

End NonBlockingDisk.


(* --------------------------------------------------------------------- *)
(** ** The virtual-memory pool (vm_pool.C)                                *)
(* --------------------------------------------------------------------- *)

Module VMPool.

(** [PageTable::PAGE_SIZE], declared in page_table.H: the 4 KiB page. *)
Definition PAGE_SIZE : Z := 4096.

(** One record of the region table, [allocated_region_info].  The field
    [length] of the source is [region_length] here, [base_address] is
    [region_base_address]. *)
Record allocated_region_info := mkRegion {
  region_base_address : Z;
  region_length : Z
}.

(** The pool object.  [ptr_vm_region] is the array of records that the
    source keeps in the pool's own first page, as the memory it is: a record
    for every index, of which the first [num_regions] are live.  The page
    table and the frame pool are seen only through the calls made on them. *)
Record State := mkState {
  base_address : Z;
  size : Z;
  num_regions : Z;
  ptr_vm_region : Z -> allocated_region_info;
  available_memory : Z
}.

(** [ptr_vm_region[i] = r]. *)
Definition region_store (arr : Z -> allocated_region_info) (i : Z)
    (r : allocated_region_info) : Z -> allocated_region_info :=
  fun j => if j =? i then r else arr j.

(** The live records, in table order. *)
Definition regions (p : State) : list allocated_region_info :=
  map (ptr_vm_region p) (seqZ 0 (num_regions p)).

(** The constructor: record 0 is the metadata page itself. *)
Definition VMPool (_base_address _size : Z)
    (memory : Z -> allocated_region_info) : State :=
  {| base_address := _base_address;
     size := _size;
     num_regions := 1;
     ptr_vm_region :=
       region_store memory 0
         {| region_base_address := _base_address;
            region_length := PAGE_SIZE |};
     available_memory := u32 (_size - PAGE_SIZE) |}.

(** The page count computed by [allocate]. *)
Definition pages_count (_size : Z) : Z :=
  u32 (_size / PAGE_SIZE + (if _size mod PAGE_SIZE >? 0 then 1 else 0)).

(** [VMPool::allocate]: the address returned and the pool afterwards. *)
Definition allocate (_size : Z) (p : State) : option (Z * State) :=
  if _size >? available_memory p then None
  else
    let prev := ptr_vm_region p (num_regions p - 1) in
    let r := {| region_base_address :=
                  u32 (region_base_address prev + region_length prev);
                region_length := u32 (pages_count _size * PAGE_SIZE) |} in
    let arr := region_store (ptr_vm_region p) (num_regions p) r in
    let n := num_regions p + 1 in
    Some (region_base_address (arr (n - 1)),
          {| base_address := base_address p;
             size := size p;
             num_regions := n;
             ptr_vm_region := arr;
             available_memory :=
               u32 (available_memory p - u32 (pages_count _size * PAGE_SIZE)) |}).

(** The search loop of [release]:
    [for (index = 1; index < num_regions; index++)], leaving [region_no] at
    the first index whose base matches, or at -1. *)
Fixpoint find_region (fuel : nat) (index : Z) (_start_address : Z)
    (p : State) : Z :=
  match fuel with
  | O => -1
  | S fuel' =>
      if index <? num_regions p then
        if region_base_address (ptr_vm_region p index) =? _start_address
        then index
        else find_region fuel' (index + 1) _start_address p
      else -1
  end.

(** The page loop of [release]: the addresses handed to
    [page_table->free_page], in call order. *)
Fixpoint free_pages (page_count : nat) (_start_address : Z) : list Z :=
  match page_count with
  | O => []
  | S n => _start_address :: free_pages n (u32 (_start_address + PAGE_SIZE))
  end.

(** The shift loop of [release]:
    [for (index = region_no; index < num_regions - 1; index++)
       ptr_vm_region[index] = ptr_vm_region[index + 1]]. *)
Fixpoint shift_left (fuel : nat) (index : Z) (n : Z)
    (arr : Z -> allocated_region_info) : Z -> allocated_region_info :=
  match fuel with
  | O => arr
  | S fuel' =>
      if index <? n - 1
      then shift_left fuel' (index + 1) n (region_store arr index (arr (index + 1)))
      else arr
  end.

(** [VMPool::release], the pool's side of it: the pool afterwards and the
    pages its page loop hands to [page_table->free_page], in call order.
    [None] is the assertion on an unknown address.  The calls of
    [free_page] themselves act on the page table and the frame pools, and
    halt the kernel when one of them halts: [PageTable.MP4.release] below
    carries them out.  [available_memory] is credited from
    [ptr_vm_region[region_no]] as read after the shift loop has run. *)
Definition release (_start_address : Z) (p : State)
    : option (State * list Z) :=
  let region_no :=
    find_region (Z.to_nat (num_regions p - 1)) 1 _start_address p in
  if region_no =? -1 then None
  else
    let page_count :=
      region_length (ptr_vm_region p region_no) / PAGE_SIZE in
    let freed := free_pages (Z.to_nat page_count) _start_address in
    let arr := shift_left (Z.to_nat (num_regions p - 1 - region_no))
                 region_no (num_regions p) (ptr_vm_region p) in
    Some ({| base_address := base_address p;
             size := size p;
             num_regions := num_regions p - 1;
             ptr_vm_region := arr;
             available_memory :=
               u32 (available_memory p + region_length (arr region_no)) |},
          freed).

(** [VMPool::is_legitimate]. *)
Definition is_legitimate (_address : Z) (p : State) : bool :=
  negb ((_address <? base_address p)
        || (_address >=? u32 (base_address p + size p))).

(** The accounting of the spec's data model over the live records. *)
Definition total_length (p : State) : Z :=
  foldr (fun r acc => region_length r + acc) 0 (regions p).

End VMPool.


(* --------------------------------------------------------------------- *)
(** ** Frame states and the frame size (cont_frame_pool.H)                *)
(* --------------------------------------------------------------------- *)

Inductive FrameState := Free | Used | HoS.

#[global] Instance FrameState_eq_dec : EqDecision FrameState.
Proof. solve_decision. Defined.

(** [ContFramePool::FRAME_SIZE], declared in cont_frame_pool.H: 4096 bytes. *)
Definition FRAME_SIZE : Z := 4096.

(* --------------------------------------------------------------------- *)
(** ** The frame pool of MP2 (MP2/MP2_Sources/cont_frame_pool.C)          *)
(* --------------------------------------------------------------------- *)

Module FramePoolMP2.

(** One byte of bitmap per frame, holding the state itself. *)
Record State := mkState {
  base_frame_no : Z;
  nframes : Z;
  info_frame_no : Z;
  bitmap : list FrameState
}.

(** [get_state], with its [assert(_frame_no < nframes)]. *)
Definition get_state (_frame_no : Z) (p : State) : option FrameState :=
  if (0 <=? _frame_no) && (_frame_no <? nframes p)
  then bitmap p !! Z.to_nat _frame_no
  else None.

(** [set_state], with its [assert(_frame_no < nframes)]. *)
Definition set_state (_frame_no : Z) (_state : FrameState) (p : State)
    : option State :=
  if (0 <=? _frame_no) && (_frame_no <? nframes p)
  then Some {| base_frame_no := base_frame_no p;
               nframes := nframes p;
               info_frame_no := info_frame_no p;
               bitmap := <[Z.to_nat _frame_no := _state]> (bitmap p) |}
  else None.

(** The constructor; [memory] is what the bitmap bytes hold beforehand. *)
Definition ContFramePool (_base_frame_no _n_frames _info_frame_no : Z)
    (memory : list FrameState) : option State :=
  let p := {| base_frame_no := _base_frame_no; nframes := _n_frames;
              info_frame_no := _info_frame_no; bitmap := memory |} in
  let p0 := if _info_frame_no =? 0 then set_state 0 HoS p else Some p in
  foldl (fun acc i =>
           match acc with
           | None => None
           | Some q =>
               if (_info_frame_no =? 0) && (i =? 0) then Some q
               else set_state i Free q
           end)
        p0 (seqZ 0 _n_frames).

(** The inner loop of [get_frames]:
    [for (j = 0; j < _n_frames; j++) if (get_state(i + j) != Free) ...],
    over the offsets [js] still to visit. *)
Fixpoint run_is_free (p : State) (i : Z) (js : list Z) : option bool :=
  match js with
  | [] => Some true
  | j :: js' =>
      match get_state (u32 (i + j)) p with
      | None => None
      | Some Free => run_is_free p i js'
      | Some _ => Some false
      end
  end.

(** The marking of a run found at [i]. *)
Definition mark_run (i _n_frames : Z) (p : State) : option State :=
  foldl (fun acc j =>
           match acc with
           | None => None
           | Some q => set_state (u32 (i + j)) Used q
           end)
        (set_state i HoS p) (seqZ 1 (_n_frames - 1)).

(** The outer loop of [get_frames]:
    [for (i = 0; i <= nframes - _n_frames; i++)], the bound computed on
    32-bit unsigned words.  The result is the value returned (0 when no run
    is found) and the pool afterwards. *)
Fixpoint search (fuel : nat) (i : Z) (_n_frames : Z) (p : State)
    : option (Z * State) :=
  match fuel with
  | O => Some (0, p)
  | S fuel' =>
      if i <=? u32 (nframes p - _n_frames) then
        match run_is_free p i (seqZ 0 _n_frames) with
        | None => None
        | Some true =>
            match mark_run i _n_frames p with
            | None => None
            | Some q => Some (u32 (base_frame_no p + i), q)
            end
        | Some false => search fuel' (i + 1) _n_frames p
        end
      else Some (0, p)
  end.

(** [ContFramePool::get_frames]. *)
Definition get_frames (_n_frames : Z) (p : State) : option (Z * State) :=
  search (Z.to_nat (u32 (nframes p - _n_frames) + 1)) 0 _n_frames p.

(** [ContFramePool::mark_inaccessible]. *)
Definition mark_inaccessible (_base_frame_no _n_frames : Z) (p : State)
    : option State :=
  let relative_frame_no := u32 (_base_frame_no - base_frame_no p) in
  foldl (fun acc i =>
           match acc with
           | None => None
           | Some q => set_state (u32 (relative_frame_no + i)) Used q
           end)
        (set_state relative_frame_no HoS p) (seqZ 1 (_n_frames - 1)).

(** Does the pool own the frame?  The test of [release_frames]. *)
Definition owns (_first_frame_no : Z) (p : State) : bool :=
  (_first_frame_no >=? base_frame_no p)
  && (_first_frame_no <? u32 (base_frame_no p + nframes p)).

(** The tail loop of [release_frames]:
    [while (i < nframes && get_state(i) == Used) { set_state(i, Free); i++; }]. *)
Fixpoint free_tail (fuel : nat) (i : Z) (p : State) : option State :=
  match fuel with
  | O => Some p
  | S fuel' =>
      if i <? nframes p then
        match get_state i p with
        | None => None
        | Some Used =>
            match set_state i Free p with
            | None => None
            | Some q => free_tail fuel' (i + 1) q
            end
        | Some _ => Some p
        end
      else Some p
  end.

(** The release proper, once the owning pool is known. *)
Definition release_in (_first_frame_no : Z) (owning_pool : State)
    : option State :=
  let relative_frame := u32 (_first_frame_no - base_frame_no owning_pool) in
  match get_state relative_frame owning_pool with
  | Some HoS =>
      match set_state relative_frame Free owning_pool with
      | None => None
      | Some q => free_tail (Z.to_nat (nframes q)) (relative_frame + 1) q
      end
  | _ => None
  end.

(** [ContFramePool::release_frames] over the static table [frame_pools]: the
    first pool that owns the frame is the one released in. *)
Fixpoint release_frames (_first_frame_no : Z) (frame_pools : list State)
    : option (list State) :=
  match frame_pools with
  | [] => None
  | pool :: rest =>
      if owns _first_frame_no pool then
        match release_in _first_frame_no pool with
        | None => None
        | Some q => Some (q :: rest)
        end
      else
        match release_frames _first_frame_no rest with
        | None => None
        | Some rest' => Some (pool :: rest')
        end
  end.

(** [ContFramePool::needed_info_frames]: one byte of state per frame. *)
Definition needed_info_frames (_n_frames : Z) : Z :=
  u32 (_n_frames + FRAME_SIZE - 1) / FRAME_SIZE.

End FramePoolMP2.


(* --------------------------------------------------------------------- *)
(** ** The two-bit frame pool (ContFramePool.C of MP5; MP3 has the same
       [get_state], [set_state], [get_frames] and [needed_info_frames])   *)
(* --------------------------------------------------------------------- *)

Module FramePool.

(** [bitmap] is the memory the pool's bitmap pointer designates, byte by
    byte.  The source indexes it without bounds; here a byte past the
    modelled memory reads as 0 and a write to it is dropped. *)
Record State := mkState {
  base_frame_no : Z;
  n_frames : Z;
  info_frame_no : Z;
  num_free_frames : Z;
  bitmap : list Z
}.

Definition bitmap_row_index (_frame_no : Z) : Z := _frame_no / 4.
Definition bitmap_col_index (_frame_no : Z) : Z := (_frame_no mod 4) * 2.

Definition byte_at (bm : list Z) (row : Z) : Z :=
  if row <? 0 then 0 else default 0 (bm !! Z.to_nat row).

Definition byte_set (bm : list Z) (row : Z) (b : Z) : list Z :=
  if row <? 0 then bm else <[Z.to_nat row := b]> bm.

(** [get_state]: two bits per frame, 00 Free, 01 Used, 11 HoS; the pattern
    10 falls through to the initial value [Used]. *)
Definition get_state (_frame_no : Z) (p : State) : FrameState :=
  let mask_result :=
    Z.land (Z.shiftr (byte_at (bitmap p) (bitmap_row_index _frame_no))
                     (bitmap_col_index _frame_no)) 3 in
  if mask_result =? 0 then Free
  else if mask_result =? 1 then Used
  else if mask_result =? 3 then HoS
  else Used.

(** [set_state]: Free clears the two bits, Used and HoS toggle theirs. *)
Definition set_state (_frame_no : Z) (_state : FrameState) (p : State)
    : State :=
  let row := bitmap_row_index _frame_no in
  let col := bitmap_col_index _frame_no in
  let b := byte_at (bitmap p) row in
  let b' :=
    match _state with
    | Free => u8 (Z.land b (Z.lnot (Z.shiftl 3 col)))
    | Used => u8 (Z.lxor b (Z.shiftl 1 col))
    | HoS => u8 (Z.lxor b (Z.shiftl 3 col))
    end in
  {| base_frame_no := base_frame_no p; n_frames := n_frames p;
     info_frame_no := info_frame_no p;
     num_free_frames := num_free_frames p;
     bitmap := byte_set (bitmap p) row b' |}.

Definition with_free (k : Z) (p : State) : State :=
  {| base_frame_no := base_frame_no p; n_frames := n_frames p;
     info_frame_no := info_frame_no p;
     num_free_frames := k;
     bitmap := bitmap p |}.

(** The constructor; [memory] is what the bitmap's frame holds beforehand.
    The linking into the global pool list is the list handed to
    [release_frames]. *)
Definition ContFramePool (_base_frame_no _n_frames _info_frame_no : Z)
    (memory : list Z) : option State :=
  if negb (_n_frames mod 8 =? 0) then None
  else
    let p := {| base_frame_no := _base_frame_no; n_frames := _n_frames;
                info_frame_no := _info_frame_no;
                num_free_frames := _n_frames; bitmap := memory |} in
    let p := foldl (fun q fno => set_state fno Free q) p (seqZ 0 _n_frames) in
    Some (if _info_frame_no =? 0
          then with_free (u32 (num_free_frames p - 1)) (set_state 0 Used p)
          else p).

(** The scan of [get_frames]:
    [for (idx = 0; idx < n_frames; ++idx)] with the current free run in
    [run_start], [run_len]; the start of the first run of [_n_frames] free
    frames, if the scan meets one. *)
Fixpoint scan (fuel : nat) (idx run_start run_len _n_frames : Z) (p : State)
    : option Z :=
  match fuel with
  | O => None
  | S fuel' =>
      if idx <? n_frames p then
        match get_state idx p with
        | Free =>
            let run_start := if run_len =? 0 then idx else run_start in
            let run_len := run_len + 1 in
            if run_len =? _n_frames then Some run_start
            else scan fuel' (idx + 1) run_start run_len _n_frames p
        | _ => scan fuel' (idx + 1) run_start 0 _n_frames p
        end
      else None
  end.

(** [ContFramePool::get_frames]: the frame number returned and the pool
    afterwards; both failure paths end in [assert(false)]. *)
Definition get_frames (_n_frames : Z) (p : State) : option (Z * State) :=
  if (_n_frames >? num_free_frames p) || (_n_frames >? n_frames p) then None
  else
    match scan (Z.to_nat (n_frames p)) 0 0 0 _n_frames p with
    | None => None
    | Some run_start =>
        let q :=
          foldl (fun q idx =>
                   set_state idx (if idx =? run_start then HoS else Used) q)
                p (seqZ run_start _n_frames) in
        Some (u32 (run_start + base_frame_no p),
              with_free (u32 (num_free_frames q - _n_frames)) q)
    end.

(** [ContFramePool::mark_inaccessible]. *)
Definition mark_inaccessible (_base_frame_no _n_frames : Z) (p : State)
    : option State :=
  let end_index := u32 (_base_frame_no + _n_frames) in
  if (end_index >? u32 (base_frame_no p + n_frames p))
     || (_base_frame_no <? base_frame_no p)
  then None
  else
    Some (foldl
            (fun q idx =>
               let rel := u32 (idx - base_frame_no q) in
               match get_state rel q with
               | Free =>
                   with_free (u32 (num_free_frames q - 1))
                     (set_state rel
                        (if idx =? _base_frame_no then HoS else Used) q)
               | _ => q
               end)
            p (seqZ _base_frame_no (end_index - _base_frame_no))).

(** The loop of [release_frames_in_pool]:
    [while (get_state(current_index - base_frame_no) != Free)
       { set_state(current_index, Free); num_free_frames += 1;
         current_index += 1; }].
    The state is read at the index relative to the pool, the write goes to
    [current_index] itself.  Nothing bounds the walk but the bitmap's
    contents: [None] when the fuel runs out first. *)
Fixpoint release_walk (fuel : nat) (current_index : Z) (p : State)
    : option State :=
  match fuel with
  | O => None
  | S fuel' =>
      match get_state (u32 (current_index - base_frame_no p)) p with
      | Free => Some p
      | _ =>
          release_walk fuel' (u32 (current_index + 1))
            (with_free (u32 (num_free_frames p + 1))
               (set_state current_index Free p))
      end
  end.

(** [ContFramePool::release_frames_in_pool]. *)
Definition release_frames_in_pool (fuel : nat) (_first_frame_no : Z)
    (p : State) : option State :=
  let current_index := u32 (_first_frame_no + 1) in
  match get_state (u32 (_first_frame_no - base_frame_no p)) p with
  | HoS =>
      release_walk fuel current_index
        (with_free (u32 (num_free_frames p + 1))
           (set_state _first_frame_no Free p))
  | _ => None
  end.

(** [ContFramePool::release_frames] over the global list of pools, from
    [head] along [next]. *)
Fixpoint release_frames (fuel : nat) (_first_frame_no : Z)
    (pools : list State) : option (list State) :=
  match pools with
  | [] => None
  | current :: rest =>
      if (_first_frame_no >=? base_frame_no current)
         && (_first_frame_no <? u32 (base_frame_no current + n_frames current))
      then
        match release_frames_in_pool fuel _first_frame_no current with
        | None => None
        | Some q => Some (q :: rest)
        end
      else
        match release_frames fuel _first_frame_no rest with
        | None => None
        | Some rest' => Some (current :: rest')
        end
  end.

(** [ContFramePool::needed_info_frames]: two bits of state per frame. *)
Definition needed_info_frames (_n_frames : Z) : Z :=
  let BITS_PER_FRAME := 2 in
  let BITS_PER_INFO_FRAME := 4 * 1024 * 8 in
  let total_bits_needed := u32 (_n_frames * BITS_PER_FRAME) in
  let full_frames := total_bits_needed / BITS_PER_INFO_FRAME in
  let extra_frame :=
    if total_bits_needed mod BITS_PER_INFO_FRAME >? 0 then 1 else 0 in
  u32 (full_frames + extra_frame).

(** The states of the pool's own frames, in order. *)
Definition states (p : State) : list FrameState :=
  map (fun i => get_state i p) (seqZ 0 (n_frames p)).

End FramePool.

(* --------------------------------------------------------------------- *)
(** ** The release of MP3 (Mp3/Submissions/MP3_Sources/cont_frame_pool.C)  *)
(* --------------------------------------------------------------------- *)

Module FramePoolMP3.

(** The pool of MP3 is the two-bit pool above but for its release, which
    walks a fixed number of frames instead of following the states.

    [ContFramePool::release_frames_in_pool]:
    [for (idx = _first_frame_no; idx < _first_frame_no + nframes; idx++)
       { set_state(idx - base_frame_num, Free); num_free_frames += 1; }],
    the bound computed on 32-bit words. *)
Definition release_frames_in_pool (_first_frame_no : Z)
    (p : FramePool.State) : option FramePool.State :=
  match FramePool.get_state
          (u32 (_first_frame_no - FramePool.base_frame_no p)) p with
  | HoS =>
      Some (foldl
              (fun q idx =>
                 FramePool.with_free (u32 (FramePool.num_free_frames q + 1))
                   (FramePool.set_state
                      (u32 (idx - FramePool.base_frame_no q)) Free q))
              p
              (seqZ _first_frame_no
                 (u32 (_first_frame_no + FramePool.n_frames p)
                  - _first_frame_no)))
  | _ => None
  end.

(** [ContFramePool::release_frames] over the global list of pools. *)
Fixpoint release_frames (_first_frame_no : Z) (pools : list FramePool.State)
    : option (list FramePool.State) :=
  match pools with
  | [] => None
  | tmp :: rest =>
      if (_first_frame_no >=? FramePool.base_frame_no tmp)
         && (_first_frame_no
             <? u32 (FramePool.base_frame_no tmp + FramePool.n_frames tmp))
      then
        match release_frames_in_pool _first_frame_no tmp with
        | None => None
        | Some q => Some (q :: rest)
        end
      else
        match release_frames _first_frame_no rest with
        | None => None
        | Some rest' => Some (tmp :: rest')
        end
  end.

End FramePoolMP3.


(* --------------------------------------------------------------------- *)
(** ** The page-fault handlers (page_table.C of MP3 and of MP4)           *)
(* --------------------------------------------------------------------- *)

Module PageTable.

(** [PageTable::PAGE_SIZE], declared in page_table.H. *)
Definition PAGE_SIZE : Z := 4096.

(** The static members of the class and the machine state the handler
    reads: physical memory as 32-bit words by byte address, CR3, and (MP4)
    the list of registered pools from [vm_pool_head] along
    [ptr_next_vm_pool].  Both pools are two-bit frame pools. *)
Record State := mkState {
  kernel_mem_pool : FramePool.State;
  process_mem_pool : FramePool.State;
  shared_size : Z;
  vm_pool_head : list VMPool.State;
  memory : Z -> Z;
  cr3 : Z
}.

Definition load (m : Z -> Z) (a : Z) : Z := m a.

Definition store (m : Z -> Z) (a v : Z) : Z -> Z :=
  fun a' => if a' =? a then v else m a'.

(** [p[i]] for a pointer [p] to 32-bit words. *)
Definition slot (p i : Z) : Z := u32 (p + 4 * i).

(** [for (entry = 0; entry < 1024; ++entry) table[entry] = v]. *)
Definition fill_table (table v : Z) (m : Z -> Z) : Z -> Z :=
  foldl (fun m entry => store m (slot table entry) v) m (seqZ 0 1024).

Definition with_memory (m : Z -> Z) (s : State) : State :=
  {| kernel_mem_pool := kernel_mem_pool s;
     process_mem_pool := process_mem_pool s;
     shared_size := shared_size s; vm_pool_head := vm_pool_head s;
     memory := m; cr3 := cr3 s |}.

Definition with_kernel_pool (p : FramePool.State) (s : State) : State :=
  {| kernel_mem_pool := p;
     process_mem_pool := process_mem_pool s;
     shared_size := shared_size s; vm_pool_head := vm_pool_head s;
     memory := memory s; cr3 := cr3 s |}.

Definition with_process_pool (p : FramePool.State) (s : State) : State :=
  {| kernel_mem_pool := kernel_mem_pool s;
     process_mem_pool := p;
     shared_size := shared_size s; vm_pool_head := vm_pool_head s;
     memory := memory s; cr3 := cr3 s |}.

Definition PRESENT : Z := 1.
Definition WRITE : Z := 2.
Definition USER : Z := 4.
Definition KERNEL_RW : Z := Z.lor PRESENT WRITE.
Definition USER_RW : Z := Z.lor (Z.lor PRESENT WRITE) USER.

(** The two loops of the constructors.  A page table is built before paging
    is switched on, so the constructor's pointers are physical addresses.

    [for (idx = first; idx < bound; idx++)
       page_directory[idx] = (page_directory[idx] | 0b10);] *)
Definition mark_entries (page_directory first bound : Z) (m : Z -> Z)
    : Z -> Z :=
  foldl (fun m idx =>
           store m (slot page_directory idx)
             (Z.lor (load m (slot page_directory idx)) 2))
        m (seqZ first (bound - first)).

(** [for (idx = 0; idx < num_shared_frames; idx++)
       { page_table[idx] = (address | 0b11); address += PAGE_SIZE; }]
    with [address] starting at 0. *)
Definition map_shared (page_table num_shared_frames : Z) (m : Z -> Z)
    : Z -> Z :=
  fst (foldl (fun '(m, address) idx =>
                (store m (slot page_table idx) (Z.lor address 3),
                 u32 (address + PAGE_SIZE)))
             (m, 0) (seqZ 0 num_shared_frames)).

(** [write_cr3]. *)
Definition write_cr3 (v : Z) (s : State) : State :=
  {| kernel_mem_pool := kernel_mem_pool s;
     process_mem_pool := process_mem_pool s;
     shared_size := shared_size s; vm_pool_head := vm_pool_head s;
     memory := memory s; cr3 := v |}.

(** *** MP3: page tables in directly mapped kernel memory

    Every pointer the handler forms holds a physical address below
    [shared_size], where virtual and physical addresses coincide. *)
Module MP3.

Definition page_directory (s : State) : Z := Z.land (cr3 s) 0xFFFFF000.
Definition page_directory_index (fault_address : Z) : Z :=
  Z.land (Z.shiftr fault_address 22) 0x3FF.
Definition page_table_index (fault_address : Z) : Z :=
  Z.land (Z.shiftr fault_address 12) 0x3FF.

(** The first [if] of [handle_fault]: a missing directory entry. *)
Definition install_page_table (from_user_mode : bool) (fault_address : Z)
    (s : State) : option State :=
  let pde := slot (page_directory s) (page_directory_index fault_address) in
  if Z.land (load (memory s) pde) PRESENT =? 0 then
    match FramePool.get_frames 1 (kernel_mem_pool s) with
    | None => None
    | Some (new_page_table_frame, kp) =>
        let new_page_table_phys := u32 (new_page_table_frame * PAGE_SIZE) in
        if u32 (new_page_table_phys + PAGE_SIZE) <=? shared_size s then
          let m := store (memory s) pde
                     (Z.lor new_page_table_phys
                        (if from_user_mode then USER_RW else KERNEL_RW)) in
          let m := fill_table new_page_table_phys 0 m in
          Some (with_memory m (with_kernel_pool kp s))
        else None
    end
  else Some s.

(** The second [if]: a missing page-table entry. *)
Definition install_page (from_user_mode : bool) (fault_address : Z)
    (s : State) : option State :=
  let pde := slot (page_directory s) (page_directory_index fault_address) in
  let page_table := Z.land (load (memory s) pde) 0xFFFFF000 in
  let pte := slot page_table (page_table_index fault_address) in
  if Z.land (load (memory s) pte) PRESENT =? 0 then
    match FramePool.get_frames 1 (process_mem_pool s) with
    | None => None
    | Some (new_page_frame, pp) =>
        let new_page_phys := u32 (new_page_frame * PAGE_SIZE) in
        let pte_flags := if from_user_mode then USER_RW else KERNEL_RW in
        Some (with_memory (store (memory s) pte (Z.lor new_page_phys pte_flags))
                (with_process_pool pp s))
    end
  else Some s.

(** [PageTable::handle_fault]; [err_code] comes from the register frame,
    [fault_address] from CR2.  The closing TLB invalidation leaves the
    modelled state as it is. *)
Definition handle_fault (err_code fault_address : Z) (s : State)
    : option State :=
  let page_not_present := Z.land err_code 1 =? 0 in
  let from_user_mode := negb (Z.land err_code 4 =? 0) in
  if negb page_not_present then None
  else
    match install_page_table from_user_mode fault_address s with
    | None => None
    | Some s1 => install_page from_user_mode fault_address s1
    end.

(** [PageTable::PageTable]: the directory and the first page table both
    come from the kernel pool; the result is the object's [page_directory]
    and the machine afterwards. *)
Definition PageTable (s : State) : option (Z * State) :=
  let num_shared_frames := shared_size s / PAGE_SIZE in
  match FramePool.get_frames 1 (kernel_mem_pool s) with
  | None => None
  | Some (directory_frame, kp) =>
      let page_directory := u32 (directory_frame * PAGE_SIZE) in
      match FramePool.get_frames 1 kp with
      | None => None
      | Some (table_frame, kp) =>
          let page_table := u32 (table_frame * PAGE_SIZE) in
          let m := store (memory s) (slot page_directory 0)
                     (Z.lor page_table 3) in
          let m := mark_entries page_directory 1 num_shared_frames m in
          let m := map_shared page_table num_shared_frames m in
          Some (page_directory, with_memory m (with_kernel_pool kp s))
      end
  end.

(** [PageTable::load] of the object whose directory is [page_directory]. *)
Definition load (page_directory : Z) (s : State) : State :=
  write_cr3 page_directory s.

End MP3.

(** *** MP4: page tables reached through the recursive mapping

    The handler runs with paging on, so a pointer it dereferences is a
    virtual address: the MMU resolves it by the two-level walk from CR3
    ([translate]), and the walk fails on an entry that is not present.  A
    store whose walk fails raises a page fault of its own: the handler
    runs for that address, nested in the one at work, and the store is
    tried again ([store_through]).  The directory pointer read from CR3 is
    read at the physical address it holds: the kernel keeps its directory
    in the shared memory, which the page table maps onto itself. *)
Module MP4.

Definition translate (s : State) (va : Z) : option Z :=
  let pde := load (memory s) (slot (cr3 s) (Z.shiftr va 22)) in
  if Z.land pde 1 =? 0 then None
  else
    let table := Z.land pde 0xFFFFF000 in
    let pte := load (memory s) (slot table (Z.land (Z.shiftr va 12) 0x3FF)) in
    if Z.land pte 1 =? 0 then None
    else Some (u32 (Z.land pte 0xFFFFF000 + Z.land va 0xFFF)).

(** A store through a window pointer outside the handler ([free_page]);
    [None] when the walk fails. *)
Definition store_virtual (va v : Z) (s : State) : option State :=
  match translate s va with
  | None => None
  | Some pa => Some (with_memory (store (memory s) pa v) s)
  end.

(** A store through a pointer inside the handler.  When the walk fails the
    processor raises a page fault for a kernel write to a page that is not
    present (error code 2), [handler] services it, and the store is tried
    again; [tries] bounds the faults one store may raise. *)
Fixpoint store_through (handler : Z -> Z -> State -> option State)
    (tries : nat) (va v : Z) (s : State) {struct tries} : option State :=
  match translate s va with
  | Some pa => Some (with_memory (store (memory s) pa v) s)
  | None =>
      match tries with
      | O => None
      | S tries' =>
          match handler 2 va s with
          | None => None
          | Some s' => store_through handler tries' va v s'
          end
      end
  end.

(** [for (index = 0; index < 1024; index++) new_page_table[index] = v],
    each store through the pointer [new_page_table]. *)
Definition fill_through (handler : Z -> Z -> State -> option State)
    (tries : nat) (new_page_table v : Z) (s : State) : option State :=
  foldl (fun os index =>
           match os with
           | None => None
           | Some s => store_through handler tries (slot new_page_table index) v s
           end)
        (Some s) (seqZ 0 1024).

(** The walk over the registered pools:
    [for (; tmp != nullptr; tmp = tmp->ptr_next_vm_pool)
       if (tmp->is_legitimate(fault_address)) { present_flag = 1; break; }].
    The result is [(tmp != nullptr, present_flag)] on leaving the loop. *)
Fixpoint pool_walk (fault_address : Z) (tmp : list VMPool.State)
    : bool * bool :=
  match tmp with
  | [] => (false, false)
  | pool :: rest =>
      if VMPool.is_legitimate fault_address pool then (true, true)
      else pool_walk fault_address rest
  end.

(** The tail shared by both branches: a frame from the process pool goes
    into the page-table entry, reached through the window. *)
Definition map_page (handler : Z -> Z -> State -> option State)
    (tries : nat) (page_dir_index page_table_index : Z) (s : State)
    : option State :=
  match FramePool.get_frames 1 (process_mem_pool s) with
  | None => None
  | Some (frame, pp) =>
      let new_pde := u32 (frame * PAGE_SIZE) in
      let page_entry :=
        Z.lor (Z.shiftl 0x3FF 22) (Z.shiftl page_dir_index 12) in
      store_through handler tries (slot page_entry page_table_index)
        (Z.lor new_pde 3) (with_process_pool pp s)
  end.

(** [PageTable::handle_fault].  [fuel] bounds how deep the faults raised
    by the handler's own stores may nest; [None] is a halt of the kernel,
    or faults that nest deeper than [fuel]. *)
Fixpoint handle_fault (fuel : nat) (err_code fault_address : Z) (s : State)
    : option State :=
  match fuel with
  | O => None
  | S fuel' =>
      if Z.land err_code 1 =? 0 then
        let page_dir := cr3 s in
        let page_dir_index := Z.shiftr fault_address 22 in
        let page_table_index :=
          Z.shiftr (Z.land fault_address (Z.shiftl 0x03FF 12)) 12 in
        let '(tmp_not_null, present_flag) :=
          pool_walk fault_address (vm_pool_head s) in
        if tmp_not_null && negb present_flag then None
        else if Z.land (load (memory s) (slot page_dir page_dir_index)) 1 =? 0
        then
          match FramePool.get_frames 1 (process_mem_pool s) with
          | None => None
          | Some (frame, pp) =>
              let new_page_table := u32 (frame * PAGE_SIZE) in
              let s := with_process_pool pp s in
              let new_pde := u32 (Z.shiftl 0xFFFFF 12) in
              match store_through (handle_fault fuel') fuel'
                      (slot new_pde page_dir_index)
                      (Z.lor new_page_table 3) s with
              | None => None
              | Some s =>
                  match fill_through (handle_fault fuel') fuel'
                          new_page_table 4 s with
                  | None => None
                  | Some s =>
                      map_page (handle_fault fuel') fuel'
                        page_dir_index page_table_index s
                  end
              end
          end
        else map_page (handle_fault fuel') fuel'
               page_dir_index page_table_index s
      else Some s
  end.

(** [PageTable::PageTable]: the directory comes from the kernel pool and
    points at itself from entry [num_shared_frames - 1]; the first page
    table comes from the process pool. *)
Definition PageTable (s : State) : option (Z * State) :=
  let num_shared_frames := shared_size s / PAGE_SIZE in
  match FramePool.get_frames 1 (kernel_mem_pool s) with
  | None => None
  | Some (directory_frame, kp) =>
      let page_directory := u32 (directory_frame * PAGE_SIZE) in
      let m := store (memory s)
                 (slot page_directory (u32 (num_shared_frames - 1)))
                 (Z.lor page_directory 3) in
      match FramePool.get_frames 1 (process_mem_pool s) with
      | None => None
      | Some (table_frame, pp) =>
          let page_table := u32 (table_frame * PAGE_SIZE) in
          let m := store m (slot page_directory 0) (Z.lor page_table 3) in
          let m := mark_entries page_directory 1
                     (u32 (num_shared_frames - 1)) m in
          let m := map_shared page_table num_shared_frames m in
          Some (page_directory,
                with_memory m (with_process_pool pp (with_kernel_pool kp s)))
      end
  end.

(** [PageTable::load] of the object whose directory is [page_directory]. *)
Definition load (page_directory : Z) (s : State) : State :=
  write_cr3 page_directory s.

Section Release.

(** [ContFramePool::release_frames] as the kernel of MP4 links it, acting on
    the two pools; the frame pool is not among the sources of MP4. *)
Variable release_frames :
  Z -> FramePool.State * FramePool.State
  -> option (FramePool.State * FramePool.State).

(** [PageTable::free_page] of the object whose directory is
    [page_directory].  The entry is read and written through the window;
    [None] when the frame pool halts or the window access faults. *)
Definition free_page (page_directory : Z) (_page_no : Z) (s : State)
    : option State :=
  let page_dir_index := Z.shiftr (Z.land _page_no 0xFFC00000) 22 in
  let page_table_index := Z.shiftr (Z.land _page_no 0x003FF000) 12 in
  let page_table :=
    Z.lor (Z.shiftl 0x000003FF 22) (Z.shiftl page_dir_index 12) in
  match translate s (slot page_table page_table_index) with
  | None => None
  | Some pa =>
      let frame_no :=
        Z.land (PageTable.load (memory s) pa) 0xFFFFF000 / PAGE_SIZE in
      match release_frames frame_no
              (kernel_mem_pool s, process_mem_pool s) with
      | None => None
      | Some (kp, pp) =>
          let s := with_process_pool pp (with_kernel_pool kp s) in
          match store_virtual (slot page_table page_table_index)
                  (Z.lor (PageTable.load (memory s) pa) 2) s with
          | None => None
          | Some s => Some (load page_directory s)
          end
      end
  end.

(** The page loop of [VMPool::release] on the machine:
    [while (page_count > 0) { page_table->free_page(_start_address); ... }]
    over the pages [VMPool.release] lists; the kernel halts with the first
    [free_page] that halts. *)
Fixpoint free_pages (page_directory : Z) (pages : list Z) (s : State)
    : option State :=
  match pages with
  | [] => Some s
  | _page_no :: rest =>
      match free_page page_directory _page_no s with
      | None => None
      | Some s => free_pages page_directory rest s
      end
  end.

(** [VMPool::release] as the kernel runs it, for the page table whose
    directory is [page_directory]: the search, the page loop carried out
    by [free_page], then the shift and the credit. *)
Definition release (page_directory : Z) (_start_address : Z)
    (p : VMPool.State) (s : State) : option (VMPool.State * State) :=
  match VMPool.release _start_address p with
  | None => None
  | Some (p', pages) =>
      match free_pages page_directory pages s with
      | None => None
      | Some s' => Some (p', s')
      end
  end.

End Release.

End MP4.

(** The entry of the page directory at CR3 for an address, and the entry
    [i] of the page table that lives in frame [f]. *)
Definition pde_of (s : State) (fault_address : Z) : Z :=
  load (memory s)
    (slot (Z.land (cr3 s) 0xFFFFF000) (Z.shiftr fault_address 22)).

Definition table_entry (s : State) (f i : Z) : Z :=
  load (memory s) (slot (u32 (f * PAGE_SIZE)) i).

Definition pte_of (s : State) (fault_address : Z) : Z :=
  load (memory s)
    (slot (Z.land (pde_of s fault_address) 0xFFFFF000)
       (Z.land (Z.shiftr fault_address 12) 0x3FF)).

(** An address is mapped when both entries on its walk are present. *)
Definition mapped (s : State) (fault_address : Z) : Prop :=
  Z.land (pde_of s fault_address) 1 = 1 /\
  Z.land (pte_of s fault_address) 1 = 1.

(** The flags the spec gives a new entry. *)
Definition entry_flags (err_code : Z) : Z :=
  if Z.land err_code 4 =? 0 then KERNEL_RW else USER_RW.

End PageTable.


(* --------------------------------------------------------------------- *)
(** ** The disk as block storage (simple_disk.C)                         *)
(* --------------------------------------------------------------------- *)

Module SimpleDisk.

Definition BLOCK_SIZE : Z := 512.

(** The contents of the device: 512 bytes for every block address. *)
Definition Disk := Z -> list Z.

(** [ide_ata_issue_command] sends 28 bits of the block number. *)
Definition lba28 (_block_no : Z) : Z := Z.land _block_no 0x0FFFFFFF.

(** [read]: the 512 bytes of the block, as they land in [_buf]. *)
Definition read (_block_no : Z) (d : Disk) : list Z := d (lba28 _block_no).

(** [write]: the first 512 bytes of [_buf] replace the block. *)
Definition write (_block_no : Z) (_buf : list Z) (d : Disk) : Disk :=
  fun b => if b =? lba28 _block_no then take 512 _buf else d b.

End SimpleDisk.

(* --------------------------------------------------------------------- *)
(** ** The file system and the sequential file (file_system.C, file.C)    *)
(* --------------------------------------------------------------------- *)

Module FileSys.

Record Inode := mkInode {
  id : Z;
  block_numbers_block : Z;
  num_blocks : Z;
  file_length : Z
}.

(** [inodes] holds the [MAX_INODES] records of the table, [free_blocks] one
    byte per block of the disk. *)
Record FileSystem := mkFS {
  disk : SimpleDisk.Disk;
  size : Z;
  inodes : list Inode;
  free_blocks : list Z
}.

(** A file handle; [inode] is the index of the record it points at in
    [inodes] of the file system, [None] for the null pointer.  The file
    system itself is shared with the handle and threaded next to it. *)
Record File := mkFile {
  inode : option nat;
  current_position : Z;
  cached_block_idx : Z;
  block_cache : list Z
}.

(** [(unsigned int)-1], the mark for "no block cached". *)
Definition NO_BLOCK : Z := 2 ^ 32 - 1.

(** An array of 32-bit words seen as bytes, and back (little endian). *)
Definition word_bytes (w : Z) : list Z :=
  [w mod 256; (w / 256) mod 256; (w / 65536) mod 256; (w / 16777216) mod 256].

Definition words_to_bytes (ws : list Z) : list Z :=
  concat (map word_bytes ws).

Fixpoint bytes_to_words (n : nat) (bs : list Z) : list Z :=
  match n with
  | O => []
  | S n' =>
      (default 0 (bs !! 0%nat) + 256 * default 0 (bs !! 1%nat)
       + 65536 * default 0 (bs !! 2%nat) + 16777216 * default 0 (bs !! 3%nat))
      :: bytes_to_words n' (drop 4 bs)
  end.

(** [a[i]] and [a[i] = v] on an array of words or bytes; an index past the
    modelled array reads 0 and its write is dropped. *)
Definition at_ (a : list Z) (i : Z) : Z :=
  if i <? 0 then 0 else default 0 (a !! Z.to_nat i).

Definition set_ (a : list Z) (i v : Z) : list Z :=
  if i <? 0 then a else <[Z.to_nat i := v]> a.

(** [for (i = 0; i < count; i++) dst[doff + i] = src[soff + i]]. *)
Definition copy_bytes (dst : list Z) (doff : Z) (src : list Z) (soff : Z)
    (count : Z) : list Z :=
  foldl (fun d i => set_ d (doff + i) (at_ src (soff + i))) dst (seqZ 0 count).

Definition zero_block : list Z := replicate 512 0.

Section Layout.

(** [Inode::MAX_BLOCKS] and the byte image of the inode table are declared
    in file_system.H, which is not among the sources. *)
Variable MAX_BLOCKS : Z.
Variable inode_image : list Inode -> list Z.

(** [FileSystem::LookupFile]: the index of the first record with the id. *)
Definition LookupFile (_file_id : Z) (fs : FileSystem) : option nat :=
  fst <$> list_find (fun ino => id ino = _file_id) (inodes fs).

(** [FileSystem::GetFreeInode]. *)
Definition GetFreeInode (fs : FileSystem) : option nat :=
  fst <$> list_find (fun ino => id ino = 0) (inodes fs).

(** [FileSystem::GetFreeBlock]:
    [for (i = 2; i < num_blocks; i++) if (free_blocks[i] == 0) return i;]
    and -1 after the loop. *)
Fixpoint free_block_from (fuel : nat) (i nb : Z) (fb : list Z) : Z :=
  match fuel with
  | O => -1
  | S fuel' =>
      if i <? nb then
        if at_ fb i =? 0 then i else free_block_from fuel' (i + 1) nb fb
      else -1
  end.

Definition GetFreeBlock (fs : FileSystem) : Z :=
  let nb := size fs / SimpleDisk.BLOCK_SIZE in
  free_block_from (Z.to_nat (nb - 2)) 2 nb (free_blocks fs).

Definition with_disk (d : SimpleDisk.Disk) (fs : FileSystem) : FileSystem :=
  {| disk := d; size := size fs; inodes := inodes fs;
     free_blocks := free_blocks fs |}.

(** [FileSystem::SaveInodes] and [FileSystem::SaveFreeList]. *)
Definition SaveInodes (fs : FileSystem) : FileSystem :=
  with_disk (SimpleDisk.write 0 (inode_image (inodes fs)) (disk fs)) fs.

Definition SaveFreeList (fs : FileSystem) : FileSystem :=
  with_disk (SimpleDisk.write 1 (free_blocks fs ++ zero_block) (disk fs)) fs.

(** [FileSystem::CreateFile]. *)
Definition CreateFile (_file_id : Z) (fs : FileSystem) : bool * FileSystem :=
  match LookupFile _file_id fs with
  | Some _ => (false, fs)
  | None =>
      match GetFreeInode fs with
      | None => (false, fs)
      | Some inode_idx =>
          let block_nums_block := GetFreeBlock fs in
          if block_nums_block =? -1 then (false, fs)
          else
            let block_nums := replicate 128 0 in
            let d := SimpleDisk.write block_nums_block
                       (words_to_bytes block_nums) (disk fs) in
            let fs := {| disk := d; size := size fs;
                         inodes :=
                           <[inode_idx :=
                               {| id := _file_id;
                                  block_numbers_block := block_nums_block;
                                  num_blocks := 0; file_length := 0 |}]>
                             (inodes fs);
                         free_blocks :=
                           set_ (free_blocks fs) block_nums_block 1 |} in
            (true, SaveFreeList (SaveInodes fs))
      end
  end.

(** The constructor [File::File]. *)
Definition open (_id : Z) (fs : FileSystem) : File :=
  {| inode := LookupFile _id fs;
     current_position := 0;
     cached_block_idx := NO_BLOCK;
     block_cache := zero_block |}.

(** The record a handle points at. *)
Definition inode_at (k : nat) (fs : FileSystem) : Inode :=
  default {| id := 0; block_numbers_block := 0;
             num_blocks := 0; file_length := 0 |} (inodes fs !! k).

Definition with_inode (k : nat) (ino : Inode) (fs : FileSystem)
    : FileSystem :=
  {| disk := disk fs; size := size fs;
     inodes := <[k := ino]> (inodes fs);
     free_blocks := free_blocks fs |}.

(** The state the loops of [Read] and [Write] carry. *)
Record Loop := mkLoop {
  l_fs : FileSystem;
  l_file : File;
  l_block_nums : list Z;
  l_buf : list Z;
  l_count : Z
}.

(** "Load the block if not already cached", common to both loops. *)
Definition load_block (block_idx : Z) (block_nums : list Z)
    (fs : FileSystem) (f : File) : File :=
  if negb (block_idx =? cached_block_idx f) then
    {| inode := inode f; current_position := current_position f;
       cached_block_idx := block_idx;
       block_cache :=
         if negb (at_ block_nums block_idx =? 0)
         then SimpleDisk.read (at_ block_nums block_idx) (disk fs)
         else zero_block |}
  else f.

Definition with_cache (c : list Z) (f : File) : File :=
  {| inode := inode f; current_position := current_position f;
     cached_block_idx := cached_block_idx f; block_cache := c |}.

Definition with_position (pos : Z) (f : File) : File :=
  {| inode := inode f; current_position := pos;
     cached_block_idx := cached_block_idx f; block_cache := block_cache f |}.

(** "Allocate new block if needed" of [Write]: [None] is the [break]. *)
Definition allocate_block (k : nat) (block_idx : Z) (st : Loop)
    : option Loop :=
  let fs := l_fs st in
  let ino := inode_at k fs in
  if block_idx >=? num_blocks ino then
    if num_blocks ino >=? MAX_BLOCKS then None
    else
      let new_block := GetFreeBlock fs in
      if new_block =? -1 then None
      else
        let block_nums := set_ (l_block_nums st) (num_blocks ino) new_block in
        let fs := {| disk := disk fs; size := size fs; inodes := inodes fs;
                     free_blocks := set_ (free_blocks fs) new_block 1 |} in
        let fs := with_inode k
                    {| id := id ino;
                       block_numbers_block := block_numbers_block ino;
                       num_blocks := u32 (num_blocks ino + 1);
                       file_length := file_length ino |} fs in
        let f := with_cache zero_block (l_file st) in
        let fs := with_disk (SimpleDisk.write new_block (block_cache f)
                               (disk fs)) fs in
        let fs := with_disk (SimpleDisk.write (block_numbers_block ino)
                               (words_to_bytes block_nums) (disk fs)) fs in
        let fs := SaveFreeList fs in
        Some {| l_fs := fs; l_file := f; l_block_nums := block_nums;
                l_buf := l_buf st; l_count := l_count st |}
  else Some st.

(** The loop of [File::Write], [while (bytes_written < to_write)], with
    [l_count] for [bytes_written] and [l_buf] for the caller's [_buf].
    Every turn copies at least one byte, so [to_write] turns of fuel are
    never used up before the loop's own test fails. *)
Fixpoint write_loop (fuel : nat) (k : nat) (to_write : Z) (st : Loop)
    : Loop :=
  match fuel with
  | O => st
  | S fuel' =>
      let bytes_written := l_count st in
      if bytes_written <? to_write then
        let pos := u32 (current_position (l_file st) + bytes_written) in
        let block_idx := pos / SimpleDisk.BLOCK_SIZE in
        let offset_in_block := pos mod SimpleDisk.BLOCK_SIZE in
        match allocate_block k block_idx st with
        | None => st
        | Some st =>
            let f := load_block block_idx (l_block_nums st)
                       (l_fs st) (l_file st) in
            let remaining_in_block :=
              SimpleDisk.BLOCK_SIZE - offset_in_block in
            let remaining_to_write := to_write - bytes_written in
            let copy_count :=
              if remaining_in_block <? remaining_to_write
              then remaining_in_block else remaining_to_write in
            let f := with_cache
                       (copy_bytes (block_cache f) offset_in_block
                          (l_buf st) bytes_written copy_count) f in
            let fs := with_disk
                        (SimpleDisk.write (at_ (l_block_nums st) block_idx)
                           (block_cache f) (disk (l_fs st))) (l_fs st) in
            write_loop fuel' k to_write
              {| l_fs := fs; l_file := f;
                 l_block_nums := l_block_nums st; l_buf := l_buf st;
                 l_count := u32 (bytes_written + copy_count) |}
        end
      else st
  end.

(** [File::Write]: the count returned, the file system and the handle. *)
Definition Write (_n : Z) (_buf : list Z) (fs : FileSystem) (f : File)
    : Z * FileSystem * File :=
  match inode f with
  | None => (0, fs, f)
  | Some k =>
      if block_numbers_block (inode_at k fs) =? 0 then (0, fs, f)
      else
        let max_file_size := u32 (MAX_BLOCKS * SimpleDisk.BLOCK_SIZE) in
        let max_write := u32 (max_file_size - current_position f) in
        let to_write := if _n <? max_write then _n else max_write in
        let block_nums :=
          bytes_to_words 128
            (SimpleDisk.read (block_numbers_block (inode_at k fs)) (disk fs)) in
        let st := write_loop (Z.to_nat to_write) k to_write
                    {| l_fs := fs; l_file := f; l_block_nums := block_nums;
                       l_buf := _buf; l_count := 0 |} in
        let bytes_written := l_count st in
        let pos := u32 (current_position (l_file st) + bytes_written) in
        let ino := inode_at k (l_fs st) in
        let fs := if pos >? file_length ino
                  then with_inode k
                         {| id := id ino;
                            block_numbers_block := block_numbers_block ino;
                            num_blocks := num_blocks ino;
                            file_length := pos |} (l_fs st)
                  else l_fs st in
        (bytes_written, fs, with_position pos (l_file st))
  end.

(** The loop of [File::Read], [while (bytes_read < to_read)], with
    [l_count] for [bytes_read] and [l_buf] for the caller's [_buf]. *)
Fixpoint read_loop (fuel : nat) (k : nat) (to_read : Z) (st : Loop) : Loop :=
  match fuel with
  | O => st
  | S fuel' =>
      let bytes_read := l_count st in
      if bytes_read <? to_read then
        let pos := u32 (current_position (l_file st) + bytes_read) in
        let block_idx := pos / SimpleDisk.BLOCK_SIZE in
        let offset_in_block := pos mod SimpleDisk.BLOCK_SIZE in
        if (block_idx >=? num_blocks (inode_at k (l_fs st)))
           || (at_ (l_block_nums st) block_idx =? 0)
        then st
        else
          let f := load_block block_idx (l_block_nums st)
                     (l_fs st) (l_file st) in
          let remaining_in_block := SimpleDisk.BLOCK_SIZE - offset_in_block in
          let remaining_to_read := to_read - bytes_read in
          let copy_count :=
            if remaining_in_block <? remaining_to_read
            then remaining_in_block else remaining_to_read in
          read_loop fuel' k to_read
            {| l_fs := l_fs st; l_file := f;
               l_block_nums := l_block_nums st;
               l_buf := copy_bytes (l_buf st) bytes_read
                          (block_cache f) offset_in_block copy_count;
               l_count := u32 (bytes_read + copy_count) |}
      else st
  end.

(** [File::Read]: the count returned, the caller's buffer afterwards and
    the handle. *)
Definition Read (_n : Z) (_buf : list Z) (fs : FileSystem) (f : File)
    : Z * list Z * File :=
  match inode f with
  | None => (0, _buf, f)
  | Some k =>
      if block_numbers_block (inode_at k fs) =? 0 then (0, _buf, f)
      else
        let available :=
          u32 (file_length (inode_at k fs) - current_position f) in
        let to_read := if _n <? available then _n else available in
        let block_nums :=
          bytes_to_words 128
            (SimpleDisk.read (block_numbers_block (inode_at k fs)) (disk fs)) in
        let st := read_loop (Z.to_nat to_read) k to_read
                    {| l_fs := fs; l_file := f; l_block_nums := block_nums;
                       l_buf := _buf; l_count := 0 |} in
        let bytes_read := l_count st in
        (bytes_read, l_buf st,
         with_position (u32 (current_position (l_file st) + bytes_read))
           (l_file st))
  end.

(** [File::Reset]. *)
Definition Reset (f : File) : File :=
  {| inode := inode f; current_position := 0;
     cached_block_idx := NO_BLOCK; block_cache := block_cache f |}.

(** [File::EoF]. *)
Definition EoF (fs : FileSystem) (f : File) : bool :=
  match inode f with
  | None => true
  | Some k => current_position f >=? file_length (inode_at k fs)
  end.

(** The loop of [DeleteFile]:
    [for (i = 0; i < inode->num_blocks; i++)
       if (block_nums[i] != 0) free_blocks[block_nums[i]] = 0;] *)
Definition free_data_blocks (num_blocks : Z) (block_nums fb : list Z)
    : list Z :=
  foldl (fun fb i =>
           if negb (at_ block_nums i =? 0)
           then set_ fb (at_ block_nums i) 0 else fb)
        fb (seqZ 0 num_blocks).

(** [FileSystem::DeleteFile]. *)
Definition DeleteFile (_file_id : Z) (fs : FileSystem) : bool * FileSystem :=
  match LookupFile _file_id fs with
  | None => (false, fs)
  | Some k =>
      let ino := inode_at k fs in
      let fb :=
        if negb (block_numbers_block ino =? 0) then
          let block_nums :=
            bytes_to_words 128
              (SimpleDisk.read (block_numbers_block ino) (disk fs)) in
          set_ (free_data_blocks (num_blocks ino) block_nums (free_blocks fs))
            (block_numbers_block ino) 0
        else free_blocks fs in
      let fs := {| disk := disk fs; size := size fs;
                   inodes :=
                     <[k := {| id := 0; block_numbers_block := 0;
                               num_blocks := 0; file_length := 0 |}]>
                       (inodes fs);
                   free_blocks := fb |} in
      (true, SaveFreeList (SaveInodes fs))
  end.

(** The number of blocks [GetFreeBlock] can still hand out. *)
Definition free_count (fs : FileSystem) : nat :=
  length (filter (fun b => at_ (free_blocks fs) b = 0)
            (seqZ 2 (size fs / SimpleDisk.BLOCK_SIZE - 2))).

End Layout.

End FileSys.



(* --------------------------------------------------------------------- *)
(** ** The vocabulary of the statements                                   *)
(* --------------------------------------------------------------------- *)

(** Rounding up, stated apart from any of the sources' formulas. *)
Definition ceil_div (a b : Z) : Z := - ((- a) / b).

(** What the spec says of [yield], for a scheduler seen through its ready
    queue and the running thread: the head of the queue is taken off and
    becomes the running thread, nothing is put on the queue, and on an empty
    queue the running thread stays. *)
Definition yield_as_specified {S : Type} (queue : S -> list Thread)
    (running : S -> option Thread) (yield : S -> S) (s : S) : Prop :=
  match queue s with
  | [] => queue (yield s) = [] /\ running (yield s) = running s
  | head :: rest => queue (yield s) = rest /\ running (yield s) = Some head
  end.

(** What the spec says of [terminate]: the thread is gone from the queue
    and the others stand as they stood. *)
Definition others_in_order (t : Thread) (before after : list Thread) : Prop :=
  after = filter (fun x => x <> t) before.

(** A request rounded up to whole pages. *)
Definition round_to_pages (n_bytes : Z) : Z :=
  VMPool.PAGE_SIZE * ceil_div n_bytes VMPool.PAGE_SIZE.

(** The accounting equation of the spec for a pool. *)
Definition vm_accounting (p : VMPool.State) : Prop :=
  VMPool.available_memory p + VMPool.total_length p = VMPool.size p.

(** Memory that holds no record yet. *)
Definition blank_regions : Z -> VMPool.allocated_region_info :=
  fun _ => VMPool.mkRegion 0 0.

(** A pool of MP2 with another bitmap. *)
Definition with_bitmap (bm : list FrameState) (p : FramePoolMP2.State)
    : FramePoolMP2.State :=
  {| FramePoolMP2.base_frame_no := FramePoolMP2.base_frame_no p;
     FramePoolMP2.nframes := FramePoolMP2.nframes p;
     FramePoolMP2.info_frame_no := FramePoolMP2.info_frame_no p;
     FramePoolMP2.bitmap := bm |}.

(** The data-model invariant of a pool, on the one-byte bitmap: the frames
    lie inside the 32-bit frame numbers, every frame has its state, and a
    Used frame never follows a Free one. *)
Definition pool_well_formed (p : FramePoolMP2.State) : Prop :=
  0 <= FramePoolMP2.base_frame_no p /\
  0 <= FramePoolMP2.nframes p /\
  FramePoolMP2.base_frame_no p + FramePoolMP2.nframes p < 2 ^ 32 /\
  length (FramePoolMP2.bitmap p) = Z.to_nat (FramePoolMP2.nframes p) /\
  (forall i : nat,
      FramePoolMP2.bitmap p !! i = Some Free ->
      FramePoolMP2.bitmap p !! S i <> Some Used).

(** What the spec says of a fault on an address whose directory entry is
    missing, as a relation between the state before and the state after:
    one frame [f] has left the kernel pool and holds the new page table,
    one frame [g] has left the process pool and holds the page; the
    directory entry points at [f], the table's entry for the address
    points at [g], both with Present, RW and the User bit of the fault, and
    every other entry of the table is 0. *)
Definition fault_serviced_as_specified (err_code fault_address : Z)
    (s s' : PageTable.State) : Prop :=
  exists f kp g pp,
    FramePool.get_frames 1 (PageTable.kernel_mem_pool s) = Some (f, kp) /\
    FramePool.get_frames 1 (PageTable.process_mem_pool s) = Some (g, pp) /\
    PageTable.kernel_mem_pool s' = kp /\
    PageTable.process_mem_pool s' = pp /\
    PageTable.pde_of s' fault_address
      = Z.lor (u32 (f * PageTable.PAGE_SIZE))
          (PageTable.entry_flags err_code) /\
    forall i, 0 <= i < 1024 ->
      PageTable.table_entry s' f i
      = if i =? Z.land (Z.shiftr fault_address 12) 0x3FF
        then Z.lor (u32 (g * PageTable.PAGE_SIZE))
               (PageTable.entry_flags err_code)
        else 0.

(** The same fault as the handler of MP4 services it, by its design: the
    frame [f] of the new page table is the first to leave the process pool
    and the frame [g] of the page has left it too; the process pool is left
    as [pp] and the kernel pool as it was; the directory entry points at
    [f] and the table's entry for the address points at [g], both with
    Present and RW only. *)
Definition fault_serviced_from_process_pool (fault_address f g : Z)
    (pp : FramePool.State) (s s' : PageTable.State) : Prop :=
  (exists pp1,
     FramePool.get_frames 1 (PageTable.process_mem_pool s) = Some (f, pp1)) /\
  PageTable.kernel_mem_pool s' = PageTable.kernel_mem_pool s /\
  PageTable.process_mem_pool s' = pp /\
  PageTable.pde_of s' fault_address
    = Z.lor (u32 (f * PageTable.PAGE_SIZE)) 3 /\
  PageTable.pte_of s' fault_address
    = Z.lor (u32 (g * PageTable.PAGE_SIZE)) 3.

(** The last directory entry maps the directory onto itself. *)
Definition recursive_mapping (s : PageTable.State) : Prop :=
  0 <= PageTable.cr3 s < 2 ^ 32 /\
  PageTable.cr3 s mod 4096 = 0 /\
  PageTable.load (PageTable.memory s) (PageTable.slot (PageTable.cr3 s) 1023)
  = Z.lor (PageTable.cr3 s) 3.

(** The address [T] of a new page table, seen as the pointer the handler
    of MP4 makes of it, once the directory entry of [fault_address] points
    at [T]: the directory entry of [T] is present and leads to the table at
    [T2] (which is [T] itself when [T] lies in the faulting 4 MiB region),
    and the entry of [T] in that table is not present. *)
Definition unmapped_under (s : PageTable.State) (fault_address T T2 : Z)
    : Prop :=
  exists fl,
    PageTable.store (PageTable.memory s)
      (PageTable.slot (PageTable.cr3 s) (Z.shiftr fault_address 22))
      (Z.lor T 3)
      (PageTable.slot (PageTable.cr3 s) (Z.shiftr T 22))
    = Z.lor T2 fl /\
    0 <= T2 < 2 ^ 32 /\ T2 mod 4096 = 0 /\
    0 <= fl < 4096 /\ fl mod 2 = 1 /\
    Z.land (PageTable.memory s
              (PageTable.slot T2 (Z.land (Z.shiftr T 12) 0x3FF))) 1 = 0.

(** A pool that hosts its own bitmap in a zeroed frame, as the kernel sets
    its pools up at boot. *)
Definition boot_pool (base n : Z) : FramePool.State :=
  match FramePool.ContFramePool base n 0 (replicate 4096 0) with
  | Some p => p
  | None => FramePool.mkState base n 0 0 []
  end.

(** The pool after one more [get_frames(1)]. *)
Definition take_frame (p : FramePool.State) : FramePool.State :=
  match FramePool.get_frames 1 p with
  | Some (_, q) => q
  | None => p
  end.

(** Physical memory as a page-table constructor leaves it: a directory at
    [pd] whose entry 0 points at the table at [pt], whose other entries
    carry RW only and whose last entry, when [recursive], points at the
    directory itself; the table maps the first 4 MiB onto themselves. *)
Definition boot_memory (pd pt : Z) (recursive : bool) : Z -> Z :=
  fun a =>
    if (pd <=? a) && (a <? pd + 4096) then
      let i := (a - pd) / 4 in
      if i =? 0 then Z.lor pt 3
      else if recursive && (i =? 1023) then Z.lor pd 3
      else 2
    else if (pt <=? a) && (a <? pt + 4096) then
      Z.lor ((a - pt) / 4 * 4096) 3
    else 0.

(** The machine after [PageTable::PageTable] of MP3: kernel pool at frame
    512, process pool at frame 1024, directory and first table in the
    kernel pool's frames 513 and 514. *)
Definition mp3_boot : PageTable.State :=
  {| PageTable.kernel_mem_pool := take_frame (take_frame (boot_pool 512 512));
     PageTable.process_mem_pool := boot_pool 1024 1024;
     PageTable.shared_size := 0x400000;
     PageTable.vm_pool_head := [];
     PageTable.memory := boot_memory (513 * 4096) (514 * 4096) false;
     PageTable.cr3 := 513 * 4096 |}.

(** The machine after [PageTable::PageTable] of MP4: the directory in the
    kernel pool's frame 513, the first table in the process pool's frame
    1025, the last directory entry pointing at the directory. *)
Definition mp4_boot : PageTable.State :=
  {| PageTable.kernel_mem_pool := take_frame (boot_pool 512 512);
     PageTable.process_mem_pool := take_frame (boot_pool 1024 1024);
     PageTable.shared_size := 0x400000;
     PageTable.vm_pool_head := [];
     PageTable.memory := boot_memory (513 * 4096) (1025 * 4096) true;
     PageTable.cr3 := 513 * 4096 |}.

(** The number of data blocks a file of [len] bytes occupies. *)
Definition blocks_needed (len : Z) : Z := ceil_div len SimpleDisk.BLOCK_SIZE.

(** Block [b] of the disk holds piece [j] of the byte sequence [S]. *)
Definition chunk_on_disk (S : list Z) (d : SimpleDisk.Disk) (b j : Z) : Prop :=
  length (SimpleDisk.read b d) = 512%nat /\
  forall p : nat,
    (p < 512)%nat -> 512 * j + Z.of_nat p < Z.of_nat (length S) ->
    SimpleDisk.read b d !! p = S !! (Z.to_nat (512 * j) + p)%nat.

(** What holds of the loop of [Write] after [j] turns, for a file at inode
    [k] with id [fid] and indirect block [ib] that is being filled with
    [S] from position 0. *)
Record write_inv (S : list Z) (k : nat) (fid ib j : Z)
    (st : FileSys.Loop) : Prop := {
  wi_buf : FileSys.l_buf st = S;
  wi_count :
    FileSys.l_count st = Z.min (512 * j) (Z.of_nat (length S));
  wi_handle : FileSys.inode (FileSys.l_file st) = Some k;
  wi_pos : FileSys.current_position (FileSys.l_file st) = 0;
  wi_cache_len : length (FileSys.block_cache (FileSys.l_file st)) = 512%nat;
  wi_cached :
    FileSys.cached_block_idx (FileSys.l_file st) = FileSys.NO_BLOCK \/
    0 <= FileSys.cached_block_idx (FileSys.l_file st) < j;
  wi_inode :
    FileSys.inodes (FileSys.l_fs st) !! k
    = Some (FileSys.mkInode fid ib j 0);
  wi_size : 0 <= FileSys.size (FileSys.l_fs st) < 2 ^ 32;
  wi_fb_len :
    length (FileSys.free_blocks (FileSys.l_fs st))
    = Z.to_nat (FileSys.size (FileSys.l_fs st) / 512);
  wi_ib :
    2 <= ib < FileSys.size (FileSys.l_fs st) / 512 /\
    FileSys.at_ (FileSys.free_blocks (FileSys.l_fs st)) ib <> 0;
  wi_bn_len : length (FileSys.l_block_nums st) = 128%nat;
  wi_bn_range :
    Forall (fun w => 0 <= w < 2 ^ 32) (FileSys.l_block_nums st);
  wi_blocks :
    forall i, 0 <= i < j ->
      let b := FileSys.at_ (FileSys.l_block_nums st) i in
      2 <= b < FileSys.size (FileSys.l_fs st) / 512 /\
      b <> ib /\
      FileSys.at_ (FileSys.free_blocks (FileSys.l_fs st)) b <> 0 /\
      chunk_on_disk S (FileSys.disk (FileSys.l_fs st)) b i;
  wi_indirect :
    SimpleDisk.read ib (FileSys.disk (FileSys.l_fs st))
    = FileSys.words_to_bytes (FileSys.l_block_nums st);
  wi_free :
    blocks_needed (Z.of_nat (length S)) - j
    <= Z.of_nat (FileSys.free_count (FileSys.l_fs st))
}.

(** What holds of the loop of [Read] after [j] turns, reading the file
    system [fs] with the block numbers [bn] into the caller's buffer. *)
Record read_inv (S : list Z) (fs : FileSys.FileSystem) (bn : list Z)
    (buf_len : nat) (j : Z) (st : FileSys.Loop) : Prop := {
  ri_fs : FileSys.l_fs st = fs;
  ri_bn : FileSys.l_block_nums st = bn;
  ri_count :
    FileSys.l_count st = Z.min (512 * j) (Z.of_nat (length S));
  ri_pos : FileSys.current_position (FileSys.l_file st) = 0;
  ri_cached :
    FileSys.cached_block_idx (FileSys.l_file st) = FileSys.NO_BLOCK \/
    0 <= FileSys.cached_block_idx (FileSys.l_file st) < j;
  ri_buf_len : length (FileSys.l_buf st) = buf_len;
  ri_buf :
    forall q : nat,
      Z.of_nat q < FileSys.l_count st ->
      FileSys.l_buf st !! q = S !! q
}.

(** What [Write] leaves behind for a file that holds [S]: the inode with
    its block count and length, the indirect block with the block numbers
    [bn], and each data block with its piece of [S]. *)
Definition file_holds (S : list Z) (k : nat) (fid ib : Z) (bn : list Z)
    (fs : FileSys.FileSystem) : Prop :=
  FileSys.inodes fs !! k
  = Some (FileSys.mkInode fid ib (blocks_needed (Z.of_nat (length S)))
            (Z.of_nat (length S))) /\
  2 <= ib /\
  SimpleDisk.read ib (FileSys.disk fs) = FileSys.words_to_bytes bn /\
  length bn = 128%nat /\
  Forall (fun w => 0 <= w < 2 ^ 32) bn /\
  forall i, 0 <= i < blocks_needed (Z.of_nat (length S)) ->
    FileSys.at_ bn i <> 0 /\
    chunk_on_disk S (FileSys.disk fs) (FileSys.at_ bn i) i.

(** The round trip of the sequential file, as the specification words it:
    [Create; Write(S); Reset; Read(L)] through a fresh handle, with [buf]
    the caller's buffer of the read; it holds when the read reports [L]
    bytes and leaves [S] in the buffer. *)
Definition round_trip (MAX_BLOCKS : Z)
    (inode_image : list FileSys.Inode -> list Z)
    (S : list Z) (fid : Z) (fs : FileSys.FileSystem) (buf : list Z) : Prop :=
  let L := Z.of_nat (length S) in
  let fs1 := snd (FileSys.CreateFile inode_image fid fs) in
  let '(_, fs2, f1) := FileSys.Write MAX_BLOCKS L S fs1 (FileSys.open fid fs1) in
  let '(n, out, _) := FileSys.Read L buf fs2 (FileSys.Reset f1) in
  n = L /\ out = S.

(** The file system in memory after [FileSystem::Format] and
    [FileSystem::Mount] of a blank disk of [_size] bytes: every inode
    unused, blocks 0 and 1 taken, the others free. *)
Definition formatted (n_inodes : nat) (_size : Z) : FileSys.FileSystem :=
  {| FileSys.disk := fun _ => FileSys.zero_block;
     FileSys.size := _size;
     FileSys.inodes := replicate n_inodes (FileSys.mkInode 0 0 0 0);
     FileSys.free_blocks :=
       map (fun i => if i <? 2 then 1 else 0)
         (seqZ 0 (_size / SimpleDisk.BLOCK_SIZE)) |}.

(* --------------------------------------------------------------------- *)
(** ** The vocabulary of the further properties                           *)
(* --------------------------------------------------------------------- *)

(** The scheduler's counter agrees with its queue. *)
Definition mp6_counted (s : SchedMP6.State) : Prop :=
  SchedMP6.queue_size s = Z.of_nat (length (SchedMP6.ready_queue s)).

Definition mp5_counted (s : SchedMP5.State) : Prop :=
  SchedMP5.qsize s = Z.of_nat (length (SchedMP5.ready_queue s)).

(** The threads of an MP6 scheduler in the order they will run: the running
    thread, then the ready queue. *)
Definition turn_order (s : SchedMP6.State) : list Thread :=
  match SchedMP6.current_thread s with
  | Some t => t :: SchedMP6.ready_queue s
  | None => SchedMP6.ready_queue s
  end.

(** Requests served by a pool one after the other; [None] when one of them
    halts. *)
Fixpoint allocate_all (sizes : list Z) (p : VMPool.State)
    : option VMPool.State :=
  match sizes with
  | [] => Some p
  | n :: rest =>
      match VMPool.allocate n p with
      | Some (_, p') => allocate_all rest p'
      | None => None
      end
  end.

(** Records that lie end to end from [start], in table order. *)
Fixpoint laid_out (start : Z) (rs : list VMPool.allocated_region_info)
    : Prop :=
  match rs with
  | [] => True
  | r :: rest =>
      VMPool.region_base_address r = start /\
      0 <= VMPool.region_length r /\
      laid_out (start + VMPool.region_length r) rest
  end.

(** The bytes recorded by a list of records. *)
Definition recorded (rs : list VMPool.allocated_region_info) : Z :=
  foldr (fun r acc => VMPool.region_length r + acc) 0 rs.

(** The machine with [pools] registered in place of its own list. *)
Definition with_vm_pools (pools : list VMPool.State) (s : PageTable.State)
    : PageTable.State :=
  {| PageTable.kernel_mem_pool := PageTable.kernel_mem_pool s;
     PageTable.process_mem_pool := PageTable.process_mem_pool s;
     PageTable.shared_size := PageTable.shared_size s;
     PageTable.vm_pool_head := pools;
     PageTable.memory := PageTable.memory s;
     PageTable.cr3 := PageTable.cr3 s |}.

(** The machine before a page table is built: the kernel pool at frame
    512, the process pool at frame 1024, 4 MiB of shared memory, physical
    memory zeroed, no pool registered. *)
Definition before_paging : PageTable.State :=
  {| PageTable.kernel_mem_pool := boot_pool 512 512;
     PageTable.process_mem_pool := boot_pool 1024 1024;
     PageTable.shared_size := 0x400000;
     PageTable.vm_pool_head := [];
     PageTable.memory := fun _ => 0;
     PageTable.cr3 := 0 |}.

(** The machine of MP4 after its first fault past the shared memory, a
    kernel write to address 4 MiB. *)
Definition mp4_faulted : PageTable.State :=
  default mp4_boot (PageTable.MP4.handle_fault 2 2 0x400000 mp4_boot).

(** [release_frames] as the frame pool of MP3 does it, over the kernel pool
    and the process pool in this order. *)
Definition release_in_two (f : Z) (pools : FramePool.State * FramePool.State)
    : option (FramePool.State * FramePool.State) :=
  match FramePoolMP3.release_frames f [fst pools; snd pools] with
  | Some [kp; pp] => Some (kp, pp)
  | _ => None
  end.
(* ===================================================================== *)
(** * Part II: the properties                                             *)
(* ===================================================================== *)

(** ** Words *)

Lemma u32_small x : 0 <= x < 2 ^ 32 -> u32 x = x.
Proof. intros H. unfold u32. apply Z.mod_small. exact H. Qed.

Lemma u32_range x : 0 <= u32 x < 2 ^ 32.
Proof. unfold u32. apply Z.mod_pos_bound. lia. Qed.

Lemma ceil_div_spec a b k :
  0 < b -> (a <= k * b <-> ceil_div a b <= k).
Proof.
  intros Hb. unfold ceil_div. split; intros H.
  - assert (- k <= (- a) / b); [|lia].
    apply Z.div_le_lower_bound; lia.
  - assert (Hk : - k <= (- a) / b) by lia.
    pose proof (Z.mul_div_le (- a) b Hb).
    assert (b * (- k) <= b * ((- a) / b)) by (apply Z.mul_le_mono_nonneg_l; lia).
    lia.
Qed.

Lemma ceil_div_floor a b :
  0 < b -> ceil_div a b = a / b + (if a mod b >? 0 then 1 else 0).
Proof.
  intros Hb.
  pose proof (Z.div_mod a b ltac:(lia)) as Hdm.
  pose proof (Z.mod_pos_bound a b Hb) as Hm.
  apply Z.le_antisymm.
  - apply ceil_div_spec; [exact Hb|].
    destruct (a mod b >? 0) eqn:E; lia.
  - destruct (a mod b >? 0) eqn:E.
    + assert (a / b < ceil_div a b); [|lia].
      apply Z.lt_nge. intros Hle.
      apply (ceil_div_spec a b (a / b) Hb) in Hle. lia.
    + assert (a / b <= ceil_div a b); [|lia].
      apply Z.le_ngt. intros Hlt.
      assert (Hle : ceil_div a b <= a / b - 1) by lia.
      apply (ceil_div_spec a b (a / b - 1) Hb) in Hle. lia.
Qed.

(** ** The schedulers *)

Lemma mp5_yield_nonempty s head rest :
  SchedMP5.qsize s = Z.of_nat (length (SchedMP5.ready_queue s)) ->
  SchedMP5.ready_queue s = head :: rest ->
  SchedMP5.ready_queue (SchedMP5.yield s) = rest /\
  SchedMP5.current_thread (SchedMP5.yield s) = Some head /\
  SchedMP5.qsize (SchedMP5.yield s) = Z.of_nat (length rest).
Proof.
  intros Hsize Hq. unfold SchedMP5.yield, SchedMP5.disable_if_enabled.
  destruct s as [q n ie cur]; simpl in *. subst q. simpl in Hsize.
  destruct ie; simpl;
    (destruct (n =? 0) eqn:E; [apply Z.eqb_eq in E; lia|]);
    simpl; repeat split; lia.
Qed.

Lemma mp5_yield_empty s :
  SchedMP5.qsize s = Z.of_nat (length (SchedMP5.ready_queue s)) ->
  SchedMP5.ready_queue s = [] ->
  SchedMP5.ready_queue (SchedMP5.yield s) = [] /\
  SchedMP5.current_thread (SchedMP5.yield s) = SchedMP5.current_thread s.
Proof.
  intros Hsize Hq. unfold SchedMP5.yield, SchedMP5.disable_if_enabled.
  destruct s as [q n ie cur]; simpl in *. subst q. simpl in Hsize. subst n.
  destruct ie; simpl; split; reflexivity.
Qed.

Lemma mp6_yield_running s t :
  SchedMP6.current_thread s = Some t ->
  match SchedMP6.ready_queue s with
  | [] =>
      SchedMP6.ready_queue (SchedMP6.yield s) = [] /\
      SchedMP6.current_thread (SchedMP6.yield s) = Some t
  | head :: rest =>
      SchedMP6.ready_queue (SchedMP6.yield s) = rest ++ [t] /\
      SchedMP6.current_thread (SchedMP6.yield s) = Some head
  end.
Proof.
  intros Hcur. unfold SchedMP6.yield. rewrite Hcur. simpl.
  destruct (SchedMP6.ready_queue s) as [|head rest]; simpl; split; reflexivity.
Qed.

Lemma mp6_yield_idle s :
  SchedMP6.current_thread s = None ->
  yield_as_specified SchedMP6.ready_queue SchedMP6.current_thread
    SchedMP6.yield s.
Proof.
  intros Hcur. unfold yield_as_specified, SchedMP6.yield. rewrite Hcur.
  destruct (SchedMP6.ready_queue s) as [|head rest] eqn:Hq; simpl.
  - rewrite Hq, Hcur. split; reflexivity.
  - split; reflexivity.
Qed.

(** C7 (as found in the code).  In the MP5 scheduler, whose [qsize] counts
    its queue, [yield] is as the spec has it: the head of the ready queue is
    dequeued and switched to, an empty queue leaves the caller running, and
    the caller is never put on the queue.  The MP6 scheduler does the same
    only when no thread is running; with a running thread [t] its [yield]
    first appends [t] to the ready queue, so the queue afterwards is the old
    tail followed by [t], and on an empty queue [t] is dispatched to again. *)
Theorem C7_yield_by_variant :
  (forall s,
      SchedMP5.qsize s = Z.of_nat (length (SchedMP5.ready_queue s)) ->
      yield_as_specified SchedMP5.ready_queue SchedMP5.current_thread
        SchedMP5.yield s) /\
  (forall s,
      SchedMP6.current_thread s = None ->
      yield_as_specified SchedMP6.ready_queue SchedMP6.current_thread
        SchedMP6.yield s) /\
  (forall s t,
      SchedMP6.current_thread s = Some t ->
      match SchedMP6.ready_queue s with
      | [] =>
          SchedMP6.ready_queue (SchedMP6.yield s) = [] /\
          SchedMP6.current_thread (SchedMP6.yield s) = Some t
      | head :: rest =>
          SchedMP6.ready_queue (SchedMP6.yield s) = rest ++ [t] /\
          SchedMP6.current_thread (SchedMP6.yield s) = Some head
      end).
Proof.
  split; [|split].
  - intros s Hsize. unfold yield_as_specified.
    destruct (SchedMP5.ready_queue s) as [|head rest] eqn:Hq;
      rewrite <- Hq in Hsize.
    + apply mp5_yield_empty; assumption.
    + destruct (mp5_yield_nonempty s head rest Hsize Hq) as (H1 & H2 & _).
      split; assumption.
  - exact mp6_yield_idle.
  - exact mp6_yield_running.
Qed.

(** The MP5 scheduler with threads 1 and 2 ready and thread 0 running. *)
Lemma C7_witness :
  yield_as_specified SchedMP5.ready_queue SchedMP5.current_thread
    SchedMP5.yield
    (SchedMP5.mkState [mkThread 1; mkThread 2] 2 true (Some (mkThread 0)))
  /\
  yield_as_specified SchedMP6.ready_queue SchedMP6.current_thread
    SchedMP6.yield (SchedMP6.mkState [mkThread 1] 1 None)
  /\
  SchedMP6.ready_queue
    (SchedMP6.yield (SchedMP6.mkState [mkThread 1] 1 (Some (mkThread 0))))
  = [mkThread 0].
Proof.
  split; [|split].
  - apply (proj1 C7_yield_by_variant). reflexivity.
  - apply (proj1 (proj2 C7_yield_by_variant)). reflexivity.
  - apply (proj2 (proj2 C7_yield_by_variant)
             (SchedMP6.mkState [mkThread 1] 1 (Some (mkThread 0)))
             (mkThread 0)).
    reflexivity.
Defined.

(** C7 fails on the MP6 scheduler: with thread 1 ready and thread 0
    running, [yield] leaves thread 0 on the ready queue. *)
Lemma C7_counterexample :
  ~ yield_as_specified SchedMP6.ready_queue SchedMP6.current_thread
      SchedMP6.yield (SchedMP6.mkState [mkThread 1] 1 (Some (mkThread 0))).
Proof.
  unfold yield_as_specified. simpl. intros [H _]. discriminate H.
Qed.

(** [unlink] takes out the first node that holds the thread. *)
Lemma mp6_unlink_member (t : Thread) (q : list Thread) :
  t ∈ q ->
  exists q1 q2, q = q1 ++ t :: q2 /\ (t ∉ q1) /\
                SchedMP6.unlink t q = Some (q1 ++ q2).
Proof.
  induction q as [|c rest IH]; intros Hin.
  - inversion Hin.
  - simpl. destruct (decide (c = t)) as [->|Hne].
    + exists [], rest. repeat split. intros H; inversion H.
    + apply elem_of_cons in Hin as [->|Hin]; [congruence|].
      destruct (IH Hin) as (q1 & q2 & -> & Hnot & ->).
      exists (c :: q1), q2. repeat split.
      intros H. apply elem_of_cons in H as [->|H]; [congruence|auto].
Qed.

Lemma mp6_unlink_absent (t : Thread) (q : list Thread) :
  t ∉ q -> SchedMP6.unlink t q = None.
Proof.
  induction q as [|c rest IH]; intros Hnot; [reflexivity|].
  simpl. destruct (decide (c = t)) as [->|Hne].
  - exfalso. apply Hnot. left.
  - rewrite IH; [reflexivity|]. intros H. apply Hnot. right. exact H.
Qed.

Lemma filter_ne_absent (t : Thread) (q : list Thread) :
  t ∉ q -> filter (fun x => x <> t) q = q.
Proof.
  induction q as [|c rest IH]; intros Hnot; [reflexivity|].
  rewrite filter_cons. destruct (decide (c <> t)) as [Hne|Heq].
  - f_equal. apply IH. intros H. apply Hnot. right. exact H.
  - exfalso. apply Hnot. destruct (decide (c = t)) as [->|Hc]; [left|].
    contradiction.
Qed.

(** The MP6 scheduler does what C10 says: on a queue without repeated
    threads [terminate] removes the thread and keeps the others in order,
    and a thread that is not queued leaves the scheduler as it is. *)
Lemma mp6_terminate_in_order t s :
  NoDup (SchedMP6.ready_queue s) ->
  others_in_order t (SchedMP6.ready_queue s)
    (SchedMP6.ready_queue (SchedMP6.terminate (Some t) s)) /\
  (t ∉ SchedMP6.ready_queue s -> SchedMP6.terminate (Some t) s = s).
Proof.
  intros Hnd. unfold others_in_order, SchedMP6.terminate. split.
  - destruct (decide (t ∈ SchedMP6.ready_queue s)) as [Hin|Hnot].
    + destruct (mp6_unlink_member t _ Hin) as (q1 & q2 & Hq & Hq1 & Hun).
      rewrite Hun. simpl. rewrite Hq in *.
      apply NoDup_app in Hnd as (_ & Hdisj & Hnd2).
      apply NoDup_cons in Hnd2 as [Hq2 _].
      rewrite filter_app, filter_cons.
      destruct (decide (t <> t)) as [Hc|_]; [congruence|].
      rewrite !filter_ne_absent; auto.
    + rewrite (mp6_unlink_absent t _ Hnot).
      symmetry. apply filter_ne_absent. exact Hnot.
  - intros Hnot. rewrite (mp6_unlink_absent t _ Hnot). reflexivity.
Qed.

(** C10 on the MP5 scheduler: with threads 0, 1, 2 queued in that order,
    [terminate] of thread 0 returns with the queue 2, 1: thread 0 is gone
    and the two others have changed places. *)
Theorem C10_mp5_terminate_reorders :
  let t := mkThread 0 in
  let a := mkThread 1 in
  let b := mkThread 2 in
  let s := SchedMP5.mkState [t; a; b] 3 true None in
  exists s',
    SchedMP5.terminate t s = Some s' /\
    SchedMP5.ready_queue s' = [b; a] /\
    SchedMP5.qsize s' = 2 /\
    ~ others_in_order t (SchedMP5.ready_queue s) (SchedMP5.ready_queue s').
Proof.
  intros t a b s. eexists. split; [reflexivity|].
  split; [reflexivity|]. split; [reflexivity|].
  unfold others_in_order. vm_compute. discriminate.
Qed.

(** ** The disk interrupt *)

(** C8.  One call of the disk interrupt handler resumes at most one blocked
    thread, and that thread is the head of the blocked queue: the ready
    queue grows by a list [woken] of length at most one that is taken off
    the front of the blocked queue.  With the disk ready, a scheduler in
    place and a blocked queue [t :: rest], the handler leaves [rest] blocked
    and appends [t] to the ready queue; with the disk busy or nobody
    blocked it changes nothing. *)
Theorem C8_wake_at_most_one (is_busy : bool) (d : NonBlockingDisk.State) :
  let d' := NonBlockingDisk.handle_interrupt is_busy d in
  (exists woken,
      (length woken <= 1)%nat /\
      NonBlockingDisk.ready d' = NonBlockingDisk.ready d ++ woken /\
      NonBlockingDisk.blocked_queue d
        = woken ++ NonBlockingDisk.blocked_queue d') /\
  (forall t rest sched,
      is_busy = false ->
      NonBlockingDisk.blocked_queue d = t :: rest ->
      NonBlockingDisk.SCHEDULER d = Some sched ->
      NonBlockingDisk.blocked_queue d' = rest /\
      NonBlockingDisk.ready d' = NonBlockingDisk.ready d ++ [t]) /\
  (is_busy = true \/ NonBlockingDisk.blocked_queue d = [] -> d' = d).
Proof.
  destruct d as [bq w sch]. unfold NonBlockingDisk.handle_interrupt,
    NonBlockingDisk.wake_next_blocked_thread, NonBlockingDisk.ready.
  simpl. split; [|split].
  - destruct is_busy; simpl.
    + exists []. rewrite app_nil_r. auto.
    + destruct bq as [|t rest]; [|destruct sch as [sched|]]; simpl.
      * exists []. rewrite app_nil_r. auto.
      * exists [t]. auto.
      * exists []. auto.
  - intros t rest sched -> -> ->. simpl. auto.
  - intros [->| ->]; [reflexivity|]. destruct is_busy; reflexivity.
Qed.

(** The disk is ready, threads 7 and 8 are blocked, thread 3 is ready. *)
Lemma C8_witness :
  let d := NonBlockingDisk.mkState [mkThread 7; mkThread 8] true
             (Some (SchedMP6.mkState [mkThread 3] 1 None)) in
  NonBlockingDisk.blocked_queue (NonBlockingDisk.handle_interrupt false d)
    = [mkThread 8] /\
  NonBlockingDisk.ready (NonBlockingDisk.handle_interrupt false d)
    = [mkThread 3; mkThread 7].
Proof.
  intros d.
  exact (proj1 (proj2 (C8_wake_at_most_one false d))
           (mkThread 7) [mkThread 8] (SchedMP6.mkState [mkThread 3] 1 None)
           eq_refl eq_refl eq_refl).
Defined.

(** ** The size of a pool's bitmap *)

Lemma round_up_div n b :
  0 < b -> (n + b - 1) / b = ceil_div n b.
Proof.
  intros Hb. rewrite (ceil_div_floor n b Hb).
  pose proof (Z.div_mod n b ltac:(lia)) as Hdm.
  pose proof (Z.mod_pos_bound n b Hb) as Hm.
  destruct (n mod b >? 0) eqn:E.
  - symmetry. apply (Z.div_unique _ _ _ (n mod b - 1)); lia.
  - symmetry. apply (Z.div_unique _ _ _ (b - 1)); lia.
Qed.

(** C9 (as found in the code).  The two-bit pool (MP3, MP5) returns
    ceil(2n / (4096*8)) for every frame count [n] whose doubling fits the
    32-bit word.  The pool of MP2 keeps one byte of state per frame and
    returns ceil(n / 4096). *)
Theorem C9_needed_info_frames_by_variant :
  (forall n, 0 <= n < 2 ^ 31 ->
     FramePool.needed_info_frames n = ceil_div (2 * n) (4096 * 8)) /\
  (forall n, 0 <= n <= 2 ^ 32 - 4096 ->
     FramePoolMP2.needed_info_frames n = ceil_div n 4096).
Proof.
  split; intros n Hn.
  - unfold FramePool.needed_info_frames.
    rewrite (u32_small (n * 2)) by lia.
    replace (n * 2) with (2 * n) by lia.
    replace (4 * 1024 * 8) with 32768 by reflexivity.
    replace (4096 * 8) with 32768 by reflexivity.
    rewrite (ceil_div_floor (2 * n) 32768) by lia.
    apply u32_small.
    pose proof (Z.div_pos (2 * n) 32768 ltac:(lia) ltac:(lia)).
    assert (2 * n / 32768 < 2 ^ 17)
      by (apply Z.div_lt_upper_bound; lia).
    destruct (2 * n mod 32768 >? 0); lia.
  - unfold FramePoolMP2.needed_info_frames, FRAME_SIZE.
    rewrite u32_small by lia. apply round_up_div. lia.
Qed.

(** A pool of 4096 frames, as the kernel's process pool may be. *)
Lemma C9_witness :
  FramePool.needed_info_frames 4096 = ceil_div (2 * 4096) (4096 * 8) /\
  FramePoolMP2.needed_info_frames 4096 = ceil_div 4096 4096.
Proof.
  split.
  - apply (proj1 C9_needed_info_frames_by_variant). lia.
  - apply (proj2 C9_needed_info_frames_by_variant). lia.
Defined.

(** C9 fails for the pool of MP2 at 4097 frames, where two frames are
    returned and the claimed formula gives one, and for the two-bit pool at
    2^31 frames, where the doubling wraps to 0. *)
Lemma C9_counterexample :
  FramePoolMP2.needed_info_frames 4097 <> ceil_div (2 * 4097) (4096 * 8) /\
  FramePool.needed_info_frames (2 ^ 31) <> ceil_div (2 * 2 ^ 31) (4096 * 8).
Proof. split; vm_compute; discriminate. Qed.

(** ** The virtual-memory pool *)

Lemma pages_count_rounds n :
  0 <= n <= 2 ^ 32 - 4096 ->
  u32 (VMPool.pages_count n * VMPool.PAGE_SIZE) = round_to_pages n /\
  n <= round_to_pages n < n + 4096.
Proof.
  intros Hn. unfold VMPool.pages_count, round_to_pages, VMPool.PAGE_SIZE.
  rewrite <- (ceil_div_floor n 4096) by lia.
  rewrite <- (round_up_div n 4096) by lia.
  replace (n + 4096 - 1) with (n + 4095) by lia.
  pose proof (Z.div_mod (n + 4095) 4096 ltac:(lia)) as Hdm.
  pose proof (Z.mod_pos_bound (n + 4095) 4096 ltac:(lia)) as Hm.
  assert (0 <= (n + 4095) / 4096) by (apply Z.div_pos; lia).
  rewrite (u32_small ((n + 4095) / 4096)) by lia.
  rewrite u32_small by lia. lia.
Qed.

Lemma regions_store_new arr nr r :
  0 <= nr ->
  map (VMPool.region_store arr nr r) (seqZ 0 (nr + 1))
  = map arr (seqZ 0 nr) ++ [r].
Proof.
  intros Hnr.
  rewrite seqZ_app by lia. rewrite map_app. f_equal.
  - apply map_ext_in. intros j Hj. apply list_elem_of_In in Hj.
    apply elem_of_seqZ in Hj. unfold VMPool.region_store.
    destruct (j =? nr) eqn:E; [apply Z.eqb_eq in E; lia|reflexivity].
  - rewrite seqZ_cons by lia. rewrite seqZ_nil by lia. simpl.
    unfold VMPool.region_store. rewrite Z.add_0_l, Z.eqb_refl.
    reflexivity.
Qed.

Lemma allocate_outcome p n :
  let prev := VMPool.ptr_vm_region p (VMPool.num_regions p - 1) in
  let rounded := u32 (VMPool.pages_count n * VMPool.PAGE_SIZE) in
  let r := VMPool.mkRegion
             (u32 (VMPool.region_base_address prev
                   + VMPool.region_length prev)) rounded in
  (VMPool.available_memory p < n -> VMPool.allocate n p = None) /\
  (n <= VMPool.available_memory p ->
   exists p',
     VMPool.allocate n p = Some (VMPool.region_base_address r, p') /\
     VMPool.available_memory p'
       = u32 (VMPool.available_memory p - rounded) /\
     VMPool.num_regions p' = VMPool.num_regions p + 1 /\
     VMPool.size p' = VMPool.size p /\
     (0 <= VMPool.num_regions p ->
      VMPool.regions p' = VMPool.regions p ++ [r])).
Proof.
  intros prev rounded r. unfold VMPool.allocate. split; intros H.
  - destruct (Z.gtb_spec n (VMPool.available_memory p)); [reflexivity|lia].
  - destruct (Z.gtb_spec n (VMPool.available_memory p)); [lia|].
    eexists. split; [|split; [|split; [|split]]].
    + f_equal. f_equal. unfold VMPool.region_store.
      replace (VMPool.num_regions p + 1 - 1 =? VMPool.num_regions p)
        with true by (symmetry; apply Z.eqb_eq; lia).
      reflexivity.
    + reflexivity.
    + reflexivity.
    + reflexivity.
    + intros Hnr. unfold VMPool.regions. simpl.
      apply regions_store_new. exact Hnr.
Qed.

Lemma aligned_guard avail n :
  0 <= n < 2 ^ 32 -> 0 <= avail < 2 ^ 32 ->
  avail mod VMPool.PAGE_SIZE = 0 ->
  (avail < n <-> avail < round_to_pages n).
Proof.
  unfold round_to_pages, VMPool.PAGE_SIZE. intros Hn Ha Hal.
  pose proof (Z.div_mod avail 4096 ltac:(lia)) as Hdm.
  rewrite Hal, Z.add_0_r in Hdm.
  split; intros H.
  - assert (n <= 4096 * ceil_div n 4096); [|lia].
    assert (Hc : ceil_div n 4096 <= ceil_div n 4096) by lia.
    apply (ceil_div_spec n 4096 _ ltac:(lia)) in Hc. lia.
  - apply Z.lt_nge. intros Hle.
    assert (Hc : n <= (avail / 4096) * 4096) by lia.
    apply (ceil_div_spec n 4096 _ ltac:(lia)) in Hc. lia.
Qed.

Lemma allocate_step p n base len :
  VMPool.ptr_vm_region p (VMPool.num_regions p - 1)
    = VMPool.mkRegion base len ->
  n <= VMPool.available_memory p ->
  exists p',
    VMPool.allocate n p = Some (u32 (base + len), p') /\
    VMPool.ptr_vm_region p' (VMPool.num_regions p' - 1)
      = VMPool.mkRegion (u32 (base + len))
          (u32 (VMPool.pages_count n * VMPool.PAGE_SIZE)) /\
    VMPool.available_memory p'
      = u32 (VMPool.available_memory p
             - u32 (VMPool.pages_count n * VMPool.PAGE_SIZE)).
Proof.
  intros Hprev Hle. unfold VMPool.allocate.
  destruct (Z.gtb_spec n (VMPool.available_memory p)); [lia|].
  rewrite Hprev. simpl.
  assert (Hself : forall arr r,
             VMPool.region_store arr (VMPool.num_regions p) r
               (VMPool.num_regions p + 1 - 1) = r).
  { intros arr r. unfold VMPool.region_store.
    replace (VMPool.num_regions p + 1 - 1 =? VMPool.num_regions p)
      with true by (symmetry; apply Z.eqb_eq; lia).
    reflexivity. }
  eexists. split; [|split].
  - rewrite Hself. reflexivity.
  - simpl. rewrite Hself. reflexivity.
  - reflexivity.
Qed.

(** The third scenario of the spec, for any base that leaves the pool
    inside the address space. *)
Lemma three_allocations B mem :
  0 <= B -> B + 0x1000000 <= 2 ^ 32 ->
  let p0 := VMPool.VMPool B 0x1000000 mem in
  exists p1 p2 p3,
    VMPool.allocate 0x1000 p0 = Some (B + 0x1000, p1) /\
    VMPool.allocate 0x2000 p1 = Some (B + 0x2000, p2) /\
    VMPool.allocate 0x3000 p2 = Some (B + 0x4000, p3) /\
    VMPool.available_memory p1 = VMPool.available_memory p0 - 0x1000 /\
    VMPool.available_memory p2 = VMPool.available_memory p1 - 0x2000 /\
    VMPool.available_memory p3 = VMPool.available_memory p2 - 0x3000.
Proof.
  intros HB Htop p0.
  assert (Hprev0 : VMPool.ptr_vm_region p0 (VMPool.num_regions p0 - 1)
                   = VMPool.mkRegion B 0x1000) by reflexivity.
  assert (Hav0 : VMPool.available_memory p0 = 0xFFF000) by reflexivity.
  destruct (allocate_step p0 0x1000 _ _ Hprev0 ltac:(rewrite Hav0; lia))
    as (p1 & Hal1 & Hprev1 & Hav1).
  change (u32 (VMPool.pages_count 4096 * VMPool.PAGE_SIZE))
    with 0x1000 in *.
  rewrite Hav0 in Hav1. rewrite (u32_small (B + 4096)) in * by lia.
  rewrite u32_small in Hav1 by lia.
  destruct (allocate_step p1 0x2000 _ _ Hprev1 ltac:(rewrite Hav1; lia))
    as (p2 & Hal2 & Hprev2 & Hav2).
  change (u32 (VMPool.pages_count 8192 * VMPool.PAGE_SIZE))
    with 0x2000 in *.
  rewrite Hav1 in Hav2. rewrite (u32_small (B + 4096 + 4096)) in * by lia.
  rewrite u32_small in Hav2 by lia.
  destruct (allocate_step p2 0x3000 _ _ Hprev2 ltac:(rewrite Hav2; lia))
    as (p3 & Hal3 & Hprev3 & Hav3).
  change (u32 (VMPool.pages_count 12288 * VMPool.PAGE_SIZE))
    with 0x3000 in *.
  rewrite Hav2 in Hav3. rewrite (u32_small (B + 4096 + 4096 + 8192)) in * by lia.
  rewrite u32_small in Hav3 by lia.
  exists p1, p2, p3.
  replace (B + 0x2000) with (B + 4096 + 4096) by lia.
  replace (B + 0x4000) with (B + 4096 + 4096 + 8192) by lia.
  rewrite Hav0, Hav1, Hav2, Hav3. repeat split; assumption || lia.
Qed.

(** What [allocate] does, by its guard.  It rounds the request up to
    whole pages, places the new region at the end of the last recorded one,
    appends its record and takes the rounded size off [available]; from a
    16 MiB pool at base B, requests of 1, 2 and 3 pages return B+0x1000,
    B+0x2000 and B+0x4000.  It halts exactly when [available] is below the
    request as given, before rounding; when [available] is a multiple of the
    page size that is the same as being below the rounded size. *)
Lemma allocate_by_the_guard (p : VMPool.State) (n : Z) :
  0 <= n < 2 ^ 32 ->
  let prev := VMPool.ptr_vm_region p (VMPool.num_regions p - 1) in
  let rounded := u32 (VMPool.pages_count n * VMPool.PAGE_SIZE) in
  let r := VMPool.mkRegion
             (u32 (VMPool.region_base_address prev
                   + VMPool.region_length prev)) rounded in
  (n <= 2 ^ 32 - 4096 -> rounded = round_to_pages n) /\
  (VMPool.allocate n p = None <-> VMPool.available_memory p < n) /\
  (n <= VMPool.available_memory p ->
   exists p',
     VMPool.allocate n p = Some (VMPool.region_base_address r, p') /\
     VMPool.available_memory p'
       = u32 (VMPool.available_memory p - rounded) /\
     (0 <= VMPool.num_regions p ->
      VMPool.regions p' = VMPool.regions p ++ [r])) /\
  (0 <= VMPool.available_memory p < 2 ^ 32 ->
   VMPool.available_memory p mod VMPool.PAGE_SIZE = 0 ->
   (VMPool.allocate n p = None
    <-> VMPool.available_memory p < round_to_pages n)) /\
  (forall B mem,
     0 <= B -> B + 0x1000000 <= 2 ^ 32 ->
     let p0 := VMPool.VMPool B 0x1000000 mem in
     exists p1 p2 p3,
       VMPool.allocate 0x1000 p0 = Some (B + 0x1000, p1) /\
       VMPool.allocate 0x2000 p1 = Some (B + 0x2000, p2) /\
       VMPool.allocate 0x3000 p2 = Some (B + 0x4000, p3) /\
       VMPool.available_memory p1 = VMPool.available_memory p0 - 0x1000 /\
       VMPool.available_memory p2 = VMPool.available_memory p1 - 0x2000 /\
       VMPool.available_memory p3 = VMPool.available_memory p2 - 0x3000).
Proof.
  intros Hn prev rounded r.
  destruct (allocate_outcome p n) as [Hfail Hok].
  assert (Hiff : VMPool.allocate n p = None <-> VMPool.available_memory p < n).
  { split; [|exact Hfail]. intros Hnone.
    apply Z.lt_nge. intros Hle.
    destruct (Hok Hle) as (p' & Heq & _). congruence. }
  split; [|split; [|split; [|split]]].
  - intros Hn'. apply pages_count_rounds. lia.
  - exact Hiff.
  - intros Hle. destruct (Hok Hle) as (p' & Heq & Hav & _ & _ & Hreg).
    exists p'. auto.
  - intros Ha Hal. rewrite Hiff. apply aligned_guard; assumption.
  - exact three_allocations.
Qed.

(** C6 on the code: a pool of 0x1800 bytes at 1 GiB, a page and a half.
    The constructor leaves 0x800 bytes available.  A request of 0x800 bytes
    takes a whole page once rounded, 0x1000 bytes, more than is available;
    yet the guard compares the request as given and lets it pass: the page
    at 0x40001000 is handed out and recorded, [available_memory] wraps
    around to 0xFFFFF800, and a request of 16 MiB then passes the guard of
    the 6 KiB pool as well. *)
Theorem C6_allocate_overdraws_a_short_pool :
  let p := VMPool.VMPool 0x40000000 0x1800 blank_regions in
  VMPool.available_memory p = 0x800 /\
  round_to_pages 0x800 = 0x1000 /\
  exists p1 p2,
    VMPool.allocate 0x800 p = Some (0x40001000, p1) /\
    VMPool.regions p1
      = [VMPool.mkRegion 0x40000000 0x1000;
         VMPool.mkRegion 0x40001000 0x1000] /\
    VMPool.available_memory p1 = 0xFFFFF800 /\
    VMPool.allocate 0x1000000 p1 = Some (0x40002000, p2).
Proof.
  intros p. split; [reflexivity|]. split; [reflexivity|].
  do 2 eexists.
  split; [reflexivity|]. split; [reflexivity|].
  split; reflexivity.
Qed.

(** The constructor and [allocate] keep the accounting equation, as long as
    the words involved do not wrap. *)
Lemma vm_accounting_new B sz mem :
  4096 <= sz < 2 ^ 32 -> vm_accounting (VMPool.VMPool B sz mem).
Proof.
  intros Hsz. unfold vm_accounting, VMPool.total_length, VMPool.regions.
  simpl. unfold VMPool.PAGE_SIZE. rewrite u32_small by lia. lia.
Qed.

Lemma vm_accounting_allocate p n a p' :
  0 <= n <= 2 ^ 32 - 4096 ->
  0 <= VMPool.num_regions p ->
  VMPool.available_memory p < 2 ^ 32 ->
  VMPool.available_memory p mod VMPool.PAGE_SIZE = 0 ->
  vm_accounting p ->
  VMPool.allocate n p = Some (a, p') ->
  vm_accounting p'.
Proof.
  intros Hn Hnr Hav Hal Hacc Halloc.
  destruct (allocate_outcome p n) as [Hfail Hok].
  destruct (Z.lt_ge_cases (VMPool.available_memory p) n) as [Hlt|Hge].
  { rewrite (Hfail Hlt) in Halloc. discriminate. }
  destruct (Hok ltac:(lia)) as (q & Heq & Havq & _ & Hsz & Hreg).
  rewrite Heq in Halloc. injection Halloc as _ <-.
  specialize (Hreg Hnr).
  unfold vm_accounting, VMPool.total_length in *.
  rewrite Hreg, Havq, Hsz, foldr_app. simpl.
  destruct (pages_count_rounds n Hn) as [Hr Hb]. rewrite Hr.
  assert (Hfold : forall l k,
    foldr (fun r acc => VMPool.region_length r + acc) k l
    = foldr (fun r acc => VMPool.region_length r + acc) 0 l + k).
  { induction l as [|x l IH]; intros k; simpl; [lia|]. rewrite IH. lia. }
  rewrite Hfold.
  assert (round_to_pages n <= VMPool.available_memory p).
  { apply Z.le_ngt. intros Hc.
    apply (aligned_guard (VMPool.available_memory p) n) in Hc; lia. }
  rewrite u32_small by lia. lia.
Qed.

(** C5 on the code: a 16 MiB pool at 1 GiB hands out one page at
    0x40001000 and two pages at 0x40002000; releasing the one-page region
    frees its single page and credits [available] with 0x2000, the length of
    the region that moved into its slot, so that afterwards [available] and
    the recorded lengths add up to 0x1000 more than the pool's size. *)
Theorem C5_release_credits_the_next_region :
  let p0 := VMPool.VMPool 0x40000000 0x1000000 blank_regions in
  exists p1 p2 p3,
    VMPool.allocate 0x1000 p0 = Some (0x40001000, p1) /\
    VMPool.allocate 0x2000 p1 = Some (0x40002000, p2) /\
    vm_accounting p2 /\
    VMPool.release 0x40001000 p2 = Some (p3, [0x40001000]) /\
    VMPool.regions p3
      = [VMPool.mkRegion 0x40000000 0x1000; VMPool.mkRegion 0x40002000 0x2000] /\
    VMPool.available_memory p3 = VMPool.available_memory p2 + 0x2000 /\
    VMPool.available_memory p3 + VMPool.total_length p3
      = VMPool.size p3 + 0x1000 /\
    ~ vm_accounting p3.
Proof.
  intros p0. do 3 eexists.
  split; [reflexivity|]. split; [reflexivity|].
  split; [reflexivity|]. split; [reflexivity|].
  split; [reflexivity|]. split; [reflexivity|].
  split; [reflexivity|].
  unfold vm_accounting. vm_compute. discriminate.
Qed.

(** ** The frame pools *)

(** C2 on the code of MP5, in the first scenario of the spec: a pool of
    0x100 frames at frame 0x100 that hosts its own bitmap.  [get_frames(1)]
    returns 0x101; [release_frames(0x101)] returns with frame 0x101 still
    HoS, because the state is cleared at the absolute index 0x101 of the
    bitmap and not at the pool-relative index 1; the next [get_frames(1)]
    returns 0x102.  In a pool at frame 0 whose frame 1 heads another
    sequence, releasing frame 0 frees frame 1 as well: the walk stops at a
    Free frame only. *)
Theorem C2_mp5_release_does_not_restore :
  (exists p0 p1 p2,
     FramePool.ContFramePool 0x100 0x100 0 (replicate 4096 0) = Some p0 /\
     FramePool.get_frames 1 p0 = Some (0x101, p1) /\
     FramePool.release_frames 256 0x101 [p1] = Some [p2] /\
     FramePool.get_state 1 p0 = Free /\
     FramePool.get_state 1 p2 = HoS /\
     FramePool.states p2 <> FramePool.states p0 /\
     fst <$> FramePool.get_frames 1 p2 = Some 0x102) /\
  (exists p p0 p1 p2,
     FramePool.ContFramePool 0 8 1 (replicate 16 0) = Some p /\
     FramePool.mark_inaccessible 1 1 p = Some p0 /\
     FramePool.get_frames 1 p0 = Some (0, p1) /\
     FramePool.release_frames 8 0 [p1] = Some [p2] /\
     FramePool.states p0 = [Free; HoS; Free; Free; Free; Free; Free; Free] /\
     FramePool.states p1 = [HoS; HoS; Free; Free; Free; Free; Free; Free] /\
     FramePool.states p2
       = [Free; Free; Free; Free; Free; Free; Free; Free]).
Proof.
  split.
  - do 3 eexists.
    split; [vm_compute; reflexivity|].
    split; [vm_compute; reflexivity|].
    split; [vm_compute; reflexivity|].
    split; [vm_compute; reflexivity|].
    split; [vm_compute; reflexivity|].
    split; [vm_compute; discriminate|].
    vm_compute; reflexivity.
  - do 4 eexists.
    split; [vm_compute; reflexivity|].
    split; [vm_compute; reflexivity|].
    split; [vm_compute; reflexivity|].
    split; [vm_compute; reflexivity|].
    split; [vm_compute; reflexivity|].
    split; vm_compute; reflexivity.
Qed.

(** *** The pool of MP2: release undoes allocation *)

Section MP2_release.

Import FramePoolMP2.

Lemma with_bitmap_same p : with_bitmap (bitmap p) p = p.
Proof. destruct p; reflexivity. Qed.

Lemma get_state_in p bm i :
  0 <= i < nframes p ->
  get_state i (with_bitmap bm p) = bm !! Z.to_nat i.
Proof.
  intros Hi. unfold get_state. simpl.
  destruct (Z.leb_spec 0 i); [|lia].
  destruct (Z.ltb_spec i (nframes p)); [|lia]. reflexivity.
Qed.

Lemma set_state_in p bm i s :
  0 <= i < nframes p ->
  set_state i s (with_bitmap bm p)
  = Some (with_bitmap (<[Z.to_nat i := s]> bm) p).
Proof.
  intros Hi. unfold set_state. simpl.
  destruct (Z.leb_spec 0 i); [|lia].
  destruct (Z.ltb_spec i (nframes p)); [|lia]. reflexivity.
Qed.

Lemma run_is_free_true p i js :
  run_is_free p i js = Some true ->
  forall j, j ∈ js -> get_state (u32 (i + j)) p = Some Free.
Proof.
  induction js as [|j0 js IH]; intros Hrun j Hj; [inversion Hj|].
  simpl in Hrun.
  destruct (get_state (u32 (i + j0)) p) as [[| |]|] eqn:E; try discriminate.
  apply elem_of_cons in Hj as [->|Hj]; [exact E|]. apply IH; assumption.
Qed.

Lemma search_found fuel i n p f p' :
  search fuel i n p = Some (f, p') -> f <> 0 ->
  exists i0, i <= i0 <= u32 (nframes p - n) /\
             run_is_free p i0 (seqZ 0 n) = Some true /\
             mark_run i0 n p = Some p' /\
             f = u32 (base_frame_no p + i0).
Proof.
  revert i. induction fuel as [|fuel IH]; intros i Hs Hf; simpl in Hs.
  - injection Hs as <- _. congruence.
  - destruct (Z.leb_spec i (u32 (nframes p - n)));
      [|injection Hs as <- _; congruence].
    destruct (run_is_free p i (seqZ 0 n)) as [[|]|] eqn:Hrun;
      [| |discriminate].
    + destruct (mark_run i n p) as [q|] eqn:Hmark; [|discriminate].
      injection Hs as <- <-. exists i. repeat split; auto; lia.
    + destruct (IH (i + 1) Hs Hf) as (i0 & Hi0 & ?). exists i0.
      split; [lia|assumption].
Qed.

Lemma mark_fold p i0 k : forall a bm,
  0 <= i0 -> 1 <= a -> i0 + a + Z.of_nat k <= nframes p ->
  nframes p < 2 ^ 32 ->
  foldl (fun acc j =>
           match acc with
           | None => None
           | Some q => set_state (u32 (i0 + j)) Used q
           end)
        (Some (with_bitmap bm p)) (seqZ a (Z.of_nat k))
  = Some (with_bitmap
            (list_inserts (Z.to_nat (i0 + a)) (replicate k Used) bm) p).
Proof.
  induction k as [|k IH]; intros a bm Hi Ha Hle Hn.
  - rewrite seqZ_nil by lia. reflexivity.
  - rewrite seqZ_cons by lia. simpl foldl.
    rewrite u32_small by lia.
    rewrite set_state_in by lia.
    replace (Z.pred (Z.of_nat (S k))) with (Z.of_nat k) by lia.
    rewrite IH by lia. simpl replicate. simpl list_inserts.
    replace (Z.to_nat (i0 + Z.succ a)) with (S (Z.to_nat (i0 + a))) by lia.
    rewrite list_insert_inserts_lt by lia. reflexivity.
Qed.

Lemma mark_run_spec p i0 n :
  0 <= i0 -> 1 <= n -> i0 + n <= nframes p -> nframes p < 2 ^ 32 ->
  mark_run i0 n p
  = Some (with_bitmap
            (list_inserts (Z.to_nat i0)
               (HoS :: replicate (Z.to_nat (n - 1)) Used) (bitmap p)) p).
Proof.
  intros Hi Hn Hle Hnf. unfold mark_run.
  rewrite <- (with_bitmap_same p) at 1.
  rewrite set_state_in by lia.
  replace (n - 1) with (Z.of_nat (Z.to_nat (n - 1))) at 1 by lia.
  rewrite mark_fold by lia. simpl list_inserts.
  replace (Z.to_nat (i0 + 1)) with (S (Z.to_nat i0)) by lia.
  rewrite <- list_insert_inserts_lt by lia. reflexivity.
Qed.

Lemma free_tail_spec p k : forall fuel i bm,
  (k < fuel)%nat -> 0 <= i -> i + Z.of_nat k <= nframes p ->
  length bm = Z.to_nat (nframes p) ->
  (forall j, (j < k)%nat -> bm !! (Z.to_nat i + j)%nat = Some Used) ->
  bm !! (Z.to_nat i + k)%nat <> Some Used ->
  free_tail fuel i (with_bitmap bm p)
  = Some (with_bitmap
            (list_inserts (Z.to_nat i) (replicate k Free) bm) p).
Proof.
  induction k as [|k IH]; intros fuel i bm Hfuel Hi Hle Hlen Hused Hstop;
    (destruct fuel as [|fuel]; [lia|]); simpl free_tail.
  - simpl nframes. destruct (Z.ltb_spec i (nframes p)); [|reflexivity].
    rewrite get_state_in by lia. rewrite Nat.add_0_r in Hstop.
    destruct (bm !! Z.to_nat i) as [[| |]|] eqn:E; try reflexivity.
    + congruence.
    + apply lookup_ge_None in E. lia.
  - simpl nframes. destruct (Z.ltb_spec i (nframes p)); [|lia].
    rewrite get_state_in by lia.
    pose proof (Hused O ltac:(lia)) as H0. rewrite Nat.add_0_r in H0.
    rewrite H0. rewrite set_state_in by lia.
    rewrite (IH fuel (i + 1) (<[Z.to_nat i := Free]> bm)); try lia.
    + simpl replicate. simpl list_inserts.
      replace (Z.to_nat (i + 1)) with (S (Z.to_nat i)) by lia.
      rewrite list_insert_inserts_lt by lia. reflexivity.
    + rewrite length_insert. exact Hlen.
    + intros j Hj. rewrite list_lookup_insert_ne by lia.
      replace (Z.to_nat (i + 1) + j)%nat with (Z.to_nat i + S j)%nat by lia.
      apply Hused. lia.
    + rewrite list_lookup_insert_ne by lia.
      replace (Z.to_nat (i + 1) + k)%nat with (Z.to_nat i + S k)%nat by lia.
      exact Hstop.
Qed.

(** On the pool of MP2 release is the inverse of allocation: in a
    well-formed pool, releasing the frame that a successful [get_frames(n)]
    returned, with [n] at least 1, gives back the pool as it was. *)
Lemma mp2_release_inverts_get p n f p' :
  pool_well_formed p ->
  1 <= n <= nframes p ->
  get_frames n p = Some (f, p') -> f <> 0 ->
  release_frames f [p'] = Some [p].
Proof.
  intros (Hb & Hnf & Htop & Hlen & Hwf) Hn Hget Hf.
  unfold get_frames in Hget.
  destruct (search_found _ _ _ _ _ _ Hget Hf) as (i0 & Hi0 & Hrun & Hmark & ->).
  rewrite (u32_small (nframes p - n)) in Hi0 by lia.
  assert (Hfree : forall j, (j < Z.to_nat n)%nat ->
                            bitmap p !! (Z.to_nat i0 + j)%nat = Some Free).
  { intros j Hj.
    pose proof (run_is_free_true _ _ _ Hrun (Z.of_nat j)) as H.
    rewrite elem_of_seqZ in H. specialize (H ltac:(lia)).
    rewrite u32_small in H by lia.
    rewrite <- (with_bitmap_same p) in H. rewrite get_state_in in H by lia.
    replace (Z.to_nat i0 + j)%nat with (Z.to_nat (i0 + Z.of_nat j)) by lia.
    exact H. }
  rewrite mark_run_spec in Hmark by lia. simpl list_inserts in Hmark.
  injection Hmark as <-.
  set (m := Z.to_nat (n - 1)).
  remember (<[Z.to_nat i0:=HoS]>
              (list_inserts (S (Z.to_nat i0)) (replicate m Used) (bitmap p)))
    as bm1 eqn:Hbm1.
  assert (Hlen1 : length bm1 = Z.to_nat (nframes p))
    by (rewrite Hbm1, length_insert, length_inserts; exact Hlen).
  simpl release_frames. unfold owns. simpl base_frame_no. simpl nframes.
  rewrite !u32_small by lia.
  destruct (Z.geb_spec (base_frame_no p + i0) (base_frame_no p)); [|lia].
  destruct (Z.ltb_spec (base_frame_no p + i0) (base_frame_no p + nframes p));
    [|lia].
  simpl andb. cbv iota. unfold release_in. simpl base_frame_no.
  replace (base_frame_no p + i0 - base_frame_no p) with i0 by lia.
  rewrite u32_small by lia.
  rewrite get_state_in by lia.
  assert (Hhead : bm1 !! Z.to_nat i0 = Some HoS).
  { rewrite Hbm1. apply list_lookup_insert_eq.
    rewrite length_inserts. lia. }
  rewrite Hhead. rewrite set_state_in by lia. simpl nframes.
  rewrite (free_tail_spec p m); try lia.
  - do 2 f_equal. rewrite <- (with_bitmap_same p) at 2. f_equal.
    apply list_eq. intros j.
    replace (Z.to_nat (i0 + 1)) with (S (Z.to_nat i0)) by lia.
    destruct (decide (j < Z.to_nat i0)%nat).
    { rewrite list_lookup_inserts_lt by lia.
      rewrite list_lookup_insert_ne by lia. rewrite Hbm1.
      rewrite list_lookup_insert_ne by lia.
      rewrite list_lookup_inserts_lt by lia. reflexivity. }
    destruct (decide (j = Z.to_nat i0)) as [->|].
    { rewrite list_lookup_inserts_lt by lia.
      rewrite list_lookup_insert_eq by lia.
      symmetry. rewrite <- (Nat.add_0_r (Z.to_nat i0)). apply Hfree. lia. }
    destruct (decide (S (Z.to_nat i0) + m <= j)%nat).
    { rewrite list_lookup_inserts_ge by (rewrite length_replicate; lia).
      rewrite list_lookup_insert_ne by lia. rewrite Hbm1.
      rewrite list_lookup_insert_ne by lia.
      rewrite list_lookup_inserts_ge by (rewrite length_replicate; lia).
      reflexivity. }
    destruct (decide (j < length (bitmap p))%nat) as [Hj|Hj].
    + rewrite list_lookup_inserts
        by (rewrite ?length_insert, ?length_replicate; lia).
      rewrite lookup_replicate_2 by lia.
      symmetry. replace j with (Z.to_nat i0 + (j - Z.to_nat i0))%nat by lia.
      apply Hfree. lia.
    + lia.
  - rewrite length_insert. exact Hlen1.
  - intros j Hj. rewrite list_lookup_insert_ne by lia.
    rewrite Hbm1. rewrite list_lookup_insert_ne by lia.
    rewrite list_lookup_inserts by (rewrite ?length_replicate; lia).
    apply lookup_replicate_2. lia.
  - rewrite list_lookup_insert_ne by lia.
    rewrite Hbm1. rewrite list_lookup_insert_ne by lia.
    rewrite list_lookup_inserts_ge by (rewrite length_replicate; lia).
    replace (Z.to_nat (i0 + 1) + m)%nat with (S (Z.to_nat i0 + (Z.to_nat n - 1)))
      by lia.
    apply Hwf. apply Hfree. lia.
Qed.

End MP2_release.

(** ** The page-fault handlers *)

Lemma lor_disjoint_add a b k :
  0 <= k -> a mod 2 ^ k = 0 -> 0 <= b < 2 ^ k -> Z.lor a b = a + b.
Proof.
  intros Hk Ha Hb.
  assert (Hland : Z.land a b = 0).
  { apply Z.bits_inj'. intros n Hn. rewrite Z.land_spec, Z.bits_0.
    destruct (Z.lt_ge_cases n k) as [Hlt|Hge].
    - assert (Z.testbit a n = false) as ->; [|reflexivity].
      rewrite <- (Z.mod_pow2_bits_low a k n) by lia. rewrite Ha.
      apply Z.bits_0.
    - assert (Z.testbit b n = false) as ->; [|apply andb_false_r].
      destruct (Z.eq_dec b 0) as [->|Hb0]; [apply Z.bits_0|].
      apply Z.bits_above_log2; [lia|].
      apply Z.log2_lt_pow2; [lia|].
      assert (2 ^ k <= 2 ^ n) by (apply Z.pow_le_mono_r; lia). lia. }
  rewrite <- Z.lxor_lor by exact Hland.
  symmetry. apply Z.add_nocarry_lxor. exact Hland.
Qed.

Lemma land_page_mask x :
  0 <= x < 2 ^ 32 -> Z.land x 0xFFFFF000 = 4096 * (x / 4096).
Proof.
  intros Hx.
  change 0xFFFFF000 with (Z.ldiff (Z.ones 32) (Z.ones 12)).
  assert (H : Z.land x (Z.ldiff (Z.ones 32) (Z.ones 12))
              = Z.ldiff (Z.land x (Z.ones 32)) (Z.ones 12)).
  { apply Z.bits_inj'. intros n Hn.
    rewrite Z.land_spec, !Z.ldiff_spec, Z.land_spec.
    destruct (Z.testbit x n), (Z.testbit (Z.ones 32) n),
      (Z.testbit (Z.ones 12) n); reflexivity. }
  rewrite H, Z.land_ones by lia. rewrite Z.mod_small by lia.
  rewrite Z.ldiff_ones_r by lia.
  rewrite Z.shiftl_mul_pow2, Z.shiftr_div_pow2 by lia.
  change (2 ^ 12) with 4096. lia.
Qed.

(** A page-aligned address with flags below the page size: the address and
    the Present bit can be read back. *)
Lemma entry_address phys flags :
  0 <= phys < 2 ^ 32 -> phys mod 4096 = 0 -> 0 <= flags < 4096 ->
  Z.land (Z.lor phys flags) 0xFFFFF000 = phys.
Proof.
  intros Hp Hal Hf.
  rewrite (lor_disjoint_add phys flags 12) by (try lia; exact Hal).
  rewrite land_page_mask by (Z.div_mod_to_equations; lia).
  Z.div_mod_to_equations. lia.
Qed.

Lemma entry_present phys flags :
  phys mod 4096 = 0 -> 0 <= flags < 4096 ->
  Z.land (Z.lor phys flags) 1 = flags mod 2.
Proof.
  intros Hal Hf.
  rewrite (lor_disjoint_add phys flags 12) by (try lia; exact Hal).
  change 1 with (Z.ones 1). rewrite Z.land_ones by lia.
  change (2 ^ 1) with 2. Z.div_mod_to_equations. lia.
Qed.

Lemma frame_address f :
  0 <= u32 (f * PageTable.PAGE_SIZE) < 2 ^ 32 /\
  u32 (f * PageTable.PAGE_SIZE) mod 4096 = 0.
Proof.
  unfold u32, PageTable.PAGE_SIZE. change (2 ^ 32) with 4294967296.
  Z.div_mod_to_equations. lia.
Qed.

Lemma slot_in_page p i :
  0 <= p < 2 ^ 32 -> p mod 4096 = 0 -> 0 <= i < 1024 ->
  PageTable.slot p i = p + 4 * i.
Proof.
  intros Hp Hal Hi. unfold PageTable.slot. apply u32_small.
  Z.div_mod_to_equations. lia.
Qed.

Lemma directory_index_range va :
  0 <= va < 2 ^ 32 ->
  0 <= Z.shiftr va 22 < 1024 /\
  Z.land (Z.shiftr va 22) 0x3FF = Z.shiftr va 22.
Proof.
  intros Hva. rewrite Z.shiftr_div_pow2 by lia.
  change 0x3FF with (Z.ones 10). rewrite Z.land_ones by lia.
  change (2 ^ 22) with 4194304. change (2 ^ 10) with 1024.
  Z.div_mod_to_equations. lia.
Qed.

Lemma table_index_range x : 0 <= Z.land x 0x3FF < 1024.
Proof.
  change 0x3FF with (Z.ones 10). rewrite Z.land_ones by lia.
  apply Z.mod_pos_bound. lia.
Qed.

(** What a filled table reads. *)
Lemma fill_fold_out t v a js : forall m,
  (forall j, j ∈ js -> a <> PageTable.slot t j) ->
  foldl (fun m entry => PageTable.store m (PageTable.slot t entry) v) m js a
  = m a.
Proof.
  induction js as [|j js IH]; intros m Hout; [reflexivity|].
  simpl. rewrite IH by (intros; apply Hout; right; assumption).
  unfold PageTable.store.
  destruct (Z.eqb_spec a (PageTable.slot t j)) as [Heq|]; [|reflexivity].
  exfalso. apply (Hout j); [left|exact Heq].
Qed.

Lemma fill_fold_in t v a js : forall m,
  (exists j, j ∈ js /\ a = PageTable.slot t j) ->
  foldl (fun m entry => PageTable.store m (PageTable.slot t entry) v) m js a
  = v.
Proof.
  induction js as [|j js IH]; intros m [j0 [Hin Ha]]; [inversion Hin|].
  simpl.
  destruct (decide (Exists (fun j' => a = PageTable.slot t j') js))
    as [Hlater|Hnot].
  - apply IH. apply Exists_exists in Hlater. exact Hlater.
  - rewrite Exists_exists in Hnot. rewrite fill_fold_out.
    + apply elem_of_cons in Hin as [->|Hin].
      * unfold PageTable.store. rewrite Ha, Z.eqb_refl. reflexivity.
      * exfalso. apply Hnot. exists j0. auto.
    + intros j' Hj' Heq. apply Hnot. exists j'. auto.
Qed.

Lemma fill_table_in t v m i :
  0 <= i < 1024 ->
  PageTable.fill_table t v m (PageTable.slot t i) = v.
Proof.
  intros Hi. unfold PageTable.fill_table. apply fill_fold_in.
  exists i. split; [apply elem_of_seqZ; lia|reflexivity].
Qed.

Lemma fill_table_out t v m a :
  (forall i, 0 <= i < 1024 -> a <> PageTable.slot t i) ->
  PageTable.fill_table t v m a = m a.
Proof.
  intros Hout. unfold PageTable.fill_table. apply fill_fold_out.
  intros j Hj. apply Hout. apply elem_of_seqZ in Hj. lia.
Qed.

Lemma directory_address s :
  0 <= PageTable.cr3 s < 2 ^ 32 ->
  0 <= PageTable.MP3.page_directory s < 2 ^ 32 /\
  PageTable.MP3.page_directory s mod 4096 = 0.
Proof.
  intros Hcr3. unfold PageTable.MP3.page_directory.
  rewrite land_page_mask by exact Hcr3.
  Z.div_mod_to_equations. lia.
Qed.

Lemma entry_flags_range err_code :
  0 <= PageTable.entry_flags err_code < 4096 /\
  PageTable.entry_flags err_code mod 2 = 1.
Proof.
  unfold PageTable.entry_flags.
  destruct (Z.land err_code 4 =? 0); split; reflexivity || (vm_compute; split; congruence).
Qed.

Lemma pages_apart a b x y :
  a mod 4096 = 0 -> b mod 4096 = 0 -> b <> a ->
  0 <= x < 1024 -> 0 <= y < 1024 -> a + 4 * x <> b + 4 * y.
Proof. intros. Z.div_mod_to_equations. lia. Qed.

(** The handler of MP3 on a fault whose directory entry is missing. *)
Lemma mp3_services_missing_directory_entry err_code va s f kp g pp :
  0 <= va < 2 ^ 32 ->
  0 <= PageTable.cr3 s < 2 ^ 32 ->
  Z.land err_code 1 = 0 ->
  Z.land (PageTable.pde_of s va) 1 = 0 ->
  FramePool.get_frames 1 (PageTable.kernel_mem_pool s) = Some (f, kp) ->
  u32 (f * PageTable.PAGE_SIZE) <> Z.land (PageTable.cr3 s) 0xFFFFF000 ->
  u32 (u32 (f * PageTable.PAGE_SIZE) + PageTable.PAGE_SIZE)
    <= PageTable.shared_size s ->
  FramePool.get_frames 1 (PageTable.process_mem_pool s) = Some (g, pp) ->
  exists s',
    PageTable.MP3.handle_fault err_code va s = Some s' /\
    fault_serviced_as_specified err_code va s s'.
Proof.
  intros Hva Hcr3 Herr Hpde Hk Hapart Hshared Hp.
  destruct (directory_index_range va Hva) as [Hpdi Hpdi_eq].
  pose proof (table_index_range (Z.shiftr va 12)) as Hpti.
  destruct (directory_address s Hcr3) as [Hpd Hpd_al].
  destruct (frame_address f) as [Hphys Hphys_al].
  destruct (frame_address g) as [Hgphys Hgphys_al].
  destruct (entry_flags_range err_code) as [Hfl Hfl_odd].
  set (pd := PageTable.MP3.page_directory s) in *.
  set (pdi := Z.shiftr va 22) in *.
  set (pti := Z.land (Z.shiftr va 12) 0x3FF) in *.
  set (phys := u32 (f * PageTable.PAGE_SIZE)) in *.
  set (gphys := u32 (g * PageTable.PAGE_SIZE)) in *.
  set (flags := PageTable.entry_flags err_code) in *.
  assert (Hflags : (if negb (Z.land err_code 4 =? 0)
                    then PageTable.USER_RW else PageTable.KERNEL_RW) = flags).
  { unfold flags, PageTable.entry_flags.
    destruct (Z.land err_code 4 =? 0); reflexivity. }
  assert (Hpde_slot : PageTable.slot pd pdi = pd + 4 * pdi)
    by (apply slot_in_page; assumption).
  assert (Hslots : forall i, 0 <= i < 1024 ->
                             PageTable.slot phys i = phys + 4 * i)
    by (intros; apply slot_in_page; assumption).
  assert (Hne : forall i, 0 <= i < 1024 ->
                          PageTable.slot pd pdi <> PageTable.slot phys i).
  { intros i Hi. rewrite Hpde_slot, Hslots by exact Hi.
    apply pages_apart; auto. }
  set (m1 := PageTable.fill_table phys 0
               (PageTable.store (PageTable.memory s) (PageTable.slot pd pdi)
                  (Z.lor phys flags))).
  set (m2 := PageTable.store m1 (PageTable.slot phys pti)
               (Z.lor gphys flags)).
  assert (Hm1_pde : m1 (PageTable.slot pd pdi) = Z.lor phys flags).
  { unfold m1. rewrite fill_table_out by exact Hne.
    unfold PageTable.store. rewrite Z.eqb_refl. reflexivity. }
  assert (Hm1_tab : forall i, 0 <= i < 1024 -> m1 (PageTable.slot phys i) = 0)
    by (intros i Hi; unfold m1; apply fill_table_in; exact Hi).
  exists (PageTable.with_memory m2
            (PageTable.with_process_pool pp
               (PageTable.with_memory m1 (PageTable.with_kernel_pool kp s)))).
  split.
  - unfold PageTable.MP3.handle_fault. rewrite Herr. simpl negb. cbv iota.
    unfold PageTable.MP3.install_page_table.
    unfold PageTable.MP3.page_directory_index. fold pdi pd.
    rewrite Hpdi_eq.
    change (Z.land (PageTable.memory s (PageTable.slot pd pdi)) 1 = 0)
      in Hpde.
    unfold PageTable.load, PageTable.PRESENT. rewrite Hpde. simpl Z.eqb.
    cbv iota. rewrite Hk. fold phys.
    destruct (Z.leb_spec (u32 (phys + PageTable.PAGE_SIZE))
                (PageTable.shared_size s)); [|lia].
    rewrite Hflags. fold m1.
    unfold PageTable.MP3.install_page. simpl PageTable.memory.
    unfold PageTable.MP3.page_directory, PageTable.MP3.page_directory_index.
    simpl PageTable.cr3. fold pdi. rewrite Hpdi_eq.
    change (Z.land (PageTable.cr3 s) 4294963200) with pd.
    unfold PageTable.MP3.page_table_index. fold pti.
    unfold PageTable.load. rewrite Hm1_pde.
    rewrite entry_address by assumption.
    rewrite Hm1_tab by exact Hpti. simpl Z.eqb. cbv iota.
    simpl PageTable.process_mem_pool. rewrite Hp. fold gphys.
    rewrite Hflags. reflexivity.
  - exists f, kp, g, pp. split; [exact Hk|]. split; [exact Hp|].
    split; [reflexivity|]. split; [reflexivity|]. split.
    + unfold PageTable.pde_of, PageTable.load. simpl.
      change (Z.land (PageTable.cr3 s) 4294963200) with pd. fold pdi.
      unfold m2, PageTable.store.
      destruct (Z.eqb_spec (PageTable.slot pd pdi) (PageTable.slot phys pti))
        as [Heq|_]; [exfalso; exact (Hne pti Hpti Heq)|].
      exact Hm1_pde.
    + intros i Hi. unfold PageTable.table_entry, PageTable.load. simpl.
      fold phys pti gphys flags. unfold m2, PageTable.store.
      rewrite !Hslots by assumption.
      destruct (Z.eqb_spec i pti) as [->|Hnei].
      * rewrite Z.eqb_refl. reflexivity.
      * destruct (Z.eqb_spec (phys + 4 * i) (phys + 4 * pti)); [lia|].
        rewrite <- Hslots by exact Hi. apply Hm1_tab. exact Hi.
Qed.

(** The handler of MP3 on an address that is already mapped: a
    not-present fault leaves the whole state as it is, a protection fault
    halts; no frame leaves a pool either way. *)
Lemma mp3_mapped_fault_allocates_nothing err_code va s :
  0 <= va < 2 ^ 32 ->
  PageTable.mapped s va ->
  (Z.land err_code 1 = 0 ->
   PageTable.MP3.handle_fault err_code va s = Some s) /\
  (Z.land err_code 1 <> 0 ->
   PageTable.MP3.handle_fault err_code va s = None).
Proof.
  intros Hva [Hpde Hpte].
  destruct (directory_index_range va Hva) as [Hpdi Hpdi_eq].
  unfold PageTable.MP3.handle_fault. split; intros Herr.
  - rewrite Herr. simpl negb. cbv iota.
    unfold PageTable.MP3.install_page_table, PageTable.MP3.page_directory,
      PageTable.MP3.page_directory_index.
    rewrite Hpdi_eq. unfold PageTable.pde_of in Hpde.
    unfold PageTable.PRESENT. rewrite Hpde. simpl Z.eqb. cbv iota.
    unfold PageTable.MP3.install_page, PageTable.MP3.page_directory,
      PageTable.MP3.page_directory_index, PageTable.MP3.page_table_index.
    rewrite Hpdi_eq. unfold PageTable.pte_of, PageTable.pde_of in Hpte.
    unfold PageTable.PRESENT. rewrite Hpte. reflexivity.
  - destruct (Z.eqb_spec (Z.land err_code 1) 0); [contradiction|].
    reflexivity.
Qed.

Lemma pool_walk_flags va pools :
  fst (PageTable.MP4.pool_walk va pools)
  = snd (PageTable.MP4.pool_walk va pools).
Proof.
  induction pools as [|pool rest IH]; simpl; [reflexivity|].
  destruct (VMPool.is_legitimate va pool); [reflexivity|exact IH].
Qed.

(** The MMU's walk for an address in the window of directory index 1023. *)
Lemma translate_window s a b T fl :
  recursive_mapping s ->
  0 <= a < 1024 -> 0 <= b < 1024 ->
  PageTable.load (PageTable.memory s) (PageTable.slot (PageTable.cr3 s) a)
    = Z.lor T fl ->
  0 <= T < 2 ^ 32 -> T mod 4096 = 0 -> 0 <= fl < 4096 -> fl mod 2 = 1 ->
  PageTable.MP4.translate s (0xFFC00000 + 4096 * a + 4 * b)
  = Some (PageTable.slot T b).
Proof.
  intros (Hcr3 & Hal & Hrec) Ha Hb Hentry HT HTal Hfl Hodd.
  unfold PageTable.MP4.translate.
  set (va := 0xFFC00000 + 4096 * a + 4 * b).
  assert (H1 : Z.shiftr va 22 = 1023).
  { rewrite Z.shiftr_div_pow2 by lia. change (2 ^ 22) with 4194304.
    unfold va. Z.div_mod_to_equations. lia. }
  assert (H2 : Z.land (Z.shiftr va 12) 0x3FF = a).
  { change 0x3FF with (Z.ones 10). rewrite Z.land_ones by lia.
    rewrite Z.shiftr_div_pow2 by lia.
    change (2 ^ 12) with 4096. change (2 ^ 10) with 1024.
    unfold va. Z.div_mod_to_equations. lia. }
  assert (H3 : Z.land va 0xFFF = 4 * b).
  { change 0xFFF with (Z.ones 12). rewrite Z.land_ones by lia.
    change (2 ^ 12) with 4096. unfold va. Z.div_mod_to_equations. lia. }
  rewrite H1, Hrec.
  rewrite (entry_present (PageTable.cr3 s) 3) by (try lia; exact Hal).
  simpl Z.eqb. cbv iota.
  rewrite (entry_address (PageTable.cr3 s) 3) by (try lia; assumption).
  rewrite H2, Hentry, H3.
  rewrite (entry_present T fl) by assumption. rewrite Hodd.
  simpl Z.eqb. cbv iota.
  rewrite (entry_address T fl) by assumption. reflexivity.
Qed.

Lemma mp4_table_index va :
  Z.shiftr (Z.land va (Z.shiftl 0x03FF 12)) 12
  = Z.land (Z.shiftr va 12) 0x3FF.
Proof. rewrite Z.shiftr_land. reflexivity. Qed.

Lemma mp4_page_entry pdi :
  0 <= pdi < 1024 ->
  Z.lor (Z.shiftl 0x3FF 22) (Z.shiftl pdi 12) = 0xFFC00000 + 4096 * pdi.
Proof.
  intros Hpdi. rewrite (Z.shiftl_mul_pow2 pdi) by lia.
  change (Z.shiftl 0x3FF 22) with 0xFFC00000. change (2 ^ 12) with 4096.
  rewrite (lor_disjoint_add 0xFFC00000 (pdi * 4096) 22);
    [lia|lia|reflexivity|].
  change (2 ^ 22) with 4194304. lia.
Qed.

(** *** The handler of MP4 *)

Lemma mp4_handle_fault_step fuel err_code fault_address s :
  PageTable.MP4.handle_fault (S fuel) err_code fault_address s
  = if Z.land err_code 1 =? 0 then
      let page_dir := PageTable.cr3 s in
      let page_dir_index := Z.shiftr fault_address 22 in
      let page_table_index :=
        Z.shiftr (Z.land fault_address (Z.shiftl 0x03FF 12)) 12 in
      let '(tmp_not_null, present_flag) :=
        PageTable.MP4.pool_walk fault_address (PageTable.vm_pool_head s) in
      if tmp_not_null && negb present_flag then None
      else if Z.land (PageTable.load (PageTable.memory s)
                        (PageTable.slot page_dir page_dir_index)) 1 =? 0
      then
        match FramePool.get_frames 1 (PageTable.process_mem_pool s) with
        | None => None
        | Some (frame, pp) =>
            let new_page_table := u32 (frame * PageTable.PAGE_SIZE) in
            let s := PageTable.with_process_pool pp s in
            let new_pde := u32 (Z.shiftl 0xFFFFF 12) in
            match PageTable.MP4.store_through
                    (PageTable.MP4.handle_fault fuel) fuel
                    (PageTable.slot new_pde page_dir_index)
                    (Z.lor new_page_table 3) s with
            | None => None
            | Some s =>
                match PageTable.MP4.fill_through
                        (PageTable.MP4.handle_fault fuel) fuel
                        new_page_table 4 s with
                | None => None
                | Some s =>
                    PageTable.MP4.map_page (PageTable.MP4.handle_fault fuel)
                      fuel page_dir_index page_table_index s
                end
            end
        end
      else PageTable.MP4.map_page (PageTable.MP4.handle_fault fuel) fuel
             page_dir_index page_table_index s
    else Some s.
Proof. reflexivity. Qed.

(** A store whose walk succeeds raises no fault. *)
Lemma store_through_mapped handler tries va v s pa :
  PageTable.MP4.translate s va = Some pa ->
  PageTable.MP4.store_through handler tries va v s
  = Some (PageTable.with_memory
            (PageTable.store (PageTable.memory s) pa v) s).
Proof. intros H. destruct tries; simpl; rewrite H; reflexivity. Qed.

(** A store whose walk fails, and succeeds once the handler has run. *)
Lemma store_through_faults handler tries va v s s1 pa :
  PageTable.MP4.translate s va = None ->
  handler 2 va s = Some s1 ->
  PageTable.MP4.translate s1 va = Some pa ->
  PageTable.MP4.store_through handler (S tries) va v s
  = Some (PageTable.with_memory
            (PageTable.store (PageTable.memory s1) pa v) s1).
Proof.
  intros H0 H1 H2. simpl. rewrite H0, H1.
  apply store_through_mapped. exact H2.
Qed.

(** The walk of an address, from the two entries it reads. *)
Lemma translate_entries s va T fl P pfl :
  PageTable.memory s (PageTable.slot (PageTable.cr3 s) (Z.shiftr va 22))
    = Z.lor T fl ->
  0 <= T < 2 ^ 32 -> T mod 4096 = 0 -> 0 <= fl < 4096 -> fl mod 2 = 1 ->
  PageTable.memory s (PageTable.slot T (Z.land (Z.shiftr va 12) 0x3FF))
    = Z.lor P pfl ->
  0 <= P < 2 ^ 32 -> P mod 4096 = 0 -> 0 <= pfl < 4096 -> pfl mod 2 = 1 ->
  PageTable.MP4.translate s va = Some (u32 (P + Z.land va 0xFFF)).
Proof.
  intros Hpde HT HTal Hfl Hodd Hpte HP HPal Hpfl Hpodd.
  unfold PageTable.MP4.translate, PageTable.load. rewrite Hpde.
  rewrite (entry_present T fl) by assumption. rewrite Hodd.
  simpl Z.eqb. cbv iota.
  rewrite (entry_address T fl) by assumption. rewrite Hpte.
  rewrite (entry_present P pfl) by assumption. rewrite Hpodd.
  simpl Z.eqb. cbv iota.
  rewrite (entry_address P pfl) by assumption. reflexivity.
Qed.

Lemma translate_absent s va T fl :
  PageTable.memory s (PageTable.slot (PageTable.cr3 s) (Z.shiftr va 22))
    = Z.lor T fl ->
  0 <= T < 2 ^ 32 -> T mod 4096 = 0 -> 0 <= fl < 4096 -> fl mod 2 = 1 ->
  Z.land (PageTable.memory s
            (PageTable.slot T (Z.land (Z.shiftr va 12) 0x3FF))) 1 = 0 ->
  PageTable.MP4.translate s va = None.
Proof.
  intros Hpde HT HTal Hfl Hodd Hpte.
  unfold PageTable.MP4.translate, PageTable.load. rewrite Hpde.
  rewrite (entry_present T fl) by assumption. rewrite Hodd.
  simpl Z.eqb. cbv iota.
  rewrite (entry_address T fl) by assumption. rewrite Hpte. reflexivity.
Qed.

(** The indices and the offset of a word of the page at [T]. *)
Lemma page_word_indices T j :
  0 <= T < 2 ^ 32 -> T mod 4096 = 0 -> 0 <= j < 1024 ->
  Z.shiftr (PageTable.slot T j) 22 = Z.shiftr T 22 /\
  Z.land (Z.shiftr (PageTable.slot T j) 12) 0x3FF
    = Z.land (Z.shiftr T 12) 0x3FF /\
  Z.land (PageTable.slot T j) 0xFFF = 4 * j /\
  0 <= PageTable.slot T j < 2 ^ 32.
Proof.
  intros HT Hal Hj. rewrite slot_in_page by assumption.
  rewrite !Z.shiftr_div_pow2 by lia.
  change 0x3FF with (Z.ones 10). change 0xFFF with (Z.ones 12).
  rewrite !Z.land_ones by lia.
  change (2 ^ 22) with 4194304. change (2 ^ 12) with 4096.
  change (2 ^ 10) with 1024. change (2 ^ 32) with 4294967296 in *.
  repeat split; Z.div_mod_to_equations; lia.
Qed.

(** The handler of MP4 on a not-present fault whose directory entry is
    present: it never looks at the page-table entry; a frame leaves the
    process pool and is written over the entry, whatever it held. *)
Lemma mp4_present_directory_entry fuel err_code va s T fl g pp :
  0 <= va < 2 ^ 32 ->
  Z.land err_code 1 = 0 ->
  recursive_mapping s ->
  PageTable.pde_of s va = Z.lor T fl ->
  0 <= T < 2 ^ 32 -> T mod 4096 = 0 -> 0 <= fl < 4096 -> fl mod 2 = 1 ->
  FramePool.get_frames 1 (PageTable.process_mem_pool s) = Some (g, pp) ->
  PageTable.MP4.handle_fault (S fuel) err_code va s
  = Some (PageTable.with_memory
            (PageTable.store (PageTable.memory s)
               (PageTable.slot T (Z.land (Z.shiftr va 12) 0x3FF))
               (Z.lor (u32 (g * PageTable.PAGE_SIZE)) 3))
            (PageTable.with_process_pool pp s)).
Proof.
  intros Hva Herr Hrm Hpde HT HTal Hfl Hodd Hg.
  pose proof Hrm as (Hcr3 & Hal & Hrec).
  destruct (directory_index_range va Hva) as [Hpdi _].
  pose proof (table_index_range (Z.shiftr va 12)) as Hpti.
  assert (Hmask : Z.land (PageTable.cr3 s) 0xFFFFF000 = PageTable.cr3 s).
  { rewrite land_page_mask by exact Hcr3. Z.div_mod_to_equations. lia. }
  unfold PageTable.pde_of in Hpde. rewrite Hmask in Hpde.
  rewrite mp4_handle_fault_step. rewrite Herr. simpl Z.eqb. cbv iota zeta.
  pose proof (pool_walk_flags va (PageTable.vm_pool_head s)) as Hwalk.
  destruct (PageTable.MP4.pool_walk va (PageTable.vm_pool_head s))
    as [tmp_not_null present_flag].
  simpl in Hwalk. subst present_flag. rewrite andb_negb_r.
  rewrite Hpde. rewrite (entry_present T fl) by assumption. rewrite Hodd.
  simpl Z.eqb. cbv iota.
  unfold PageTable.MP4.map_page. rewrite Hg.
  rewrite mp4_page_entry by exact Hpdi. rewrite mp4_table_index.
  replace (PageTable.slot (0xFFC00000 + 4096 * Z.shiftr va 22)
             (Z.land (Z.shiftr va 12) 0x3FF))
    with (0xFFC00000 + 4096 * Z.shiftr va 22
          + 4 * Z.land (Z.shiftr va 12) 0x3FF)
    by (unfold PageTable.slot; rewrite u32_small; lia).
  apply (store_through_mapped _ _ _ _ (PageTable.with_process_pool pp s)).
  apply (translate_window (PageTable.with_process_pool pp s)
           (Z.shiftr va 22) (Z.land (Z.shiftr va 12) 0x3FF) T fl);
    first [assumption | exact Hrm | reflexivity].
Qed.

(** The loop that fills a page through a pointer whose walk succeeds for
    every word, whatever the loop has stored so far. *)
Lemma fill_through_mapped handler tries T H v s js :
  (forall m j, 0 <= j < 1024 ->
     (forall a, (forall i, 0 <= i < 1024 -> a <> PageTable.slot H i) ->
                m a = PageTable.memory s a) ->
     PageTable.MP4.translate (PageTable.with_memory m s) (PageTable.slot T j)
     = Some (PageTable.slot H j)) ->
  (forall j, j ∈ js -> 0 <= j < 1024) ->
  forall m,
    (forall a, (forall i, 0 <= i < 1024 -> a <> PageTable.slot H i) ->
               m a = PageTable.memory s a) ->
    foldl (fun os index =>
             match os with
             | None => None
             | Some s0 =>
                 PageTable.MP4.store_through handler tries
                   (PageTable.slot T index) v s0
             end)
          (Some (PageTable.with_memory m s)) js
    = Some (PageTable.with_memory
              (foldl (fun m entry =>
                        PageTable.store m (PageTable.slot H entry) v) m js)
              s).
Proof.
  intros Htr. induction js as [|j js IH]; intros Hjs m Hm; [reflexivity|].
  cbn [foldl].
  rewrite (store_through_mapped handler tries _ v _ (PageTable.slot H j))
    by (apply Htr; [apply Hjs; left|exact Hm]).
  change (PageTable.with_memory
            (PageTable.store (PageTable.memory (PageTable.with_memory m s))
               (PageTable.slot H j) v) (PageTable.with_memory m s))
    with (PageTable.with_memory
            (PageTable.store m (PageTable.slot H j) v) s).
  apply IH.
  - intros j' Hj'. apply Hjs. right. exact Hj'.
  - intros a Ha. unfold PageTable.store.
    destruct (Z.eqb_spec a (PageTable.slot H j)) as [Heq|_].
    + exfalso. apply (Ha j); [apply Hjs; left|exact Heq].
    + apply Hm. exact Ha.
Qed.

Lemma slots_apart X Y i j :
  0 <= X < 2 ^ 32 -> X mod 4096 = 0 -> 0 <= Y < 2 ^ 32 -> Y mod 4096 = 0 ->
  X <> Y -> 0 <= i < 1024 -> 0 <= j < 1024 ->
  PageTable.slot X i <> PageTable.slot Y j.
Proof.
  intros HX HXal HY HYal Hne Hi Hj.
  rewrite !slot_in_page by assumption.
  apply pages_apart; try assumption. intros Heq. apply Hne. symmetry. exact Heq.
Qed.

(** The handler of MP4 on a fault whose directory entry is missing, when
    the address of the new table is not mapped but lies under a present
    directory entry.  The store that starts the fill loop faults; the
    nested handler maps a frame [h] at the table's address, and the loop
    fills that frame instead of the table. *)
Lemma mp4_first_fault fuel err_code va s f pp1 h pp2 g pp3 T2 :
  0 <= va < 2 ^ 32 ->
  Z.land err_code 1 = 0 ->
  recursive_mapping s ->
  Z.land (PageTable.pde_of s va) 1 = 0 ->
  FramePool.get_frames 1 (PageTable.process_mem_pool s) = Some (f, pp1) ->
  FramePool.get_frames 1 pp1 = Some (h, pp2) ->
  FramePool.get_frames 1 pp2 = Some (g, pp3) ->
  u32 (f * PageTable.PAGE_SIZE) <> PageTable.cr3 s ->
  u32 (h * PageTable.PAGE_SIZE) <> PageTable.cr3 s ->
  u32 (h * PageTable.PAGE_SIZE) <> u32 (f * PageTable.PAGE_SIZE) ->
  T2 <> PageTable.cr3 s ->
  u32 (h * PageTable.PAGE_SIZE) <> T2 ->
  unmapped_under s va (u32 (f * PageTable.PAGE_SIZE)) T2 ->
  exists s',
    PageTable.MP4.handle_fault (S (S fuel)) err_code va s = Some s' /\
    PageTable.cr3 s' = PageTable.cr3 s /\
    recursive_mapping s' /\
    PageTable.kernel_mem_pool s' = PageTable.kernel_mem_pool s /\
    PageTable.process_mem_pool s' = pp3 /\
    PageTable.pde_of s' va = Z.lor (u32 (f * PageTable.PAGE_SIZE)) 3 /\
    PageTable.pte_of s' va = Z.lor (u32 (g * PageTable.PAGE_SIZE)) 3 /\
    (forall i, 0 <= i < 1024 -> PageTable.table_entry s' h i = 4) /\
    (forall i, 0 <= i < 1024 ->
       i <> Z.land (Z.shiftr va 12) 0x3FF ->
       PageTable.slot (u32 (f * PageTable.PAGE_SIZE)) i
       <> PageTable.slot T2
            (Z.land (Z.shiftr (u32 (f * PageTable.PAGE_SIZE)) 12) 0x3FF) ->
       PageTable.table_entry s' f i
       = PageTable.memory s (PageTable.slot (u32 (f * PageTable.PAGE_SIZE)) i)).
Proof.
  intros Hva Herr Hrm Hpde Hf Hh Hg HTc HHc HHT HT2c HHT2
    (fl & HT2e & HT2 & HT2al & Hfl & Hodd & Habs).
  pose proof Hrm as (Hcr3 & Hal & Hrec).
  destruct (directory_index_range va Hva) as [Hpdi _].
  pose proof (table_index_range (Z.shiftr va 12)) as Hpti.
  destruct (frame_address f) as [HT HTal].
  destruct (frame_address h) as [HH HHal].
  destruct (frame_address g) as [HG HGal].
  assert (Hmask : Z.land (PageTable.cr3 s) 0xFFFFF000 = PageTable.cr3 s).
  { rewrite land_page_mask by exact Hcr3. Z.div_mod_to_equations. lia. }
  unfold PageTable.pde_of in Hpde. rewrite Hmask in Hpde.
  set (c := PageTable.cr3 s) in *.
  set (pdi := Z.shiftr va 22) in *.
  set (pti := Z.land (Z.shiftr va 12) 0x3FF) in *.
  set (T := u32 (f * PageTable.PAGE_SIZE)) in *.
  set (H := u32 (h * PageTable.PAGE_SIZE)) in *.
  set (G := u32 (g * PageTable.PAGE_SIZE)) in *.
  set (pdiT := Z.shiftr T 22) in *.
  set (ptiT := Z.land (Z.shiftr T 12) 0x3FF) in *.
  destruct (directory_index_range T HT) as [HpdiT _]. fold pdiT in HpdiT.
  pose proof (table_index_range (Z.shiftr T 12)) as HptiT. fold ptiT in HptiT.
  assert (Hpdi_ne : pdi <> 1023).
  { intros Heq. rewrite Heq, Hrec in Hpde.
    rewrite (entry_present c 3) in Hpde by (try lia; exact Hal).
    discriminate Hpde. }
  assert (Hdir : forall i j, 0 <= i < 1024 -> 0 <= j < 1024 -> i <> j ->
                   PageTable.slot c i <> PageTable.slot c j).
  { intros i j Hi Hj Hij. rewrite !slot_in_page by assumption. lia. }
  assert (HcT : forall i j, 0 <= i < 1024 -> 0 <= j < 1024 ->
                  PageTable.slot c i <> PageTable.slot T j).
  { intros. apply slots_apart; auto. }
  assert (HcT2 : forall i j, 0 <= i < 1024 -> 0 <= j < 1024 ->
                  PageTable.slot c i <> PageTable.slot T2 j).
  { intros. apply slots_apart; auto. }
  assert (HcH : forall i j, 0 <= i < 1024 -> 0 <= j < 1024 ->
                  PageTable.slot c i <> PageTable.slot H j).
  { intros. apply slots_apart; auto. }
  assert (HT2H : forall i j, 0 <= i < 1024 -> 0 <= j < 1024 ->
                  PageTable.slot T2 i <> PageTable.slot H j).
  { intros. apply slots_apart; auto. }
  assert (HTH : forall i j, 0 <= i < 1024 -> 0 <= j < 1024 ->
                  PageTable.slot T i <> PageTable.slot H j).
  { intros. apply slots_apart; auto. }
  set (m := PageTable.memory s) in *.
  set (m1 := PageTable.store m (PageTable.slot c pdi) (Z.lor T 3)) in *.
  set (m2 := PageTable.store m1 (PageTable.slot T2 ptiT) (Z.lor H 3)).
  set (m3 := PageTable.fill_table H 4 m2).
  set (m4 := PageTable.store m3 (PageTable.slot T pti) (Z.lor G 3)).
  set (s1 := PageTable.with_memory m1 (PageTable.with_process_pool pp1 s)).
  set (s2 := PageTable.with_memory m2 (PageTable.with_process_pool pp2 s1)).
  set (s3 := PageTable.with_memory m3 s2).
  set (s4 := PageTable.with_memory m4 (PageTable.with_process_pool pp3 s3)).
  (* the directory and the table of [T], store by store *)
  assert (Hm1_dir : forall i, 0 <= i < 1024 ->
            m1 (PageTable.slot c i)
            = if i =? pdi then Z.lor T 3 else m (PageTable.slot c i)).
  { intros i Hi. unfold m1, PageTable.store.
    destruct (Z.eqb_spec i pdi) as [->|Hi'].
    - rewrite Z.eqb_refl. reflexivity.
    - destruct (Z.eqb_spec (PageTable.slot c i) (PageTable.slot c pdi))
        as [Heq|_]; [|reflexivity].
      exfalso. exact (Hdir i pdi Hi Hpdi Hi' Heq). }
  assert (Hm2_dir : forall i, 0 <= i < 1024 ->
            m2 (PageTable.slot c i) = m1 (PageTable.slot c i)).
  { intros i Hi. unfold m2, PageTable.store.
    destruct (Z.eqb_spec (PageTable.slot c i) (PageTable.slot T2 ptiT))
      as [Heq|_]; [|reflexivity].
    exfalso. exact (HcT2 i ptiT Hi HptiT Heq). }
  assert (Hm3_out : forall a,
            (forall i, 0 <= i < 1024 -> a <> PageTable.slot H i) ->
            m3 a = m2 a).
  { intros a Ha. unfold m3. apply fill_table_out. exact Ha. }
  assert (Hm3_dir : forall i, 0 <= i < 1024 ->
            m3 (PageTable.slot c i) = m1 (PageTable.slot c i)).
  { intros i Hi. rewrite Hm3_out by (intros j Hj; apply HcH; assumption).
    apply Hm2_dir. exact Hi. }
  assert (Hrec1 : m1 (PageTable.slot c 1023) = Z.lor c 3).
  { rewrite Hm1_dir by lia.
    destruct (Z.eqb_spec 1023 pdi); [congruence|]. exact Hrec. }
  assert (Hrm1 : recursive_mapping s1).
  { split; [exact Hcr3|]. split; [exact Hal|]. exact Hrec1. }
  assert (Hrm3 : recursive_mapping (PageTable.with_process_pool pp3 s3)).
  { split; [exact Hcr3|]. split; [exact Hal|].
    cbn. fold c. unfold PageTable.load. rewrite Hm3_dir by lia. exact Hrec1. }
  (* the walk of the table's own address *)
  destruct (page_word_indices T 0 HT HTal ltac:(lia)) as (Hw1 & Hw2 & _ & Hw4).
  fold pdiT in Hw1. fold ptiT in Hw2.
  assert (Hwalk1 : PageTable.MP4.translate s1 (PageTable.slot T 0) = None).
  { apply (translate_absent s1 _ T2 fl); try assumption.
    - cbn. fold c. rewrite Hw1. exact HT2e.
    - cbn. rewrite Hw2. unfold m1, PageTable.store.
      destruct (Z.eqb_spec (PageTable.slot T2 ptiT) (PageTable.slot c pdi))
        as [Heq|_]; [|exact Habs].
      exfalso. exact (HcT2 pdi ptiT Hpdi HptiT (eq_sym Heq)). }
  assert (Hnested : PageTable.MP4.handle_fault (S fuel) 2 (PageTable.slot T 0) s1
                    = Some s2).
  { rewrite (mp4_present_directory_entry fuel 2 (PageTable.slot T 0) s1
               T2 fl h pp2); try assumption; try reflexivity.
    - rewrite Hw2. reflexivity.
    - unfold PageTable.pde_of, PageTable.load. cbn. fold c.
      rewrite Hmask, Hw1. exact HT2e. }
  assert (Hwalk2 : forall m' j, 0 <= j < 1024 ->
            (forall a, (forall i, 0 <= i < 1024 -> a <> PageTable.slot H i) ->
                       m' a = PageTable.memory s2 a) ->
            PageTable.MP4.translate (PageTable.with_memory m' s2)
              (PageTable.slot T j)
            = Some (PageTable.slot H j)).
  { intros m' j Hj Hm'.
    destruct (page_word_indices T j HT HTal Hj) as (Hj1 & Hj2 & Hj3 & _).
    rewrite (translate_entries _ _ T2 fl H 3); try assumption;
      try lia; try reflexivity.
    - rewrite Hj3. reflexivity.
    - cbn. fold c. rewrite Hj1. fold pdiT.
      rewrite Hm' by (intros i Hi; apply HcH; assumption).
      cbn. rewrite Hm2_dir by exact HpdiT. exact HT2e.
    - cbn. rewrite Hj2. fold ptiT.
      rewrite Hm' by (intros i Hi; apply HT2H; assumption).
      cbn. unfold m2, PageTable.store. rewrite Z.eqb_refl. reflexivity. }
  exists s4. split.
  - rewrite mp4_handle_fault_step. rewrite Herr. simpl Z.eqb. cbv iota zeta.
    pose proof (pool_walk_flags va (PageTable.vm_pool_head s)) as Hwalk.
    destruct (PageTable.MP4.pool_walk va (PageTable.vm_pool_head s))
      as [tmp_not_null present_flag].
    simpl in Hwalk. subst present_flag.
    rewrite andb_negb_r. fold c pdi.
    unfold PageTable.load in Hpde |- *. fold m. rewrite Hpde.
    simpl Z.eqb. cbv iota. rewrite Hf. fold T.
    change (u32 (Z.shiftl 0xFFFFF 12)) with 0xFFFFF000.
    replace (PageTable.slot 0xFFFFF000 pdi)
      with (0xFFC00000 + 4096 * 1023 + 4 * pdi)
      by (rewrite slot_in_page by (try lia; reflexivity); lia).
    rewrite (store_through_mapped _ _ _ _
               (PageTable.with_process_pool pp1 s) (PageTable.slot c pdi))
      by (apply (translate_window (PageTable.with_process_pool pp1 s)
                   1023 pdi c 3);
          first [assumption | lia | exact Hrm | reflexivity]).
    change (PageTable.with_memory
              (PageTable.store
                 (PageTable.memory (PageTable.with_process_pool pp1 s))
                 (PageTable.slot c pdi) (Z.lor T 3))
              (PageTable.with_process_pool pp1 s)) with s1.
    unfold PageTable.MP4.fill_through.
    rewrite (seqZ_cons 0 1024) by lia. cbn [foldl].
    rewrite (store_through_faults _ fuel _ _ s1 s2 (PageTable.slot H 0)
               Hwalk1 Hnested)
      by (apply (Hwalk2 m2 0 ltac:(lia)); intros; reflexivity).
    change (PageTable.with_memory
              (PageTable.store (PageTable.memory s2) (PageTable.slot H 0) 4)
              s2)
      with (PageTable.with_memory
              (PageTable.store m2 (PageTable.slot H 0) 4) s2).
    rewrite (fill_through_mapped _ _ T H 4 s2
               (seqZ (Z.succ 0) (Z.pred 1024)) Hwalk2).
    + change (foldl (fun m0 entry =>
                       PageTable.store m0 (PageTable.slot H entry) 4)
                (PageTable.store m2 (PageTable.slot H 0) 4)
                (seqZ (Z.succ 0) (Z.pred 1024)))
        with (foldl (fun m0 entry =>
                       PageTable.store m0 (PageTable.slot H entry) 4)
                m2 (0 :: seqZ (Z.succ 0) (Z.pred 1024))).
      rewrite <- (seqZ_cons 0 1024) by lia.
      change (foldl (fun m0 entry =>
                       PageTable.store m0 (PageTable.slot H entry) 4)
                m2 (seqZ 0 1024)) with m3.
      fold s3.
      unfold PageTable.MP4.map_page.
      change (PageTable.process_mem_pool s3) with pp2. rewrite Hg. fold G.
      rewrite mp4_page_entry by exact Hpdi.
      rewrite mp4_table_index. fold pti.
      replace (PageTable.slot (0xFFC00000 + 4096 * pdi) pti)
        with (0xFFC00000 + 4096 * pdi + 4 * pti)
        by (unfold PageTable.slot; rewrite u32_small; lia).
      rewrite (store_through_mapped _ _ _ _
                 (PageTable.with_process_pool pp3 s3) (PageTable.slot T pti)).
      * reflexivity.
      * apply (translate_window (PageTable.with_process_pool pp3 s3)
                 pdi pti T 3);
          first [assumption | lia | reflexivity | exact Hrm3 | idtac].
        cbn. fold c. unfold PageTable.load. rewrite Hm3_dir by exact Hpdi.
        rewrite Hm1_dir by exact Hpdi. rewrite Z.eqb_refl. reflexivity.
    + intros j Hj. apply elem_of_seqZ in Hj. lia.
    + intros a Ha. unfold PageTable.store.
      destruct (Z.eqb_spec a (PageTable.slot H 0)) as [Heq|_]; [|reflexivity].
      exfalso. exact (Ha 0 ltac:(lia) Heq).
  - assert (Hm4_dir : forall i, 0 <= i < 1024 ->
              m4 (PageTable.slot c i) = m1 (PageTable.slot c i)).
    { intros i Hi. unfold m4, PageTable.store.
      destruct (Z.eqb_spec (PageTable.slot c i) (PageTable.slot T pti))
        as [Heq|_]; [exfalso; exact (HcT i pti Hi Hpti Heq)|].
      apply Hm3_dir. exact Hi. }
    split; [reflexivity|]. split.
    { split; [exact Hcr3|]. split; [exact Hal|].
      cbn. fold c. unfold PageTable.load. rewrite Hm4_dir by lia.
      exact Hrec1. }
    split; [reflexivity|]. split; [reflexivity|].
    assert (Hpde4 : PageTable.pde_of s4 va = Z.lor T 3).
    { unfold PageTable.pde_of, PageTable.load. cbn. fold c.
      rewrite Hmask. fold pdi. rewrite Hm4_dir by exact Hpdi.
      rewrite Hm1_dir by exact Hpdi. rewrite Z.eqb_refl. reflexivity. }
    split; [exact Hpde4|]. split; [|split].
    + unfold PageTable.pte_of. rewrite Hpde4.
      rewrite (entry_address T 3) by (try lia; assumption).
      fold pti. unfold PageTable.load. cbn.
      unfold m4, PageTable.store. rewrite Z.eqb_refl. reflexivity.
    + intros i Hi. unfold PageTable.table_entry, PageTable.load. cbn.
      fold H. unfold m4, PageTable.store.
      destruct (Z.eqb_spec (PageTable.slot H i) (PageTable.slot T pti))
        as [Heq|_]; [exfalso; exact (HTH pti i Hpti Hi (eq_sym Heq))|].
      unfold m3. apply fill_table_in. exact Hi.
    + intros i Hi Hipti HiT2.
      unfold PageTable.table_entry, PageTable.load. cbn. fold T.
      unfold m4, PageTable.store.
      destruct (Z.eqb_spec (PageTable.slot T i) (PageTable.slot T pti))
        as [Heq|_].
      { rewrite !slot_in_page in Heq by assumption. lia. }
      rewrite Hm3_out by (intros j Hj; apply HTH; assumption).
      unfold m2, PageTable.store.
      destruct (Z.eqb_spec (PageTable.slot T i) (PageTable.slot T2 ptiT))
        as [Heq|_]; [contradiction|].
      unfold m1, PageTable.store.
      destruct (Z.eqb_spec (PageTable.slot T i) (PageTable.slot c pdi))
        as [Heq|_]; [exfalso; exact (HcT pdi i Hpdi Hi (eq_sym Heq))|].
      reflexivity.
Qed.

(** The handler of MP4 takes no frame from the kernel pool, however deep
    its faults nest. *)
Lemma get_frames_takes_one p f q :
  FramePool.get_frames 1 p = Some (f, q) ->
  FramePool.num_free_frames q = u32 (FramePool.num_free_frames p - 1).
Proof.
  unfold FramePool.get_frames. intros H.
  destruct ((1 >? FramePool.num_free_frames p)
            || (1 >? FramePool.n_frames p)); [discriminate|].
  destruct (FramePool.scan _ _ _ _ _ _) as [run_start|]; [|discriminate].
  injection H as _ <-. reflexivity.
Qed.

Lemma store_through_keeps_kernel_pool handler :
  (forall e a s s', handler e a s = Some s' ->
     PageTable.kernel_mem_pool s' = PageTable.kernel_mem_pool s) ->
  forall tries va v s s',
    PageTable.MP4.store_through handler tries va v s = Some s' ->
    PageTable.kernel_mem_pool s' = PageTable.kernel_mem_pool s.
Proof.
  intros Hh. induction tries as [|tries IH]; intros va v s s' H; simpl in H.
  - destruct (PageTable.MP4.translate s va); [|discriminate].
    injection H as <-. reflexivity.
  - destruct (PageTable.MP4.translate s va).
    + injection H as <-. reflexivity.
    + destruct (handler 2 va s) as [s1|] eqn:E; [|discriminate].
      apply IH in H. rewrite H. exact (Hh _ _ _ _ E).
Qed.

Lemma fill_through_keeps_kernel_pool handler tries table v :
  (forall e a s s', handler e a s = Some s' ->
     PageTable.kernel_mem_pool s' = PageTable.kernel_mem_pool s) ->
  forall s s',
    PageTable.MP4.fill_through handler tries table v s = Some s' ->
    PageTable.kernel_mem_pool s' = PageTable.kernel_mem_pool s.
Proof.
  intros Hh. unfold PageTable.MP4.fill_through.
  induction (seqZ 0 1024) as [|j js IH] using rev_ind; intros s s' H.
  - injection H as <-. reflexivity.
  - rewrite foldl_app in H. cbn [foldl] in H.
    destruct (foldl _ (Some s) js) as [s0|] eqn:E; [|discriminate].
    apply (store_through_keeps_kernel_pool handler Hh) in H.
    rewrite H. exact (IH s s0 E).
Qed.

Lemma map_page_keeps_kernel_pool handler tries pdi pti :
  (forall e a s s', handler e a s = Some s' ->
     PageTable.kernel_mem_pool s' = PageTable.kernel_mem_pool s) ->
  forall s s',
    PageTable.MP4.map_page handler tries pdi pti s = Some s' ->
    PageTable.kernel_mem_pool s' = PageTable.kernel_mem_pool s.
Proof.
  intros Hh s s'. unfold PageTable.MP4.map_page. intros H.
  destruct (FramePool.get_frames 1 (PageTable.process_mem_pool s))
    as [[frame pp]|]; [|discriminate].
  apply (store_through_keeps_kernel_pool handler Hh) in H. exact H.
Qed.

Lemma mp4_keeps_kernel_pool : forall fuel err_code va s s',
  PageTable.MP4.handle_fault fuel err_code va s = Some s' ->
  PageTable.kernel_mem_pool s' = PageTable.kernel_mem_pool s.
Proof.
  induction fuel as [|fuel IH]; intros err_code va s s' H; [discriminate|].
  rewrite mp4_handle_fault_step in H. cbv zeta in H.
  destruct (Z.land err_code 1 =? 0); [|injection H as <-; reflexivity].
  destruct (PageTable.MP4.pool_walk va (PageTable.vm_pool_head s))
    as [tmp_not_null present_flag].
  destruct (tmp_not_null && negb present_flag); [discriminate|].
  destruct (Z.land _ 1 =? 0).
  - destruct (FramePool.get_frames 1 (PageTable.process_mem_pool s))
      as [[frame pp]|]; [|discriminate].
    destruct (PageTable.MP4.store_through _ _ _ _ _) as [s1|] eqn:E1;
      [|discriminate].
    destruct (PageTable.MP4.fill_through _ _ _ _ _) as [s2|] eqn:E2;
      [|discriminate].
    apply (store_through_keeps_kernel_pool _ IH) in E1.
    apply (fill_through_keeps_kernel_pool _ _ _ _ IH) in E2.
    apply (map_page_keeps_kernel_pool _ _ _ _ IH) in H.
    rewrite H, E2, E1. reflexivity.
  - apply (map_page_keeps_kernel_pool _ _ _ _ IH) in H. exact H.
Qed.

(** The first fault at 4 MiB after the boot of MP4: the table goes to
    frame 1026, the store that starts the fill loop faults at 0x402000 and
    takes frame 1027, and the page goes to frame 1028. *)
Lemma mp4_boot_fault fuel :
  exists s1,
    PageTable.MP4.handle_fault (S (S fuel)) 0 0x400000 mp4_boot = Some s1 /\
    PageTable.cr3 s1 = PageTable.cr3 mp4_boot /\
    recursive_mapping s1 /\
    PageTable.kernel_mem_pool s1 = PageTable.kernel_mem_pool mp4_boot /\
    PageTable.process_mem_pool s1
      = take_frame
          (take_frame (take_frame (PageTable.process_mem_pool mp4_boot))) /\
    PageTable.pde_of s1 0x400000 = 0x402003 /\
    PageTable.pte_of s1 0x400000 = 0x404003.
Proof.
  destruct (mp4_first_fault fuel 0 0x400000 mp4_boot
              1026 (take_frame (PageTable.process_mem_pool mp4_boot))
              1027
              (take_frame (take_frame (PageTable.process_mem_pool mp4_boot)))
              1028
              (take_frame
                 (take_frame
                    (take_frame (PageTable.process_mem_pool mp4_boot))))
              0x402000)
    as (s1 & E & Hc & Hrm & Hk & Hp & Hd & Ht & _);
    [lia | reflexivity
     | split; [vm_compute; split; congruence|];
       split; vm_compute; reflexivity
     | reflexivity
     | vm_compute; reflexivity
     | vm_compute; reflexivity
     | vm_compute; reflexivity
     | vm_compute; discriminate
     | vm_compute; discriminate
     | vm_compute; discriminate
     | vm_compute; discriminate
     | vm_compute; discriminate
     | exists 3; vm_compute; repeat split; congruence
     | ].
  exists s1. split; [exact E|]. split; [exact Hc|]. split; [exact Hrm|].
  split; [exact Hk|]. split; [exact Hp|]. split; [exact Hd|]. exact Ht.
Qed.

(** C3 (as found in the code).  On a not-present fault whose directory
    entry is missing, with the pools able to serve and the new table's
    frame apart from the directory's: the handler of MP3 takes exactly one
    frame from the kernel pool for the page table, installed zeroed with
    Present, RW and the fault's User bit, and exactly one frame from the
    process pool for the page, installed in the table with the same flags.
    The handler of MP4, whose tables are reached through the recursive
    mapping, takes no frame from the kernel pool: the frame of the new
    page table is the first it takes from the process pool and goes into
    the directory with Present and RW only, and the frame of the page
    comes from the process pool too and goes into the table's entry with
    Present and RW only.  This is shown for a fault at which the address of
    the new table is not mapped yet and lies under a directory entry that
    is present once the new entry is in; the store that starts the fill
    loop then faults and takes a frame [h] of its own. *)
Theorem C3_missing_directory_entry (err_code va : Z) (s : PageTable.State) :
  0 <= va < 2 ^ 32 ->
  0 <= PageTable.cr3 s < 2 ^ 32 ->
  Z.land err_code 1 = 0 ->
  Z.land (PageTable.pde_of s va) 1 = 0 ->
  (forall f kp g pp,
      FramePool.get_frames 1 (PageTable.kernel_mem_pool s) = Some (f, kp) ->
      u32 (f * PageTable.PAGE_SIZE) <> Z.land (PageTable.cr3 s) 0xFFFFF000 ->
      u32 (u32 (f * PageTable.PAGE_SIZE) + PageTable.PAGE_SIZE)
        <= PageTable.shared_size s ->
      FramePool.get_frames 1 (PageTable.process_mem_pool s) = Some (g, pp) ->
      exists s',
        PageTable.MP3.handle_fault err_code va s = Some s' /\
        fault_serviced_as_specified err_code va s s') /\
  (forall fuel f pp1 h pp2 g pp3 T2,
      recursive_mapping s ->
      FramePool.get_frames 1 (PageTable.process_mem_pool s) = Some (f, pp1) ->
      FramePool.get_frames 1 pp1 = Some (h, pp2) ->
      FramePool.get_frames 1 pp2 = Some (g, pp3) ->
      u32 (f * PageTable.PAGE_SIZE) <> PageTable.cr3 s ->
      u32 (h * PageTable.PAGE_SIZE) <> PageTable.cr3 s ->
      u32 (h * PageTable.PAGE_SIZE) <> u32 (f * PageTable.PAGE_SIZE) ->
      T2 <> PageTable.cr3 s ->
      u32 (h * PageTable.PAGE_SIZE) <> T2 ->
      unmapped_under s va (u32 (f * PageTable.PAGE_SIZE)) T2 ->
      exists s',
        PageTable.MP4.handle_fault (S (S fuel)) err_code va s = Some s' /\
        fault_serviced_from_process_pool va f g pp3 s s').
Proof.
  intros Hva Hcr3 Herr Hpde. split.
  - intros f kp g pp Hk Hapart Hshared Hp.
    exact (mp3_services_missing_directory_entry err_code va s f kp g pp
             Hva Hcr3 Herr Hpde Hk Hapart Hshared Hp).
  - intros fuel f pp1 h pp2 g pp3 T2 Hrm Hf Hh Hg HTc HHc HHT HT2c HHT2 Hun.
    destruct (mp4_first_fault fuel err_code va s f pp1 h pp2 g pp3 T2
                Hva Herr Hrm Hpde Hf Hh Hg HTc HHc HHT HT2c HHT2 Hun)
      as (s' & E & _ & _ & Hk & Hp & Hd & Ht & _).
    exists s'. split; [exact E|].
    split; [exists pp1; exact Hf|]. auto.
Qed.

(** The first fault at 4 MiB after boot, under either handler. *)
Lemma C3_witness :
  (exists s',
     PageTable.MP3.handle_fault 0 0x400000 mp3_boot = Some s' /\
     fault_serviced_as_specified 0 0x400000 mp3_boot s') /\
  (exists s',
     PageTable.MP4.handle_fault 2 0 0x400000 mp4_boot = Some s' /\
     fault_serviced_from_process_pool 0x400000 1026 1028
       (take_frame
          (take_frame (take_frame (PageTable.process_mem_pool mp4_boot))))
       mp4_boot s').
Proof.
  split.
  - eapply (proj1 (C3_missing_directory_entry 0 0x400000 mp3_boot
                     ltac:(lia) ltac:(vm_compute; split; congruence)
                     eq_refl eq_refl)).
    + vm_compute. reflexivity.
    + vm_compute. discriminate.
    + vm_compute. discriminate.
    + vm_compute. reflexivity.
  - apply (proj2 (C3_missing_directory_entry 0 0x400000 mp4_boot
                    ltac:(lia) ltac:(vm_compute; split; congruence)
                    eq_refl eq_refl)
             0%nat 1026 (take_frame (PageTable.process_mem_pool mp4_boot))
             1027
             (take_frame (take_frame (PageTable.process_mem_pool mp4_boot)))
             1028
             (take_frame
                (take_frame
                   (take_frame (PageTable.process_mem_pool mp4_boot))))
             0x402000).
    + split; [vm_compute; split; congruence|].
      split; vm_compute; reflexivity.
    + vm_compute. reflexivity.
    + vm_compute. reflexivity.
    + vm_compute. reflexivity.
    + vm_compute. discriminate.
    + vm_compute. discriminate.
    + vm_compute. discriminate.
    + vm_compute. discriminate.
    + vm_compute. discriminate.
    + exists 3. vm_compute. repeat split; congruence.
Defined.

(** C3 fails on the handler of MP4: the first fault at 4 MiB after boot is
    serviced, and the kernel pool has lost no frame. *)
Lemma C3_counterexample :
  PageTable.MP4.handle_fault 2 0 0x400000 mp4_boot <> None /\
  ~ (forall s',
       PageTable.MP4.handle_fault 2 0 0x400000 mp4_boot = Some s' ->
       fault_serviced_as_specified 0 0x400000 mp4_boot s').
Proof.
  destruct (mp4_boot_fault 0) as (s' & E & _).
  split; [rewrite E; discriminate|]. intros H.
  destruct (H s' E) as (f & kp & g & pp & Hk & _ & Hk' & _).
  apply mp4_keeps_kernel_pool in E. rewrite E in Hk'. subst kp.
  apply get_frames_takes_one in Hk. vm_compute in Hk. discriminate Hk.
Qed.



(** ** The sequential file *)

Section FileArrays.

Import FileSys.

Lemma at_set_eq a i v :
  0 <= i < Z.of_nat (length a) -> at_ (set_ a i v) i = v.
Proof.
  intros Hi. unfold at_, set_.
  destruct (Z.ltb_spec i 0); [lia|].
  rewrite list_lookup_insert_eq by lia. reflexivity.
Qed.

Lemma at_set_ne a i j v : i <> j -> at_ (set_ a i v) j = at_ a j.
Proof.
  intros Hne. unfold at_, set_.
  destruct (Z.ltb_spec j 0); [reflexivity|].
  destruct (Z.ltb_spec i 0); [reflexivity|].
  rewrite list_lookup_insert_ne by lia. reflexivity.
Qed.

Lemma length_set_ a i v : length (set_ a i v) = length a.
Proof.
  unfold set_. destruct (i <? 0); [reflexivity|apply length_insert].
Qed.

Lemma at_lookup a (p : nat) x : a !! p = Some x -> at_ a (Z.of_nat p) = x.
Proof.
  intros H. unfold at_. destruct (Z.ltb_spec (Z.of_nat p) 0); [lia|].
  rewrite Nat2Z.id, H. reflexivity.
Qed.

Lemma copy_bytes_succ dst doff src soff (n : nat) :
  copy_bytes dst doff src soff (Z.of_nat (S n))
  = set_ (copy_bytes dst doff src soff (Z.of_nat n))
      (doff + Z.of_nat n) (at_ src (soff + Z.of_nat n)).
Proof.
  unfold copy_bytes. rewrite seqZ_S, foldl_app. simpl.
  rewrite !Z.add_0_l. reflexivity.
Qed.

Lemma length_copy_bytes dst doff src soff count :
  length (copy_bytes dst doff src soff count) = length dst.
Proof.
  destruct (Z.le_gt_cases count 0) as [Hle|Hgt].
  { unfold copy_bytes. rewrite seqZ_nil by lia. reflexivity. }
  rewrite <- (Z2Nat.id count) by lia.
  induction (Z.to_nat count) as [|n IH].
  - reflexivity.
  - rewrite copy_bytes_succ, length_set_. exact IH.
Qed.

(** What a copy leaves at each index of the destination. *)
Lemma copy_bytes_lookup dst doff src soff (n p : nat) :
  0 <= doff -> doff + Z.of_nat n <= Z.of_nat (length dst) ->
  copy_bytes dst doff src soff (Z.of_nat n) !! p
  = if decide (doff <= Z.of_nat p < doff + Z.of_nat n)
    then Some (at_ src (soff + (Z.of_nat p - doff)))
    else dst !! p.
Proof.
  intros Hd. induction n as [|n IH]; intros Hlen.
  - destruct (decide _) as [H|_]; [lia|]. reflexivity.
  - rewrite copy_bytes_succ. unfold set_.
    destruct (Z.ltb_spec (doff + Z.of_nat n) 0); [lia|].
    destruct (decide (p = Z.to_nat (doff + Z.of_nat n))) as [->|Hne].
    + clear IH.
      rewrite list_lookup_insert_eq by (rewrite length_copy_bytes; lia).
      destruct (decide _) as [_|H']; [|lia].
      replace (Z.of_nat (Z.to_nat (doff + Z.of_nat n)) - doff)
        with (Z.of_nat n) by lia.
      reflexivity.
    + rewrite list_lookup_insert_ne by lia. rewrite IH by lia.
      destruct (decide (doff <= Z.of_nat p < doff + Z.of_nat n)),
        (decide (doff <= Z.of_nat p < doff + Z.of_nat (S n)));
        try reflexivity; lia.
Qed.

(** Words survive the trip through their bytes. *)
Lemma word_bytes_range w :
  Forall (fun b => 0 <= b < 256) (word_bytes w).
Proof.
  unfold word_bytes. repeat constructor; apply Z.mod_pos_bound; lia.
Qed.

Lemma bytes_to_words_to_bytes ws :
  Forall (fun w => 0 <= w < 2 ^ 32) ws ->
  bytes_to_words (length ws) (words_to_bytes ws) = ws.
Proof.
  induction 1 as [|w ws Hw _ IH]; [reflexivity|].
  unfold words_to_bytes in *. simpl. f_equal; [|exact IH].
  change (2 ^ 32) with 4294967296 in Hw.
  Z.div_mod_to_equations. lia.
Qed.

Lemma length_words_to_bytes ws :
  length (words_to_bytes ws) = (4 * length ws)%nat.
Proof.
  unfold words_to_bytes. induction ws as [|w ws IH]; [reflexivity|].
  simpl. rewrite IH. lia.
Qed.

Lemma bytes_to_words_range n bs :
  Forall (fun b => 0 <= b < 256) bs ->
  Forall (fun w => 0 <= w < 2 ^ 32) (bytes_to_words n bs).
Proof.
  revert bs. induction n as [|n IH]; intros bs Hbs; [constructor|].
  simpl. constructor.
  - assert (Hb : forall i, 0 <= default 0 (bs !! i) < 256).
    { intros i. destruct (bs !! i) as [b|] eqn:E; simpl; [|lia].
      eapply Forall_lookup_1 in E; [exact E|exact Hbs]. }
    pose proof (Hb 0%nat). pose proof (Hb 1%nat).
    pose proof (Hb 2%nat). pose proof (Hb 3%nat). lia.
  - apply IH. apply Forall_drop. exact Hbs.
Qed.

Lemma length_bytes_to_words n bs : length (bytes_to_words n bs) = n.
Proof.
  revert bs. induction n as [|n IH]; intros bs; [reflexivity|].
  simpl. rewrite IH. reflexivity.
Qed.

(** The disk. *)
Lemma lba28_small b : 0 <= b < 2 ^ 28 -> SimpleDisk.lba28 b = b.
Proof.
  intros Hb. unfold SimpleDisk.lba28.
  change 0x0FFFFFFF with (Z.ones 28). rewrite Z.land_ones by lia.
  apply Z.mod_small. exact Hb.
Qed.

Lemma read_write_same b buf d :
  SimpleDisk.read b (SimpleDisk.write b buf d) = take 512 buf.
Proof.
  unfold SimpleDisk.read, SimpleDisk.write. rewrite Z.eqb_refl. reflexivity.
Qed.

Lemma read_write_other b b' buf d :
  0 <= b < 2 ^ 28 -> 0 <= b' < 2 ^ 28 -> b <> b' ->
  SimpleDisk.read b (SimpleDisk.write b' buf d) = SimpleDisk.read b d.
Proof.
  intros Hb Hb' Hne. unfold SimpleDisk.read, SimpleDisk.write.
  rewrite !lba28_small by assumption.
  destruct (Z.eqb_spec b b'); [contradiction|reflexivity].
Qed.

End FileArrays.

Section FreeBlocks.

Import FileSys.

Lemma free_block_from_spec fb nb : forall fuel i,
  nb - i <= Z.of_nat fuel ->
  let r := free_block_from fuel i nb fb in
  (r = -1 /\ forall b, i <= b < nb -> at_ fb b <> 0) \/
  (i <= r < nb /\ at_ fb r = 0).
Proof.
  induction fuel as [|fuel IH]; intros i Hfuel; simpl.
  - left. split; [reflexivity|]. intros b Hb. lia.
  - destruct (Z.ltb_spec i nb) as [Hlt|Hge].
    + destruct (Z.eqb_spec (at_ fb i) 0) as [Hz|Hnz].
      * right. split; [lia|exact Hz].
      * destruct (IH (i + 1) ltac:(lia)) as [[Hr Hall]|[Hr Hz]].
        -- left. split; [exact Hr|]. intros b Hb.
           destruct (Z.eq_dec b i) as [->|]; [exact Hnz|]. apply Hall. lia.
        -- right. split; [lia|exact Hz].
    + left. split; [reflexivity|]. intros b Hb. lia.
Qed.

Lemma filter_free_none fb (l : list Z) :
  (forall b, b ∈ l -> at_ fb b <> 0) ->
  filter (fun b => at_ fb b = 0) l = [].
Proof.
  induction l as [|x l IH]; intros Hall; [reflexivity|].
  rewrite filter_cons_False by (apply Hall; left).
  apply IH. intros b Hb. apply Hall. right. exact Hb.
Qed.

Lemma filter_free_same fb fb' (l : list Z) :
  (forall b, b ∈ l -> at_ fb' b = at_ fb b) ->
  filter (fun b => at_ fb' b = 0) l = filter (fun b => at_ fb b = 0) l.
Proof.
  induction l as [|x l IH]; intros Hall; [reflexivity|].
  rewrite !filter_cons. rewrite (Hall x) by left.
  rewrite IH by (intros b Hb; apply Hall; right; exact Hb).
  reflexivity.
Qed.

Lemma GetFreeBlock_spec fs :
  let r := GetFreeBlock fs in
  (r = -1 /\ free_count fs = 0%nat) \/
  (2 <= r < size fs / 512 /\ at_ (free_blocks fs) r = 0).
Proof.
  unfold GetFreeBlock, SimpleDisk.BLOCK_SIZE.
  destruct (free_block_from_spec (free_blocks fs) (size fs / 512)
              (Z.to_nat (size fs / 512 - 2)) 2 ltac:(lia))
    as [[Hr Hall]|Hfound].
  - left. split; [exact Hr|]. unfold free_count, SimpleDisk.BLOCK_SIZE.
    rewrite filter_free_none; [reflexivity|].
    intros b Hb. apply elem_of_seqZ in Hb. apply Hall. lia.
  - right. exact Hfound.
Qed.

Lemma free_count_after_take (l : list Z) fb r :
  NoDup l ->
  (length (filter (fun b => at_ fb b = 0%Z) l)
   <= Datatypes.S
        (length (filter (fun b => at_ (set_ fb r 1%Z) b = 0%Z) l)))%nat.
Proof.
  induction l as [|x l IH]; intros Hnd; [simpl; lia|].
  apply NoDup_cons in Hnd as [Hx Hnd].
  rewrite !filter_cons.
  destruct (Z.eq_dec x r) as [->|Hne].
  - assert (Hsame : filter (fun b => at_ (set_ fb r 1) b = 0) l
                    = filter (fun b => at_ fb b = 0) l).
    { apply filter_free_same. intros b Hb.
      apply at_set_ne. intros ->. contradiction. }
    rewrite Hsame.
    destruct (decide (at_ fb r = 0)), (decide (at_ (set_ fb r 1) r = 0));
      simpl; lia.
  - rewrite (at_set_ne fb r x 1) by congruence.
    specialize (IH Hnd).
    destruct (decide (at_ fb x = 0)); simpl; lia.
Qed.

End FreeBlocks.

Lemma blocks_needed_gt len j :
  512 * j < len -> j < blocks_needed len.
Proof.
  intros H. unfold blocks_needed, SimpleDisk.BLOCK_SIZE.
  apply Z.lt_nge. intros Hle.
  apply (ceil_div_spec len 512 j ltac:(lia)) in Hle. lia.
Qed.

Lemma blocks_needed_le len j :
  len <= 512 * j -> blocks_needed len <= j.
Proof.
  intros H. unfold blocks_needed, SimpleDisk.BLOCK_SIZE.
  apply (ceil_div_spec len 512 j ltac:(lia)). lia.
Qed.

Section WriteLoop.

Import FileSys.

Variable MAX_BLOCKS : Z.
Variable S : list Z.
Variable k : nat.
Variable fid ib : Z.

Hypothesis MAX_BLOCKS_fits : MAX_BLOCKS <= 128.
Hypothesis S_fits : Z.of_nat (length S) <= MAX_BLOCKS * 512.

Let L := Z.of_nat (length S).

Lemma write_loop_unfold fuel st :
  write_loop MAX_BLOCKS (Datatypes.S fuel) k L st
  = let bytes_written := l_count st in
    if bytes_written <? L then
      let pos := u32 (current_position (l_file st) + bytes_written) in
      let block_idx := pos / SimpleDisk.BLOCK_SIZE in
      let offset_in_block := pos mod SimpleDisk.BLOCK_SIZE in
      match allocate_block MAX_BLOCKS k block_idx st with
      | None => st
      | Some st =>
          let f := load_block block_idx (l_block_nums st)
                     (l_fs st) (l_file st) in
          let remaining_in_block :=
            SimpleDisk.BLOCK_SIZE - offset_in_block in
          let remaining_to_write := L - bytes_written in
          let copy_count :=
            if remaining_in_block <? remaining_to_write
            then remaining_in_block else remaining_to_write in
          let f := with_cache
                     (copy_bytes (block_cache f) offset_in_block
                        (l_buf st) bytes_written copy_count) f in
          let fs := with_disk
                      (SimpleDisk.write (at_ (l_block_nums st) block_idx)
                         (block_cache f) (disk (l_fs st))) (l_fs st) in
          write_loop MAX_BLOCKS fuel k L
            {| l_fs := fs; l_file := f;
               l_block_nums := l_block_nums st; l_buf := l_buf st;
               l_count := u32 (bytes_written + copy_count) |}
      end
    else st.
Proof. reflexivity. Qed.

(** The block that turn [j] allocates, and the state it leaves. *)
Lemma allocate_turn j st :
  write_inv S k fid ib j st -> 0 <= j -> 512 * j < L ->
  let fs := l_fs st in
  let r := GetFreeBlock fs in
  2 <= r < size fs / 512 /\ at_ (free_blocks fs) r = 0 /\
  allocate_block MAX_BLOCKS k j st
  = Some {| l_fs :=
              SaveFreeList
                (with_disk
                   (SimpleDisk.write ib
                      (words_to_bytes (set_ (l_block_nums st) j r))
                      (SimpleDisk.write r zero_block (disk fs)))
                   (with_inode k (mkInode fid ib (j + 1) 0)
                      {| disk := disk fs; size := size fs;
                         inodes := inodes fs;
                         free_blocks := set_ (free_blocks fs) r 1 |}));
            l_file := with_cache zero_block (l_file st);
            l_block_nums := set_ (l_block_nums st) j r;
            l_buf := l_buf st; l_count := l_count st |}.
Proof.
  intros Hinv Hj Hlt fs r.
  destruct Hinv as [_ _ _ _ _ _ Hinode _ _ _ _ _ _ _ Hfree].
  fold fs in Hinode, Hfree.
  pose proof (blocks_needed_gt _ _ Hlt) as Hneed. fold L in Hfree.
  destruct (GetFreeBlock_spec fs) as [[_ Hnone]|[Hr Hrfree]];
    [rewrite Hnone in Hfree; lia|].
  fold r in Hr, Hrfree. split; [exact Hr|]. split; [exact Hrfree|].
  unfold allocate_block, inode_at. fold fs. rewrite Hinode. simpl.
  destruct (Z.geb_spec j j); [|lia].
  destruct (Z.geb_spec j MAX_BLOCKS); [unfold L in *; lia|].
  fold r. destruct (Z.eqb_spec r (-1)); [lia|].
  rewrite (u32_small (j + 1)) by lia. reflexivity.
Qed.

Lemma S_lookup (q : nat) :
  Z.of_nat q < L -> S !! q = Some (at_ S (Z.of_nat q)).
Proof.
  intros Hq. unfold L in Hq.
  destruct (S !! q) as [x|] eqn:E.
  - rewrite (at_lookup _ _ _ E). reflexivity.
  - apply lookup_ge_None in E. lia.
Qed.

(** One turn of the loop of [Write]. *)
Lemma write_turn j st fuel :
  write_inv S k fid ib j st -> 0 <= j -> 512 * j < L ->
  exists st',
    write_loop MAX_BLOCKS (Datatypes.S fuel) k L st
    = write_loop MAX_BLOCKS fuel k L st' /\
    write_inv S k fid ib (j + 1) st'.
Proof.
  intros Hinv Hj Hlt.
  destruct (allocate_turn j st Hinv Hj Hlt) as (Hr & Hrfree & Halloc).
  destruct Hinv as [Hbuf Hcount Hhandle Hpos Hclen Hcached Hinode Hsize
                      Hfblen [Hib Hibused] Hbnlen Hbnrange Hblocks Hind Hfree].
  destruct st as [fs f bn buf cnt].
  cbn [l_fs l_file l_block_nums l_buf l_count] in *. subst buf.
  set (r := GetFreeBlock fs) in *.
  assert (Hcnt : cnt = 512 * j) by (unfold L in *; lia).
  clear Hcount. subst cnt.
  assert (Hj128 : j < 128) by (unfold L in *; lia).
  assert (Hnb : size fs / 512 < 2 ^ 28)
    by (change (2 ^ 32) with 4294967296 in Hsize;
        change (2 ^ 28) with 268435456; Z.div_mod_to_equations; lia).
  assert (Hr_ib : r <> ib) by congruence.
  set (cc := if 512 - 0 <? L - 512 * j then 512 - 0 else L - 512 * j).
  assert (Hcc : 1 <= cc <= 512 /\ cc = Z.min 512 (L - 512 * j))
    by (unfold cc; destruct (Z.ltb_spec (512 - 0) (L - 512 * j)); lia).
  set (bn' := set_ bn j r).
  set (cache := copy_bytes zero_block 0 S (512 * j) cc).
  assert (Hbn'_j : at_ bn' j = r)
    by (unfold bn'; apply at_set_eq; lia).
  assert (Hcache_len : length cache = 512%nat)
    by (unfold cache; rewrite length_copy_bytes; reflexivity).
  set (fs3 := SaveFreeList
                (with_disk
                   (SimpleDisk.write ib (words_to_bytes bn')
                      (SimpleDisk.write r zero_block (disk fs)))
                   (with_inode k (mkInode fid ib (j + 1) 0)
                      {| disk := disk fs; size := size fs;
                         inodes := inodes fs;
                         free_blocks := set_ (free_blocks fs) r 1 |}))) in *.
  assert (Hread : SimpleDisk.read r (disk fs3) = zero_block).
  { unfold fs3, SaveFreeList. cbn [disk with_disk with_inode].
    rewrite read_write_other by lia.
    rewrite read_write_other by lia.
    rewrite read_write_same. reflexivity. }
  exists {| l_fs := with_disk (SimpleDisk.write r cache (disk fs3)) fs3;
            l_file := {| inode := inode f;
                         current_position := current_position f;
                         cached_block_idx := j;
                         block_cache := cache |};
            l_block_nums := bn'; l_buf := S;
            l_count := 512 * j + cc |}.
  split.
  - rewrite write_loop_unfold. cbv zeta.
    cbn [l_fs l_file l_block_nums l_buf l_count].
    destruct (Z.ltb_spec (512 * j) L); [|lia].
    rewrite Hpos, Z.add_0_l. rewrite (u32_small (512 * j)) by lia.
    unfold SimpleDisk.BLOCK_SIZE.
    replace (512 * j / 512) with j by (Z.div_mod_to_equations; lia).
    replace ((512 * j) mod 512) with 0 by (Z.div_mod_to_equations; lia).
    rewrite Halloc. cbn [l_fs l_file l_block_nums l_buf l_count].
    fold bn'. rewrite Hbn'_j.
    unfold load_block, with_cache.
    cbn [inode current_position cached_block_idx block_cache].
    assert (Hmiss : (j =? cached_block_idx f) = false).
    { apply Z.eqb_neq. unfold NO_BLOCK in Hcached. lia. }
    rewrite Hmiss, Hbn'_j. simpl negb. cbv iota.
    destruct (Z.eqb_spec r 0); [lia|]. simpl negb. cbv iota.
    cbn [inode current_position cached_block_idx block_cache].
    fold fs3. rewrite Hread. fold cc. fold cache.
    rewrite (u32_small (512 * j + cc)) by lia.
    rewrite ?Hpos. reflexivity.
  - constructor;
      cbn [l_fs l_file l_block_nums l_buf l_count
           inode current_position cached_block_idx block_cache];
      unfold fs3, SaveFreeList, with_disk, with_inode;
      cbn [disk size inodes free_blocks].
    + reflexivity.
    + fold L. lia.
    + exact Hhandle.
    + exact Hpos.
    + exact Hcache_len.
    + right. lia.
    + apply list_lookup_insert_eq. apply lookup_lt_Some in Hinode. exact Hinode.
    + exact Hsize.
    + rewrite length_set_. exact Hfblen.
    + split; [exact Hib|]. rewrite at_set_ne by congruence. exact Hibused.
    + unfold bn'. rewrite length_set_. exact Hbnlen.
    + unfold bn', set_. destruct (j <? 0); [exact Hbnrange|].
      apply Forall_insert; [exact Hbnrange|lia].
    + intros i Hi. fold bn'.
      destruct (Z.eq_dec i j) as [->|Hne].
      * rewrite Hbn'_j. split; [exact Hr|]. split; [exact Hr_ib|].
        split.
        { rewrite at_set_eq by lia. discriminate. }
        { unfold chunk_on_disk. rewrite read_write_same.
          rewrite take_ge by lia. split; [exact Hcache_len|].
          intros p Hp Hin. unfold cache.
          replace cc with (Z.of_nat (Z.to_nat cc)) by lia.
          rewrite copy_bytes_lookup by (simpl; lia).
          destruct (decide _) as [_|Hout]; [|lia].
          replace (Z.to_nat (512 * j) + p)%nat
            with (Z.to_nat (512 * j + Z.of_nat p)) by lia.
          rewrite S_lookup by (fold L in Hin; lia).
          do 2 f_equal. lia. }
      * assert (Hi' : 0 <= i < j) by lia.
        destruct (Hblocks i Hi') as (Hb & Hb_ib & Hb_used & Hlen & Hchunk).
        cbv zeta.
        assert (Hbi : at_ bn' i = at_ bn i)
          by (unfold bn'; apply at_set_ne; congruence).
        rewrite !Hbi. cbv zeta in Hb, Hb_ib, Hb_used, Hlen, Hchunk.
        set (b := at_ bn i) in *.
        assert (Hb_r : b <> r) by congruence.
        split; [exact Hb|]. split; [exact Hb_ib|]. split.
        { rewrite at_set_ne by congruence. exact Hb_used. }
        { unfold chunk_on_disk.
          rewrite !read_write_other by lia.
          split; assumption. }
    + rewrite read_write_other by lia.
      rewrite read_write_other by lia.
      rewrite read_write_same. apply take_ge.
      rewrite length_words_to_bytes. unfold bn'. rewrite length_set_. lia.
    + unfold free_count in *. simpl.
      pose proof (free_count_after_take
                    (seqZ 2 (size fs / SimpleDisk.BLOCK_SIZE - 2))
                    (free_blocks fs) r (NoDup_seqZ _ _)).
      fold L. fold L in Hfree. lia.
Qed.

Lemma blocks_needed_bounds :
  0 <= blocks_needed L <= L /\ blocks_needed L <= MAX_BLOCKS.
Proof.
  unfold L. split; [split|].
  - apply Z.le_ngt. intros Hneg.
    assert (H : blocks_needed (Z.of_nat (length S)) <= -1) by lia.
    apply (ceil_div_spec _ 512 (-1) ltac:(lia)) in H. lia.
  - apply blocks_needed_le. lia.
  - apply blocks_needed_le. lia.
Qed.

(** The whole loop of [Write], from any turn on. *)
Lemma write_run : forall fuel j st,
  write_inv S k fid ib j st ->
  0 <= j <= blocks_needed L ->
  blocks_needed L - j <= Z.of_nat fuel ->
  write_inv S k fid ib (blocks_needed L) (write_loop MAX_BLOCKS fuel k L st).
Proof.
  induction fuel as [|fuel IH]; intros j st Hinv Hj Hfuel.
  - replace (blocks_needed L) with j by lia. exact Hinv.
  - destruct (Z.lt_ge_cases (512 * j) L) as [Hlt|Hge].
    + destruct (write_turn j st fuel Hinv ltac:(lia) Hlt) as (st' & -> & Hinv').
      pose proof (blocks_needed_gt _ _ Hlt).
      apply (IH (j + 1)); [exact Hinv'|lia|lia].
    + pose proof (blocks_needed_le _ _ Hge).
      replace (blocks_needed L) with j by lia.
      rewrite write_loop_unfold. cbv zeta.
      rewrite (wi_count _ _ _ _ _ _ Hinv). fold L.
      destruct (Z.ltb_spec (Z.min (512 * j) L) L); [lia|]. exact Hinv.
Qed.

(** [Write] of the whole of [S] into a file that was just created. *)
Lemma Write_stores_file fs1 f :
  inode f = Some k ->
  current_position f = 0 ->
  cached_block_idx f = NO_BLOCK ->
  length (block_cache f) = 512%nat ->
  inodes fs1 !! k = Some (mkInode fid ib 0 0) ->
  0 <= size fs1 < 2 ^ 32 ->
  length (free_blocks fs1) = Z.to_nat (size fs1 / 512) ->
  2 <= ib < size fs1 / 512 ->
  at_ (free_blocks fs1) ib <> 0 ->
  SimpleDisk.read ib (disk fs1) = words_to_bytes (replicate 128 0) ->
  blocks_needed L <= Z.of_nat (free_count fs1) ->
  exists fs2 f1 bn,
    Write MAX_BLOCKS L S fs1 f = (L, fs2, f1) /\
    file_holds S k fid ib bn fs2 /\
    inode f1 = Some k.
Proof.
  intros Hhandle Hpos Hcached Hclen Hinode Hsize Hfblen Hib Hibused Hread
         Hfree.
  pose proof blocks_needed_bounds as [[HN0 HNL] HNM].
  assert (Hbn0 : bytes_to_words 128 (SimpleDisk.read ib (disk fs1))
                 = replicate 128 0) by (rewrite Hread; reflexivity).
  remember {| l_fs := fs1; l_file := f; l_block_nums := replicate 128 0;
              l_buf := S; l_count := 0 |} as st0 eqn:Hst0.
  assert (Hinv0 : write_inv S k fid ib 0 st0).
  { subst st0. constructor; cbn [l_fs l_file l_block_nums l_buf l_count];
      try assumption; try reflexivity.
    - fold L. lia.
    - left. exact Hcached.
    - split; assumption.
    - apply Forall_replicate. change (2 ^ 32) with 4294967296. lia.
    - intros i Hi. lia.
    - fold L. lia. }
  pose proof (write_run (Z.to_nat L) 0 st0 Hinv0 ltac:(lia) ltac:(lia))
    as Hfin.
  remember (write_loop MAX_BLOCKS (Z.to_nat L) k L st0) as st eqn:Hst.
  destruct Hfin as [_ Hcount Hh Hp _ _ Hino _ _ _ Hbnlen Hbnrange Hblocks
                    Hind _].
  fold L in Hcount, Hino, Hblocks.
  assert (HcountL : l_count st = L).
  { rewrite Hcount.
    destruct (Z.lt_ge_cases (512 * blocks_needed L) L) as [Hlt|Hge]; [|lia].
    apply blocks_needed_gt in Hlt. lia. }
  assert (Hto : (if L <? u32 (u32 (MAX_BLOCKS * SimpleDisk.BLOCK_SIZE) - 0)
                 then L
                 else u32 (u32 (MAX_BLOCKS * SimpleDisk.BLOCK_SIZE) - 0)) = L).
  { unfold SimpleDisk.BLOCK_SIZE.
    rewrite Z.sub_0_r, !u32_small
      by (rewrite ?u32_small; change (2 ^ 32) with 4294967296; unfold L in *;
          lia).
    destruct (Z.ltb_spec L (MAX_BLOCKS * 512)); unfold L in *; lia. }
  exists (if L >? 0
          then with_inode k (mkInode fid ib (blocks_needed L) L) (l_fs st)
          else l_fs st),
         (with_position L (l_file st)), (l_block_nums st).
  split; [|split].
  - assert (Hia : inode_at k fs1 = mkInode fid ib 0 0)
      by (unfold inode_at; rewrite Hinode; reflexivity).
    unfold Write. rewrite Hhandle. cbv zeta. rewrite !Hia.
    cbn [block_numbers_block].
    destruct (Z.eqb_spec ib 0); [lia|].
    rewrite Hpos, Hto, Hbn0, <- Hst0, <- Hst.
    rewrite HcountL, Hp, Z.add_0_l.
    rewrite (u32_small L)
      by (change (2 ^ 32) with 4294967296; unfold L in *; lia).
    unfold inode_at. rewrite Hino.
    change (default _ (Some ?x)) with x.
    cbn [id block_numbers_block num_blocks file_length]. reflexivity.
  - unfold file_holds. fold L.
    assert (Hdisk : disk (if L >? 0
                          then with_inode k
                                 (mkInode fid ib (blocks_needed L) L) (l_fs st)
                          else l_fs st) = disk (l_fs st))
      by (destruct (L >? 0); reflexivity).
    rewrite Hdisk.
    split; [|split; [lia|split; [exact Hind|split; [exact Hbnlen|
            split; [exact Hbnrange|]]]]].
    + destruct (Z.gtb_spec L 0) as [Hpos'|Hz].
      * cbn [with_inode inodes]. apply list_lookup_insert_eq.
        apply lookup_lt_Some in Hino. exact Hino.
      * assert (HL0 : L = 0) by (unfold L in *; lia).
        rewrite Hino. rewrite HL0 in *.
        replace (blocks_needed 0) with 0 by lia. reflexivity.
    + intros i Hi. destruct (Hblocks i Hi) as (Hb & _ & _ & Hchunk).
      split; [lia|exact Hchunk].
  - cbn [with_position inode]. exact Hh.
Qed.

End WriteLoop.

Section ReadLoop.

Import FileSys.

Variable S : list Z.
Variable k : nat.
Variable fid ib : Z.
Variable bn : list Z.
Variable fs : FileSystem.

Hypothesis holds : file_holds S k fid ib bn fs.

Let L := Z.of_nat (length S).

Hypothesis L_fits : L < 2 ^ 32.

Lemma read_loop_unfold fuel st :
  read_loop (Datatypes.S fuel) k L st
  = let bytes_read := l_count st in
    if bytes_read <? L then
      let pos := u32 (current_position (l_file st) + bytes_read) in
      let block_idx := pos / SimpleDisk.BLOCK_SIZE in
      let offset_in_block := pos mod SimpleDisk.BLOCK_SIZE in
      if (block_idx >=? num_blocks (inode_at k (l_fs st)))
         || (at_ (l_block_nums st) block_idx =? 0)
      then st
      else
        let f := load_block block_idx (l_block_nums st)
                   (l_fs st) (l_file st) in
        let remaining_in_block := SimpleDisk.BLOCK_SIZE - offset_in_block in
        let remaining_to_read := L - bytes_read in
        let copy_count :=
          if remaining_in_block <? remaining_to_read
          then remaining_in_block else remaining_to_read in
        read_loop fuel k L
          {| l_fs := l_fs st; l_file := f;
             l_block_nums := l_block_nums st;
             l_buf := copy_bytes (l_buf st) bytes_read
                        (block_cache f) offset_in_block copy_count;
             l_count := u32 (bytes_read + copy_count) |}
    else st.
Proof. reflexivity. Qed.

(** One turn of the loop of [Read]. *)
Lemma read_turn j st fuel :
  read_inv S fs bn (length S) j st -> 0 <= j -> 512 * j < L ->
  exists st',
    read_loop (Datatypes.S fuel) k L st = read_loop fuel k L st' /\
    read_inv S fs bn (length S) (j + 1) st'.
Proof.
  intros [Hfs Hbn Hcount Hpos Hcached Hblen Hbuf] Hj Hlt.
  destruct holds as (Hinode & Hib & Hind & Hbnlen & Hbnrange & Hblocks).
  fold L in Hinode, Hblocks.
  pose proof (blocks_needed_gt _ _ Hlt) as HjN.
  destruct (Hblocks j ltac:(lia)) as (Hbj & Hclen & Hchunk).
  destruct st as [fs' f bn' buf cnt].
  cbn [l_fs l_file l_block_nums l_buf l_count] in *. subst fs' bn'.
  assert (Hcnt : cnt = 512 * j) by (unfold L in *; lia).
  clear Hcount. subst cnt.
  assert (HL128 : j < 2 ^ 23)
    by (change (2 ^ 32) with 4294967296 in L_fits;
        change (2 ^ 23) with 8388608; lia).
  set (cc := if 512 - 0 <? L - 512 * j then 512 - 0 else L - 512 * j).
  assert (Hcc : 1 <= cc <= 512 /\ cc = Z.min 512 (L - 512 * j))
    by (unfold cc; destruct (Z.ltb_spec (512 - 0) (L - 512 * j)); lia).
  set (cache := SimpleDisk.read (at_ bn j) (disk fs)) in *.
  exists {| l_fs := fs;
            l_file := {| inode := inode f;
                         current_position := current_position f;
                         cached_block_idx := j;
                         block_cache := cache |};
            l_block_nums := bn;
            l_buf := copy_bytes buf (512 * j) cache 0 cc;
            l_count := 512 * j + cc |}.
  split.
  - rewrite read_loop_unfold. cbv zeta.
    cbn [l_fs l_file l_block_nums l_buf l_count].
    destruct (Z.ltb_spec (512 * j) L); [|lia].
    rewrite Hpos, Z.add_0_l. rewrite (u32_small (512 * j)) by lia.
    unfold SimpleDisk.BLOCK_SIZE.
    replace (512 * j / 512) with j by (Z.div_mod_to_equations; lia).
    replace ((512 * j) mod 512) with 0 by (Z.div_mod_to_equations; lia).
    unfold inode_at. rewrite Hinode.
    change (num_blocks (default _ (Some ?x))) with (num_blocks x).
    cbn [num_blocks].
    destruct (Z.geb_spec j (blocks_needed L)); [lia|].
    destruct (Z.eqb_spec (at_ bn j) 0); [contradiction|].
    cbn [orb]. unfold load_block.
    assert (Hmiss : (j =? cached_block_idx f) = false).
    { apply Z.eqb_neq. unfold NO_BLOCK in Hcached. lia. }
    rewrite Hmiss.
    destruct (Z.eqb_spec (at_ bn j) 0); [contradiction|].
    cbn [negb]. fold cache.
    cbn [inode current_position cached_block_idx block_cache].
    fold cc. rewrite (u32_small (512 * j + cc)) by lia.
    rewrite ?Hpos. reflexivity.
  - constructor;
      cbn [l_fs l_file l_block_nums l_buf l_count
           inode current_position cached_block_idx block_cache].
    + reflexivity.
    + reflexivity.
    + fold L. lia.
    + exact Hpos.
    + right. lia.
    + rewrite length_copy_bytes. exact Hblen.
    + intros q Hq.
      replace cc with (Z.of_nat (Z.to_nat cc)) by lia.
      rewrite copy_bytes_lookup by lia.
      destruct (decide _) as [Hin|Hout].
      * rewrite Z.add_0_l.
        pose proof (Hchunk (Z.to_nat (Z.of_nat q - 512 * j))
                      ltac:(lia) ltac:(fold L; lia)) as Hp.
        replace (Z.to_nat (512 * j) + Z.to_nat (Z.of_nat q - 512 * j))%nat
          with q in Hp by lia.
        fold cache in Hp.
        destruct (S !! q) as [x|] eqn:E.
        -- f_equal. replace (Z.of_nat q - 512 * j)
             with (Z.of_nat (Z.to_nat (Z.of_nat q - 512 * j))) by lia.
           apply at_lookup. exact Hp.
        -- apply lookup_ge_None in E. unfold L in *. lia.
      * apply Hbuf. lia.
Qed.

(** The whole loop of [Read], from any turn on. *)
Lemma read_run : forall fuel j st,
  read_inv S fs bn (length S) j st ->
  0 <= j <= blocks_needed L ->
  blocks_needed L - j <= Z.of_nat fuel ->
  read_inv S fs bn (length S) (blocks_needed L) (read_loop fuel k L st).
Proof.
  induction fuel as [|fuel IH]; intros j st Hinv Hj Hfuel.
  - replace (blocks_needed L) with j by lia. exact Hinv.
  - destruct (Z.lt_ge_cases (512 * j) L) as [Hlt|Hge].
    + destruct (read_turn j st fuel Hinv ltac:(lia) Hlt) as (st' & -> & Hinv').
      pose proof (blocks_needed_gt _ _ Hlt).
      apply (IH (j + 1)); [exact Hinv'|lia|lia].
    + pose proof (blocks_needed_le _ _ Hge).
      replace (blocks_needed L) with j by lia.
      rewrite read_loop_unfold. cbv zeta.
      rewrite (ri_count _ _ _ _ _ _ Hinv). fold L.
      destruct (Z.ltb_spec (Z.min (512 * j) L) L); [lia|]. exact Hinv.
Qed.

(** [Read] from position 0 with an empty cache returns the file. *)
Lemma Read_returns_file f buf :
  inode f = Some k ->
  current_position f = 0 ->
  cached_block_idx f = NO_BLOCK ->
  length buf = length S ->
  exists f', Read L buf fs f = (L, S, f').
Proof.
  intros Hhandle Hpos Hcached Hblen.
  pose proof holds as (Hinode & Hib & Hind & Hbnlen & Hbnrange & Hblocks).
  fold L in Hinode.
  unfold Read. rewrite Hhandle. unfold inode_at. rewrite Hinode.
  change (default _ (Some ?x)) with x.
  cbn [block_numbers_block file_length].
  destruct (Z.eqb_spec ib 0); [lia|].
  rewrite Hpos, Z.sub_0_r. rewrite (u32_small L) by (unfold L; lia).
  rewrite Z.ltb_irrefl. rewrite Hind.
  replace 128%nat with (length bn) by exact Hbnlen.
  rewrite bytes_to_words_to_bytes by exact Hbnrange.
  assert (HN : 0 <= blocks_needed L <= L).
  { split.
    - apply Z.le_ngt. intros Hneg.
      assert (H : blocks_needed L <= -1) by lia.
      apply (ceil_div_spec _ 512 (-1) ltac:(lia)) in H. unfold L in H. lia.
    - apply blocks_needed_le. unfold L. lia. }
  assert (Hinv0 : read_inv S fs bn (length S) 0
                    {| l_fs := fs; l_file := f; l_block_nums := bn;
                       l_buf := buf; l_count := 0 |}).
  { constructor; cbn [l_fs l_file l_block_nums l_buf l_count];
      try reflexivity; try assumption.
    - lia.
    - left. exact Hcached.
    - intros q Hq. lia. }
  pose proof (read_run (Z.to_nat L) 0 _ Hinv0 ltac:(lia) ltac:(lia)) as Hfin.
  destruct Hfin as [_ _ Hcount _ _ Hlen Hbuf].
  assert (HcountL : l_count (read_loop (Z.to_nat L) k L
                      {| l_fs := fs; l_file := f; l_block_nums := bn;
                         l_buf := buf; l_count := 0 |}) = L).
  { rewrite Hcount. pose proof (blocks_needed_gt L (blocks_needed L - 1)).
    fold L. destruct (Z.lt_ge_cases (512 * blocks_needed L) L) as [Hlt|Hge];
      [|lia].
    apply blocks_needed_gt in Hlt. lia. }
  eexists. f_equal. f_equal.
  - exact HcountL.
  - apply list_eq. intros q.
    destruct (Z.lt_ge_cases (Z.of_nat q) L) as [Hq|Hq].
    + apply Hbuf. rewrite HcountL. exact Hq.
    + rewrite !(proj2 (lookup_ge_None _ _)); [reflexivity| |];
        unfold L in Hq; lia.
Qed.

End ReadLoop.

Section CreateFacts.

Import FileSys.

Variable inode_image : list Inode -> list Z.

(** What a successful [CreateFile] leaves behind. *)
Lemma CreateFile_facts fid fs fs1 :
  0 <= size fs < 2 ^ 32 ->
  length (free_blocks fs) = Z.to_nat (size fs / 512) ->
  CreateFile inode_image fid fs = (true, fs1) ->
  exists k ib,
    LookupFile fid fs1 = Some k /\
    inodes fs1 !! k = Some (mkInode fid ib 0 0) /\
    size fs1 = size fs /\
    length (free_blocks fs1) = length (free_blocks fs) /\
    2 <= ib < size fs / 512 /\
    at_ (free_blocks fs1) ib <> 0 /\
    SimpleDisk.read ib (disk fs1) = words_to_bytes (replicate 128 0) /\
    (free_count fs <= Datatypes.S (free_count fs1))%nat.
Proof.
  intros Hsize Hfblen Hcreate. unfold CreateFile in Hcreate.
  destruct (LookupFile fid fs) eqn:Hlook; [discriminate|].
  destruct (GetFreeInode fs) as [k|] eqn:Hfree; [|discriminate].
  destruct (GetFreeBlock_spec fs) as [[Hr _]|[Hr Hz]].
  { rewrite Hr in Hcreate. discriminate. }
  destruct (Z.eqb_spec (GetFreeBlock fs) (-1)); [lia|].
  remember (GetFreeBlock fs) as ib eqn:Hib.
  injection Hcreate as <-.
  unfold LookupFile in Hlook. apply fmap_None in Hlook.
  apply list_find_None in Hlook.
  unfold GetFreeInode in Hfree. apply fmap_Some in Hfree as ([k' x] & Hf & ->).
  apply list_find_Some in Hf as (Hk & _ & _). cbn [fst].
  apply lookup_lt_Some in Hk.
  assert (Hsmall : size fs / 512 < 2 ^ 23).
  { change (2 ^ 32) with 4294967296 in Hsize. change (2 ^ 23) with 8388608.
    apply Z.div_lt_upper_bound; lia. }
  exists k', ib.
  cbn [SaveFreeList SaveInodes with_disk disk size inodes free_blocks].
  split; [|split; [|split; [|split; [|split; [|split; [|split]]]]]].
  - unfold LookupFile. cbn [SaveFreeList SaveInodes with_disk inodes].
    apply fmap_Some. exists (k', mkInode fid ib 0 0). split; [|reflexivity].
    apply list_find_Some. split; [|split].
    + apply list_lookup_insert_eq. exact Hk.
    + reflexivity.
    + intros j y Hj Hlt. rewrite list_lookup_insert_ne in Hj by lia.
      rewrite Forall_forall in Hlook. apply Hlook.
      apply list_elem_of_lookup. exists j. exact Hj.
  - apply list_lookup_insert_eq. exact Hk.
  - reflexivity.
  - apply length_set_.
  - exact Hr.
  - rewrite at_set_eq by lia. lia.
  - change (2 ^ 23) with 8388608 in Hsmall.
    rewrite !read_write_other
      by (change (2 ^ 28) with 268435456; lia).
    rewrite read_write_same. reflexivity.
  - unfold free_count. cbn [size free_blocks].
    apply free_count_after_take. apply NoDup_seqZ.
Qed.

End CreateFacts.

Section RoundTrip.

Import FileSys.

(** C1 (amended).  For a byte sequence [S] of length [L <= MAX_BLOCKS*512],
    with [MAX_BLOCKS] at most the 128 block numbers an indirect block holds:
    when [CreateFile] succeeds on a file system that has more than
    [ceil(L/512)] free blocks (one for the indirect block and one for each
    data block), then [Write(S)] from position 0, [Reset] and [Read(L)]
    report [L] bytes and return exactly [S]. *)
Theorem C1_file_round_trip (MAX_BLOCKS : Z)
    (inode_image : list Inode -> list Z) (S : list Z) (fid : Z)
    (fs : FileSystem) (buf : list Z) :
  MAX_BLOCKS <= 128 ->
  Z.of_nat (length S) <= MAX_BLOCKS * 512 ->
  0 <= size fs < 2 ^ 32 ->
  length (free_blocks fs) = Z.to_nat (size fs / 512) ->
  fst (CreateFile inode_image fid fs) = true ->
  blocks_needed (Z.of_nat (length S)) < Z.of_nat (free_count fs) ->
  length buf = length S ->
  round_trip MAX_BLOCKS inode_image S fid fs buf.
Proof.
  intros HM HS Hsize Hfblen Hok Hfree Hbuf.
  unfold round_trip.
  destruct (CreateFile inode_image fid fs) as [ok fs1] eqn:Hcreate.
  cbn [fst snd] in *. subst ok.
  destruct (CreateFile_facts inode_image fid fs fs1 Hsize Hfblen Hcreate)
    as (k & ib & Hlook & Hinode & Hsz & Hlen & Hib & Hused & Hread & Hcount).
  destruct (Write_stores_file MAX_BLOCKS S k fid ib HM HS fs1 (open fid fs1))
    as (fs2 & f1 & bn & HW & Hholds & Hhandle);
    try reflexivity; try assumption.
  - rewrite Hsz. exact Hsize.
  - rewrite Hsz, Hlen. exact Hfblen.
  - rewrite Hsz. exact Hib.
  - lia.
  - cbv zeta. rewrite HW.
    destruct (Read_returns_file S k fid ib bn fs2 Hholds
                ltac:(change (2 ^ 32) with 4294967296; lia)
                (Reset f1) buf Hhandle eq_refl eq_refl Hbuf) as (f2 & HR).
    rewrite HR. split; reflexivity.
Qed.

(** A freshly formatted disk of eight blocks, and three bytes. *)
Lemma C1_witness :
  round_trip 128 (fun _ => []) [72; 105; 33] 7 (formatted 4 (8 * 512))
    [0; 0; 0].
Proof.
  apply C1_file_round_trip.
  - lia.
  - simpl. lia.
  - simpl. lia.
  - reflexivity.
  - reflexivity.
  - vm_compute. reflexivity.
  - reflexivity.
Defined.

(** C1 fails on a disk with a single free block: [CreateFile] takes it for
    the indirect block, [Write] finds no block for the data and writes
    nothing, and [Read] reports 0 bytes and leaves the buffer as it was. *)
Lemma C1_counterexample :
  let fs := formatted 4 (3 * 512) in
  Z.of_nat (length [72]) <= 128 * 512 /\
  fst (CreateFile (fun _ => []) 7 fs) = true /\
  ~ round_trip 128 (fun _ => []) [72] 7 fs [0].
Proof.
  split; [simpl; lia|]. split; [reflexivity|].
  vm_compute. intros [H _]. discriminate H.
Qed.

End RoundTrip.

(* ===================================================================== *)
(** * Part III: further properties of the code                            *)
(* ===================================================================== *)

(** ** The FIFO scheduler of MP6 *)

Lemma mp6_yield_counted s : mp6_counted s -> mp6_counted (SchedMP6.yield s).
Proof.
  unfold mp6_counted, SchedMP6.yield. intros H.
  destruct s as [q n [t|]]; simpl in *.
  - destruct q as [|h r]; simpl in *; rewrite ?length_app; simpl; lia.
  - destruct q as [|h r]; simpl in *; lia.
Qed.

(** X1.  The counter [queue_size] of the MP6 scheduler equals the length of
    the ready queue in the fresh scheduler, and [resume], [add], [yield]
    and [terminate] keep it so. *)
Theorem X1_mp6_queue_size_counts (s : SchedMP6.State) (t : option Thread) :
  mp6_counted SchedMP6.Scheduler /\
  (mp6_counted s ->
   mp6_counted (SchedMP6.resume t s) /\
   mp6_counted (SchedMP6.add t s) /\
   mp6_counted (SchedMP6.yield s) /\
   mp6_counted (SchedMP6.terminate t s)).
Proof.
  split; [reflexivity|]. intros H.
  assert (Hres : mp6_counted (SchedMP6.resume t s)).
  { unfold mp6_counted in *. destruct t as [t|]; simpl; [|exact H].
    rewrite length_app. simpl. lia. }
  split; [exact Hres|]. split; [exact Hres|].
  split; [apply mp6_yield_counted; exact H|].
  unfold mp6_counted in *. destruct t as [t|]; simpl; [|exact H].
  destruct (decide (t ∈ SchedMP6.ready_queue s)) as [Hin|Hout].
  - destruct (mp6_unlink_member t _ Hin) as (q1 & q2 & Hq & _ & ->).
    simpl. rewrite Hq in H. rewrite length_app in *. simpl in H. lia.
  - rewrite (mp6_unlink_absent t _ Hout). exact H.
Qed.

Lemma X1_witness :
  mp6_counted
    (SchedMP6.terminate (Some (mkThread 2))
       (SchedMP6.mkState [mkThread 1; mkThread 2] 2 (Some (mkThread 0)))).
Proof.
  apply (X1_mp6_queue_size_counts
           (SchedMP6.mkState [mkThread 1; mkThread 2] 2 (Some (mkThread 0)))
           (Some (mkThread 2))).
  reflexivity.
Defined.

(** X2.  [terminate] of MP6 unlinks the first node that holds the thread and
    no other: the threads before and after it keep their places and the
    counter drops by one.  A thread that is not queued, or the null
    pointer, leaves the scheduler as it is. *)
Theorem X2_mp6_terminate_first_occurrence (s : SchedMP6.State) (t : Thread)
    (q1 q2 : list Thread) :
  (SchedMP6.ready_queue s = q1 ++ t :: q2 -> (t ∉ q1) ->
   SchedMP6.terminate (Some t) s
   = SchedMP6.mkState (q1 ++ q2) (SchedMP6.queue_size s - 1)
       (SchedMP6.current_thread s)) /\
  ((t ∉ SchedMP6.ready_queue s) -> SchedMP6.terminate (Some t) s = s) /\
  SchedMP6.terminate None s = s.
Proof.
  split; [|split; [|reflexivity]].
  - intros Hq Hout. unfold SchedMP6.terminate.
    assert (Hin : t ∈ SchedMP6.ready_queue s).
    { rewrite Hq. apply elem_of_app. right. left. }
    destruct (mp6_unlink_member t _ Hin) as (p1 & p2 & Hp & Hp1 & ->).
    assert (Hsame : p1 = q1 /\ p2 = q2).
    { rewrite Hq in Hp. clear -Hp Hout Hp1.
      revert p1 Hp Hp1. induction q1 as [|x q1 IH]; intros [|y p1] Hp Hp1.
      - simpl in Hp. injection Hp as ->. split; reflexivity.
      - simpl in Hp. injection Hp as <- _. exfalso. apply Hp1. left.
      - simpl in Hp. injection Hp as -> _. exfalso. apply Hout. left.
      - simpl in Hp. injection Hp as -> Hp.
        destruct (IH ltac:(intros Hx; apply Hout; right; exact Hx) p1 Hp
                    ltac:(intros Hx; apply Hp1; right; exact Hx))
          as [-> ->].
        split; reflexivity. }
    destruct Hsame as [-> ->]. reflexivity.
  - intros Hout. unfold SchedMP6.terminate.
    rewrite (mp6_unlink_absent t _ Hout). reflexivity.
Qed.

Lemma X2_witness :
  SchedMP6.terminate (Some (mkThread 2))
    (SchedMP6.mkState [mkThread 1; mkThread 2; mkThread 3; mkThread 2] 4 None)
  = SchedMP6.mkState [mkThread 1; mkThread 3; mkThread 2] 3 None.
Proof.
  apply (proj1 (X2_mp6_terminate_first_occurrence
                  (SchedMP6.mkState
                     [mkThread 1; mkThread 2; mkThread 3; mkThread 2] 4 None)
                  (mkThread 2) [mkThread 1] [mkThread 3; mkThread 2])).
  - reflexivity.
  - intros H. apply list_elem_of_singleton in H. discriminate H.
Defined.

Lemma mp6_yield_rotates s t :
  SchedMP6.current_thread s = Some t ->
  exists h r,
    SchedMP6.ready_queue s ++ [t] = h :: r /\
    SchedMP6.yield s
    = SchedMP6.mkState r (SchedMP6.queue_size s) (Some h).
Proof.
  intros Hc. unfold SchedMP6.yield. rewrite Hc. simpl.
  destruct (SchedMP6.ready_queue s) as [|h r]; simpl.
  - exists t, []. split; [reflexivity|]. f_equal. lia.
  - exists h, (r ++ [t]). split; [reflexivity|]. f_equal. lia.
Qed.

Lemma mp6_yields_rotate : forall (l1 l2 : list Thread) t q n,
  t :: q = l1 ++ l2 -> l2 <> [] ->
  exists h r,
    l2 ++ l1 = h :: r /\
    Nat.iter (length l1) SchedMP6.yield (SchedMP6.mkState q n (Some t))
    = SchedMP6.mkState r n (Some h).
Proof.
  induction l1 as [|a l1 IH] using rev_ind; intros l2 t q n Hl Hne.
  - simpl in *. rewrite app_nil_r. exists t, q. split; [congruence|reflexivity].
  - rewrite <- app_assoc in Hl. simpl in Hl.
    destruct (IH (a :: l2) t q n Hl ltac:(discriminate)) as (h & r & Hr & Hit).
    simpl in Hr. injection Hr as <- <-.
    rewrite length_app. simpl. rewrite Nat.add_comm. simpl. rewrite Hit.
    destruct (mp6_yield_rotates (SchedMP6.mkState (l2 ++ l1) n (Some a)) a
                eq_refl) as (h' & r' & Hq & Hy).
    simpl in Hq, Hy. exists h', r'. split; [|exact Hy].
    rewrite <- Hq. rewrite <- !app_assoc. reflexivity.
Qed.

(** X3.  Round robin by [yield] in MP6: with a thread running, [k] calls of
    [yield] rotate the running order (the running thread, then the ready
    queue) left by [k] places, for every [k] up to the number of threads,
    and the counter is unchanged; so every thread runs once in a round and
    after one call per thread the scheduler is as it was. *)
Theorem X3_mp6_yield_round_robin (s : SchedMP6.State) (t : Thread) (k : nat) :
  SchedMP6.current_thread s = Some t ->
  (k <= length (turn_order s))%nat ->
  let s' := Nat.iter k SchedMP6.yield s in
  (k < length (turn_order s)
   -> turn_order s' = drop k (turn_order s) ++ take k (turn_order s))%nat /\
  SchedMP6.queue_size s' = SchedMP6.queue_size s /\
  (k = length (turn_order s) -> s' = s).
Proof.
  intros Hc Hk s'. unfold turn_order in *. rewrite Hc in *.
  destruct s as [q n c]. simpl in Hc. subst c. simpl in *.
  split; [|split].
  - intros Hlt.
    destruct (mp6_yields_rotate (take k (t :: q)) (drop k (t :: q)) t q n)
      as (h & r & Hr & Hit).
    + symmetry. apply take_drop.
    + intros Hnil. apply (f_equal length) in Hnil.
      rewrite length_drop in Hnil. simpl in Hnil. lia.
    + rewrite length_take in Hit. simpl in Hit.
      replace (k `min` Datatypes.S (length q))%nat with k in Hit by lia.
      subst s'. rewrite Hit. simpl. symmetry. exact Hr.
  - destruct (decide (k = Datatypes.S (length q))) as [->|Hne].
    + destruct (mp6_yields_rotate (take (length q) (t :: q))
                  (drop (length q) (t :: q)) t q n)
        as (h & r & Hr & Hit).
      * symmetry. apply take_drop.
      * intros Hnil. apply (f_equal length) in Hnil.
        rewrite length_drop in Hnil. simpl in Hnil. lia.
      * rewrite length_take in Hit. simpl in Hit.
        replace (length q `min` Datatypes.S (length q))%nat
          with (length q) in Hit by lia.
        subst s'. simpl. rewrite Hit.
        destruct (mp6_yield_rotates (SchedMP6.mkState r n (Some h)) h eq_refl)
          as (h' & r' & _ & ->). reflexivity.
    + destruct (mp6_yields_rotate (take k (t :: q)) (drop k (t :: q)) t q n)
        as (h & r & Hr & Hit).
      * symmetry. apply take_drop.
      * intros Hnil. apply (f_equal length) in Hnil.
        rewrite length_drop in Hnil. simpl in Hnil. lia.
      * rewrite length_take in Hit. simpl in Hit.
        replace (k `min` Datatypes.S (length q))%nat with k in Hit by lia.
        subst s'. rewrite Hit. reflexivity.
  - intros ->.
    destruct (mp6_yields_rotate (take (length q) (t :: q))
                (drop (length q) (t :: q)) t q n)
      as (h & r & Hr & Hit).
    + symmetry. apply take_drop.
    + intros Hnil. apply (f_equal length) in Hnil.
      rewrite length_drop in Hnil. simpl in Hnil. lia.
    + rewrite length_take in Hit. simpl in Hit.
      replace (length q `min` Datatypes.S (length q))%nat
        with (length q) in Hit by lia.
      subst s'. simpl. rewrite Hit.
      destruct (mp6_yield_rotates (SchedMP6.mkState r n (Some h)) h eq_refl)
        as (h' & r' & Hq & ->). simpl in Hq.
      assert (Hrot : h' :: r' = t :: q).
      { rewrite <- Hq.
        assert (Hlast : drop (length q) (t :: q) = [h] /\
                        r = take (length q) (t :: q)).
        { assert (Hl : length (drop (length q) (t :: q)) = 1%nat)
            by (rewrite length_drop; simpl; lia).
          destruct (drop (length q) (t :: q)) as [|x [|y l]];
            simpl in Hl; try lia.
          simpl in Hr. injection Hr as -> <-. split; reflexivity. }
        destruct Hlast as [Hd ->]. rewrite <- Hd. apply take_drop. }
      injection Hrot as -> ->. reflexivity.
Qed.

Lemma X3_witness :
  let s := SchedMP6.mkState [mkThread 1; mkThread 2] 2 (Some (mkThread 0)) in
  turn_order (Nat.iter 2 SchedMP6.yield s)
  = [mkThread 2; mkThread 0; mkThread 1] /\
  Nat.iter 3 SchedMP6.yield s = s.
Proof.
  intros s. split.
  - apply (proj1 (X3_mp6_yield_round_robin s (mkThread 0) 2 eq_refl
                    ltac:(simpl; lia))).
    simpl. lia.
  - apply (proj2 (proj2 (X3_mp6_yield_round_robin s (mkThread 0) 3 eq_refl
                           ltac:(simpl; lia)))).
    reflexivity.
Defined.

(** ** The cooperative scheduler of MP5 *)

(** X4.  The MP5 scheduler does not restore the interrupt flag it found:
    [resume], [add] and [terminate] always return with interrupts enabled,
    and so does [yield] when it dispatches; [yield] on an empty ready queue
    returns with interrupts disabled, whatever the flag was on entry. *)
Theorem X4_mp5_interrupt_flag (s : SchedMP5.State) (t : Thread) :
  SchedMP5.interrupts_enabled (SchedMP5.resume t s) = true /\
  SchedMP5.interrupts_enabled (SchedMP5.add t s) = true /\
  (SchedMP5.qsize s <> 0 ->
   SchedMP5.interrupts_enabled (SchedMP5.yield s) = true) /\
  (SchedMP5.qsize s = 0 ->
   SchedMP5.interrupts_enabled (SchedMP5.yield s) = false) /\
  (forall s', SchedMP5.terminate t s = Some s' ->
              SchedMP5.interrupts_enabled s' = true).
Proof.
  assert (Hres : SchedMP5.interrupts_enabled (SchedMP5.resume t s) = true).
  { unfold SchedMP5.resume, SchedMP5.enable_if_disabled,
      SchedMP5.disable_if_enabled.
    destruct (SchedMP5.interrupts_enabled s) eqn:E; simpl;
      rewrite ?E; reflexivity. }
  split; [exact Hres|]. split; [exact Hres|]. split; [|split].
  - intros Hq. unfold SchedMP5.yield, SchedMP5.disable_if_enabled.
    destruct (SchedMP5.interrupts_enabled s) eqn:E; simpl.
    + destruct (Z.eqb_spec (SchedMP5.qsize s) 0); [contradiction|].
      destruct (SchedMP5.dequeue (SchedMP5.ready_queue s)). reflexivity.
    + destruct (Z.eqb_spec (SchedMP5.qsize s) 0); [contradiction|].
      destruct (SchedMP5.dequeue (SchedMP5.ready_queue s)). simpl.
      unfold SchedMP5.enable_if_disabled. simpl. rewrite E. reflexivity.
  - intros Hq. unfold SchedMP5.yield, SchedMP5.disable_if_enabled.
    destruct (SchedMP5.interrupts_enabled s) eqn:E; simpl;
      rewrite Hq; simpl; [reflexivity|exact E].
  - intros s' Ht. unfold SchedMP5.terminate in Ht.
    destruct (SchedMP5.terminate_loop _ _ _ _ _) as [[q qs]|];
      [|discriminate].
    injection Ht as <-. unfold SchedMP5.enable_if_disabled. simpl.
    destruct (SchedMP5.interrupts_enabled (SchedMP5.disable_if_enabled s));
      reflexivity.
Qed.

Lemma X4_witness :
  SchedMP5.interrupts_enabled
    (SchedMP5.yield (SchedMP5.mkState [] 0 true (Some (mkThread 0)))) = false
  /\
  SchedMP5.interrupts_enabled
    (SchedMP5.yield (SchedMP5.mkState [mkThread 1] 1 false None)) = true.
Proof.
  split.
  - apply (proj1 (proj2 (proj2 (proj2
             (X4_mp5_interrupt_flag
                (SchedMP5.mkState [] 0 true (Some (mkThread 0)))
                (mkThread 0)))))).
    reflexivity.
  - apply (proj1 (proj2 (proj2
             (X4_mp5_interrupt_flag
                (SchedMP5.mkState [mkThread 1] 1 false None)
                (mkThread 0))))).
    simpl. lia.
Defined.

Lemma mp5_resume_queue t s :
  SchedMP5.ready_queue (SchedMP5.resume t s) = SchedMP5.ready_queue s ++ [t] /\
  SchedMP5.qsize (SchedMP5.resume t s) = SchedMP5.qsize s + 1 /\
  SchedMP5.current_thread (SchedMP5.resume t s) = SchedMP5.current_thread s.
Proof.
  unfold SchedMP5.resume, SchedMP5.enable_if_disabled,
    SchedMP5.disable_if_enabled, SchedMP5.enqueue.
  destruct (SchedMP5.interrupts_enabled s) eqn:E; simpl; rewrite ?E; simpl;
    repeat split; reflexivity.
Qed.

Lemma mp5_adds_queue (ts : list Thread) : forall s,
  let s' := foldl (fun s t => SchedMP5.add t s) s ts in
  SchedMP5.ready_queue s' = SchedMP5.ready_queue s ++ ts /\
  SchedMP5.qsize s' = SchedMP5.qsize s + Z.of_nat (length ts).
Proof.
  induction ts as [|t ts IH]; intros s; cbv zeta; simpl.
  - rewrite app_nil_r. split; [reflexivity|lia].
  - destruct (IH (SchedMP5.add t s)) as [Hq Hn].
    destruct (mp5_resume_queue t s) as (Hq1 & Hn1 & _).
    unfold SchedMP5.add in *. rewrite Hq, Hn, Hq1, Hn1.
    rewrite <- app_assoc. split; [reflexivity|lia].
Qed.

Lemma mp5_yields_queue : forall (k : nat) s,
  mp5_counted s ->
  (k <= length (SchedMP5.ready_queue s))%nat ->
  let s' := Nat.iter k SchedMP5.yield s in
  SchedMP5.ready_queue s' = drop k (SchedMP5.ready_queue s) /\
  mp5_counted s' /\
  ((0 < k)%nat ->
   SchedMP5.current_thread s' = SchedMP5.ready_queue s !! (k - 1)%nat).
Proof.
  induction k as [|k IH]; intros s Hc Hk.
  - simpl. rewrite drop_0. split; [reflexivity|]. split; [exact Hc|]. lia.
  - destruct (IH s Hc ltac:(lia)) as (Hq & Hc' & Hcur). cbv zeta. simpl.
    set (s1 := Nat.iter k SchedMP5.yield s) in *.
    destruct (drop k (SchedMP5.ready_queue s)) as [|h r] eqn:Hd.
    { apply (f_equal length) in Hd. rewrite length_drop in Hd.
      simpl in Hd. lia. }
    destruct (mp5_yield_nonempty s1 h r Hc' Hq) as (Hq2 & Hcur2 & Hn2).
    split; [|split].
    + rewrite Hq2. replace (Datatypes.S k) with (k + 1)%nat by lia.
      rewrite <- drop_drop, Hd. reflexivity.
    + unfold mp5_counted. rewrite Hq2. exact Hn2.
    + intros _. rewrite Hcur2.
      pose proof (lookup_drop (SchedMP5.ready_queue s) k 0) as Hl.
      rewrite Hd, Nat.add_0_r in Hl. rewrite Nat.sub_0_r, <- Hl.
      reflexivity.
Qed.

(** X5.  First in, first out in MP5: threads added to a scheduler whose
    counter agrees with its queue run after the threads already queued and
    in the order they were added.  After [k] calls of [yield] the [k]-th
    thread of the queue is running, the queue has lost its first [k] threads
    and the counter still agrees. *)
Theorem X5_mp5_first_in_first_out (s : SchedMP5.State) (ts : list Thread)
    (k : nat) :
  mp5_counted s ->
  let q := SchedMP5.ready_queue s ++ ts in
  let s1 := foldl (fun s t => SchedMP5.add t s) s ts in
  let s2 := Nat.iter k SchedMP5.yield s1 in
  SchedMP5.ready_queue s1 = q /\
  ((k <= length q)%nat ->
   SchedMP5.ready_queue s2 = drop k q /\
   mp5_counted s2 /\
   ((0 < k)%nat -> SchedMP5.current_thread s2 = q !! (k - 1)%nat)).
Proof.
  intros Hc q s1 s2.
  destruct (mp5_adds_queue ts s) as [Hq Hn]. fold s1 in Hq, Hn.
  split; [exact Hq|]. intros Hk.
  assert (Hc1 : mp5_counted s1).
  { unfold mp5_counted in *. rewrite Hq, Hn, Hc, length_app. lia. }
  destruct (mp5_yields_queue k s1 Hc1 ltac:(rewrite Hq; exact Hk))
    as (H1 & H2 & H3).
  fold s2 in H1, H2, H3. rewrite Hq in H1, H3. fold q in H1, H3.
  split; [exact H1|]. split; [exact H2|exact H3].
Qed.

Lemma X5_witness :
  let s2 :=
    Nat.iter 2 SchedMP5.yield
      (foldl (fun s t => SchedMP5.add t s) SchedMP5.Scheduler
         [mkThread 1; mkThread 2; mkThread 3]) in
  SchedMP5.ready_queue s2 = [mkThread 3] /\
  SchedMP5.current_thread s2 = Some (mkThread 2).
Proof.
  intros s2.
  destruct (X5_mp5_first_in_first_out SchedMP5.Scheduler
              [mkThread 1; mkThread 2; mkThread 3] 2 eq_refl) as [_ H].
  destruct (H ltac:(simpl; lia)) as (H1 & _ & H3).
  split; [exact H1|]. apply H3. lia.
Defined.

Lemma mp5_terminate_rotates t : forall (l1 l2 : list Thread) fuel index qs,
  Forall (fun x => ThreadId x <> ThreadId t) l1 ->
  index + Z.of_nat (length l1) <= qs ->
  SchedMP5.terminate_loop (length l1 + fuel) index t (l1 ++ l2) qs
  = SchedMP5.terminate_loop fuel (index + Z.of_nat (length l1)) t
      (l2 ++ l1) qs.
Proof.
  induction l1 as [|a l1 IH]; intros l2 fuel index qs Hall Hqs.
  - simpl. rewrite app_nil_r, Z.add_0_r. reflexivity.
  - apply Forall_cons in Hall as [Ha Hall]. simpl length in *.
    cbn [Nat.add SchedMP5.terminate_loop].
    destruct (Z.ltb_spec index qs); [|lia].
    cbn [app SchedMP5.dequeue].
    destruct (Z.eqb_spec (ThreadId a) (ThreadId t)); [contradiction|].
    cbn [negb]. unfold SchedMP5.enqueue.
    rewrite <- app_assoc.
    rewrite (IH (l2 ++ [a]) fuel (index + 1) qs Hall ltac:(lia)).
    rewrite <- app_assoc. simpl. f_equal. lia.
Qed.

(** X6.  [terminate] of MP5 on a thread that is queued once, with the
    counter agreeing with the queue: the thread is removed and the counter
    drops by one.  The others keep their order when the thread was last in
    the queue; otherwise the loop stops one turn early and the last thread of
    the queue ends up at its head.  When the thread is not queued the queue
    and the counter are as before. *)
Theorem X6_mp5_terminate_outcome (s : SchedMP5.State) (t : Thread) :
  mp5_counted s ->
  let apart := fun x => ThreadId x <> ThreadId t in
  (forall q1,
      SchedMP5.ready_queue s = q1 ++ [t] -> Forall apart q1 ->
      exists s', SchedMP5.terminate t s = Some s' /\
                 SchedMP5.ready_queue s' = q1 /\
                 SchedMP5.qsize s' = SchedMP5.qsize s - 1) /\
  (forall q1 q2 z,
      SchedMP5.ready_queue s = q1 ++ t :: q2 ++ [z] ->
      Forall apart q1 -> Forall apart (q2 ++ [z]) ->
      exists s', SchedMP5.terminate t s = Some s' /\
                 SchedMP5.ready_queue s' = z :: q1 ++ q2 /\
                 SchedMP5.qsize s' = SchedMP5.qsize s - 1) /\
  (Forall apart (SchedMP5.ready_queue s) ->
   exists s', SchedMP5.terminate t s = Some s' /\
              SchedMP5.ready_queue s' = SchedMP5.ready_queue s /\
              SchedMP5.qsize s' = SchedMP5.qsize s).
Proof.
  intros Hc apart. unfold SchedMP5.terminate.
  assert (Hd : SchedMP5.ready_queue (SchedMP5.disable_if_enabled s)
               = SchedMP5.ready_queue s /\
               SchedMP5.qsize (SchedMP5.disable_if_enabled s)
               = SchedMP5.qsize s).
  { unfold SchedMP5.disable_if_enabled.
    destruct (SchedMP5.interrupts_enabled s); split; reflexivity. }
  destruct Hd as [Hdq Hdn]. rewrite Hdq, Hdn.
  assert (Hfin : forall q qs st,
             SchedMP5.ready_queue (SchedMP5.enable_if_disabled
               (SchedMP5.mkState q qs
                  (SchedMP5.interrupts_enabled st)
                  (SchedMP5.current_thread st))) = q /\
             SchedMP5.qsize (SchedMP5.enable_if_disabled
               (SchedMP5.mkState q qs
                  (SchedMP5.interrupts_enabled st)
                  (SchedMP5.current_thread st))) = qs).
  { intros q qs st. unfold SchedMP5.enable_if_disabled. simpl.
    destruct (SchedMP5.interrupts_enabled st); split; reflexivity. }
  unfold mp5_counted in Hc. rewrite Hc.
  split; [|split].
  - intros q1 Hq Hall. rewrite Hq. rewrite length_app. simpl length.
    rewrite Nat2Z.id.
    rewrite (mp5_terminate_rotates t q1 [t] 1 0 _ Hall) by lia.
    cbn [SchedMP5.terminate_loop].
    destruct (Z.ltb_spec (0 + Z.of_nat (length q1))
                (Z.of_nat (length q1 + 1))); [|lia].
    cbn [app SchedMP5.dequeue]. rewrite Z.eqb_refl. cbn [negb].
    eexists. split; [reflexivity|]. apply Hfin.
  - intros q1 q2 z Hq Hall1 Hall2. rewrite Hq.
    rewrite length_app. simpl length. rewrite length_app. simpl length.
    rewrite Nat2Z.id.
    replace (length q1 + Datatypes.S (length q2 + 1))%nat
      with (length q1 + (1 + (length (q2 ++ [z]) + 0)))%nat
      by (rewrite length_app; simpl; lia).
    rewrite (mp5_terminate_rotates t q1 (t :: q2 ++ [z]) _ 0 _ Hall1)
      by (rewrite length_app; simpl; lia).
    cbn [Nat.add SchedMP5.terminate_loop].
    destruct (Z.ltb_spec (0 + Z.of_nat (length q1))
                (Z.of_nat (length q1 + Datatypes.S (length (q2 ++ [z]) + 0))));
      [|lia].
    cbn [app SchedMP5.dequeue]. rewrite Z.eqb_refl. cbn [negb].
    assert (Hq2 : Forall apart q2) by (apply Forall_app in Hall2; tauto).
    replace (length (q2 ++ [z]) + 0)%nat with (length q2 + 1)%nat
      by (rewrite length_app; simpl; lia).
    rewrite <- (app_assoc q2 [z] q1).
    rewrite (mp5_terminate_rotates t q2 ([z] ++ q1) 1 _ _ Hq2)
      by lia.
    cbn [SchedMP5.terminate_loop].
    destruct (Z.ltb_spec
                (0 + Z.of_nat (length q1) + 1 + Z.of_nat (length q2))
                (Z.of_nat (length q1 + Datatypes.S (length q2 + 1)) - 1));
      [lia|].
    eexists. split; [reflexivity|].
    destruct (Hfin (([z] ++ q1) ++ q2)
                (Z.of_nat (length q1 + Datatypes.S (length q2 + 1)) - 1)
                (SchedMP5.disable_if_enabled s)) as [-> ->].
    split; [rewrite <- app_assoc; reflexivity|reflexivity].
  - intros Hall. rewrite Nat2Z.id.
    pose proof (mp5_terminate_rotates t (SchedMP5.ready_queue s) [] 0 0
                  (Z.of_nat (length (SchedMP5.ready_queue s))) Hall
                  ltac:(lia)) as Hr.
    rewrite Nat.add_0_r, app_nil_r in Hr. rewrite Hr.
    cbn [SchedMP5.terminate_loop app].
    eexists. split; [reflexivity|]. apply Hfin.
Qed.

Lemma X6_witness :
  let s := SchedMP5.mkState
             [mkThread 1; mkThread 0; mkThread 2; mkThread 3] 4 true None in
  exists s', SchedMP5.terminate (mkThread 0) s = Some s' /\
             SchedMP5.ready_queue s' = [mkThread 3; mkThread 1; mkThread 2] /\
             SchedMP5.qsize s' = 3.
Proof.
  intros s.
  destruct (X6_mp5_terminate_outcome s (mkThread 0) eq_refl) as (_ & H & _).
  apply (H [mkThread 1] [mkThread 2] (mkThread 3) eq_refl).
  - repeat constructor; simpl; lia.
  - repeat constructor; simpl; lia.
Defined.

(** ** The round-robin scheduler of MP5 *)

Lemma rr_tick_below s :
  RRScheduler.ticks s + 1 < RRScheduler.hz s ->
  RRScheduler.handle_interrupt s
  = RRScheduler.mkState (RRScheduler.ready_rr_queue s)
      (RRScheduler.rr_qsize s) (RRScheduler.ticks s + 1) (RRScheduler.hz s)
      (RRScheduler.interrupts_enabled s) (RRScheduler.current_thread s)
      (RRScheduler.ports s).
Proof.
  intros H. unfold RRScheduler.handle_interrupt. cbn.
  destruct (Z.geb_spec (RRScheduler.ticks s + 1) (RRScheduler.hz s));
    [lia|reflexivity].
Qed.

Lemma rr_resume_eq t q n tk h irq cur ps :
  RRScheduler.resume t (RRScheduler.mkState q n tk h irq cur ps)
  = RRScheduler.mkState (q ++ [t]) (n + 1) tk h true cur ps.
Proof. destruct irq; reflexivity. Qed.

Lemma rr_yield_eq x q n tk h irq cur ps :
  n <> 0 ->
  RRScheduler.yield (RRScheduler.mkState (x :: q) n tk h irq cur ps)
  = RRScheduler.mkState q (n - 1) 0 h true x (ps ++ [(0x20, 0x20)]).
Proof.
  intros Hn. unfold RRScheduler.yield.
  assert (Hd : RRScheduler.disable_if_enabled
                 (RRScheduler.outportb 0x20 0x20
                    (RRScheduler.mkState (x :: q) n tk h irq cur ps))
               = RRScheduler.mkState (x :: q) n tk h false cur
                   (ps ++ [(0x20, 0x20)]))
    by (destruct irq; reflexivity).
  rewrite Hd. cbn [RRScheduler.rr_qsize].
  destruct (Z.eqb_spec n 0); [contradiction|]. reflexivity.
Qed.

Lemma rr_tick_expires s :
  RRScheduler.rr_qsize s
  = Z.of_nat (length (RRScheduler.ready_rr_queue s)) ->
  RRScheduler.hz s <= RRScheduler.ticks s + 1 ->
  exists q,
    RRScheduler.ready_rr_queue s ++ [RRScheduler.current_thread s]
    = q /\
    RRScheduler.handle_interrupt s
    = RRScheduler.mkState (tail q) (RRScheduler.rr_qsize s) 0
        (RRScheduler.hz s) true (default None (head q))
        (RRScheduler.ports s ++ [(0x20, 0x20)]).
Proof.
  intros Hc H. eexists. split; [reflexivity|].
  destruct s as [q n tk h irq cur ps].
  cbn [RRScheduler.ticks RRScheduler.hz RRScheduler.current_thread
       RRScheduler.ready_rr_queue RRScheduler.rr_qsize
       RRScheduler.interrupts_enabled RRScheduler.ports] in *.
  unfold RRScheduler.handle_interrupt.
  cbn [RRScheduler.ticks RRScheduler.hz RRScheduler.current_thread
       RRScheduler.ready_rr_queue RRScheduler.rr_qsize
       RRScheduler.interrupts_enabled RRScheduler.ports].
  destruct (Z.geb_spec (tk + 1) h); [|lia].
  rewrite rr_resume_eq.
  destruct q as [|x q]; cbn [app].
  - rewrite rr_yield_eq by (simpl in Hc; lia).
    cbn [tail head default]. f_equal. lia.
  - rewrite rr_yield_eq by lia.
    cbn [tail head default]. f_equal. lia.
Qed.

(** X7.  The timer tick of the round-robin scheduler, with the counter
    agreeing with the queue.  While fewer than [hz] ticks have been
    counted a tick only advances [ticks].  The tick that brings the count
    to [hz] preempts: the running thread goes to the tail of the queue, the
    head of the queue is dispatched (the running thread itself when the
    queue was empty), [ticks] restarts at 0, an end-of-interrupt byte goes
    to port 0x20 and interrupts end up enabled.  Hence from a zero count the
    [hz]-th tick is the first to preempt. *)
Theorem X7_rr_quantum (s : RRScheduler.State) :
  RRScheduler.rr_qsize s
  = Z.of_nat (length (RRScheduler.ready_rr_queue s)) ->
  let preempted s' :=
    RRScheduler.current_thread s' :: RRScheduler.ready_rr_queue s'
    = RRScheduler.ready_rr_queue s ++ [RRScheduler.current_thread s] /\
    RRScheduler.rr_qsize s' = RRScheduler.rr_qsize s /\
    RRScheduler.ticks s' = 0 /\
    RRScheduler.hz s' = RRScheduler.hz s /\
    RRScheduler.interrupts_enabled s' = true /\
    RRScheduler.ports s' = RRScheduler.ports s ++ [(0x20, 0x20)] in
  (RRScheduler.ticks s + 1 < RRScheduler.hz s ->
   RRScheduler.handle_interrupt s
   = RRScheduler.mkState (RRScheduler.ready_rr_queue s)
       (RRScheduler.rr_qsize s) (RRScheduler.ticks s + 1) (RRScheduler.hz s)
       (RRScheduler.interrupts_enabled s) (RRScheduler.current_thread s)
       (RRScheduler.ports s)) /\
  (RRScheduler.hz s <= RRScheduler.ticks s + 1 ->
   preempted (RRScheduler.handle_interrupt s)) /\
  (RRScheduler.ticks s = 0 -> 0 < RRScheduler.hz s ->
   forall k : nat,
     (Z.of_nat k < RRScheduler.hz s ->
      Nat.iter k RRScheduler.handle_interrupt s
      = RRScheduler.mkState (RRScheduler.ready_rr_queue s)
          (RRScheduler.rr_qsize s) (Z.of_nat k) (RRScheduler.hz s)
          (RRScheduler.interrupts_enabled s) (RRScheduler.current_thread s)
          (RRScheduler.ports s)) /\
     (Z.of_nat k = RRScheduler.hz s ->
      preempted (Nat.iter k RRScheduler.handle_interrupt s))).
Proof.
  intros Hc preempted.
  assert (Hexp : forall s0,
             RRScheduler.rr_qsize s0
             = Z.of_nat (length (RRScheduler.ready_rr_queue s0)) ->
             RRScheduler.hz s0 <= RRScheduler.ticks s0 + 1 ->
             RRScheduler.ready_rr_queue s0 = RRScheduler.ready_rr_queue s ->
             RRScheduler.current_thread s0 = RRScheduler.current_thread s ->
             RRScheduler.rr_qsize s0 = RRScheduler.rr_qsize s ->
             RRScheduler.hz s0 = RRScheduler.hz s ->
             RRScheduler.ports s0 = RRScheduler.ports s ->
             preempted (RRScheduler.handle_interrupt s0)).
  { intros s0 Hc0 H0 Hq Hcur Hn Hh Hp.
    destruct (rr_tick_expires s0 Hc0 H0) as (q & Hq0 & ->).
    unfold preempted. cbn. rewrite <- Hq, <- Hcur, Hq0, Hn, Hh, Hp.
    repeat split.
    destruct q as [|x q]; [|reflexivity].
    apply app_eq_nil in Hq0 as [_ Hq0]. discriminate. }
  split; [apply rr_tick_below|]. split.
  - intros H. apply Hexp; try reflexivity; assumption.
  - intros Ht Hh.
    assert (Hbelow : forall k : nat,
               Z.of_nat k < RRScheduler.hz s ->
               Nat.iter k RRScheduler.handle_interrupt s
               = RRScheduler.mkState (RRScheduler.ready_rr_queue s)
                   (RRScheduler.rr_qsize s) (Z.of_nat k) (RRScheduler.hz s)
                   (RRScheduler.interrupts_enabled s)
                   (RRScheduler.current_thread s) (RRScheduler.ports s)).
    { induction k as [|k IH]; intros Hk.
      - clear -Ht. destruct s. cbn in *. subst. reflexivity.
      - rewrite Nat.iter_succ, IH by lia.
        rewrite rr_tick_below by (cbn; lia). cbn. f_equal. lia. }
    intros k. split; [apply Hbelow|].
    intros Hk. destruct k as [|k]; [simpl in Hk; lia|].
    rewrite Nat.iter_succ, Hbelow by lia.
    apply Hexp; cbn; try reflexivity; try assumption; lia.
Qed.

Lemma X7_witness :
  let s := RRScheduler.mkState [Some (mkThread 1); Some (mkThread 2)] 2 0 5
             false (Some (mkThread 0)) [] in
  RRScheduler.ticks (Nat.iter 4 RRScheduler.handle_interrupt s) = 4 /\
  RRScheduler.current_thread (Nat.iter 5 RRScheduler.handle_interrupt s)
    :: RRScheduler.ready_rr_queue (Nat.iter 5 RRScheduler.handle_interrupt s)
  = [Some (mkThread 1); Some (mkThread 2); Some (mkThread 0)].
Proof.
  intros s.
  destruct (X7_rr_quantum s eq_refl) as (_ & _ & H).
  specialize (H eq_refl ltac:(simpl; lia)). split.
  - rewrite (proj1 (H 4%nat)) by (simpl; lia). reflexivity.
  - apply (proj2 (H 5%nat)). reflexivity.
Defined.

(** X8.  [set_frequency] programs the interval timer with the command byte
    0x34 and then the low and the high byte of [1193180 / hz], each cut to
    the 8 bits a port takes: the timer receives the divisor modulo 65536.
    That is the divisor itself exactly for frequencies of 19 Hz and more;
    below, the high bits are lost.  A frequency of 0 halts on the division. *)
Theorem X8_rr_set_frequency (s : RRScheduler.State) (_hz : Z) :
  RRScheduler.set_frequency 0 s = None /\
  (0 < _hz ->
   exists s' lo hi,
     RRScheduler.set_frequency _hz s = Some s' /\
     RRScheduler.hz s' = _hz /\
     RRScheduler.ports s'
     = RRScheduler.ports s ++ [(0x43, 0x34); (0x40, lo); (0x40, hi)] /\
     0 <= lo < 256 /\ 0 <= hi < 256 /\
     lo + 256 * hi = (1193180 / _hz) mod 65536 /\
     (lo + 256 * hi = 1193180 / _hz <-> 19 <= _hz)).
Proof.
  split; [reflexivity|]. intros Hpos.
  unfold RRScheduler.set_frequency.
  destruct (Z.eqb_spec _hz 0); [lia|].
  rewrite Z.quot_div_nonneg by lia.
  set (d := 1193180 / _hz).
  assert (Hd : 0 <= d) by (apply Z.div_pos; lia).
  exists (RRScheduler.outportb 0x40 (Z.shiftr d 8)
            (RRScheduler.outportb 0x40 (Z.land d 0xFF)
               (RRScheduler.outportb 0x43 0x34
                  (RRScheduler.mkState (RRScheduler.ready_rr_queue s)
                     (RRScheduler.rr_qsize s) (RRScheduler.ticks s) _hz
                     (RRScheduler.interrupts_enabled s)
                     (RRScheduler.current_thread s) (RRScheduler.ports s))))),
         (u8 (Z.land d 0xFF)), (u8 (Z.shiftr d 8)).
  split; [reflexivity|]. split; [reflexivity|]. split.
  { cbn. rewrite <- !app_assoc. reflexivity. }
  change 0xFF with (Z.ones 8). rewrite Z.land_ones by lia.
  rewrite Z.shiftr_div_pow2 by lia. unfold u8.
  change (2 ^ 8) with 256.
  assert (Hsum : d mod 256 mod 256 + 256 * (d / 256 mod 256) = d mod 65536)
    by (Z.div_mod_to_equations; lia).
  split; [apply Z.mod_pos_bound; lia|].
  split; [apply Z.mod_pos_bound; lia|].
  split; [exact Hsum|]. rewrite Hsum.
  assert (Hdiv : d * _hz <= 1193180 < (d + 1) * _hz).
  { unfold d. pose proof (Z.mul_div_le 1193180 _hz Hpos).
    pose proof (Z.mul_succ_div_gt 1193180 _hz Hpos). unfold Z.succ in *.
    split; [lia|]. rewrite Z.mul_comm. lia. }
  split.
  - intros Heq.
    assert (d < 65536) by (rewrite <- Heq; apply Z.mod_pos_bound; lia).
    nia.
  - intros H19. apply Z.mod_small. split; [exact Hd|]. nia.
Qed.

Lemma X8_witness :
  exists s',
    RRScheduler.RRScheduler true None [] = Some s' /\
    RRScheduler.ports s' = [(0x43, 0x34); (0x40, 0x2C); (0x40, 0xA4)] /\
    0x2C + 256 * 0xA4 = (1193180 / 5) mod 65536.
Proof.
  destruct (proj2 (X8_rr_set_frequency
                     (RRScheduler.mkState [] 0 0 5 true None []) 5)
              ltac:(lia))
    as (s' & lo & hi & Hs & _ & _ & _ & _ & _ & _).
  exists s'. split; [exact Hs|].
  vm_compute in Hs. injection Hs as <-. split; reflexivity.
Defined.

(** ** The interrupt-driven disk client *)

Lemma disk_interrupts_wake : forall (n : nat) d sched,
  NonBlockingDisk.SCHEDULER d = Some sched ->
  (n <= length (NonBlockingDisk.blocked_queue d))%nat ->
  let d' := Nat.iter n (NonBlockingDisk.handle_interrupt false) d in
  NonBlockingDisk.blocked_queue d' = drop n (NonBlockingDisk.blocked_queue d) /\
  NonBlockingDisk.SCHEDULER d'
  = Some (SchedMP6.mkState
            (SchedMP6.ready_queue sched
             ++ take n (NonBlockingDisk.blocked_queue d))
            (SchedMP6.queue_size sched + Z.of_nat n)
            (SchedMP6.current_thread sched)) /\
  NonBlockingDisk.waiting_for_interrupt d'
  = match n, drop n (NonBlockingDisk.blocked_queue d) with
    | Datatypes.S _, [] => false
    | _, _ => NonBlockingDisk.waiting_for_interrupt d
    end.
Proof.
  induction n as [|n IH]; intros d sched Hs Hn; cbv zeta.
  - simpl. rewrite drop_0, app_nil_r, Z.add_0_r.
    split; [reflexivity|]. split; [|reflexivity].
    rewrite Hs. destruct sched; reflexivity.
  - rewrite Nat.iter_succ.
    destruct (IH d sched Hs ltac:(lia)) as (Hb & Hsc & Hw).
    set (d1 := Nat.iter n (NonBlockingDisk.handle_interrupt false) d) in *.
    destruct (drop n (NonBlockingDisk.blocked_queue d)) as [|t rest] eqn:Hd.
    { apply (f_equal length) in Hd. rewrite length_drop in Hd.
      simpl in Hd. lia. }
    assert (Hd' : drop (Datatypes.S n) (NonBlockingDisk.blocked_queue d) = rest).
    { replace (Datatypes.S n) with (n + 1)%nat by lia.
      rewrite <- drop_drop, Hd. reflexivity. }
    assert (Ht : take (Datatypes.S n) (NonBlockingDisk.blocked_queue d)
                 = take n (NonBlockingDisk.blocked_queue d) ++ [t]).
    { pose proof (lookup_drop (NonBlockingDisk.blocked_queue d) n 0) as Hl.
      rewrite Hd, Nat.add_0_r in Hl. simpl in Hl. symmetry in Hl.
      apply take_S_r. exact Hl. }
    rewrite Hd', Ht.
    unfold NonBlockingDisk.handle_interrupt, negb,
      NonBlockingDisk.wake_next_blocked_thread.
    rewrite Hb, Hsc. cbn [NonBlockingDisk.blocked_queue
                           NonBlockingDisk.SCHEDULER
                           NonBlockingDisk.waiting_for_interrupt
                           SchedMP6.resume SchedMP6.ready_queue
                           SchedMP6.queue_size SchedMP6.current_thread].
    split; [reflexivity|]. split.
    + rewrite <- app_assoc. do 2 f_equal. lia.
    + destruct rest; [reflexivity|]. rewrite Hw.
      destruct n; [reflexivity|]. rewrite Hd. reflexivity.
Qed.

(** X9.  Disk interrupts wake the blocked threads first come, first served:
    [n] interrupts that find the disk ready move the first [n] threads of
    the blocked queue, in their order, to the tail of the scheduler's ready
    queue; the flag [waiting_for_interrupt] is cleared by the interrupt that
    empties the blocked queue and is otherwise left alone.  Interrupts that
    find the disk busy change nothing. *)
Theorem X9_disk_wakes_in_order (d : NonBlockingDisk.State)
    (sched : SchedMP6.State) (n : nat) :
  NonBlockingDisk.SCHEDULER d = Some sched ->
  (n <= length (NonBlockingDisk.blocked_queue d))%nat ->
  let d' := Nat.iter n (NonBlockingDisk.handle_interrupt false) d in
  NonBlockingDisk.blocked_queue d'
  = drop n (NonBlockingDisk.blocked_queue d) /\
  NonBlockingDisk.ready d'
  = NonBlockingDisk.ready d ++ take n (NonBlockingDisk.blocked_queue d) /\
  NonBlockingDisk.waiting_for_interrupt d'
  = (if decide (0 < n /\ n = length (NonBlockingDisk.blocked_queue d))%nat
     then false else NonBlockingDisk.waiting_for_interrupt d) /\
  Nat.iter n (NonBlockingDisk.handle_interrupt true) d = d.
Proof.
  intros Hs Hn d'.
  destruct (disk_interrupts_wake n d sched Hs Hn) as (Hb & Hsc & Hw).
  fold d' in Hb, Hsc, Hw.
  split; [exact Hb|]. split; [|split].
  - unfold NonBlockingDisk.ready. rewrite Hsc, Hs. reflexivity.
  - rewrite Hw.
    assert (Hlen : length (drop n (NonBlockingDisk.blocked_queue d))
                   = (length (NonBlockingDisk.blocked_queue d) - n)%nat)
      by apply length_drop.
    destruct (decide _) as [[Hp He]|Hno].
    + destruct n; [lia|].
      destruct (drop _ _); [reflexivity|]. simpl in Hlen. lia.
    + destruct n; [reflexivity|].
      destruct (drop _ _) eqn:E; [|reflexivity].
      simpl in Hlen. exfalso. apply Hno. lia.
  - clear. induction n as [|n IH]; [reflexivity|].
    rewrite Nat.iter_succ, IH. reflexivity.
Qed.

Lemma X9_witness :
  let d := NonBlockingDisk.mkState [mkThread 7; mkThread 8; mkThread 9] true
             (Some (SchedMP6.mkState [mkThread 3] 1 None)) in
  let d' := Nat.iter 2 (NonBlockingDisk.handle_interrupt false) d in
  NonBlockingDisk.blocked_queue d' = [mkThread 9] /\
  NonBlockingDisk.ready d' = [mkThread 3; mkThread 7; mkThread 8].
Proof.
  intros d d'.
  destruct (X9_disk_wakes_in_order d (SchedMP6.mkState [mkThread 3] 1 None)
              2 eq_refl ltac:(simpl; lia)) as (H1 & H2 & _).
  split; [exact H1|exact H2].
Defined.

(** ** The virtual-memory pool *)

Lemma find_region_spec a p : forall fuel index,
  VMPool.num_regions p - index <= Z.of_nat fuel ->
  let r := VMPool.find_region fuel index a p in
  (r = -1 /\
   forall i, index <= i < VMPool.num_regions p ->
     VMPool.region_base_address (VMPool.ptr_vm_region p i) <> a) \/
  (index <= r < VMPool.num_regions p /\
   VMPool.region_base_address (VMPool.ptr_vm_region p r) = a /\
   forall i, index <= i < r ->
     VMPool.region_base_address (VMPool.ptr_vm_region p i) <> a).
Proof.
  induction fuel as [|fuel IH]; intros index Hfuel; simpl.
  - left. split; [reflexivity|]. intros i Hi. lia.
  - destruct (Z.ltb_spec index (VMPool.num_regions p)) as [Hlt|Hge].
    + destruct (Z.eqb_spec
                  (VMPool.region_base_address (VMPool.ptr_vm_region p index))
                  a) as [Heq|Hne].
      * right. split; [lia|]. split; [exact Heq|]. intros i Hi. lia.
      * destruct (IH (index + 1) ltac:(lia)) as [[Hr Hall]|(Hr & Hb & Hall)].
        -- left. split; [exact Hr|]. intros i Hi.
           destruct (Z.eq_dec i index) as [->|]; [exact Hne|]. apply Hall. lia.
        -- right. split; [lia|]. split; [exact Hb|]. intros i Hi.
           destruct (Z.eq_dec i index) as [->|]; [exact Hne|]. apply Hall. lia.
    + left. split; [reflexivity|]. intros i Hi. lia.
Qed.

Lemma shift_left_spec n : forall fuel index arr j,
  n - 1 - index <= Z.of_nat fuel ->
  VMPool.shift_left fuel index n arr j
  = if (index <=? j) && (j <? n - 1) then arr (j + 1) else arr j.
Proof.
  induction fuel as [|fuel IH]; intros index arr j Hfuel; simpl.
  - destruct (Z.leb_spec index j), (Z.ltb_spec j (n - 1)); simpl;
      try reflexivity; lia.
  - destruct (Z.ltb_spec index (n - 1)) as [Hlt|Hge].
    + rewrite IH by lia. unfold VMPool.region_store.
      destruct (Z.leb_spec (index + 1) j), (Z.ltb_spec j (n - 1)),
        (Z.leb_spec index j); simpl;
        repeat match goal with
               | |- context [?x =? ?y] => destruct (Z.eqb_spec x y)
               end; try reflexivity; try lia; subst; try reflexivity.
    + destruct (Z.leb_spec index j), (Z.ltb_spec j (n - 1)); simpl;
        try reflexivity; lia.
Qed.

Lemma free_pages_from a : forall (k : nat) m,
  VMPool.free_pages k (u32 (a + 4096 * m))
  = map (fun i => u32 (a + 4096 * i)) (seqZ m (Z.of_nat k)).
Proof.
  induction k as [|k IH]; intros m; [reflexivity|].
  cbn [VMPool.free_pages].
  replace (Z.of_nat (Datatypes.S k)) with (Z.succ (Z.of_nat k)) by lia.
  rewrite seqZ_cons by lia. cbn [map]. rewrite Z.pred_succ. f_equal.
  rewrite <- IH. f_equal. unfold u32, VMPool.PAGE_SIZE.
  rewrite Zplus_mod_idemp_l. f_equal. lia.
Qed.

Lemma free_pages_spec (k : nat) a :
  0 <= a < 2 ^ 32 ->
  VMPool.free_pages k a
  = map (fun i => u32 (a + 4096 * i)) (seqZ 0 (Z.of_nat k)).
Proof.
  intros Ha. rewrite <- free_pages_from.
  rewrite Z.mul_0_r, Z.add_0_r, u32_small by exact Ha. reflexivity.
Qed.

Lemma regions_lookup p (j : nat) :
  Z.of_nat j < VMPool.num_regions p ->
  VMPool.regions p !! j = Some (VMPool.ptr_vm_region p (Z.of_nat j)).
Proof.
  intros Hj. unfold VMPool.regions.
  change (map (VMPool.ptr_vm_region p) (seqZ 0 (VMPool.num_regions p)))
    with (VMPool.ptr_vm_region p <$> seqZ 0 (VMPool.num_regions p)).
  rewrite list_lookup_fmap, lookup_seqZ_lt by lia. reflexivity.
Qed.

Lemma regions_length p :
  length (VMPool.regions p) = Z.to_nat (VMPool.num_regions p).
Proof. unfold VMPool.regions. rewrite length_map, length_seqZ. reflexivity. Qed.

Lemma vm_release_unknown (p : VMPool.State) (a : Z) :
  (VMPool.release a p = None <->
   forall i, 1 <= i < VMPool.num_regions p ->
     VMPool.region_base_address (VMPool.ptr_vm_region p i) <> a) /\
  (VMPool.num_regions p <= 1 -> VMPool.release a p = None).
Proof.
  assert (Hiff : VMPool.release a p = None <->
                 forall i, 1 <= i < VMPool.num_regions p ->
                   VMPool.region_base_address (VMPool.ptr_vm_region p i) <> a).
  { unfold VMPool.release.
    destruct (find_region_spec a p (Z.to_nat (VMPool.num_regions p - 1)) 1
                ltac:(lia)) as [[Hr Hall]|(Hr & Hb & Hall)].
    - rewrite Hr. simpl. split; [intros _; exact Hall|reflexivity].
    - destruct (Z.eqb_spec
                  (VMPool.find_region (Z.to_nat (VMPool.num_regions p - 1)) 1
                     a p) (-1)) as [Heq|Hne]; [lia|].
      split; [discriminate|]. intros Hno. exfalso.
      exact (Hno _ Hr Hb). }
  split; [exact Hiff|]. intros Hn. apply Hiff. intros i Hi. lia.
Qed.

(** X10.  [release] of an address that is the base of no record after the
    first halts on its assertion, and only then: the search starts at
    record 1, so the pool's own first page is never released by its
    address, and nothing can be released from a pool that has served no
    allocation. *)
Theorem X10_vm_release_unknown_address (p : VMPool.State) (a : Z) :
  (VMPool.release a p = None <->
   forall i, 1 <= i < VMPool.num_regions p ->
     VMPool.region_base_address (VMPool.ptr_vm_region p i) <> a) /\
  (VMPool.num_regions p <= 1 -> VMPool.release a p = None).
Proof. exact (vm_release_unknown p a). Qed.

Lemma X10_witness :
  VMPool.release 0x40000000 (VMPool.VMPool 0x40000000 0x1000000 blank_regions)
  = None.
Proof.
  apply (proj2 (X10_vm_release_unknown_address
                  (VMPool.VMPool 0x40000000 0x1000000 blank_regions)
                  0x40000000)).
  simpl. lia.
Defined.

Lemma vm_release_outcome (p p' : VMPool.State) (a : Z)
    (pages : list Z) :
  0 <= a < 2 ^ 32 ->
  VMPool.release a p = Some (p', pages) ->
  exists r,
    1 <= r < VMPool.num_regions p /\
    VMPool.region_base_address (VMPool.ptr_vm_region p r) = a /\
    (forall i, 1 <= i < r ->
       VMPool.region_base_address (VMPool.ptr_vm_region p i) <> a) /\
    VMPool.regions p' = delete (Z.to_nat r) (VMPool.regions p) /\
    VMPool.num_regions p' = VMPool.num_regions p - 1 /\
    VMPool.base_address p' = VMPool.base_address p /\
    VMPool.size p' = VMPool.size p /\
    pages = map (fun k => u32 (a + 4096 * k))
              (seqZ 0 (VMPool.region_length (VMPool.ptr_vm_region p r)
                       / VMPool.PAGE_SIZE)).
Proof.
  intros Ha Hrel. unfold VMPool.release in Hrel.
  destruct (find_region_spec a p (Z.to_nat (VMPool.num_regions p - 1)) 1
              ltac:(lia)) as [[Hr Hall]|(Hr & Hb & Hall)].
  { rewrite Hr in Hrel. discriminate. }
  set (r := VMPool.find_region (Z.to_nat (VMPool.num_regions p - 1)) 1 a p)
    in *.
  destruct (Z.eqb_spec r (-1)) as [Heq|Hne]; [lia|].
  injection Hrel as <- <-. exists r.
  split; [exact Hr|]. split; [exact Hb|]. split; [exact Hall|].
  split; [|split; [reflexivity|split; [reflexivity|split; [reflexivity|]]]].
  - apply list_eq. intros j.
    destruct (Z.lt_ge_cases (Z.of_nat j) (VMPool.num_regions p - 1))
      as [Hj|Hj].
    + rewrite regions_lookup by (simpl; lia).
      cbn [VMPool.ptr_vm_region]. rewrite shift_left_spec by lia.
      destruct (Z.leb_spec r (Z.of_nat j)) as [Hge|Hlt].
      * destruct (Z.ltb_spec (Z.of_nat j) (VMPool.num_regions p - 1));
          [|lia]. cbn [andb].
        rewrite list_lookup_delete_ge by lia.
        rewrite regions_lookup by lia. do 2 f_equal. lia.
      * cbn [andb]. rewrite list_lookup_delete_lt by lia.
        rewrite regions_lookup by lia. reflexivity.
    + rewrite (proj2 (lookup_ge_None _ _))
        by (rewrite regions_length; simpl; lia).
      symmetry. apply lookup_ge_None.
      rewrite length_delete; [rewrite regions_length; lia|].
      apply lookup_lt_is_Some. rewrite regions_length. lia.
  - rewrite free_pages_spec by exact Ha.
    destruct (Z.le_gt_cases 0
                (VMPool.region_length (VMPool.ptr_vm_region p r)
                 / VMPool.PAGE_SIZE)) as [Hpos|Hneg].
    + rewrite Z2Nat.id by exact Hpos. reflexivity.
    + rewrite Z2Nat.nonpos by lia.
      rewrite (seqZ_nil 0 (VMPool.region_length (VMPool.ptr_vm_region p r)
                           / VMPool.PAGE_SIZE)) by lia.
      reflexivity.
Qed.

(** X11.  A [release] that returns has found the first record after record
    0 whose base is the address: that record is taken out of the table, the
    records around it keep their order, the count drops by one, and the page
    table is asked to free each page of the region once, in address order,
    as many pages as the recorded length holds. *)
Theorem X11_vm_release_removes_the_region (p p' : VMPool.State) (a : Z)
    (pages : list Z) :
  0 <= a < 2 ^ 32 ->
  VMPool.release a p = Some (p', pages) ->
  exists r,
    1 <= r < VMPool.num_regions p /\
    VMPool.region_base_address (VMPool.ptr_vm_region p r) = a /\
    (forall i, 1 <= i < r ->
       VMPool.region_base_address (VMPool.ptr_vm_region p i) <> a) /\
    VMPool.regions p' = delete (Z.to_nat r) (VMPool.regions p) /\
    VMPool.num_regions p' = VMPool.num_regions p - 1 /\
    VMPool.base_address p' = VMPool.base_address p /\
    VMPool.size p' = VMPool.size p /\
    pages = map (fun k => u32 (a + 4096 * k))
              (seqZ 0 (VMPool.region_length (VMPool.ptr_vm_region p r)
                       / VMPool.PAGE_SIZE)).
Proof. exact (vm_release_outcome p p' a pages). Qed.

Lemma X11_witness :
  let p0 := VMPool.VMPool 0x40000000 0x1000000 blank_regions in
  let p2 := default p0
              (allocate_all [0x1000; 0x2000] p0) in
  exists p3 pages,
    VMPool.release 0x40002000 p2 = Some (p3, pages) /\
    pages = [0x40002000; 0x40003000] /\
    VMPool.regions p3
    = [VMPool.mkRegion 0x40000000 0x1000; VMPool.mkRegion 0x40001000 0x1000].
Proof.
  intros p0 p2.
  destruct (VMPool.release 0x40002000 p2) as [[p3 pages]|] eqn:H3;
    [|vm_compute in H3; discriminate].
  exists p3, pages. split; [reflexivity|].
  destruct (X11_vm_release_removes_the_region p2 p3 0x40002000 pages
              ltac:(lia) H3) as (r & Hr & Hb & Hfirst & Hreg & _ & _ & _ & Hp).
  assert (r = 2).
  { change (VMPool.num_regions p2) with 3 in Hr.
    destruct (Z.eq_dec r 1) as [->|]; [vm_compute in Hb; discriminate|lia]. }
  subst r. split; [rewrite Hp; reflexivity|rewrite Hreg; reflexivity].
Defined.

(** The pool's side of a release that follows the allocation of the same
    region, provided no older record starts at the same address: the live
    records, their count and [available_memory] are as before, and each
    page of the region is handed to the page table once. *)
Lemma vm_allocate_then_release_pool (p p1 : VMPool.State) (n a : Z) :
  1 <= VMPool.num_regions p ->
  0 <= VMPool.available_memory p < 2 ^ 32 ->
  (forall i, 1 <= i < VMPool.num_regions p ->
     VMPool.region_base_address (VMPool.ptr_vm_region p i) <> a) ->
  VMPool.allocate n p = Some (a, p1) ->
  exists p2,
    VMPool.release a p1
    = Some (p2, map (fun k => u32 (a + 4096 * k))
                  (seqZ 0 (u32 (VMPool.pages_count n * VMPool.PAGE_SIZE)
                           / VMPool.PAGE_SIZE))) /\
    VMPool.regions p2 = VMPool.regions p /\
    VMPool.num_regions p2 = VMPool.num_regions p /\
    VMPool.available_memory p2 = VMPool.available_memory p.
Proof.
  intros Hn Hav Hfresh Halloc.
  destruct (allocate_outcome p n) as [Hfail Hok].
  destruct (Z.lt_ge_cases (VMPool.available_memory p) n) as [Hlt|Hge].
  { rewrite (Hfail Hlt) in Halloc. discriminate. }
  destruct (Hok ltac:(lia)) as (q & Heq & Havq & Hnq & Hsz & Hreg).
  rewrite Heq in Halloc. injection Halloc as Ha <-.
  specialize (Hreg ltac:(lia)).
  assert (Harange : 0 <= a < 2 ^ 32) by (rewrite <- Ha; apply u32_range).
  assert (Hnew : VMPool.ptr_vm_region q (VMPool.num_regions p)
                 = VMPool.mkRegion a
                     (u32 (VMPool.pages_count n * VMPool.PAGE_SIZE))).
  { pose proof (regions_lookup q (Z.to_nat (VMPool.num_regions p))
                  ltac:(lia)) as Hl.
    rewrite Z2Nat.id in Hl by lia. rewrite Hreg in Hl.
    rewrite lookup_app_r in Hl by (rewrite regions_length; lia).
    rewrite regions_length, Nat.sub_diag in Hl. simpl in Hl.
    injection Hl as <-. rewrite <- Ha. reflexivity. }
  assert (Hold : forall i, 0 <= i < VMPool.num_regions p ->
                   VMPool.ptr_vm_region q i = VMPool.ptr_vm_region p i).
  { intros i Hi.
    pose proof (regions_lookup q (Z.to_nat i) ltac:(lia)) as Hl.
    rewrite Z2Nat.id in Hl by lia. rewrite Hreg in Hl.
    rewrite lookup_app_l in Hl by (rewrite regions_length; lia).
    rewrite regions_lookup in Hl by lia. rewrite Z2Nat.id in Hl by lia.
    injection Hl as ->. reflexivity. }
  destruct (VMPool.release a q) as [[p2 pages]|] eqn:Hrel.
  2:{ pose proof (proj1 (proj1 (vm_release_unknown q a)) Hrel) as Hno.
      exfalso. apply (Hno (VMPool.num_regions p) ltac:(lia)).
      rewrite Hnew. reflexivity. }
  destruct (vm_release_outcome q p2 a pages Harange Hrel)
    as (r & Hr & Hb & Hfirst & Hregs & Hn2 & _ & _ & Hpages).
  assert (Hrn : r = VMPool.num_regions p).
  { destruct (Z.eq_dec r (VMPool.num_regions p)) as [|Hne]; [assumption|].
    exfalso. apply (Hfresh r ltac:(lia)). rewrite <- Hold by lia. exact Hb. }
  subst r. exists p2. rewrite Hpages, Hnew. cbn [VMPool.region_length].
  split; [reflexivity|]. split; [|split; [lia|]].
  - rewrite Hregs, Hreg.
    replace (Z.to_nat (VMPool.num_regions p))
      with (length (VMPool.regions p)) by apply regions_length.
    rewrite delete_middle. apply app_nil_r.
  - assert (Hfr : VMPool.find_region (Z.to_nat (VMPool.num_regions q - 1)) 1
                    a q = VMPool.num_regions p).
    { pose proof (find_region_spec a q
                    (Z.to_nat (VMPool.num_regions q - 1)) 1 ltac:(lia))
        as Hs. cbv zeta in Hs.
      set (fr := VMPool.find_region (Z.to_nat (VMPool.num_regions q - 1)) 1
                   a q) in *.
      destruct Hs as [[_ Hm]|(Hm & Hbm & _)].
      { exfalso. apply (Hm (VMPool.num_regions p) ltac:(lia)).
        rewrite Hnew. reflexivity. }
      destruct (Z.eq_dec fr (VMPool.num_regions p)) as [|Hne2];
        [assumption|].
      exfalso. apply (Hfresh fr ltac:(lia)).
      rewrite <- Hold by lia. exact Hbm. }
    unfold VMPool.release in Hrel. rewrite Hfr in Hrel.
    destruct (Z.eqb_spec (VMPool.num_regions p) (-1)); [lia|].
    injection Hrel as <- _. cbn [VMPool.available_memory].
    rewrite shift_left_spec by lia.
    destruct (Z.ltb_spec (VMPool.num_regions p) (VMPool.num_regions q - 1));
      [lia|].
    rewrite andb_false_r, Hnew, Havq. cbn [VMPool.region_length].
    unfold u32. rewrite Zplus_mod_idemp_l.
    rewrite Z.sub_add. apply Z.mod_small. exact Hav.
Qed.

(** X12.  Releasing the region that [allocate] has just returned undoes the
    allocation, provided no older record starts at the same address and
    every [free_page] of the page loop returns: [release] as the kernel
    runs it then returns, the machine is the one the calls of [free_page]
    on the pages of the region, lowest first, leave, and the pool has its
    live records, their count and [available_memory] as before the
    allocation. *)
Theorem X12_vm_allocate_then_release
    (release_frames : Z -> FramePool.State * FramePool.State
                      -> option (FramePool.State * FramePool.State))
    (page_directory : Z) (p p1 : VMPool.State) (n a : Z)
    (s s' : PageTable.State) :
  1 <= VMPool.num_regions p ->
  0 <= VMPool.available_memory p < 2 ^ 32 ->
  (forall i, 1 <= i < VMPool.num_regions p ->
     VMPool.region_base_address (VMPool.ptr_vm_region p i) <> a) ->
  VMPool.allocate n p = Some (a, p1) ->
  PageTable.MP4.free_pages release_frames page_directory
    (map (fun k => u32 (a + 4096 * k))
       (seqZ 0 (u32 (VMPool.pages_count n * VMPool.PAGE_SIZE)
                / VMPool.PAGE_SIZE))) s = Some s' ->
  exists p2,
    PageTable.MP4.release release_frames page_directory a p1 s
    = Some (p2, s') /\
    VMPool.regions p2 = VMPool.regions p /\
    VMPool.num_regions p2 = VMPool.num_regions p /\
    VMPool.available_memory p2 = VMPool.available_memory p.
Proof.
  intros Hn Hav Hfresh Halloc Hfree.
  destruct (vm_allocate_then_release_pool p p1 n a Hn Hav Hfresh Halloc)
    as (p2 & Hrel & Hregs & Hnum & Havail).
  exists p2. unfold PageTable.MP4.release. rewrite Hrel, Hfree.
  repeat split; assumption.
Qed.

Lemma X12_witness :
  let p := VMPool.VMPool 0x40000000 0x1000000 blank_regions in
  let s := default mp4_boot
             (PageTable.MP4.handle_fault 4 2 0x40001000 mp4_boot) in
  exists p2 s',
    PageTable.MP4.release release_in_two (PageTable.cr3 s) 0x40001000
      (default p (allocate_all [4096] p)) s = Some (p2, s') /\
    VMPool.available_memory p2 = 0x1000000 - 0x1000.
Proof.
  intros p s.
  assert (Hsome : match PageTable.MP4.free_pages release_in_two
                          (PageTable.cr3 s) [0x40001000] s with
                  | Some _ => True
                  | None => False
                  end) by (vm_compute; exact I).
  destruct (PageTable.MP4.free_pages release_in_two (PageTable.cr3 s)
              [0x40001000] s) as [s'|] eqn:Hfree; [|destruct Hsome].
  destruct (X12_vm_allocate_then_release release_in_two (PageTable.cr3 s) p
              (default p (allocate_all [4096] p)) 4096 0x40001000 s s')
    as (p2 & Hrel & _ & _ & Hav).
  - simpl. lia.
  - vm_compute. split; [discriminate|reflexivity].
  - intros i Hi. simpl in Hi. lia.
  - reflexivity.
  - exact Hfree.
  - exists p2, s'. split; [exact Hrel|]. rewrite Hav. reflexivity.
Defined.

Lemma recorded_app rs r :
  recorded (rs ++ [r]) = recorded rs + VMPool.region_length r.
Proof.
  unfold recorded. induction rs as [|x rs IH]; simpl; [lia|].
  rewrite IH. lia.
Qed.

Lemma laid_out_app : forall rs start r,
  laid_out start rs ->
  VMPool.region_base_address r = start + recorded rs ->
  0 <= VMPool.region_length r ->
  laid_out start (rs ++ [r]).
Proof.
  induction rs as [|x rs IH]; intros start r Hl Hb Hlen; simpl in *.
  - unfold recorded in Hb. simpl in Hb. repeat split; [lia|exact Hlen].
  - destruct Hl as (Hx & Hxl & Hl). repeat split; [exact Hx|exact Hxl|].
    apply IH; [exact Hl| |exact Hlen].
    unfold recorded in *. simpl in Hb. lia.
Qed.

Lemma laid_out_end : forall rs start r,
  laid_out start rs -> last rs = Some r ->
  VMPool.region_base_address r + VMPool.region_length r
  = start + recorded rs.
Proof.
  induction rs as [|x rs IH]; intros start r Hl Hlast; [discriminate|].
  simpl in Hl. destruct Hl as (Hx & Hxl & Hl).
  destruct rs as [|y rs].
  - simpl in Hlast. injection Hlast as <-. unfold recorded. simpl. lia.
  - change (last (x :: y :: rs)) with (last (y :: rs)) in Hlast.
    rewrite (IH _ _ Hl Hlast). unfold recorded. simpl. lia.
Qed.

Lemma laid_out_within : forall rs start,
  laid_out start rs ->
  0 <= recorded rs /\
  Forall (fun r => start <= VMPool.region_base_address r /\
                   VMPool.region_base_address r + VMPool.region_length r
                   <= start + recorded rs) rs.
Proof.
  induction rs as [|x rs IH]; intros start Hl.
  - split; [reflexivity|constructor].
  - simpl in Hl. destruct Hl as (Hx & Hxl & Hl).
    destruct (IH _ Hl) as [Hpos Hall].
    unfold recorded in *. simpl. split; [lia|]. constructor; [lia|].
    eapply Forall_impl; [exact Hall|]. simpl. intros r Hr. lia.
Qed.

Lemma regions_last p :
  1 <= VMPool.num_regions p ->
  last (VMPool.regions p)
  = Some (VMPool.ptr_vm_region p (VMPool.num_regions p - 1)).
Proof.
  intros Hn. rewrite last_lookup, regions_length.
  rewrite regions_lookup by lia. do 2 f_equal. lia.
Qed.

(** X13.  A pool of a whole number of pages that lies below the top of the
    address space serves any sequence of requests without handing out
    memory outside itself or memory it has handed out before: the live
    records lie end to end from the pool's base, their lengths and
    [available_memory] add up to the pool's size, and every record lies
    inside the pool. *)
Theorem X13_vm_allocations_stay_in_pool (B sz : Z)
    (mem : Z -> VMPool.allocated_region_info) (sizes : list Z)
    (p : VMPool.State) :
  0 <= B -> B + sz < 2 ^ 32 -> 4096 <= sz -> sz mod 4096 = 0 ->
  Forall (fun n => 0 <= n <= 2 ^ 32 - 4096) sizes ->
  allocate_all sizes (VMPool.VMPool B sz mem) = Some p ->
  vm_accounting p /\
  0 <= VMPool.available_memory p /\
  laid_out B (VMPool.regions p) /\
  Forall (fun r => B <= VMPool.region_base_address r /\
                   VMPool.region_base_address r + VMPool.region_length r
                   <= B + sz) (VMPool.regions p).
Proof.
  intros HB Htop Hsz Hal Hsizes Hall.
  set (Inv := fun q =>
         vm_accounting q /\
         0 <= VMPool.available_memory q < 2 ^ 32 /\
         VMPool.available_memory q mod 4096 = 0 /\
         1 <= VMPool.num_regions q /\
         VMPool.size q = sz /\
         laid_out B (VMPool.regions q)).
  assert (Hinv0 : Inv (VMPool.VMPool B sz mem)).
  { unfold Inv. split; [apply vm_accounting_new; lia|].
    cbn [VMPool.VMPool VMPool.available_memory VMPool.num_regions
         VMPool.size].
    unfold VMPool.PAGE_SIZE. rewrite u32_small by lia.
    split; [lia|]. split.
    { rewrite <- Zminus_mod_idemp_l, Hal. reflexivity. }
    split; [lia|]. split; [reflexivity|].
    unfold VMPool.regions. simpl. unfold VMPool.region_store. simpl.
    repeat split. unfold VMPool.PAGE_SIZE. lia. }
  assert (Hstep : forall q n a q',
             Inv q -> 0 <= n <= 2 ^ 32 - 4096 ->
             VMPool.allocate n q = Some (a, q') -> Inv q').
  { intros q n a q' (Hacc & Hav & Hmod & Hnr & Hsq & Hlaid) Hn Halloc.
    pose proof (vm_accounting_allocate q n a q' Hn ltac:(lia) ltac:(lia)
                  Hmod Hacc Halloc) as Hacc'.
    destruct (allocate_outcome q n) as [Hfail Hok].
    destruct (Z.lt_ge_cases (VMPool.available_memory q) n) as [Hlt|Hge].
    { rewrite (Hfail Hlt) in Halloc. discriminate. }
    destruct (Hok ltac:(lia)) as (q2 & Heq & Havq & Hnq & Hszq & Hreg).
    rewrite Heq in Halloc. injection Halloc as _ <-.
    specialize (Hreg ltac:(lia)).
    destruct (pages_count_rounds n Hn) as [Hr Hb]. rewrite Hr in *.
    assert (Hfit : round_to_pages n <= VMPool.available_memory q).
    { apply Z.le_ngt. intros Hc.
      apply (proj2 (aligned_guard (VMPool.available_memory q) n
                      ltac:(lia) ltac:(lia) Hmod)) in Hc. lia. }
    assert (Hrmod : round_to_pages n mod 4096 = 0).
    { unfold round_to_pages, VMPool.PAGE_SIZE.
      rewrite Z.mul_comm. apply Z_mod_mult. }
    unfold Inv. split; [exact Hacc'|].
    rewrite Havq, u32_small by lia.
    split; [lia|]. split.
    { rewrite Zminus_mod, Hmod, Hrmod. reflexivity. }
    split; [lia|]. split; [congruence|].
    rewrite Hreg. apply laid_out_app; [exact Hlaid| |cbn; lia].
    cbn [VMPool.region_base_address].
    rewrite (laid_out_end _ _ _ Hlaid (regions_last q Hnr)).
    apply u32_small.
    destruct (laid_out_within _ _ Hlaid) as [Hpos _].
    unfold vm_accounting, VMPool.total_length in Hacc.
    fold (recorded (VMPool.regions q)) in Hacc. lia. }
  assert (Hrun : forall l q q', Forall (fun n => 0 <= n <= 2 ^ 32 - 4096) l ->
             Inv q -> allocate_all l q = Some q' -> Inv q').
  { induction l as [|n l IH]; intros q q' Hl Hq Hrun; simpl in Hrun.
    - injection Hrun as <-. exact Hq.
    - apply Forall_cons in Hl as [Hn Hl].
      destruct (VMPool.allocate n q) as [[a q1]|] eqn:Ha; [|discriminate].
      exact (IH q1 q' Hl (Hstep q n a q1 Hq Hn Ha) Hrun). }
  destruct (Hrun sizes _ p Hsizes Hinv0 Hall)
    as (Hacc & Hav & _ & _ & Hsp & Hlaid).
  split; [exact Hacc|]. split; [lia|]. split; [exact Hlaid|].
  destruct (laid_out_within _ _ Hlaid) as [_ Hin].
  eapply Forall_impl; [exact Hin|]. simpl. intros r Hr.
  unfold vm_accounting, VMPool.total_length in Hacc.
  fold (recorded (VMPool.regions p)) in Hacc. lia.
Qed.

Lemma X13_witness :
  let p := default (VMPool.VMPool 0x40000000 0x1000000 blank_regions)
             (allocate_all [5000; 1; 0x3000]
                (VMPool.VMPool 0x40000000 0x1000000 blank_regions)) in
  vm_accounting p /\
  laid_out 0x40000000 (VMPool.regions p).
Proof.
  intros p.
  destruct (X13_vm_allocations_stay_in_pool 0x40000000 0x1000000
              blank_regions [5000; 1; 0x3000] p) as (H1 & _ & H3 & _).
  - lia.
  - lia.
  - lia.
  - reflexivity.
  - repeat constructor; lia.
  - reflexivity.
  - split; [exact H1|exact H3].
Defined.

(** X14.  [is_legitimate] looks at the pool's bounds only, not at the
    region table: it accepts exactly the addresses from the base up to the
    end of the pool, allocated or not.  When the pool ends at the very top
    of the 32-bit address space the end wraps to 0 and every address is
    rejected. *)
Theorem X14_vm_is_legitimate (p : VMPool.State) (a : Z) :
  0 <= VMPool.base_address p -> 0 <= VMPool.size p ->
  (VMPool.base_address p + VMPool.size p < 2 ^ 32 ->
   (VMPool.is_legitimate a p = true <->
    VMPool.base_address p <= a < VMPool.base_address p + VMPool.size p)) /\
  (VMPool.base_address p + VMPool.size p = 2 ^ 32 -> 0 <= a ->
   VMPool.is_legitimate a p = false).
Proof.
  intros Hb Hs. unfold VMPool.is_legitimate. split.
  - intros Htop. rewrite u32_small by lia.
    destruct (Z.ltb_spec a (VMPool.base_address p)),
      (Z.geb_spec a (VMPool.base_address p + VMPool.size p)); simpl;
      split; intros; try discriminate; try reflexivity; lia.
  - intros Htop Ha. rewrite Htop. change (u32 (2 ^ 32)) with 0.
    destruct (Z.geb_spec a 0); [|lia]. rewrite orb_true_r. reflexivity.
Qed.

Lemma X14_witness :
  VMPool.is_legitimate 0x40FFFFFF
    (VMPool.VMPool 0x40000000 0x1000000 blank_regions) = true /\
  VMPool.is_legitimate 0xFFFFF000
    (VMPool.VMPool 0xFF000000 0x1000000 blank_regions) = false.
Proof.
  split.
  - apply (proj1 (X14_vm_is_legitimate
                    (VMPool.VMPool 0x40000000 0x1000000 blank_regions)
                    0x40FFFFFF ltac:(simpl; lia) ltac:(simpl; lia))).
    + simpl. lia.
    + simpl. lia.
  - apply (proj2 (X14_vm_is_legitimate
                    (VMPool.VMPool 0xFF000000 0x1000000 blank_regions)
                    0xFFFFF000 ltac:(simpl; lia) ltac:(simpl; lia))).
    + reflexivity.
    + lia.
Defined.

(** ** The two-bit frame pool *)

(** The three updates of [set_state] on one byte of the bitmap, read back
    through the shift and mask of [get_state], for every byte and every pair
    of columns: checked by running through the 256 bytes. *)
Lemma two_bit_byte :
  Forall (fun b =>
    Forall (fun c =>
      Forall (fun c' =>
        Z.land (Z.shiftr (u8 (Z.land b (Z.lnot (Z.shiftl 3 c)))) c') 3
        = (if c =? c' then 0 else Z.land (Z.shiftr b c') 3) /\
        Z.land (Z.shiftr (u8 (Z.lxor b (Z.shiftl 1 c))) c') 3
        = (if c =? c' then Z.lxor (Z.land (Z.shiftr b c) 3) 1
           else Z.land (Z.shiftr b c') 3) /\
        Z.land (Z.shiftr (u8 (Z.lxor b (Z.shiftl 3 c))) c') 3
        = (if c =? c' then Z.lxor (Z.land (Z.shiftr b c) 3) 3
           else Z.land (Z.shiftr b c') 3) /\
        0 <= Z.land (Z.shiftr b c) 3 < 4)
      [0; 2; 4; 6]) [0; 2; 4; 6]) (seqZ 0 256).
Proof. apply (bool_decide_unpack _). vm_compute. exact I. Qed.

Lemma two_bit_byte_at b i j :
  0 <= b < 256 -> 0 <= i -> 0 <= j ->
  let c := FramePool.bitmap_col_index i in
  let c' := FramePool.bitmap_col_index j in
  Z.land (Z.shiftr (u8 (Z.land b (Z.lnot (Z.shiftl 3 c)))) c') 3
  = (if c =? c' then 0 else Z.land (Z.shiftr b c') 3) /\
  Z.land (Z.shiftr (u8 (Z.lxor b (Z.shiftl 1 c))) c') 3
  = (if c =? c' then Z.lxor (Z.land (Z.shiftr b c) 3) 1
     else Z.land (Z.shiftr b c') 3) /\
  Z.land (Z.shiftr (u8 (Z.lxor b (Z.shiftl 3 c))) c') 3
  = (if c =? c' then Z.lxor (Z.land (Z.shiftr b c) 3) 3
     else Z.land (Z.shiftr b c') 3) /\
  0 <= Z.land (Z.shiftr b c) 3 < 4.
Proof.
  intros Hb Hi Hj c c'.
  pose proof two_bit_byte as H.
  rewrite Forall_forall in H.
  specialize (H b ltac:(apply elem_of_seqZ; lia)).
  rewrite Forall_forall in H.
  assert (Hcol : forall k, 0 <= k ->
            FramePool.bitmap_col_index k ∈ [0; 2; 4; 6]).
  { intros k Hk. unfold FramePool.bitmap_col_index.
    assert (Hm : k mod 4 = 0 \/ k mod 4 = 1 \/ k mod 4 = 2 \/ k mod 4 = 3)
      by (pose proof (Z.mod_pos_bound k 4 ltac:(lia)); lia).
    destruct Hm as [-> | [-> | [-> | ->]]]; simpl; repeat constructor. }
  specialize (H c (Hcol i Hi)). rewrite Forall_forall in H.
  exact (H c' (Hcol j Hj)).
Qed.

Lemma byte_at_set bm r r' b :
  FramePool.byte_at (FramePool.byte_set bm r b) r'
  = if r =? r'
    then if (0 <=? r) && (r <? Z.of_nat (length bm)) then b
         else FramePool.byte_at bm r'
    else FramePool.byte_at bm r'.
Proof.
  unfold FramePool.byte_at, FramePool.byte_set.
  destruct (Z.eqb_spec r r') as [<-|Hne].
  - destruct (Z.ltb_spec r 0).
    + destruct (Z.leb_spec 0 r); [lia|reflexivity].
    + destruct (Z.leb_spec 0 r); [|lia]. cbn [andb].
      destruct (Z.ltb_spec r (Z.of_nat (length bm))).
      * rewrite list_lookup_insert_eq by lia. reflexivity.
      * rewrite list_insert_ge by lia. reflexivity.
  - destruct (Z.ltb_spec r 0), (Z.ltb_spec r' 0); try reflexivity.
    rewrite list_lookup_insert_ne by lia. reflexivity.
Qed.

Lemma byte_at_range bm r :
  Forall (fun b => 0 <= b < 256) bm -> 0 <= FramePool.byte_at bm r < 256.
Proof.
  intros H. unfold FramePool.byte_at.
  destruct (r <? 0); [lia|].
  destruct (bm !! Z.to_nat r) as [b|] eqn:E; simpl; [|lia].
  rewrite Forall_forall in H. apply H. apply list_elem_of_lookup. eauto.
Qed.

Lemma cols_rows i j :
  0 <= i -> 0 <= j ->
  FramePool.bitmap_row_index i = FramePool.bitmap_row_index j ->
  FramePool.bitmap_col_index i = FramePool.bitmap_col_index j -> i = j.
Proof.
  unfold FramePool.bitmap_row_index, FramePool.bitmap_col_index.
  intros Hi Hj Hr Hc. Z.div_mod_to_equations. lia.
Qed.

Lemma set_state_bytes i st p :
  Forall (fun b => 0 <= b < 256) (FramePool.bitmap p) ->
  Forall (fun b => 0 <= b < 256) (FramePool.bitmap (FramePool.set_state i st p)).
Proof.
  intros H. unfold FramePool.set_state. cbn [FramePool.bitmap].
  unfold FramePool.byte_set. destruct (_ <? 0); [exact H|].
  apply Forall_insert; [exact H|].
  destruct st; apply Z.mod_pos_bound; reflexivity.
Qed.

(** The state read back after one [set_state], as a bit pattern. *)
Lemma get_set_state p i j st :
  0 <= i -> 0 <= j ->
  Forall (fun b => 0 <= b < 256) (FramePool.bitmap p) ->
  (i <> j ->
   FramePool.get_state j (FramePool.set_state i st p)
   = FramePool.get_state j p) /\
  FramePool.get_state i (FramePool.set_state i Free p) = Free /\
  (i / 4 < Z.of_nat (length (FramePool.bitmap p)) ->
   (FramePool.get_state i p = Free ->
    FramePool.get_state i (FramePool.set_state i st p) = st) /\
   (FramePool.get_state i p = HoS ->
    FramePool.get_state i (FramePool.set_state i HoS p) = Free /\
    FramePool.get_state i (FramePool.set_state i Used p) = Used)).
Proof.
  intros Hi Hj Hbytes.
  assert (Hri : 0 <= FramePool.bitmap_row_index i)
    by (unfold FramePool.bitmap_row_index; apply Z.div_pos; lia).
  pose proof (byte_at_range (FramePool.bitmap p)
                (FramePool.bitmap_row_index i) Hbytes) as Hb.
  set (b := FramePool.byte_at (FramePool.bitmap p)
              (FramePool.bitmap_row_index i)) in *.
  destruct (two_bit_byte_at b i j Hb Hi Hj) as (HF & HU & HH & _).
  destruct (two_bit_byte_at b i i Hb Hi Hi) as (HFi & HUi & HHi & Hrange).
  cbv zeta in *. rewrite Z.eqb_refl in HFi, HUi, HHi.
  split; [|split].
  - intros Hne. unfold FramePool.get_state, FramePool.set_state.
    cbn [FramePool.bitmap]. rewrite byte_at_set. fold b.
    destruct (Z.eqb_spec (FramePool.bitmap_row_index i)
                (FramePool.bitmap_row_index j)) as [Hr|Hr]; [|reflexivity].
    destruct ((0 <=? FramePool.bitmap_row_index i)
              && (FramePool.bitmap_row_index i
                  <? Z.of_nat (length (FramePool.bitmap p))));
      [|reflexivity].
    assert (Hc : FramePool.bitmap_col_index i
                 <> FramePool.bitmap_col_index j)
      by (intros Hc; apply Hne; apply cols_rows; assumption).
    apply Z.eqb_neq in Hc. rewrite Hc in HF, HU, HH.
    rewrite <- Hr. fold b. destruct st; rewrite ?HF, ?HU, ?HH; reflexivity.
  - unfold FramePool.get_state, FramePool.set_state.
    cbn [FramePool.bitmap]. rewrite byte_at_set, Z.eqb_refl. fold b.
    destruct ((0 <=? FramePool.bitmap_row_index i)
              && (FramePool.bitmap_row_index i
                  <? Z.of_nat (length (FramePool.bitmap p)))) eqn:Hin.
    + rewrite HFi. reflexivity.
    + assert (Hz : b = 0).
      { unfold b, FramePool.byte_at.
        destruct (Z.ltb_spec (FramePool.bitmap_row_index i) 0); [reflexivity|].
        rewrite (proj2 (lookup_ge_None _ _)); [reflexivity|].
        apply andb_false_iff in Hin as [Hin|Hin].
        - apply Z.leb_gt in Hin. lia.
        - apply Z.ltb_ge in Hin. lia. }
      fold b. rewrite Hz, Z.shiftr_0_l. reflexivity.
  - intros Hrow.
    assert (Hin : (0 <=? FramePool.bitmap_row_index i)
                  && (FramePool.bitmap_row_index i
                      <? Z.of_nat (length (FramePool.bitmap p))) = true).
    { apply andb_true_iff. split; [apply Z.leb_le; exact Hri|].
      apply Z.ltb_lt. exact Hrow. }
    assert (Hget : forall q,
               FramePool.get_state i p = q ->
               (q = Free -> Z.land (Z.shiftr b (FramePool.bitmap_col_index i)) 3
                            = 0) /\
               (q = HoS -> Z.land (Z.shiftr b (FramePool.bitmap_col_index i)) 3
                           = 3)).
    { intros q Hq. unfold FramePool.get_state in Hq. fold b in Hq.
      cbv zeta in Hq.
      destruct (Z.eqb_spec
                  (Z.land (Z.shiftr b (FramePool.bitmap_col_index i)) 3) 0);
        [split; [intros _; assumption|intros ->; discriminate]|].
      destruct (Z.eqb_spec
                  (Z.land (Z.shiftr b (FramePool.bitmap_col_index i)) 3) 1);
        [split; intros ->; discriminate|].
      destruct (Z.eqb_spec
                  (Z.land (Z.shiftr b (FramePool.bitmap_col_index i)) 3) 3);
        [split; [intros ->; discriminate|intros _; assumption]|].
      split; intros ->; discriminate. }
    assert (Hafter : forall st',
               FramePool.get_state i (FramePool.set_state i st' p)
               = let m := match st' with
                          | Free => 0
                          | Used =>
                              Z.lxor (Z.land (Z.shiftr b
                                        (FramePool.bitmap_col_index i)) 3) 1
                          | HoS =>
                              Z.lxor (Z.land (Z.shiftr b
                                        (FramePool.bitmap_col_index i)) 3) 3
                          end in
                 if m =? 0 then Free else if m =? 1 then Used
                 else if m =? 3 then HoS else Used).
    { intros st'. unfold FramePool.get_state, FramePool.set_state.
      cbn [FramePool.bitmap]. rewrite byte_at_set, Z.eqb_refl, Hin.
      fold b. destruct st'; rewrite ?HFi, ?HUi, ?HHi; reflexivity. }
    split.
    + intros Hfree. destruct (Hget _ Hfree) as [Hz _].
      rewrite Hafter, (Hz eq_refl). destruct st; reflexivity.
    + intros Hhos. destruct (Hget _ Hhos) as [_ Hz].
      rewrite !Hafter, (Hz eq_refl). split; reflexivity.
Qed.

(** X15.  The two-bit bitmap: [set_state] on one frame never changes the
    state read for another; [set_state(Free)] always reads back Free; on a
    frame that reads Free, [set_state] of any state reads back that state.
    Used and HoS are written by exclusive or, so they toggle: marking a head
    of sequence HoS again makes it read Free, and marking it Used leaves a
    pattern that reads Used. *)
Theorem X15_two_bit_set_then_get (p : FramePool.State) (i j : Z)
    (st : FrameState) :
  0 <= i -> 0 <= j ->
  Forall (fun b => 0 <= b < 256) (FramePool.bitmap p) ->
  (i <> j ->
   FramePool.get_state j (FramePool.set_state i st p)
   = FramePool.get_state j p) /\
  FramePool.get_state i (FramePool.set_state i Free p) = Free /\
  (i / 4 < Z.of_nat (length (FramePool.bitmap p)) ->
   (FramePool.get_state i p = Free ->
    FramePool.get_state i (FramePool.set_state i st p) = st) /\
   (FramePool.get_state i p = HoS ->
    FramePool.get_state i (FramePool.set_state i HoS p) = Free /\
    FramePool.get_state i (FramePool.set_state i Used p) = Used)).
Proof. exact (get_set_state p i j st). Qed.

Lemma X15_witness :
  let p := FramePool.mkState 0 8 1 8 [0; 0] in
  FramePool.get_state 5 (FramePool.set_state 5 HoS p) = HoS /\
  FramePool.get_state 4 (FramePool.set_state 5 HoS p) = Free /\
  FramePool.get_state 5
    (FramePool.set_state 5 HoS (FramePool.set_state 5 HoS p)) = Free.
Proof.
  intros p.
  assert (Hb : Forall (fun b => 0 <= b < 256) (FramePool.bitmap p))
    by (repeat constructor; lia).
  destruct (X15_two_bit_set_then_get p 5 4 HoS ltac:(lia) ltac:(lia) Hb)
    as (H1 & _ & H3).
  destruct (H3 ltac:(vm_compute; reflexivity)) as [H3a _].
  destruct (X15_two_bit_set_then_get (FramePool.set_state 5 HoS p) 5 5 HoS
              ltac:(lia) ltac:(lia) (set_state_bytes 5 HoS p Hb))
    as (_ & _ & H4).
  destruct (H4 ltac:(vm_compute; reflexivity)) as [_ H4b].
  split; [apply H3a; reflexivity|]. split.
  - rewrite H1 by lia. reflexivity.
  - apply H4b. reflexivity.
Defined.

Lemma set_state_fields i st p :
  length (FramePool.bitmap (FramePool.set_state i st p))
  = length (FramePool.bitmap p) /\
  FramePool.num_free_frames (FramePool.set_state i st p)
  = FramePool.num_free_frames p /\
  FramePool.base_frame_no (FramePool.set_state i st p)
  = FramePool.base_frame_no p /\
  FramePool.n_frames (FramePool.set_state i st p) = FramePool.n_frames p /\
  FramePool.info_frame_no (FramePool.set_state i st p)
  = FramePool.info_frame_no p.
Proof.
  unfold FramePool.set_state, FramePool.byte_set. cbn.
  destruct (_ <? 0); rewrite ?length_insert; repeat split; reflexivity.
Qed.

(** A run of [set_state] over distinct frames, each of which is either
    freed or reads Free beforehand. *)
Lemma set_states_fold (f : Z -> FrameState) : forall (l : list Z) p,
  NoDup l -> Forall (fun i => 0 <= i) l ->
  Forall (fun b => 0 <= b < 256) (FramePool.bitmap p) ->
  (forall i, i ∈ l ->
     f i = Free \/
     (i / 4 < Z.of_nat (length (FramePool.bitmap p)) /\
      FramePool.get_state i p = Free)) ->
  let q := foldl (fun q idx => FramePool.set_state idx (f idx) q) p l in
  (forall j, 0 <= j ->
     FramePool.get_state j q
     = if decide (j ∈ l) then f j else FramePool.get_state j p) /\
  Forall (fun b => 0 <= b < 256) (FramePool.bitmap q) /\
  length (FramePool.bitmap q) = length (FramePool.bitmap p) /\
  FramePool.num_free_frames q = FramePool.num_free_frames p /\
  FramePool.base_frame_no q = FramePool.base_frame_no p /\
  FramePool.n_frames q = FramePool.n_frames p /\
  FramePool.info_frame_no q = FramePool.info_frame_no p.
Proof.
  induction l as [|a l IH]; intros p Hnd Hpos Hbytes Hpre; cbv zeta.
  - simpl. split; [|repeat split; assumption].
    intros j Hj. destruct (decide (j ∈ [])) as [Hin|_]; [|reflexivity].
    apply not_elem_of_nil in Hin. contradiction.
  - apply NoDup_cons in Hnd as [Ha Hnd].
    apply Forall_cons in Hpos as [Hapos Hpos].
    cbn [foldl].
    destruct (set_state_fields a (f a) p) as (Hlen & Hfree & Hbase & Hn & Hinfo).
    pose proof (set_state_bytes a (f a) p Hbytes) as Hbytes1.
    destruct (IH (FramePool.set_state a (f a) p) Hnd Hpos Hbytes1)
      as (Hget & Hb2 & Hl2 & Hf2 & Hbs2 & Hn2 & Hi2).
    { intros i Hi. destruct (Hpre i ltac:(right; exact Hi)) as [Hf|[Hrow Hfr]];
        [left; exact Hf|right].
      split; [rewrite Hlen; exact Hrow|].
      assert (Hne : a <> i) by (intros ->; contradiction).
      rewrite Forall_forall in Hpos.
      rewrite (proj1 (get_set_state p a i (f a) Hapos (Hpos i Hi) Hbytes) Hne).
      exact Hfr. }
    split; [|repeat split; congruence].
    intros j Hj. rewrite (Hget j Hj).
    destruct (decide (j ∈ l)) as [Hin|Hout].
    + rewrite decide_True by (right; exact Hin). reflexivity.
    + destruct (decide (j = a)) as [->|Hne].
      * rewrite decide_True by left.
        destruct (get_set_state p a a (f a) Hapos Hapos Hbytes)
          as (_ & Hfreed & Hmark).
        destruct (Hpre a ltac:(left)) as [Hf|[Hrow Hfr]].
        -- rewrite Hf. exact Hfreed.
        -- apply (proj1 (Hmark Hrow)). exact Hfr.
      * rewrite decide_False
          by (intros Hin; apply elem_of_cons in Hin as [?|?]; contradiction).
        apply (proj1 (get_set_state p a j (f a) Hapos Hj Hbytes)).
        congruence.
Qed.

(** X16.  The constructor of the two-bit pool halts unless the number of
    frames is a multiple of 8.  Otherwise, given the memory for its bitmap,
    it leaves every frame Free and counts them all free, except that a pool
    that hosts its own bitmap has its first frame marked Used (not HoS) and
    counts one frame less. *)
Theorem X16_two_bit_constructor (b n info : Z) (mem : list Z) :
  (n mod 8 <> 0 -> FramePool.ContFramePool b n info mem = None) /\
  (n mod 8 = 0 -> 0 < n < 2 ^ 32 ->
   n <= 4 * Z.of_nat (length mem) ->
   Forall (fun x => 0 <= x < 256) mem ->
   exists p,
     FramePool.ContFramePool b n info mem = Some p /\
     FramePool.base_frame_no p = b /\
     FramePool.n_frames p = n /\
     FramePool.info_frame_no p = info /\
     FramePool.num_free_frames p = (if info =? 0 then n - 1 else n) /\
     Forall (fun x => 0 <= x < 256) (FramePool.bitmap p) /\
     length (FramePool.bitmap p) = length mem /\
     forall i, 0 <= i < n ->
       FramePool.get_state i p
       = if (info =? 0) && (i =? 0) then Used else Free).
Proof.
  unfold FramePool.ContFramePool. split.
  - intros Hm. destruct (Z.eqb_spec (n mod 8) 0); [contradiction|reflexivity].
  - intros Hm Hn Hlen Hbytes.
    destruct (Z.eqb_spec (n mod 8) 0); [|contradiction]. cbn [negb].
    set (p0 := FramePool.mkState b n info n mem).
    destruct (set_states_fold (fun _ => Free) (seqZ 0 n) p0)
      as (Hget & Hb1 & Hl1 & Hf1 & Hbs1 & Hn1 & Hi1).
    { apply NoDup_seqZ. }
    { apply Forall_forall. intros i Hi. apply elem_of_seqZ in Hi. lia. }
    { exact Hbytes. }
    { intros i _. left. reflexivity. }
    set (p1 := foldl (fun q idx => FramePool.set_state idx Free q) p0
                 (seqZ 0 n)) in *.
    assert (Hfree : forall i, 0 <= i < n -> FramePool.get_state i p1 = Free).
    { intros i Hi. rewrite Hget by lia.
      rewrite decide_True by (apply elem_of_seqZ; lia). reflexivity. }
    eexists. split; [reflexivity|].
    destruct (Z.eqb_spec info 0) as [Hz|Hnz].
    + destruct (set_state_fields 0 Used p1) as (Hl2 & Hf2 & Hbs2 & Hn2 & Hi2).
      cbn [FramePool.with_free FramePool.base_frame_no FramePool.n_frames
           FramePool.info_frame_no FramePool.num_free_frames
           FramePool.bitmap].
      split; [rewrite Hbs2; exact Hbs1|]. split; [rewrite Hn2; exact Hn1|].
      split; [rewrite Hi2; exact Hi1|].
      split.
      { rewrite Hf1. change (FramePool.num_free_frames p0) with n.
        apply u32_small. lia. }
      split; [apply set_state_bytes; exact Hb1|].
      split; [rewrite Hl2; exact Hl1|].
      intros i Hi. cbn [andb].
      change (FramePool.get_state i
                (FramePool.with_free (u32 (FramePool.num_free_frames p1 - 1))
                   (FramePool.set_state 0 Used p1)))
        with (FramePool.get_state i (FramePool.set_state 0 Used p1)).
      destruct (get_set_state p1 0 i Used ltac:(lia) ltac:(lia) Hb1)
        as (Hother & _ & Hmark).
      destruct (Z.eqb_spec i 0) as [->|Hne].
      * apply (proj1 (Hmark ltac:(rewrite Hl1;
                                   change (FramePool.bitmap p0) with mem;
                                   change (0 / 4) with 0; lia))).
        apply Hfree. lia.
      * rewrite Hother by lia. apply Hfree. exact Hi.
    + split; [exact Hbs1|]. split; [exact Hn1|]. split; [exact Hi1|].
      split; [exact Hf1|]. split; [exact Hb1|]. split; [exact Hl1|].
      intros i Hi. cbn [andb]. apply Hfree. exact Hi.
Qed.

Lemma X16_witness :
  exists p,
    FramePool.ContFramePool 0x100 0x100 0 (replicate 4096 0) = Some p /\
    FramePool.num_free_frames p = 0xFF /\
    FramePool.get_state 0 p = Used /\
    FramePool.get_state 0xFF p = Free.
Proof.
  destruct (proj2 (X16_two_bit_constructor 0x100 0x100 0 (replicate 4096 0))
              eq_refl ltac:(lia) ltac:(rewrite length_replicate; lia)
              ltac:(apply Forall_replicate; lia))
    as (p & Hp & _ & _ & _ & Hf & _ & _ & Hs).
  exists p. split; [exact Hp|]. split; [exact Hf|].
  split; [apply (Hs 0); lia|apply (Hs 0xFF); lia].
Defined.

Lemma scan_spec p n :
  1 <= n ->
  forall (fuel : nat) idx rs rl,
    FramePool.n_frames p - idx <= Z.of_nat fuel ->
    0 <= idx -> 0 <= rl < n -> rl <= idx ->
    (0 < rl -> rs = idx - rl) ->
    (forall k, idx - rl <= k < idx -> FramePool.get_state k p = Free) ->
    (forall i', 0 <= i' < idx - rl ->
       exists k, i' <= k < i' + n /\ k < idx /\
                 FramePool.get_state k p <> Free) ->
    match FramePool.scan fuel idx rs rl n p with
    | Some r =>
        0 <= r /\ r + n <= FramePool.n_frames p /\
        (forall k, r <= k < r + n -> FramePool.get_state k p = Free) /\
        (forall i', 0 <= i' < r ->
           exists k, i' <= k < i' + n /\ FramePool.get_state k p <> Free)
    | None =>
        forall i', 0 <= i' -> i' + n <= FramePool.n_frames p ->
          exists k, i' <= k < i' + n /\ FramePool.get_state k p <> Free
    end.
Proof.
  intros Hn.
  assert (Hend : forall idx rl,
            0 <= rl < n ->
            (forall i', 0 <= i' < idx - rl ->
               exists k, i' <= k < i' + n /\ k < idx /\
                         FramePool.get_state k p <> Free) ->
            FramePool.n_frames p <= idx ->
            forall i', 0 <= i' -> i' + n <= FramePool.n_frames p ->
              exists k, i' <= k < i' + n /\ FramePool.get_state k p <> Free).
  { intros idx rl Hrl Hinv Hge i' Hi' Hfit.
    destruct (Hinv i' ltac:(lia)) as (k & Hk & _ & Hnf).
    exists k. split; assumption. }
  induction fuel as [|fuel IH]; intros idx rs rl Hfuel Hidx Hrl Hle Hrs Hfree
    Hfirst.
  - simpl. apply (Hend idx rl Hrl Hfirst). simpl in Hfuel. lia.
  - cbn [FramePool.scan].
    destruct (Z.ltb_spec idx (FramePool.n_frames p)) as [Hlt|Hge];
      [|apply (Hend idx rl Hrl Hfirst Hge)].
    destruct (FramePool.get_state idx p) eqn:Hst.
    + cbv zeta.
      assert (Hstart : (if rl =? 0 then idx else rs) = idx - rl).
      { destruct (Z.eqb_spec rl 0); [lia|apply Hrs; lia]. }
      rewrite Hstart.
      destruct (Z.eqb_spec (rl + 1) n) as [Heq|Hne].
      * split; [lia|]. split; [lia|]. split.
        -- intros k Hk. destruct (Z.eq_dec k idx) as [->|];
             [exact Hst|apply Hfree; lia].
        -- intros i' Hi'. destruct (Hfirst i' Hi') as (k & Hk & _ & Hnf).
           exists k. split; assumption.
      * apply IH; try lia.
        -- intros k Hk. destruct (Z.eq_dec k idx) as [->|];
             [exact Hst|apply Hfree; lia].
        -- intros i' Hi'.
           destruct (Hfirst i' ltac:(lia)) as (k & Hk & Hki & Hnf).
           exists k. split; [exact Hk|]. split; [lia|exact Hnf].
    + apply IH; try lia.
      intros i' Hi'.
      destruct (Z.lt_ge_cases i' (idx - rl)) as [Hb|Hb].
      * destruct (Hfirst i' ltac:(lia)) as (k & Hk & Hki & Hnf).
        exists k. split; [exact Hk|]. split; [lia|exact Hnf].
      * exists idx. split; [lia|]. split; [lia|].
        rewrite Hst. discriminate.
    + apply IH; try lia.
      intros i' Hi'.
      destruct (Z.lt_ge_cases i' (idx - rl)) as [Hb|Hb].
      * destruct (Hfirst i' ltac:(lia)) as (k & Hk & Hki & Hnf).
        exists k. split; [exact Hk|]. split; [lia|exact Hnf].
      * exists idx. split; [lia|]. split; [lia|].
        rewrite Hst. discriminate.
Qed.

(** X17.  [get_frames] of the two-bit pool is first fit.  When it returns,
    the frame returned heads the lowest run of [n] Free frames of the pool;
    that run now reads HoS followed by Used, every other frame reads as
    before, and the count of free frames has dropped by [n].  It halts
    exactly when more frames are asked for than are counted free or than
    the pool has, or when no [n] consecutive frames are Free. *)
Theorem X17_two_bit_get_frames_first_fit (p : FramePool.State) (n : Z) :
  Forall (fun b => 0 <= b < 256) (FramePool.bitmap p) ->
  FramePool.n_frames p <= 4 * Z.of_nat (length (FramePool.bitmap p)) ->
  1 <= n ->
  let no_run :=
    forall i', 0 <= i' -> i' + n <= FramePool.n_frames p ->
      exists k, i' <= k < i' + n /\ FramePool.get_state k p <> Free in
  (FramePool.get_frames n p = None <->
   FramePool.num_free_frames p < n \/ FramePool.n_frames p < n \/ no_run) /\
  (forall f q,
     FramePool.get_frames n p = Some (f, q) ->
     exists i,
       f = u32 (i + FramePool.base_frame_no p) /\
       0 <= i /\ i + n <= FramePool.n_frames p /\
       (forall k, i <= k < i + n -> FramePool.get_state k p = Free) /\
       (forall i', 0 <= i' < i ->
          exists k, i' <= k < i' + n /\ FramePool.get_state k p <> Free) /\
       FramePool.get_state i q = HoS /\
       (forall k, i < k < i + n -> FramePool.get_state k q = Used) /\
       (forall k, 0 <= k -> ~ (i <= k < i + n) ->
          FramePool.get_state k q = FramePool.get_state k p) /\
       FramePool.num_free_frames q = u32 (FramePool.num_free_frames p - n)).
Proof.
  intros Hbytes Hrows Hn no_run.
  pose proof (scan_spec p n Hn (Z.to_nat (FramePool.n_frames p)) 0 0 0
                ltac:(lia) ltac:(lia) ltac:(lia) ltac:(lia) ltac:(lia)
                ltac:(intros k Hk; lia) ltac:(intros i' Hi'; lia)) as Hscan.
  unfold FramePool.get_frames.
  destruct (Z.gtb_spec n (FramePool.num_free_frames p)) as [Hg1|Hg1].
  { cbn [orb]. split; [split; [intros _; left; lia|reflexivity]|].
    intros f q H. discriminate. }
  destruct (Z.gtb_spec n (FramePool.n_frames p)) as [Hg2|Hg2].
  { cbn [orb]. split; [split; [intros _; right; left; lia|reflexivity]|].
    intros f q H. discriminate. }
  cbn [orb].
  destruct (FramePool.scan (Z.to_nat (FramePool.n_frames p)) 0 0 0 n p)
    as [r|] eqn:Hsc.
  - destruct Hscan as (Hr0 & Hrn & Hrun & Hfirst). split.
    + split; [discriminate|]. intros [Hc|[Hc|Hc]]; [lia|lia|].
      destruct (Hc r Hr0 Hrn) as (k & Hk & Hnf). exfalso.
      apply Hnf. apply Hrun. exact Hk.
    + intros f q Hq. injection Hq as <- <-.
      destruct (set_states_fold (fun idx => if idx =? r then HoS else Used)
                  (seqZ r n) p)
        as (Hget & _ & _ & Hf & _).
      { apply NoDup_seqZ. }
      { apply Forall_forall. intros i Hi. apply elem_of_seqZ in Hi. lia. }
      { exact Hbytes. }
      { intros i Hi. apply elem_of_seqZ in Hi. right. split.
        - apply Z.div_lt_upper_bound; lia.
        - apply Hrun. lia. }
      exists r. split; [reflexivity|]. split; [exact Hr0|].
      split; [exact Hrn|]. split; [exact Hrun|]. split; [exact Hfirst|].
      cbn [FramePool.with_free FramePool.num_free_frames].
      change (FramePool.get_state ?k (FramePool.with_free ?x ?y))
        with (FramePool.get_state k y).
      split; [|split; [|split]].
      * rewrite Hget by lia.
        rewrite decide_True by (apply elem_of_seqZ; lia).
        rewrite Z.eqb_refl. reflexivity.
      * intros k Hk. rewrite Hget by lia.
        rewrite decide_True by (apply elem_of_seqZ; lia).
        destruct (Z.eqb_spec k r); [lia|reflexivity].
      * intros k Hk Hout. rewrite Hget by lia.
        rewrite decide_False
          by (intros Hin; apply elem_of_seqZ in Hin; lia).
        reflexivity.
      * rewrite Hf. reflexivity.
  - split.
    + split; [intros _; right; right; exact Hscan|reflexivity].
    + intros f q H. discriminate.
Qed.

Lemma X17_witness :
  let p := boot_pool 0x100 0x100 in
  exists q,
    FramePool.get_frames 3 p = Some (0x101, q) /\
    FramePool.get_state 1 q = HoS /\
    FramePool.get_state 3 q = Used /\ FramePool.get_state 4 q = Free.
Proof.
  intros p.
  destruct (FramePool.get_frames 3 p) as [[f q]|] eqn:Hq;
    [|vm_compute in Hq; discriminate].
  destruct (proj2 (X17_two_bit_get_frames_first_fit p 3
                     ltac:(apply (bool_decide_unpack _); vm_compute;
                           exact I)
                     ltac:(vm_compute; discriminate) ltac:(lia)) f q Hq)
    as (i & Hf & Hi0 & Hin & Hrun & Hfirst & Hh & Hu & Hother & _).
  assert (i = 1).
  { destruct (Z.eq_dec i 0) as [->|].
    - specialize (Hrun 0 ltac:(lia)). vm_compute in Hrun. discriminate.
    - destruct (Z.lt_ge_cases 1 i) as [Hgt|]; [|lia].
      destruct (Hfirst 1 ltac:(lia)) as (k & Hk & Hnf). exfalso. apply Hnf.
      assert (Hk3 : k = 1 \/ k = 2 \/ k = 3) by lia.
      destruct Hk3 as [-> | [-> | ->]]; vm_compute; reflexivity. }
  subst i. exists q. split; [rewrite Hf; reflexivity|]. split; [exact Hh|].
  split; [apply Hu; lia|].
  rewrite Hother by lia. vm_compute. reflexivity.
Defined.

Lemma scan_of_nothing p : forall (fuel : nat) idx rs rl,
  0 <= rl -> FramePool.scan fuel idx rs rl 0 p = None.
Proof.
  induction fuel as [|fuel IH]; intros idx rs rl Hrl; [reflexivity|].
  cbn [FramePool.scan]. destruct (idx <? FramePool.n_frames p); [|reflexivity].
  destruct (FramePool.get_state idx p); cbv zeta.
  - destruct (Z.eqb_spec (rl + 1) 0); [lia|]. apply IH. lia.
  - apply IH. lia.
  - apply IH. lia.
Qed.

(** X18.  A request for no frames.  The two-bit pool halts on
    [get_frames(0)]: its scan only compares the run length with the request
    after counting a frame.  The pool of MP2 finds the empty run at once:
    it marks frame 0 of the pool as a head of sequence, whatever state the
    frame was in, and returns the pool's base frame number. *)
Theorem X18_get_frames_of_nothing :
  (forall p, FramePool.get_frames 0 p = None) /\
  (forall p,
     1 <= FramePoolMP2.nframes p < 2 ^ 32 ->
     FramePoolMP2.get_frames 0 p
     = Some (u32 (FramePoolMP2.base_frame_no p),
             with_bitmap (<[0%nat := HoS]> (FramePoolMP2.bitmap p)) p)).
Proof.
  split.
  - intros p. unfold FramePool.get_frames.
    destruct (_ || _); [reflexivity|].
    rewrite scan_of_nothing by lia. reflexivity.
  - intros p Hn. unfold FramePoolMP2.get_frames.
    rewrite Z.sub_0_r, u32_small by lia.
    replace (Z.to_nat (FramePoolMP2.nframes p + 1))
      with (Datatypes.S (Z.to_nat (FramePoolMP2.nframes p))) by lia.
    cbn [FramePoolMP2.search]. rewrite Z.sub_0_r, u32_small by lia.
    destruct (Z.leb_spec 0 (FramePoolMP2.nframes p)); [|lia].
    unfold FramePoolMP2.mark_run.
    rewrite (seqZ_nil 0 0), (seqZ_nil 1 (0 - 1)) by lia.
    cbn [FramePoolMP2.run_is_free foldl].
    rewrite <- (with_bitmap_same p) at 1.
    rewrite set_state_in by lia. rewrite Z.add_0_r. reflexivity.
Qed.

Lemma X18_witness :
  FramePoolMP2.get_frames 0 (FramePoolMP2.mkState 0x200 4 1 [Used; Free; Free; Free])
  = Some (0x200, FramePoolMP2.mkState 0x200 4 1 [HoS; Free; Free; Free]).
Proof.
  apply (proj2 X18_get_frames_of_nothing
           (FramePoolMP2.mkState 0x200 4 1 [Used; Free; Free; Free])).
  simpl. lia.
Defined.

Lemma mp3_release_fold : forall (l : list Z) p,
  Forall (fun b => 0 <= b < 256) (FramePool.bitmap p) ->
  0 <= FramePool.num_free_frames p < 2 ^ 32 ->
  Forall (fun idx => 0 <= idx - FramePool.base_frame_no p < 2 ^ 32) l ->
  let q :=
    foldl (fun q idx =>
             FramePool.with_free (u32 (FramePool.num_free_frames q + 1))
               (FramePool.set_state
                  (u32 (idx - FramePool.base_frame_no q)) Free q))
          p l in
  (forall k, 0 <= k ->
     FramePool.get_state k q
     = if decide (k + FramePool.base_frame_no p ∈ l) then Free
       else FramePool.get_state k p) /\
  FramePool.num_free_frames q
  = u32 (FramePool.num_free_frames p + Z.of_nat (length l)) /\
  FramePool.base_frame_no q = FramePool.base_frame_no p /\
  FramePool.n_frames q = FramePool.n_frames p.
Proof.
  induction l as [|a l IH]; intros p Hbytes Hfree Hl; cbv zeta.
  - cbn [foldl length]. split; [|split; [|split; reflexivity]].
    + intros k Hk. rewrite decide_False by apply not_elem_of_nil.
      reflexivity.
    + change (Z.of_nat 0) with 0. rewrite Z.add_0_r. symmetry.
      apply u32_small. exact Hfree.
  - apply Forall_cons in Hl as [Ha Hl]. cbn [foldl].
    set (p1 := FramePool.with_free (u32 (FramePool.num_free_frames p + 1))
                 (FramePool.set_state
                    (u32 (a - FramePool.base_frame_no p)) Free p)).
    destruct (set_state_fields (u32 (a - FramePool.base_frame_no p)) Free p)
      as (_ & _ & Hbase & Hn & _).
    destruct (IH p1) as (Hget & Hnf & Hb & Hnn).
    { apply (set_state_bytes _ Free p Hbytes). }
    { apply u32_range. }
    { exact Hl. }
    change (FramePool.base_frame_no p1) with
      (FramePool.base_frame_no
         (FramePool.set_state (u32 (a - FramePool.base_frame_no p)) Free p))
      in *.
    change (FramePool.n_frames p1) with
      (FramePool.n_frames
         (FramePool.set_state (u32 (a - FramePool.base_frame_no p)) Free p))
      in *.
    rewrite Hbase in *. rewrite Hn in *.
    split; [|split; [|split; assumption]].
    + intros k Hk. rewrite (Hget k Hk).
      change (FramePool.get_state k p1)
        with (FramePool.get_state k
                (FramePool.set_state
                   (u32 (a - FramePool.base_frame_no p)) Free p)).
      rewrite (u32_small (a - FramePool.base_frame_no p)) by exact Ha.
      destruct (get_set_state p (a - FramePool.base_frame_no p) k Free
                  ltac:(lia) Hk Hbytes) as (Hother & Hsame & _).
      destruct (decide (k + FramePool.base_frame_no p ∈ l)) as [Hin|Hout].
      * rewrite decide_True by (right; exact Hin). reflexivity.
      * destruct (decide (k + FramePool.base_frame_no p = a)) as [Heq|Hne].
        -- rewrite decide_True by (rewrite Heq; left).
           replace k with (a - FramePool.base_frame_no p) by lia.
           exact Hsame.
        -- rewrite decide_False
             by (intros Hin; apply elem_of_cons in Hin as [?|?];
                 contradiction).
           apply Hother. lia.
    + rewrite Hnf. cbn [p1 FramePool.with_free FramePool.num_free_frames].
      unfold u32. rewrite Zplus_mod_idemp_l. f_equal. simpl length. lia.
Qed.

(** X19.  The release of MP3 frees a fixed number of frames, the size of
    the whole pool, starting at the released one: afterwards the released
    frame and every frame of the pool behind it read Free, also frames that
    belong to other allocations, and [num_free_frames] has grown by the
    pool's size.  Frames before the released one are untouched, and a frame
    that does not head a sequence halts the release. *)
Theorem X19_mp3_release_frees_the_rest (p : FramePool.State) (f : Z) :
  Forall (fun b => 0 <= b < 256) (FramePool.bitmap p) ->
  0 <= FramePool.num_free_frames p < 2 ^ 32 ->
  0 <= FramePool.base_frame_no p <= f ->
  0 <= FramePool.n_frames p ->
  f + FramePool.n_frames p < 2 ^ 32 ->
  let i := f - FramePool.base_frame_no p in
  (FramePool.get_state i p <> HoS ->
   FramePoolMP3.release_frames_in_pool f p = None) /\
  (FramePool.get_state i p = HoS ->
   exists q,
     FramePoolMP3.release_frames_in_pool f p = Some q /\
     (forall k, i <= k < i + FramePool.n_frames p ->
        FramePool.get_state k q = Free) /\
     (forall k, 0 <= k < i ->
        FramePool.get_state k q = FramePool.get_state k p) /\
     FramePool.num_free_frames q
     = u32 (FramePool.num_free_frames p + FramePool.n_frames p)).
Proof.
  intros Hbytes Hfree Hbase Hn Htop i.
  unfold FramePoolMP3.release_frames_in_pool.
  rewrite (u32_small (f - FramePool.base_frame_no p)) by lia. fold i.
  split.
  - intros Hno. destruct (FramePool.get_state i p);
      [reflexivity|reflexivity|contradiction].
  - intros Hhos. rewrite Hhos.
    rewrite (u32_small (f + FramePool.n_frames p)) by lia.
    replace (f + FramePool.n_frames p - f) with (FramePool.n_frames p) by lia.
    destruct (mp3_release_fold (seqZ f (FramePool.n_frames p)) p Hbytes Hfree)
      as (Hget & Hnf & _ & _).
    { apply Forall_forall. intros idx Hidx. apply elem_of_seqZ in Hidx. lia. }
    eexists. split; [reflexivity|]. split; [|split].
    + intros k Hk. rewrite Hget by lia.
      rewrite decide_True by (apply elem_of_seqZ; lia). reflexivity.
    + intros k Hk. rewrite Hget by lia.
      rewrite decide_False
        by (intros Hin; apply elem_of_seqZ in Hin; lia).
      reflexivity.
    + rewrite Hnf, length_seqZ. rewrite Z2Nat.id by lia. reflexivity.
Qed.

Lemma X19_witness :
  let p := FramePool.mkState 0 8 1 5 [15; 0] in
  FramePool.states p = [HoS; HoS; Free; Free; Free; Free; Free; Free] /\
  exists q,
    FramePoolMP3.release_frames_in_pool 0 p = Some q /\
    FramePool.get_state 1 q = Free /\
    FramePool.num_free_frames q = 13.
Proof.
  intros p. split; [reflexivity|].
  destruct (proj2 (X19_mp3_release_frees_the_rest p 0
                     ltac:(repeat constructor; lia)
                     ltac:(simpl; lia) ltac:(simpl; lia)
                     ltac:(simpl; lia) ltac:(simpl; lia)) eq_refl)
    as (q & Hq & Hfreed & _ & Hnf).
  exists q. split; [exact Hq|]. split; [apply Hfreed; simpl; lia|].
  rewrite Hnf. reflexivity.
Defined.

(** ** The pool of MP2 *)

(** X20.  On the pool of MP2 release is the inverse of allocation: in a
    well-formed pool, releasing the frame that a successful [get_frames(n)]
    returned, with [n] at least 1, gives back the pool as it was. *)
Theorem X20_mp2_release_undoes_get_frames (p p' : FramePoolMP2.State)
    (n f : Z) :
  pool_well_formed p ->
  1 <= n <= FramePoolMP2.nframes p ->
  FramePoolMP2.get_frames n p = Some (f, p') -> f <> 0 ->
  FramePoolMP2.release_frames f [p'] = Some [p].
Proof. exact (mp2_release_inverts_get p n f p'). Qed.

Lemma X20_witness :
  let p := FramePoolMP2.mkState 0x200 6 1
             [HoS; Used; Free; Free; Free; HoS] in
  FramePoolMP2.release_frames 0x202
    [FramePoolMP2.mkState 0x200 6 1 [HoS; Used; HoS; Used; Used; HoS]]
  = Some [p].
Proof.
  intros p.
  apply (X20_mp2_release_undoes_get_frames p _ 3 0x202).
  - unfold pool_well_formed. simpl.
    split; [lia|]. split; [lia|]. split; [lia|]. split; [reflexivity|].
    intros i Hi.
    do 6 (destruct i as [|i]; [simpl in *; try discriminate|]);
      simpl; discriminate.
  - simpl. lia.
  - reflexivity.
  - lia.
Defined.

Section MP2_first_fit.

Import FramePoolMP2.

Variable p : State.
Variable n : Z.

Hypothesis base_fits : 0 <= base_frame_no p.
Hypothesis top_fits : base_frame_no p + nframes p < 2 ^ 32.
Hypothesis bitmap_fits : length (bitmap p) = Z.to_nat (nframes p).
Hypothesis n_fits : 1 <= n <= nframes p.

Lemma run_is_free_outcome i : forall js,
  0 <= i -> Forall (fun j => 0 <= j /\ i + j < nframes p) js ->
  (run_is_free p i js = Some true /\
   forall j, j ∈ js -> bitmap p !! Z.to_nat (i + j) = Some Free) \/
  (run_is_free p i js = Some false /\
   exists j, j ∈ js /\ bitmap p !! Z.to_nat (i + j) <> Some Free).
Proof.
  induction js as [|j js IH]; intros Hi Hjs.
  - left. split; [reflexivity|]. intros j Hj. inversion Hj.
  - apply Forall_cons in Hjs as [[Hj0 Hj1] Hjs]. cbn [run_is_free].
    rewrite u32_small by lia.
    assert (Hg : get_state (i + j) p = bitmap p !! Z.to_nat (i + j))
      by (rewrite <- (with_bitmap_same p) at 1; apply get_state_in; lia).
    rewrite Hg.
    destruct (bitmap p !! Z.to_nat (i + j)) as [st|] eqn:E.
    2:{ apply lookup_ge_None in E. lia. }
    destruct st.
    + destruct (IH Hi Hjs) as [[Hr Hall]|[Hr (j' & Hj' & Hnf)]].
      * left. split; [exact Hr|]. intros j' Hj'.
        apply elem_of_cons in Hj' as [->|Hj']; [exact E|apply Hall; exact Hj'].
      * right. split; [exact Hr|]. exists j'. split; [right; exact Hj'|exact Hnf].
    + right. split; [reflexivity|]. exists j. split; [left|].
      rewrite E. discriminate.
    + right. split; [reflexivity|]. exists j. split; [left|].
      rewrite E. discriminate.
Qed.

Lemma search_outcome : forall (fuel : nat) i,
  0 <= i ->
  nframes p - n + 1 - i <= Z.of_nat fuel ->
  (forall i', 0 <= i' < i ->
     exists j, 0 <= j < n /\ bitmap p !! Z.to_nat (i' + j) <> Some Free) ->
  exists f p',
    search fuel i n p = Some (f, p') /\
    ((f = 0 /\ p' = p /\
      forall i', 0 <= i' <= nframes p - n ->
        exists j, 0 <= j < n /\ bitmap p !! Z.to_nat (i' + j) <> Some Free) \/
     (exists i0,
        i <= i0 <= nframes p - n /\
        f = base_frame_no p + i0 /\
        (forall j, 0 <= j < n ->
           bitmap p !! Z.to_nat (i0 + j) = Some Free) /\
        (forall i', 0 <= i' < i0 ->
           exists j, 0 <= j < n /\
                     bitmap p !! Z.to_nat (i' + j) <> Some Free) /\
        p' = with_bitmap
               (list_inserts (Z.to_nat i0)
                  (HoS :: replicate (Z.to_nat (n - 1)) Used) (bitmap p)) p)).
Proof.
  induction fuel as [|fuel IH]; intros i Hi Hfuel Hbefore.
  - exists 0, p. split; [reflexivity|]. left.
    split; [reflexivity|]. split; [reflexivity|].
    intros i' Hi'. apply Hbefore. simpl in Hfuel. lia.
  - cbn [search]. rewrite (u32_small (nframes p - n)) by lia.
    destruct (Z.leb_spec i (nframes p - n)) as [Hle|Hgt].
    2:{ exists 0, p. split; [reflexivity|]. left.
        split; [reflexivity|]. split; [reflexivity|].
        intros i' Hi'. apply Hbefore. lia. }
    destruct (run_is_free_outcome i (seqZ 0 n) Hi) as [[Hr Hall]|[Hr Hex]].
    { apply Forall_forall. intros j Hj. apply elem_of_seqZ in Hj. lia. }
    + rewrite Hr. rewrite mark_run_spec by lia.
      eexists _, _. split; [reflexivity|]. right. exists i.
      split; [lia|]. split; [apply u32_small; lia|].
      split; [|split; [exact Hbefore|reflexivity]].
      intros j Hj. apply Hall. apply elem_of_seqZ. lia.
    + rewrite Hr.
      destruct (IH (i + 1) ltac:(lia) ltac:(lia)) as (f & p' & Hs & Hout).
      { intros i' Hi'. destruct (Z.eq_dec i' i) as [->|Hne].
        - destruct Hex as (j & Hj & Hnf). apply elem_of_seqZ in Hj.
          exists j. split; [lia|exact Hnf].
        - apply Hbefore. lia. }
      exists f, p'. split; [exact Hs|].
      destruct Hout as [Hnone|(i0 & Hi0 & Hrest)]; [left; exact Hnone|].
      right. exists i0. split; [lia|exact Hrest].
Qed.

Lemma mp2_get_frames_outcome :
  exists f p',
    get_frames n p = Some (f, p') /\
    ((f = 0 /\ p' = p /\
      forall i', 0 <= i' <= nframes p - n ->
        exists j, 0 <= j < n /\ bitmap p !! Z.to_nat (i' + j) <> Some Free) \/
     (exists i0,
        0 <= i0 <= nframes p - n /\
        f = base_frame_no p + i0 /\
        (forall j, 0 <= j < n ->
           bitmap p !! Z.to_nat (i0 + j) = Some Free) /\
        (forall i', 0 <= i' < i0 ->
           exists j, 0 <= j < n /\
                     bitmap p !! Z.to_nat (i' + j) <> Some Free) /\
        p' = with_bitmap
               (list_inserts (Z.to_nat i0)
                  (HoS :: replicate (Z.to_nat (n - 1)) Used) (bitmap p)) p)).
Proof.
  unfold get_frames. rewrite (u32_small (nframes p - n)) by lia.
  apply search_outcome; [lia|lia|]. intros i' Hi'. lia.
Qed.

End MP2_first_fit.

(** X21.  [get_frames] of MP2 is first fit and never halts on a request
    that fits the pool: for [1 <= n <= nframes], in a pool whose frame
    numbers fit 32 bits, it returns the base of the lowest run of [n] Free
    frames and marks that run HoS followed by Used, leaving every other
    frame as it was; when the pool holds no such run it returns 0 and
    changes nothing. *)
Theorem X21_mp2_get_frames_first_fit (p : FramePoolMP2.State) (n : Z) :
  0 <= FramePoolMP2.base_frame_no p ->
  FramePoolMP2.base_frame_no p + FramePoolMP2.nframes p < 2 ^ 32 ->
  length (FramePoolMP2.bitmap p) = Z.to_nat (FramePoolMP2.nframes p) ->
  1 <= n <= FramePoolMP2.nframes p ->
  exists f p',
    FramePoolMP2.get_frames n p = Some (f, p') /\
    ((f = 0 /\ p' = p /\
      forall i', 0 <= i' <= FramePoolMP2.nframes p - n ->
        exists j, 0 <= j < n /\
                  FramePoolMP2.bitmap p !! Z.to_nat (i' + j) <> Some Free) \/
     (exists i0,
        0 <= i0 <= FramePoolMP2.nframes p - n /\
        f = FramePoolMP2.base_frame_no p + i0 /\
        (forall j, 0 <= j < n ->
           FramePoolMP2.bitmap p !! Z.to_nat (i0 + j) = Some Free) /\
        (forall i', 0 <= i' < i0 ->
           exists j, 0 <= j < n /\
                     FramePoolMP2.bitmap p !! Z.to_nat (i' + j)
                     <> Some Free) /\
        p' = with_bitmap
               (list_inserts (Z.to_nat i0)
                  (HoS :: replicate (Z.to_nat (n - 1)) Used)
                  (FramePoolMP2.bitmap p)) p)).
Proof. exact (mp2_get_frames_outcome p n). Qed.

Lemma X21_witness :
  FramePoolMP2.get_frames 2
    (FramePoolMP2.mkState 0x200 6 1 [HoS; Free; Used; Free; Free; Free])
  = Some (0x203,
          FramePoolMP2.mkState 0x200 6 1 [HoS; Free; Used; HoS; Used; Free]).
Proof.
  destruct (X21_mp2_get_frames_first_fit
              (FramePoolMP2.mkState 0x200 6 1
                 [HoS; Free; Used; Free; Free; Free]) 2
              ltac:(simpl; lia) ltac:(simpl; lia) eq_refl ltac:(simpl; lia))
    as (f & p' & Hg & _).
  rewrite Hg. vm_compute in Hg. injection Hg as <- <-. reflexivity.
Defined.

(* --------------------------------------------------------------------- *)
(** ** The page tables: faults, constructors and [free_page]             *)
(* --------------------------------------------------------------------- *)

(** X22.  The handler of MP3 leaves the machine as it is on a fault at an
    address whose directory entry and table entry are both present: no
    frame leaves a pool and no entry changes.  A fault with the protection
    bit of the error code set halts the kernel. *)
Theorem X22_mp3_fault_on_a_mapped_address (err_code va : Z)
    (s : PageTable.State) :
  0 <= va < 2 ^ 32 ->
  PageTable.mapped s va ->
  (Z.land err_code 1 = 0 ->
   PageTable.MP3.handle_fault err_code va s = Some s) /\
  (Z.land err_code 1 <> 0 ->
   PageTable.MP3.handle_fault err_code va s = None).
Proof. exact (mp3_mapped_fault_allocates_nothing err_code va s). Qed.

Lemma X22_witness :
  PageTable.MP3.handle_fault 2 0x1000 mp3_boot = Some mp3_boot.
Proof.
  apply (X22_mp3_fault_on_a_mapped_address 2 0x1000 mp3_boot).
  - lia.
  - split; vm_compute; reflexivity.
  - reflexivity.
Defined.

Lemma store_through_pools handler pools :
  (forall e a s,
     handler e a (with_vm_pools pools s)
     = with_vm_pools pools <$> handler e a s) ->
  forall tries va v s,
    PageTable.MP4.store_through handler tries va v (with_vm_pools pools s)
    = with_vm_pools pools <$> PageTable.MP4.store_through handler tries va v s.
Proof.
  intros Hh. induction tries as [|tries IH]; intros va v s; simpl;
    change (PageTable.MP4.translate (with_vm_pools pools s) va)
      with (PageTable.MP4.translate s va);
    destruct (PageTable.MP4.translate s va); try reflexivity.
  rewrite Hh. destruct (handler 2 va s) as [s1|]; [|reflexivity].
  cbn [fmap option_fmap option_map]. apply IH.
Qed.

Lemma fill_through_pools handler pools tries table v :
  (forall e a s,
     handler e a (with_vm_pools pools s)
     = with_vm_pools pools <$> handler e a s) ->
  forall s,
    PageTable.MP4.fill_through handler tries table v (with_vm_pools pools s)
    = with_vm_pools pools
        <$> PageTable.MP4.fill_through handler tries table v s.
Proof.
  intros Hh s. unfold PageTable.MP4.fill_through.
  change (Some (with_vm_pools pools s))
    with (with_vm_pools pools <$> Some s).
  generalize (Some s). induction (seqZ 0 1024) as [|j js IH]; intros os;
    [reflexivity|].
  cbn [foldl]. destruct os as [s0|].
  - cbn [fmap option_fmap option_map].
    rewrite (store_through_pools handler pools Hh). apply IH.
  - apply (IH None).
Qed.

Lemma map_page_pools handler pools tries pdi pti :
  (forall e a s,
     handler e a (with_vm_pools pools s)
     = with_vm_pools pools <$> handler e a s) ->
  forall s,
    PageTable.MP4.map_page handler tries pdi pti (with_vm_pools pools s)
    = with_vm_pools pools <$> PageTable.MP4.map_page handler tries pdi pti s.
Proof.
  intros Hh s. unfold PageTable.MP4.map_page.
  change (PageTable.process_mem_pool (with_vm_pools pools s))
    with (PageTable.process_mem_pool s).
  destruct (FramePool.get_frames 1 (PageTable.process_mem_pool s))
    as [[frame pp]|]; [|reflexivity].
  apply (store_through_pools handler pools Hh _ _ _
           (PageTable.with_process_pool pp s)).
Qed.

Lemma mp4_fault_ignores_pools pools : forall fuel err_code va s,
  PageTable.MP4.handle_fault fuel err_code va (with_vm_pools pools s)
  = with_vm_pools pools <$> PageTable.MP4.handle_fault fuel err_code va s.
Proof.
  induction fuel as [|fuel IH]; intros err_code va s; [reflexivity|].
  rewrite !mp4_handle_fault_step. cbv zeta.
  destruct (Z.land err_code 1 =? 0); [|reflexivity].
  change (PageTable.vm_pool_head (with_vm_pools pools s)) with pools.
  pose proof (pool_walk_flags va pools) as Hl.
  pose proof (pool_walk_flags va (PageTable.vm_pool_head s)) as Hs.
  destruct (PageTable.MP4.pool_walk va pools) as [a b].
  destruct (PageTable.MP4.pool_walk va (PageTable.vm_pool_head s)) as [c d].
  cbn [fst snd] in Hl, Hs. subst b d.
  rewrite !andb_negb_r.
  change (PageTable.memory (with_vm_pools pools s)) with (PageTable.memory s).
  change (PageTable.cr3 (with_vm_pools pools s)) with (PageTable.cr3 s).
  change (PageTable.process_mem_pool (with_vm_pools pools s))
    with (PageTable.process_mem_pool s).
  destruct (Z.land _ 1 =? 0); [|apply (map_page_pools _ pools _ _ _ IH)].
  destruct (FramePool.get_frames 1 (PageTable.process_mem_pool s))
    as [[frame pp]|]; [|reflexivity].
  rewrite (store_through_pools _ pools IH _ _ _
             (PageTable.with_process_pool pp s)).
  destruct (PageTable.MP4.store_through _ _ _ _
              (PageTable.with_process_pool pp s)) as [s1|]; [|reflexivity].
  cbn [fmap option_fmap option_map].
  rewrite (fill_through_pools _ pools _ _ _ IH).
  destruct (PageTable.MP4.fill_through _ _ _ _ s1) as [s2|]; [|reflexivity].
  cbn [fmap option_fmap option_map].
  apply (map_page_pools _ pools _ _ _ IH).
Qed.

(** X23.  The walk over the registered pools in the handler of MP4 decides
    nothing: whatever pools are registered, and whether or not one of them
    owns the faulting address, the handler does what it does with no pool
    registered at all, however deep its faults nest.  In particular it
    never halts for an address that no pool owns. *)
Theorem X23_mp4_fault_ignores_the_pools (fuel : nat) (err_code va : Z)
    (pools : list VMPool.State) (s : PageTable.State) :
  PageTable.MP4.handle_fault fuel err_code va (with_vm_pools pools s)
  = with_vm_pools pools
      <$> PageTable.MP4.handle_fault fuel err_code va (with_vm_pools [] s).
Proof.
  rewrite (mp4_fault_ignores_pools [] fuel err_code va s).
  rewrite (mp4_fault_ignores_pools pools fuel err_code va s).
  destruct (PageTable.MP4.handle_fault fuel err_code va s); reflexivity.
Qed.

(** *** The constructors *)

Lemma mark_fold_out pd a js : forall m,
  (forall j, j ∈ js -> a <> PageTable.slot pd j) ->
  foldl (fun m idx =>
           PageTable.store m (PageTable.slot pd idx)
             (Z.lor (PageTable.load m (PageTable.slot pd idx)) 2)) m js a
  = m a.
Proof.
  induction js as [|j js IH]; intros m Hout; [reflexivity|].
  simpl. rewrite IH by (intros; apply Hout; right; assumption).
  unfold PageTable.store.
  destruct (Z.eqb_spec a (PageTable.slot pd j)) as [Heq|]; [|reflexivity].
  exfalso. apply (Hout j); [left|exact Heq].
Qed.

Lemma mark_fold_in pd i js : forall m,
  0 <= pd < 2 ^ 32 -> pd mod 4096 = 0 ->
  NoDup js -> (forall j, j ∈ js -> 0 <= j < 1024) -> i ∈ js ->
  foldl (fun m idx =>
           PageTable.store m (PageTable.slot pd idx)
             (Z.lor (PageTable.load m (PageTable.slot pd idx)) 2)) m js
    (PageTable.slot pd i)
  = Z.lor (m (PageTable.slot pd i)) 2.
Proof.
  induction js as [|j js IH]; intros m Hpd Hal Hnd Hr Hin; [inversion Hin|].
  apply NoDup_cons in Hnd as [Hj Hnd]. simpl.
  assert (Hslots : forall x y, 0 <= x < 1024 -> 0 <= y < 1024 -> x <> y ->
            PageTable.slot pd x <> PageTable.slot pd y).
  { intros x y Hx Hy Hxy. rewrite !slot_in_page by assumption. lia. }
  apply elem_of_cons in Hin as [->|Hin].
  - rewrite mark_fold_out.
    + unfold PageTable.store, PageTable.load. rewrite Z.eqb_refl. reflexivity.
    + intros j' Hj'. apply Hslots.
      * apply Hr. left.
      * apply Hr. right. exact Hj'.
      * intros ->. contradiction.
  - rewrite IH; try assumption.
    + unfold PageTable.store at 1.
      destruct (Z.eqb_spec (PageTable.slot pd i) (PageTable.slot pd j))
        as [Heq|]; [|reflexivity].
      exfalso. revert Heq. apply Hslots.
      * apply Hr. right. exact Hin.
      * apply Hr. left.
      * intros ->. contradiction.
    + intros j' Hj'. apply Hr. right. exact Hj'.
Qed.

(** The directory after the loop that marks its entries. *)
Lemma mark_entries_spec pd first bound m :
  0 <= pd < 2 ^ 32 -> pd mod 4096 = 0 -> 0 <= first -> bound <= 1024 ->
  (forall i, first <= i < bound ->
     PageTable.mark_entries pd first bound m (PageTable.slot pd i)
     = Z.lor (m (PageTable.slot pd i)) 2) /\
  (forall a, (forall i, first <= i < bound -> a <> PageTable.slot pd i) ->
     PageTable.mark_entries pd first bound m a = m a).
Proof.
  intros Hpd Hal Hf Hb. unfold PageTable.mark_entries. split.
  - intros i Hi. apply mark_fold_in; try assumption.
    + apply NoDup_seqZ.
    + intros j Hj. apply elem_of_seqZ in Hj. lia.
    + apply elem_of_seqZ. lia.
  - intros a Hout. apply mark_fold_out.
    intros j Hj. apply Hout. apply elem_of_seqZ in Hj. lia.
Qed.

(** The table after the loop that maps the shared memory, turn by turn. *)
Lemma map_shared_turns pt m (k : nat) :
  0 <= pt < 2 ^ 32 -> pt mod 4096 = 0 -> (k <= 1024)%nat ->
  let r := foldl (fun '(m, address) idx =>
                    (PageTable.store m (PageTable.slot pt idx)
                       (Z.lor address 3),
                     u32 (address + PageTable.PAGE_SIZE)))
                 (m, 0) (seqZ 0 (Z.of_nat k)) in
  snd r = 4096 * Z.of_nat k /\
  (forall i, 0 <= i < Z.of_nat k ->
     fst r (PageTable.slot pt i) = Z.lor (4096 * i) 3) /\
  (forall a, (forall i, 0 <= i < Z.of_nat k -> a <> PageTable.slot pt i) ->
     fst r a = m a).
Proof.
  intros Hpt Hal. induction k as [|k IH]; intros Hk.
  - cbn. split; [reflexivity|]. split; [intros; lia|reflexivity].
  - rewrite seqZ_S, foldl_app. cbv zeta in IH |- *.
    destruct IH as (Ha & Hin & Hout); [lia|].
    destruct (foldl _ (m, 0) (seqZ 0 (Z.of_nat k))) as [mk address].
    cbn [fst snd] in Ha, Hin, Hout. subst address.
    cbn [foldl fst snd]. rewrite Z.add_0_l.
    split; [|split].
    + unfold PageTable.PAGE_SIZE. rewrite u32_small; [lia|].
      change (2 ^ 32) with 4294967296. lia.
    + intros i Hi. unfold PageTable.store.
      destruct (Z.eqb_spec (PageTable.slot pt i)
                  (PageTable.slot pt (Z.of_nat k))) as [Heq|Hne].
      * rewrite !slot_in_page in Heq by (assumption || lia).
        replace i with (Z.of_nat k) by lia. reflexivity.
      * apply Hin. destruct (Z.eq_dec i (Z.of_nat k)) as [->|]; [|lia].
        contradiction.
    + intros a Hnot. unfold PageTable.store.
      destruct (Z.eqb_spec a (PageTable.slot pt (Z.of_nat k))) as [Heq|Hne].
      * exfalso. apply (Hnot (Z.of_nat k)); [lia|exact Heq].
      * apply Hout. intros i Hi. apply Hnot. lia.
Qed.

Lemma map_shared_spec pt n m :
  0 <= pt < 2 ^ 32 -> pt mod 4096 = 0 -> 0 <= n <= 1024 ->
  (forall i, 0 <= i < n ->
     PageTable.map_shared pt n m (PageTable.slot pt i) = Z.lor (4096 * i) 3) /\
  (forall a, (forall i, 0 <= i < n -> a <> PageTable.slot pt i) ->
     PageTable.map_shared pt n m a = m a).
Proof.
  intros Hpt Hal Hn. unfold PageTable.map_shared.
  destruct (map_shared_turns pt m (Z.to_nat n) Hpt Hal ltac:(lia))
    as (_ & Hin & Hout).
  rewrite Z2Nat.id in Hin, Hout by lia. split; assumption.
Qed.

(** Setting the RW bit moves neither the Present bit nor the frame. *)
Lemma lor_rw_bits x :
  Z.land (Z.lor x 2) 1 = Z.land x 1 /\
  Z.land (Z.lor x 2) 0xFFFFF000 = Z.land x 0xFFFFF000.
Proof.
  split; apply Z.bits_inj'; intros n Hn;
    rewrite !Z.land_spec, Z.lor_spec;
    change 2 with (2 ^ 1); rewrite (Z.pow2_bits_eqb 1 n) by lia;
    destruct (Z.eqb_spec 1 n) as [<-|]; rewrite ?orb_false_r;
    try reflexivity; rewrite !andb_false_r; reflexivity.
Qed.

(** The walk of an address below 4 MiB through a directory whose entry 0
    points at a table that maps its first [n] pages onto themselves. *)
Lemma identity_walk s pt n va :
  0 <= PageTable.cr3 s < 2 ^ 32 -> PageTable.cr3 s mod 4096 = 0 ->
  0 <= pt < 2 ^ 32 -> pt mod 4096 = 0 -> 0 <= n <= 1024 ->
  PageTable.memory s (PageTable.slot (PageTable.cr3 s) 0) = Z.lor pt 3 ->
  (forall i, 0 <= i < n ->
     PageTable.memory s (PageTable.slot pt i) = Z.lor (4096 * i) 3) ->
  0 <= va < 4096 * n ->
  PageTable.MP4.translate s va = Some va.
Proof.
  intros Hcr3 Hcal Hpt Hal Hn Hpde Hpte Hva.
  unfold PageTable.MP4.translate, PageTable.load.
  assert (H1 : Z.shiftr va 22 = 0).
  { rewrite Z.shiftr_div_pow2 by lia. change (2 ^ 22) with 4194304.
    Z.div_mod_to_equations. lia. }
  assert (H2 : Z.land (Z.shiftr va 12) 0x3FF = va / 4096).
  { change 0x3FF with (Z.ones 10). rewrite Z.land_ones by lia.
    rewrite Z.shiftr_div_pow2 by lia.
    change (2 ^ 12) with 4096. change (2 ^ 10) with 1024.
    Z.div_mod_to_equations. lia. }
  assert (H3 : Z.land va 0xFFF = va mod 4096).
  { change 0xFFF with (Z.ones 12). rewrite Z.land_ones by lia. reflexivity. }
  rewrite H1, Hpde. rewrite (entry_present pt 3) by (try lia; exact Hal).
  simpl Z.eqb. cbv iota.
  rewrite (entry_address pt 3) by (try lia; assumption).
  rewrite H2, Hpte by (Z.div_mod_to_equations; lia).
  rewrite (entry_present (4096 * (va / 4096)) 3)
    by (try lia; Z.div_mod_to_equations; lia).
  simpl Z.eqb. cbv iota.
  rewrite (entry_address (4096 * (va / 4096)) 3)
    by (try lia; Z.div_mod_to_equations; lia).
  rewrite H3. f_equal.
  rewrite u32_small by (Z.div_mod_to_equations; lia).
  Z.div_mod_to_equations. lia.
Qed.

(** X24.  The constructor of MP3, on a shared size of one to 1024 pages and
    two frames at different addresses from the kernel pool, builds a page
    table that maps every address of the shared memory onto itself.  It
    sets the RW bit of the directory's further entries and clears nothing:
    such an entry is Present afterwards exactly when the word the frame
    held before had bit 0 set. *)
Theorem X24_mp3_constructor_maps_the_shared_memory (s : PageTable.State)
    (f : Z) (kp : FramePool.State) (f' : Z) (kp' : FramePool.State) :
  4096 <= PageTable.shared_size s <= 0x400000 ->
  FramePool.get_frames 1 (PageTable.kernel_mem_pool s) = Some (f, kp) ->
  FramePool.get_frames 1 kp = Some (f', kp') ->
  u32 (f * PageTable.PAGE_SIZE) <> u32 (f' * PageTable.PAGE_SIZE) ->
  let page_directory := u32 (f * PageTable.PAGE_SIZE) in
  exists s',
    PageTable.MP3.PageTable s = Some (page_directory, s') /\
    PageTable.kernel_mem_pool s' = kp' /\
    PageTable.process_mem_pool s' = PageTable.process_mem_pool s /\
    (forall va, 0 <= va < 4096 * (PageTable.shared_size s / 4096) ->
       PageTable.MP4.translate (PageTable.MP3.load page_directory s') va
       = Some va) /\
    (forall i, 1 <= i < PageTable.shared_size s / 4096 ->
       PageTable.memory s' (PageTable.slot page_directory i)
       = Z.lor (PageTable.memory s (PageTable.slot page_directory i)) 2) /\
    (forall i, 1 <= i < 1024 ->
       Z.land (PageTable.memory s' (PageTable.slot page_directory i)) 1
       = Z.land (PageTable.memory s (PageTable.slot page_directory i)) 1).
Proof.
  intros Hsh Hg1 Hg2 Hne. cbv zeta.
  destruct (frame_address f) as [Hpd Hpal].
  destruct (frame_address f') as [Hpt Hptal].
  set (pd := u32 (f * PageTable.PAGE_SIZE)) in *.
  set (pt := u32 (f' * PageTable.PAGE_SIZE)) in *.
  assert (Hn : 1 <= PageTable.shared_size s / 4096 <= 1024)
    by (Z.div_mod_to_equations; lia).
  unfold PageTable.MP3.PageTable. rewrite Hg1, Hg2.
  fold pd. fold pt. unfold PageTable.PAGE_SIZE at 1.
  set (n := PageTable.shared_size s / 4096) in *.
  set (m1 := PageTable.store (PageTable.memory s) (PageTable.slot pd 0)
               (Z.lor pt 3)).
  eexists. split; [reflexivity|].
  cbn [PageTable.kernel_mem_pool PageTable.process_mem_pool PageTable.memory
       PageTable.with_memory PageTable.with_kernel_pool].
  destruct (map_shared_spec pt n (PageTable.mark_entries pd 1 n m1)
              Hpt Hptal ltac:(lia)) as [Htab Hrest].
  destruct (mark_entries_spec pd 1 n m1 Hpd Hpal ltac:(lia) ltac:(lia))
    as [Hmark Hkeep].
  assert (Hdir : forall i, 0 <= i < 1024 ->
            PageTable.map_shared pt n (PageTable.mark_entries pd 1 n m1)
              (PageTable.slot pd i)
            = PageTable.mark_entries pd 1 n m1 (PageTable.slot pd i)).
  { intros i Hi. apply Hrest. intros j Hj.
    rewrite !slot_in_page by (assumption || lia).
    apply pages_apart; try assumption; lia. }
  assert (Hstore : forall i, 1 <= i < 1024 ->
            m1 (PageTable.slot pd i) = PageTable.memory s (PageTable.slot pd i)).
  { intros i Hi. unfold m1, PageTable.store.
    destruct (Z.eqb_spec (PageTable.slot pd i) (PageTable.slot pd 0))
      as [Heq|]; [|reflexivity].
    rewrite !slot_in_page in Heq by (assumption || lia). lia. }
  split; [reflexivity|]. split; [reflexivity|]. split; [|split].
  - intros va Hva.
    apply (identity_walk _ pt n); cbn [PageTable.MP3.load PageTable.write_cr3
      PageTable.cr3 PageTable.memory PageTable.with_memory
      PageTable.with_kernel_pool]; try assumption; try lia.
    + rewrite Hdir by lia. rewrite Hkeep.
      * unfold m1, PageTable.store. rewrite Z.eqb_refl. reflexivity.
      * intros i Hi. rewrite !slot_in_page by (assumption || lia). lia.
  - intros i Hi. rewrite Hdir by lia. rewrite Hmark by lia.
    rewrite Hstore by lia. reflexivity.
  - intros i Hi. rewrite Hdir by lia.
    destruct (Z.lt_ge_cases i n) as [Hlt|Hge].
    + rewrite Hmark by lia. rewrite Hstore by lia.
      apply (proj1 (lor_rw_bits _)).
    + rewrite Hkeep.
      * rewrite Hstore by lia. reflexivity.
      * intros j Hj. rewrite !slot_in_page by (assumption || lia). lia.
Qed.

Lemma X24_witness :
  exists s',
    PageTable.MP3.PageTable before_paging = Some (513 * 4096, s') /\
    PageTable.MP4.translate (PageTable.MP3.load (513 * 4096) s') 0x3FF123
    = Some 0x3FF123.
Proof.
  destruct (X24_mp3_constructor_maps_the_shared_memory before_paging
              513 (take_frame (boot_pool 512 512))
              514 (take_frame (take_frame (boot_pool 512 512))))
    as (s' & Hc & _ & _ & Hid & _).
  - change (PageTable.shared_size before_paging) with 0x400000. lia.
  - vm_compute. reflexivity.
  - vm_compute. reflexivity.
  - vm_compute. discriminate.
  - exists s'. split; [exact Hc|]. apply Hid.
    change (PageTable.shared_size before_paging / 4096) with 1024. lia.
Defined.

(** X25.  The constructor of MP4, on a shared size of 1024 pages, a frame
    from the kernel pool for the directory and a frame at another address
    from the process pool for the first table, builds a page table whose
    last directory entry maps the directory onto itself, so that the
    directory is read through the window at 0xFFFFF000, and which maps every
    address of the first 4 MiB onto itself.  It clears none of the entries
    1 to 1022 of the directory: each is Present afterwards exactly when the
    word the frame held before had bit 0 set. *)
Theorem X25_mp4_constructor_recursive_mapping (s : PageTable.State)
    (f : Z) (kp : FramePool.State) (f' : Z) (pp : FramePool.State) :
  PageTable.shared_size s / 4096 = 1024 ->
  FramePool.get_frames 1 (PageTable.kernel_mem_pool s) = Some (f, kp) ->
  FramePool.get_frames 1 (PageTable.process_mem_pool s) = Some (f', pp) ->
  u32 (f * PageTable.PAGE_SIZE) <> u32 (f' * PageTable.PAGE_SIZE) ->
  let page_directory := u32 (f * PageTable.PAGE_SIZE) in
  exists s',
    PageTable.MP4.PageTable s = Some (page_directory, s') /\
    PageTable.kernel_mem_pool s' = kp /\
    PageTable.process_mem_pool s' = pp /\
    recursive_mapping (PageTable.MP4.load page_directory s') /\
    (forall i, 0 <= i < 1024 ->
       PageTable.MP4.translate (PageTable.MP4.load page_directory s')
         (0xFFFFF000 + 4 * i)
       = Some (page_directory + 4 * i)) /\
    (forall va, 0 <= va < 0x400000 ->
       PageTable.MP4.translate (PageTable.MP4.load page_directory s') va
       = Some va) /\
    (forall i, 1 <= i < 1023 ->
       Z.land (PageTable.memory s' (PageTable.slot page_directory i)) 1
       = Z.land (PageTable.memory s (PageTable.slot page_directory i)) 1).
Proof.
  intros Hsh Hg1 Hg2 Hne. cbv zeta.
  destruct (frame_address f) as [Hpd Hpal].
  destruct (frame_address f') as [Hpt Hptal].
  set (pd := u32 (f * PageTable.PAGE_SIZE)) in *.
  set (pt := u32 (f' * PageTable.PAGE_SIZE)) in *.
  unfold PageTable.MP4.PageTable. rewrite Hg1, Hg2.
  fold pd. fold pt. unfold PageTable.PAGE_SIZE at 1 2 3. rewrite Hsh.
  change (u32 (1024 - 1)) with 1023.
  set (m2 := PageTable.store
               (PageTable.store (PageTable.memory s) (PageTable.slot pd 1023)
                  (Z.lor pd 3))
               (PageTable.slot pd 0) (Z.lor pt 3)).
  eexists. split; [reflexivity|].
  cbn [PageTable.kernel_mem_pool PageTable.process_mem_pool PageTable.memory
       PageTable.with_memory PageTable.with_kernel_pool
       PageTable.with_process_pool].
  destruct (map_shared_spec pt 1024 (PageTable.mark_entries pd 1 1023 m2)
              Hpt Hptal ltac:(lia)) as [Htab Hrest].
  destruct (mark_entries_spec pd 1 1023 m2 Hpd Hpal ltac:(lia) ltac:(lia))
    as [Hmark Hkeep].
  assert (Hdir : forall i, 0 <= i < 1024 ->
            PageTable.map_shared pt 1024 (PageTable.mark_entries pd 1 1023 m2)
              (PageTable.slot pd i)
            = PageTable.mark_entries pd 1 1023 m2 (PageTable.slot pd i)).
  { intros i Hi. apply Hrest. intros j Hj.
    rewrite !slot_in_page by (assumption || lia).
    apply pages_apart; try assumption; lia. }
  assert (Hstore : forall i, 1 <= i < 1023 ->
            m2 (PageTable.slot pd i) = PageTable.memory s (PageTable.slot pd i)).
  { intros i Hi. unfold m2, PageTable.store.
    destruct (Z.eqb_spec (PageTable.slot pd i) (PageTable.slot pd 0))
      as [Heq|_].
    { rewrite !slot_in_page in Heq by (assumption || lia). lia. }
    destruct (Z.eqb_spec (PageTable.slot pd i) (PageTable.slot pd 1023))
      as [Heq|_]; [|reflexivity].
    rewrite !slot_in_page in Heq by (assumption || lia). lia. }
  assert (Hrec : recursive_mapping
            (PageTable.MP4.load pd
               (PageTable.with_memory
                  (PageTable.map_shared pt 1024
                     (PageTable.mark_entries pd 1 1023 m2))
                  (PageTable.with_process_pool pp
                     (PageTable.with_kernel_pool kp s))))).
  { split; [exact Hpd|]. split; [exact Hpal|].
    cbn [PageTable.MP4.load PageTable.write_cr3 PageTable.cr3
         PageTable.memory PageTable.with_memory].
    unfold PageTable.load. rewrite Hdir by lia. rewrite Hkeep.
    - unfold m2, PageTable.store.
      destruct (Z.eqb_spec (PageTable.slot pd 1023) (PageTable.slot pd 0))
        as [Heq|_].
      { rewrite !slot_in_page in Heq by (assumption || lia). lia. }
      rewrite Z.eqb_refl. reflexivity.
    - intros i Hi. rewrite !slot_in_page by (assumption || lia). lia. }
  split; [reflexivity|]. split; [reflexivity|]. split; [exact Hrec|].
  split; [|split].
  - intros i Hi.
    replace (0xFFFFF000 + 4 * i) with (0xFFC00000 + 4096 * 1023 + 4 * i)
      by lia.
    rewrite (translate_window _ 1023 i pd 3); try assumption; try lia.
    + rewrite slot_in_page by (assumption || lia). reflexivity.
    + apply Hrec.
    + reflexivity.
  - intros va Hva.
    apply (identity_walk _ pt 1024); cbn [PageTable.MP4.load
      PageTable.write_cr3 PageTable.cr3 PageTable.memory
      PageTable.with_memory PageTable.with_kernel_pool
      PageTable.with_process_pool]; try assumption; try lia.
    + rewrite Hdir by lia. rewrite Hkeep.
      * unfold m2, PageTable.store. rewrite Z.eqb_refl. reflexivity.
      * intros i Hi. rewrite !slot_in_page by (assumption || lia). lia.
  - intros i Hi. rewrite Hdir by lia. rewrite Hmark by lia.
    rewrite Hstore by lia. apply (proj1 (lor_rw_bits _)).
Qed.

Lemma X25_witness :
  exists s',
    PageTable.MP4.PageTable before_paging = Some (513 * 4096, s') /\
    PageTable.kernel_mem_pool s' = PageTable.kernel_mem_pool mp4_boot /\
    PageTable.process_mem_pool s' = PageTable.process_mem_pool mp4_boot /\
    recursive_mapping (PageTable.MP4.load (513 * 4096) s').
Proof.
  destruct (X25_mp4_constructor_recursive_mapping before_paging
              513 (take_frame (boot_pool 512 512))
              1025 (take_frame (boot_pool 1024 1024)))
    as (s' & Hc & Hk & Hp & Hrec & _).
  - reflexivity.
  - vm_compute. reflexivity.
  - vm_compute. reflexivity.
  - vm_compute. discriminate.
  - exists s'. split; [exact Hc|]. split; [exact Hk|]. split; [exact Hp|].
    exact Hrec.
Defined.

(** *** [free_page] *)

(** The MMU's walk reads the Present bit and the frame of two entries. *)
Lemma translate_same_bits s s' va :
  PageTable.cr3 s' = PageTable.cr3 s ->
  (forall a,
     Z.land (PageTable.memory s' a) 1 = Z.land (PageTable.memory s a) 1 /\
     Z.land (PageTable.memory s' a) 0xFFFFF000
     = Z.land (PageTable.memory s a) 0xFFFFF000) ->
  PageTable.MP4.translate s' va = PageTable.MP4.translate s va.
Proof.
  intros Hcr3 Hbits. unfold PageTable.MP4.translate, PageTable.load.
  rewrite Hcr3.
  rewrite (proj1 (Hbits _)), (proj2 (Hbits _)).
  destruct (Z.land _ 1 =? 0); [reflexivity|].
  rewrite (proj1 (Hbits _)), (proj2 (Hbits _)). reflexivity.
Qed.

Lemma free_page_indices page :
  0 <= page < 2 ^ 32 ->
  Z.shiftr (Z.land page 0xFFC00000) 22 = Z.shiftr page 22 /\
  Z.shiftr (Z.land page 0x003FF000) 12 = Z.land (Z.shiftr page 12) 0x3FF.
Proof.
  intros Hpage. split.
  - rewrite Z.shiftr_land. change (Z.shiftr 0xFFC00000 22) with 0x3FF.
    apply (proj2 (directory_index_range page Hpage)).
  - rewrite Z.shiftr_land. reflexivity.
Qed.

Lemma free_page_outcome
    (release_frames : Z -> FramePool.State * FramePool.State
                      -> option (FramePool.State * FramePool.State))
    (page_directory page : Z) (s : PageTable.State) (T fl : Z)
    (kp pp : FramePool.State) :
  0 <= page < 2 ^ 32 ->
  recursive_mapping s ->
  PageTable.pde_of s page = Z.lor T fl ->
  0 <= T < 2 ^ 32 -> T mod 4096 = 0 -> 0 <= fl < 4096 -> fl mod 2 = 1 ->
  let entry := PageTable.slot T (Z.land (Z.shiftr page 12) 0x3FF) in
  let pte := PageTable.memory s entry in
  release_frames (Z.land pte 0xFFFFF000 / 4096)
    (PageTable.kernel_mem_pool s, PageTable.process_mem_pool s)
  = Some (kp, pp) ->
  PageTable.MP4.free_page release_frames page_directory page s
  = Some (PageTable.MP4.load page_directory
            (PageTable.with_memory
               (PageTable.store (PageTable.memory s) entry (Z.lor pte 2))
               (PageTable.with_process_pool pp
                  (PageTable.with_kernel_pool kp s)))).
Proof.
  intros Hpage Hrm Hpde HT HTal Hfl Hodd entry pte Hrel.
  pose proof Hrm as (Hcr3 & Hal & Hrec).
  destruct (directory_index_range page Hpage) as [Hpdi _].
  pose proof (table_index_range (Z.shiftr page 12)) as Hpti.
  destruct (free_page_indices page Hpage) as [Hi1 Hi2].
  assert (Hmask : Z.land (PageTable.cr3 s) 0xFFFFF000 = PageTable.cr3 s).
  { rewrite land_page_mask by exact Hcr3. Z.div_mod_to_equations. lia. }
  unfold PageTable.pde_of in Hpde. rewrite Hmask in Hpde.
  unfold PageTable.MP4.free_page. rewrite Hi1, Hi2.
  rewrite mp4_page_entry by exact Hpdi.
  replace (PageTable.slot (0xFFC00000 + 4096 * Z.shiftr page 22)
             (Z.land (Z.shiftr page 12) 0x3FF))
    with (0xFFC00000 + 4096 * Z.shiftr page 22
          + 4 * Z.land (Z.shiftr page 12) 0x3FF)
    by (unfold PageTable.slot; rewrite u32_small; lia).
  rewrite (translate_window s (Z.shiftr page 22)
             (Z.land (Z.shiftr page 12) 0x3FF) T fl)
    by first [assumption | reflexivity].
  fold entry. unfold PageTable.load at 1. fold pte.
  unfold PageTable.PAGE_SIZE. rewrite Hrel.
  unfold PageTable.MP4.store_virtual.
  rewrite (translate_window
             (PageTable.with_process_pool pp (PageTable.with_kernel_pool kp s))
             (Z.shiftr page 22) (Z.land (Z.shiftr page 12) 0x3FF) T fl)
    by first [assumption | exact Hrm | reflexivity].
  reflexivity.
Qed.

(** X26.  [free_page] of MP4 hands the frame of the page to
    [release_frames] and sets the RW bit of the page's table entry; it does
    not clear the Present bit.  So for a page whose directory entry is
    present, on a machine with the recursive mapping in place and a frame
    pool that accepts the frame: the entry afterwards is the entry before
    with bit 1 set, no other word of memory changes, and under the same
    directory the page still translates to whatever it translated to
    before, the released frame included. *)
Theorem X26_mp4_free_page_keeps_the_page_mapped
    (release_frames : Z -> FramePool.State * FramePool.State
                      -> option (FramePool.State * FramePool.State))
    (page : Z) (s : PageTable.State) (T fl : Z) (kp pp : FramePool.State) :
  0 <= page < 2 ^ 32 ->
  recursive_mapping s ->
  PageTable.pde_of s page = Z.lor T fl ->
  0 <= T < 2 ^ 32 -> T mod 4096 = 0 -> 0 <= fl < 4096 -> fl mod 2 = 1 ->
  let entry := PageTable.slot T (Z.land (Z.shiftr page 12) 0x3FF) in
  let pte := PageTable.memory s entry in
  release_frames (Z.land pte 0xFFFFF000 / 4096)
    (PageTable.kernel_mem_pool s, PageTable.process_mem_pool s)
  = Some (kp, pp) ->
  exists s',
    PageTable.MP4.free_page release_frames (PageTable.cr3 s) page s = Some s' /\
    PageTable.kernel_mem_pool s' = kp /\
    PageTable.process_mem_pool s' = pp /\
    (forall a, PageTable.memory s' a
               = if a =? entry then Z.lor pte 2 else PageTable.memory s a) /\
    PageTable.pte_of s' page = Z.lor (PageTable.pte_of s page) 2 /\
    PageTable.MP4.translate s' page = PageTable.MP4.translate s page.
Proof.
  intros Hpage Hrm Hpde HT HTal Hfl Hodd entry pte Hrel.
  rewrite (free_page_outcome release_frames (PageTable.cr3 s) page s T fl
             kp pp Hpage Hrm Hpde HT HTal Hfl Hodd Hrel).
  fold entry. fold pte.
  eexists. split; [reflexivity|].
  split; [reflexivity|]. split; [reflexivity|].
  assert (Hbits : forall a,
            Z.land (PageTable.store (PageTable.memory s) entry (Z.lor pte 2) a) 1
            = Z.land (PageTable.memory s a) 1 /\
            Z.land (PageTable.store (PageTable.memory s) entry (Z.lor pte 2) a)
              0xFFFFF000
            = Z.land (PageTable.memory s a) 0xFFFFF000).
  { intros a. unfold PageTable.store.
    destruct (Z.eqb_spec a entry) as [->|]; [|split; reflexivity].
    apply lor_rw_bits. }
  split; [|split].
  - intros a. reflexivity.
  - unfold PageTable.pte_of, PageTable.pde_of, PageTable.load.
    cbn [PageTable.MP4.load PageTable.write_cr3 PageTable.cr3
         PageTable.memory PageTable.with_memory].
    rewrite (proj2 (Hbits _)).
    unfold PageTable.pde_of, PageTable.load in Hpde. rewrite Hpde.
    rewrite (entry_address T fl) by assumption.
    fold entry. unfold PageTable.store. rewrite Z.eqb_refl. reflexivity.
  - apply translate_same_bits; [reflexivity|]. exact Hbits.
Qed.

Lemma X26_witness :
  exists s',
    PageTable.MP4.free_page release_in_two (PageTable.cr3 mp4_faulted)
      0x400000 mp4_faulted = Some s' /\
    PageTable.MP4.translate s' 0x400000 = Some (1028 * 4096).
Proof.
  destruct (X26_mp4_free_page_keeps_the_page_mapped release_in_two
              0x400000 mp4_faulted (1026 * 4096) 3
              (PageTable.kernel_mem_pool mp4_faulted)
              (default (PageTable.process_mem_pool mp4_faulted)
                 (FramePoolMP3.release_frames_in_pool 1028
                    (PageTable.process_mem_pool mp4_faulted))))
    as (s' & Hf & _ & _ & _ & _ & Ht).
  - lia.
  - split; [|split]; vm_compute; try reflexivity. split; discriminate || reflexivity.
  - vm_compute. reflexivity.
  - lia.
  - reflexivity.
  - lia.
  - reflexivity.
  - vm_compute. reflexivity.
  - exists s'. split; [exact Hf|]. rewrite Ht. vm_compute. reflexivity.
Defined.

(* --------------------------------------------------------------------- *)
(** ** The file system: creating and deleting files                      *)
(* --------------------------------------------------------------------- *)

Section Directory.

Import FileSys.

Variable inode_image : list Inode -> list Z.

(** [GetFreeBlock] scans upwards, so what it returns is the lowest free
    block. *)
Lemma free_block_from_lowest fb nb : forall fuel i,
  nb - i <= Z.of_nat fuel ->
  let r := free_block_from fuel i nb fb in
  (r = -1 /\ forall b, i <= b < nb -> at_ fb b <> 0) \/
  (i <= r < nb /\ at_ fb r = 0 /\ forall b, i <= b < r -> at_ fb b <> 0).
Proof.
  induction fuel as [|fuel IH]; intros i Hfuel; simpl.
  - left. split; [reflexivity|]. intros b Hb. lia.
  - destruct (Z.ltb_spec i nb) as [Hlt|Hge].
    + destruct (Z.eqb_spec (at_ fb i) 0) as [Hz|Hnz].
      * right. split; [lia|]. split; [exact Hz|]. intros b Hb. lia.
      * destruct (IH (i + 1) ltac:(lia)) as [[Hr Hall]|(Hr & Hz & Hlow)].
        -- left. split; [exact Hr|]. intros b Hb.
           destruct (Z.eq_dec b i) as [->|]; [exact Hnz|]. apply Hall. lia.
        -- right. split; [lia|]. split; [exact Hz|]. intros b Hb.
           destruct (Z.eq_dec b i) as [->|]; [exact Hnz|]. apply Hlow. lia.
    + left. split; [reflexivity|]. intros b Hb. lia.
Qed.

Lemma GetFreeBlock_lowest fs :
  (GetFreeBlock fs = -1 /\
   forall b, 2 <= b < size fs / 512 -> at_ (free_blocks fs) b <> 0) \/
  (2 <= GetFreeBlock fs < size fs / 512 /\
   at_ (free_blocks fs) (GetFreeBlock fs) = 0 /\
   forall b, 2 <= b < GetFreeBlock fs -> at_ (free_blocks fs) b <> 0).
Proof.
  unfold GetFreeBlock, SimpleDisk.BLOCK_SIZE.
  apply (free_block_from_lowest (free_blocks fs) (size fs / 512)
           (Z.to_nat (size fs / 512 - 2)) 2).
  lia.
Qed.

(** Looking up the id 0 is looking for an unused inode. *)
Lemma LookupFile_zero fs : LookupFile 0 fs = GetFreeInode fs.
Proof. reflexivity. Qed.

Lemma LookupFile_insert fid k ino fs :
  LookupFile fid fs = None -> (k < length (inodes fs))%nat ->
  id ino = fid ->
  fst <$> list_find (fun ino => id ino = fid) (<[k := ino]> (inodes fs))
  = Some k.
Proof.
  intros Hlook Hk Hid. unfold LookupFile in Hlook.
  apply fmap_None in Hlook. apply list_find_None in Hlook.
  apply fmap_Some. exists (k, ino). split; [|reflexivity].
  apply list_find_Some. split; [|split].
  - apply list_lookup_insert_eq. exact Hk.
  - exact Hid.
  - intros j y Hj Hlt. rewrite list_lookup_insert_ne in Hj by lia.
    rewrite Forall_forall in Hlook. apply Hlook.
    apply list_elem_of_lookup. exists j. exact Hj.
Qed.

(** What [CreateFile] does, case by case. *)
Lemma CreateFile_cases fid fs :
  (CreateFile inode_image fid fs = (false, fs) /\
   (fid = 0 \/ LookupFile fid fs <> None \/ GetFreeInode fs = None \/
    forall b, 2 <= b < size fs / 512 -> at_ (free_blocks fs) b <> 0)) \/
  (exists k fs1,
     CreateFile inode_image fid fs = (true, fs1) /\
     fid <> 0 /\ LookupFile fid fs = None /\
     GetFreeInode fs = Some k /\
     2 <= GetFreeBlock fs < size fs / 512 /\
     at_ (free_blocks fs) (GetFreeBlock fs) = 0 /\
     (forall b, 2 <= b < GetFreeBlock fs -> at_ (free_blocks fs) b <> 0) /\
     size fs1 = size fs /\
     inodes fs1 = <[k := mkInode fid (GetFreeBlock fs) 0 0]> (inodes fs) /\
     free_blocks fs1 = set_ (free_blocks fs) (GetFreeBlock fs) 1 /\
     LookupFile fid fs1 = Some k).
Proof.
  unfold CreateFile.
  destruct (LookupFile fid fs) as [k0|] eqn:Hlook.
  { left. split; [reflexivity|]. right. left. discriminate. }
  destruct (GetFreeInode fs) as [k|] eqn:Hfree.
  2:{ left. split; [reflexivity|]. right. right. left. reflexivity. }
  assert (Hfid : fid <> 0).
  { intros ->. rewrite LookupFile_zero, Hfree in Hlook. discriminate. }
  destruct (GetFreeBlock_lowest fs) as [[Hr Hall]|(Hr & Hz & Hlow)].
  { rewrite Hr. left. split; [reflexivity|]. right. right. right. exact Hall. }
  destruct (Z.eqb_spec (GetFreeBlock fs) (-1)) as [Heq|_]; [lia|].
  right. exists k. eexists. split; [reflexivity|].
  assert (Hk : (k < length (inodes fs))%nat).
  { unfold GetFreeInode in Hfree.
    apply fmap_Some in Hfree as ([k' x] & Hf & ->).
    apply list_find_Some in Hf as (Hk & _ & _).
    apply lookup_lt_Some in Hk. exact Hk. }
  repeat (split; [first [assumption | reflexivity | lia]|]).
  unfold LookupFile.
  cbn [SaveFreeList SaveInodes with_disk inodes].
  apply LookupFile_insert; [exact Hlook|exact Hk|reflexivity].
Qed.

End Directory.

(** X27.  [CreateFile] either fails and changes nothing, or succeeds: it
    succeeds exactly when the id is not 0, no inode carries it, an inode is
    unused and a block from 2 upwards is free.  It then takes the unused
    inode [GetFreeInode] finds and the lowest free block as the file's
    block of block numbers, marks that block used, and a second
    [CreateFile] of the same id fails. *)
Theorem X27_CreateFile_outcome (inode_image : list FileSys.Inode -> list Z)
    (fid : Z) (fs : FileSys.FileSystem) :
  let r := FileSys.CreateFile inode_image fid fs in
  (fst r = false -> snd r = fs) /\
  (fst r = true <->
   fid <> 0 /\ FileSys.LookupFile fid fs = None /\
   FileSys.GetFreeInode fs <> None /\
   exists b, 2 <= b < FileSys.size fs / 512 /\
             FileSys.at_ (FileSys.free_blocks fs) b = 0) /\
  (fst r = true ->
   exists k ib,
     FileSys.GetFreeInode fs = Some k /\
     FileSys.GetFreeBlock fs = ib /\
     2 <= ib < FileSys.size fs / 512 /\
     FileSys.at_ (FileSys.free_blocks fs) ib = 0 /\
     (forall b, 2 <= b < ib -> FileSys.at_ (FileSys.free_blocks fs) b <> 0) /\
     FileSys.inodes (snd r)
     = <[k := FileSys.mkInode fid ib 0 0]> (FileSys.inodes fs) /\
     FileSys.free_blocks (snd r) = FileSys.set_ (FileSys.free_blocks fs) ib 1 /\
     FileSys.LookupFile fid (snd r) = Some k /\
     FileSys.CreateFile inode_image fid (snd r) = (false, snd r)).
Proof.
  cbv zeta.
  destruct (CreateFile_cases inode_image fid fs)
    as [[Hc Hwhy]|(k & fs1 & Hc & Hfid & Hlook & Hfree & Hr & Hz & Hlow
                   & Hsize & Hino & Hfb & Hlook1)];
    rewrite Hc; cbn [fst snd].
  - split; [reflexivity|]. split; [|discriminate].
    split; [discriminate|]. intros (Hfid & Hlook & Hfree & b & Hb & Hz).
    destruct Hwhy as [H | [H | [H | H]]];
      [contradiction | contradiction | contradiction |].
    exfalso. exact (H b Hb Hz).
  - split; [discriminate|]. split.
    + split; [|reflexivity]. intros _.
      split; [exact Hfid|]. split; [exact Hlook|].
      split; [rewrite Hfree; discriminate|].
      exists (FileSys.GetFreeBlock fs). split; assumption.
    + intros _. exists k, (FileSys.GetFreeBlock fs).
      repeat (split; [first [assumption | reflexivity]|]).
      unfold FileSys.CreateFile. rewrite Hlook1. reflexivity.
Qed.

Lemma X27_witness :
  fst (FileSys.CreateFile (fun _ => []) 7 (formatted 4 (8 * 512))) = true /\
  FileSys.GetFreeBlock (formatted 4 (8 * 512)) = 2.
Proof.
  destruct (X27_CreateFile_outcome (fun _ => []) 7 (formatted 4 (8 * 512)))
    as (_ & Hiff & _).
  split; [|vm_compute; reflexivity]. apply Hiff.
  split; [lia|]. split; [vm_compute; reflexivity|].
  split; [vm_compute; discriminate|].
  exists 5. split; vm_compute; [|reflexivity].
  split; [discriminate|reflexivity].
Defined.

Section Deleting.

Import FileSys.

Variable inode_image : list Inode -> list Z.

Lemma at_set_zero a i j :
  at_ (set_ a i 0) j = if j =? i then 0 else at_ a j.
Proof.
  destruct (Z.eqb_spec j i) as [->|Hne]; [|apply at_set_ne; congruence].
  unfold at_, set_. destruct (Z.ltb_spec i 0); [reflexivity|].
  destruct (decide (Z.to_nat i < length a)%nat).
  - rewrite list_lookup_insert_eq by lia. reflexivity.
  - rewrite list_insert_ge by lia.
    rewrite lookup_ge_None_2 by lia. reflexivity.
Qed.

(** Marking a free block used and free again. *)
Lemma set_used_then_free fb b :
  at_ fb b = 0 -> set_ (set_ fb b 1) b 0 = fb.
Proof.
  unfold at_, set_. intros Hz. destruct (Z.ltb_spec b 0); [reflexivity|].
  rewrite list_insert_insert_eq. apply list_insert_id'. intros Hlt.
  destruct (fb !! Z.to_nat b) as [x|] eqn:Hx.
  - cbn in Hz. subst x. reflexivity.
  - apply lookup_ge_None in Hx. lia.
Qed.

(** The loop that frees the data blocks, over any run of indices. *)
Lemma free_data_zero bn b js : forall fb,
  at_ fb b = 0 ->
  at_ (foldl (fun fb i =>
                if negb (at_ bn i =? 0) then set_ fb (at_ bn i) 0 else fb)
             fb js) b = 0.
Proof.
  induction js as [|j js IH]; intros fb Hz; [exact Hz|].
  simpl. apply IH. destruct (negb (at_ bn j =? 0)); [|exact Hz].
  rewrite at_set_zero. destruct (b =? at_ bn j); [reflexivity|exact Hz].
Qed.

Lemma free_data_in bn b js : forall fb,
  (exists i, i ∈ js /\ at_ bn i = b /\ b <> 0) ->
  at_ (foldl (fun fb i =>
                if negb (at_ bn i =? 0) then set_ fb (at_ bn i) 0 else fb)
             fb js) b = 0.
Proof.
  induction js as [|j js IH]; intros fb (i & Hin & Hi & Hb); [inversion Hin|].
  simpl. apply elem_of_cons in Hin as [->|Hin].
  - apply free_data_zero. rewrite Hi.
    destruct (Z.eqb_spec b 0); [contradiction|]. simpl.
    rewrite at_set_zero, Z.eqb_refl. reflexivity.
  - apply IH. exists i. auto.
Qed.

Lemma free_data_out bn b js : forall fb,
  (forall i, i ∈ js -> at_ bn i = b -> b = 0) ->
  at_ (foldl (fun fb i =>
                if negb (at_ bn i =? 0) then set_ fb (at_ bn i) 0 else fb)
             fb js) b = at_ fb b.
Proof.
  induction js as [|j js IH]; intros fb Hout; [reflexivity|].
  simpl. rewrite IH by (intros i Hi; apply Hout; right; exact Hi).
  destruct (Z.eqb_spec (at_ bn j) 0) as [Hz|Hnz]; [reflexivity|]. simpl.
  rewrite at_set_zero.
  destruct (Z.eqb_spec b (at_ bn j)) as [Heq|]; [|reflexivity].
  exfalso. apply Hnz. rewrite <- Heq. apply (Hout j); [left|auto].
Qed.

Lemma free_data_length bn js : forall fb,
  length (foldl (fun fb i =>
                   if negb (at_ bn i =? 0) then set_ fb (at_ bn i) 0 else fb)
                fb js) = length fb.
Proof.
  induction js as [|j js IH]; intros fb; [reflexivity|].
  simpl. rewrite IH. destruct (negb (at_ bn j =? 0)); [|reflexivity].
  apply length_set_.
Qed.

(** What a successful [DeleteFile] leaves behind. *)
Lemma DeleteFile_found fid fs k :
  LookupFile fid fs = Some k ->
  let ino := inode_at k fs in
  let bn := bytes_to_words 128
              (SimpleDisk.read (block_numbers_block ino) (disk fs)) in
  exists fs',
    DeleteFile inode_image fid fs = (true, fs') /\
    size fs' = size fs /\
    inodes fs' = <[k := mkInode 0 0 0 0]> (inodes fs) /\
    length (free_blocks fs') = length (free_blocks fs) /\
    (block_numbers_block ino = 0 -> free_blocks fs' = free_blocks fs) /\
    (block_numbers_block ino <> 0 ->
     (forall b,
        b = block_numbers_block ino \/
        (exists i, 0 <= i < num_blocks ino /\ at_ bn i = b /\ b <> 0) ->
        at_ (free_blocks fs') b = 0) /\
     (forall b,
        b <> block_numbers_block ino ->
        (forall i, 0 <= i < num_blocks ino -> at_ bn i = b -> b = 0) ->
        at_ (free_blocks fs') b = at_ (free_blocks fs) b)).
Proof.
  intros Hlook ino bn. unfold DeleteFile. rewrite Hlook. fold ino. fold bn.
  eexists. split; [reflexivity|].
  cbn [SaveFreeList SaveInodes with_disk size inodes free_blocks].
  split; [reflexivity|]. split; [reflexivity|].
  destruct (Z.eqb_spec (block_numbers_block ino) 0) as [Hz|Hnz]; cbn [negb].
  - split; [reflexivity|]. split; [reflexivity|]. intros H. contradiction.
  - split; [|split; [intros H; contradiction|]].
    { rewrite length_set_. apply free_data_length. }
    intros _. unfold free_data_blocks. split.
    + intros b [->|(i & Hi & Hb & Hb0)].
      * rewrite at_set_zero, Z.eqb_refl. reflexivity.
      * rewrite at_set_zero.
        destruct (b =? block_numbers_block ino); [reflexivity|].
        apply free_data_in. exists i.
        split; [apply elem_of_seqZ; lia|]. split; assumption.
    + intros b Hne Hout. rewrite at_set_zero.
      destruct (Z.eqb_spec b (block_numbers_block ino)); [contradiction|].
      apply free_data_out. intros i Hi. apply elem_of_seqZ in Hi.
      apply Hout. lia.
Qed.

End Deleting.

(** X28.  [DeleteFile] of an id that no inode carries fails and changes
    nothing.  Otherwise it succeeds, blanks the first inode with the id and
    marks free the file's block of block numbers and every block that
    block lists among its first [num_blocks] entries; no other byte of the
    free list changes, and an inode without a block of block numbers
    leaves the free list as it is. *)
Theorem X28_DeleteFile_outcome (inode_image : list FileSys.Inode -> list Z)
    (fid : Z) (fs : FileSys.FileSystem) :
  (FileSys.LookupFile fid fs = None ->
   FileSys.DeleteFile inode_image fid fs = (false, fs)) /\
  (forall k, FileSys.LookupFile fid fs = Some k ->
     let ino := FileSys.inode_at k fs in
     let bn := FileSys.bytes_to_words 128
                 (SimpleDisk.read (FileSys.block_numbers_block ino)
                    (FileSys.disk fs)) in
     exists fs',
       FileSys.DeleteFile inode_image fid fs = (true, fs') /\
       FileSys.size fs' = FileSys.size fs /\
       FileSys.inodes fs' = <[k := FileSys.mkInode 0 0 0 0]> (FileSys.inodes fs) /\
       length (FileSys.free_blocks fs') = length (FileSys.free_blocks fs) /\
       (FileSys.block_numbers_block ino = 0 ->
        FileSys.free_blocks fs' = FileSys.free_blocks fs) /\
       (FileSys.block_numbers_block ino <> 0 ->
        (forall b,
           b = FileSys.block_numbers_block ino \/
           (exists i, 0 <= i < FileSys.num_blocks ino /\
                      FileSys.at_ bn i = b /\ b <> 0) ->
           FileSys.at_ (FileSys.free_blocks fs') b = 0) /\
        (forall b,
           b <> FileSys.block_numbers_block ino ->
           (forall i, 0 <= i < FileSys.num_blocks ino ->
                      FileSys.at_ bn i = b -> b = 0) ->
           FileSys.at_ (FileSys.free_blocks fs') b
           = FileSys.at_ (FileSys.free_blocks fs) b))).
Proof.
  split.
  - intros Hlook. unfold FileSys.DeleteFile. rewrite Hlook. reflexivity.
  - intros k Hlook. exact (DeleteFile_found inode_image fid fs k Hlook).
Qed.

(** X29.  Deleting a file that was just created gives back what the
    creation took: [DeleteFile] succeeds, the free list and the size are
    those from before [CreateFile], the inode the file used is blank, the
    id is no longer found, and [GetFreeBlock] hands out the same block
    again. *)
Theorem X29_create_then_delete (inode_image : list FileSys.Inode -> list Z)
    (fid : Z) (fs fs1 : FileSys.FileSystem) :
  FileSys.CreateFile inode_image fid fs = (true, fs1) ->
  exists k fs2,
    FileSys.GetFreeInode fs = Some k /\
    FileSys.DeleteFile inode_image fid fs1 = (true, fs2) /\
    FileSys.size fs2 = FileSys.size fs /\
    FileSys.free_blocks fs2 = FileSys.free_blocks fs /\
    FileSys.inodes fs2 = <[k := FileSys.mkInode 0 0 0 0]> (FileSys.inodes fs) /\
    FileSys.LookupFile fid fs2 = None /\
    FileSys.GetFreeBlock fs2 = FileSys.GetFreeBlock fs.
Proof.
  intros Hc.
  destruct (CreateFile_cases inode_image fid fs)
    as [[Hc' _]|(k & fs1' & Hc' & Hfid & Hlook & Hfree & Hr & Hz & Hlow
                 & Hsize & Hino & Hfb & Hlook1)];
    rewrite Hc' in Hc; [discriminate|].
  injection Hc as <-.
  assert (Hk : (k < length (FileSys.inodes fs))%nat).
  { unfold FileSys.GetFreeInode in Hfree.
    apply fmap_Some in Hfree as ([k' x] & Hf & ->).
    apply list_find_Some in Hf as (Hk & _ & _).
    apply lookup_lt_Some in Hk. exact Hk. }
  assert (Hat : FileSys.inode_at k fs1'
                = FileSys.mkInode fid (FileSys.GetFreeBlock fs) 0 0).
  { unfold FileSys.inode_at. rewrite Hino.
    rewrite list_lookup_insert_eq by exact Hk. reflexivity. }
  destruct (DeleteFile_found inode_image fid fs1' k Hlook1)
    as (fs2 & Hd & Hsize2 & Hino2 & _ & _ & _).
  assert (Hfb2 : FileSys.free_blocks fs2 = FileSys.free_blocks fs).
  { change fs2 with (snd (true, fs2)). rewrite <- Hd.
    unfold FileSys.DeleteFile. rewrite Hlook1, Hat.
    cbn [FileSys.block_numbers_block FileSys.num_blocks snd
         FileSys.SaveFreeList FileSys.SaveInodes FileSys.with_disk
         FileSys.free_blocks].
    destruct (Z.eqb_spec (FileSys.GetFreeBlock fs) 0) as [H0|_]; [lia|].
    cbn [negb]. unfold FileSys.free_data_blocks.
    rewrite (seqZ_nil 0 0) by lia.
    cbn [foldl]. rewrite Hfb. apply set_used_then_free. exact Hz. }
  assert (Hino2' : FileSys.inodes fs2
                   = <[k := FileSys.mkInode 0 0 0 0]> (FileSys.inodes fs)).
  { rewrite Hino2, Hino. apply list_insert_insert_eq. }
  exists k, fs2.
  split; [exact Hfree|]. split; [exact Hd|].
  split; [congruence|]. split; [exact Hfb2|]. split; [exact Hino2'|].
  split.
  - unfold FileSys.LookupFile. rewrite Hino2'.
    apply fmap_None. apply list_find_None.
    unfold FileSys.LookupFile in Hlook. apply fmap_None in Hlook.
    apply list_find_None in Hlook.
    apply Forall_insert; [exact Hlook|]. cbn. congruence.
  - unfold FileSys.GetFreeBlock. rewrite Hfb2.
    replace (FileSys.size fs2) with (FileSys.size fs) by congruence.
    reflexivity.
Qed.

Lemma X28_witness :
  FileSys.DeleteFile (fun _ => []) 9 (formatted 4 (8 * 512))
  = (false, formatted 4 (8 * 512)).
Proof.
  apply (proj1 (X28_DeleteFile_outcome (fun _ => []) 9
                  (formatted 4 (8 * 512)))).
  vm_compute. reflexivity.
Defined.

Lemma X29_witness :
  exists fs2,
    FileSys.DeleteFile (fun _ => []) 7
      (snd (FileSys.CreateFile (fun _ => []) 7 (formatted 4 (8 * 512))))
    = (true, fs2) /\
    FileSys.free_blocks fs2 = FileSys.free_blocks (formatted 4 (8 * 512)) /\
    FileSys.inodes fs2 = FileSys.inodes (formatted 4 (8 * 512)).
Proof.
  destruct (X29_create_then_delete (fun _ => []) 7 (formatted 4 (8 * 512))
              (snd (FileSys.CreateFile (fun _ => []) 7
                      (formatted 4 (8 * 512)))))
    as (k & fs2 & Hk & Hd & _ & Hfb & Hino & _).
  - vm_compute. reflexivity.
  - exists fs2. split; [exact Hd|]. split; [exact Hfb|].
    vm_compute in Hk. injection Hk as <-. rewrite Hino. reflexivity.
Defined.

(* --------------------------------------------------------------------- *)
(** ** The sequential file: how far a handle moves                       *)
(* --------------------------------------------------------------------- *)

Section Handle.

Import FileSys.

Variable MAX_BLOCKS : Z.
Variable k : nat.
Variable to_do : Z.

Hypothesis to_do_fits : to_do < 2 ^ 32.

Lemma load_block_position block_idx bn fs f :
  current_position (load_block block_idx bn fs f) = current_position f.
Proof. unfold load_block. destruct (negb _); reflexivity. Qed.

Lemma copy_count_bounds pos count :
  0 <= count < to_do ->
  let offset_in_block := pos mod SimpleDisk.BLOCK_SIZE in
  let remaining_in_block := SimpleDisk.BLOCK_SIZE - offset_in_block in
  let remaining := to_do - count in
  let copy_count :=
    if remaining_in_block <? remaining then remaining_in_block
    else remaining in
  count < u32 (count + copy_count) <= to_do.
Proof.
  intros Hc. cbv zeta. unfold SimpleDisk.BLOCK_SIZE.
  pose proof (Z.mod_pos_bound pos 512 ltac:(lia)) as Hm.
  destruct (Z.ltb_spec (512 - pos mod 512) (to_do - count));
    rewrite u32_small; lia.
Qed.

Lemma read_loop_step fuel st :
  read_loop (Datatypes.S fuel) k to_do st
  = let bytes_read := l_count st in
    if bytes_read <? to_do then
      let pos := u32 (current_position (l_file st) + bytes_read) in
      let block_idx := pos / SimpleDisk.BLOCK_SIZE in
      let offset_in_block := pos mod SimpleDisk.BLOCK_SIZE in
      if (block_idx >=? num_blocks (inode_at k (l_fs st)))
         || (at_ (l_block_nums st) block_idx =? 0)
      then st
      else
        let f := load_block block_idx (l_block_nums st)
                   (l_fs st) (l_file st) in
        let remaining_in_block := SimpleDisk.BLOCK_SIZE - offset_in_block in
        let remaining_to_read := to_do - bytes_read in
        let copy_count :=
          if remaining_in_block <? remaining_to_read
          then remaining_in_block else remaining_to_read in
        read_loop fuel k to_do
          {| l_fs := l_fs st; l_file := f;
             l_block_nums := l_block_nums st;
             l_buf := copy_bytes (l_buf st) bytes_read
                        (block_cache f) offset_in_block copy_count;
             l_count := u32 (bytes_read + copy_count) |}
    else st.
Proof. reflexivity. Qed.

(** The loop of [Read] moves neither the position nor the end of the
    buffer, and counts up to [to_read] at most. *)
Lemma read_loop_bounds : forall fuel st,
  0 <= l_count st <= to_do ->
  let st' := read_loop fuel k to_do st in
  current_position (l_file st') = current_position (l_file st) /\
  l_count st <= l_count st' <= to_do /\
  length (l_buf st') = length (l_buf st).
Proof.
  induction fuel as [|fuel IH]; intros st Hc.
  - cbn. split; [reflexivity|]. split; [lia|reflexivity].
  - rewrite read_loop_step. cbv zeta.
    destruct (Z.ltb_spec (l_count st) to_do) as [Hlt|Hge];
      [|split; [reflexivity|]; split; [lia|reflexivity]].
    destruct (_ || _); [split; [reflexivity|]; split; [lia|reflexivity]|].
    pose proof (copy_count_bounds
                  (u32 (current_position (l_file st) + l_count st))
                  (l_count st) ltac:(lia)) as Hcc.
    cbv zeta in Hcc.
    match goal with
    | |- context [read_loop fuel k to_do ?st1] =>
        specialize (IH st1); cbn [l_count l_file l_buf] in IH;
        destruct IH as (Hp & Hn & Hl); [lia|]
    end.
    rewrite Hp, Hl. rewrite load_block_position, length_copy_bytes.
    split; [reflexivity|]. split; [lia|reflexivity].
Qed.

Lemma write_loop_step fuel st :
  write_loop MAX_BLOCKS (Datatypes.S fuel) k to_do st
  = let bytes_written := l_count st in
    if bytes_written <? to_do then
      let pos := u32 (current_position (l_file st) + bytes_written) in
      let block_idx := pos / SimpleDisk.BLOCK_SIZE in
      let offset_in_block := pos mod SimpleDisk.BLOCK_SIZE in
      match allocate_block MAX_BLOCKS k block_idx st with
      | None => st
      | Some st =>
          let f := load_block block_idx (l_block_nums st)
                     (l_fs st) (l_file st) in
          let remaining_in_block :=
            SimpleDisk.BLOCK_SIZE - offset_in_block in
          let remaining_to_write := to_do - bytes_written in
          let copy_count :=
            if remaining_in_block <? remaining_to_write
            then remaining_in_block else remaining_to_write in
          let f := with_cache
                     (copy_bytes (block_cache f) offset_in_block
                        (l_buf st) bytes_written copy_count) f in
          let fs := with_disk
                      (SimpleDisk.write (at_ (l_block_nums st) block_idx)
                         (block_cache f) (disk (l_fs st))) (l_fs st) in
          write_loop MAX_BLOCKS fuel k to_do
            {| l_fs := fs; l_file := f;
               l_block_nums := l_block_nums st; l_buf := l_buf st;
               l_count := u32 (bytes_written + copy_count) |}
      end
    else st.
Proof. reflexivity. Qed.

Lemma file_length_with_inode ino fs :
  file_length ino = file_length (inode_at k fs) ->
  file_length (inode_at k (with_inode k ino fs))
  = file_length (inode_at k fs).
Proof.
  intros Hfl. unfold inode_at, with_inode. cbn [inodes].
  destruct (decide (k < length (inodes fs))%nat).
  - rewrite list_lookup_insert_eq by lia. exact Hfl.
  - rewrite list_insert_ge by lia. reflexivity.
Qed.

(** A new block changes the inode's block count, not its length. *)
Lemma allocate_block_keeps block_idx st st' :
  allocate_block MAX_BLOCKS k block_idx st = Some st' ->
  current_position (l_file st') = current_position (l_file st) /\
  l_count st' = l_count st /\
  file_length (inode_at k (l_fs st')) = file_length (inode_at k (l_fs st)) /\
  length (inodes (l_fs st')) = length (inodes (l_fs st)).
Proof.
  unfold allocate_block.
  destruct (_ >=? _); [|intros [= <-]; repeat split; reflexivity].
  destruct (_ >=? _); [discriminate|].
  destruct (_ =? -1); [discriminate|].
  intros [= <-]. cbn [l_file l_count l_fs with_cache current_position].
  split; [reflexivity|]. split; [reflexivity|]. split.
  - unfold inode_at at 1.
    cbn [SaveFreeList with_disk with_inode inodes].
    destruct (decide (k < length (inodes (l_fs st)))%nat).
    + rewrite list_lookup_insert_eq by lia. reflexivity.
    + rewrite list_insert_ge by lia. reflexivity.
  - cbn [SaveFreeList with_disk with_inode inodes]. apply length_insert.
Qed.

(** The loop of [Write] moves neither the position nor the file's length,
    and counts up to [to_write] at most. *)
Lemma write_loop_bounds : forall fuel st,
  0 <= l_count st <= to_do ->
  let st' := write_loop MAX_BLOCKS fuel k to_do st in
  current_position (l_file st') = current_position (l_file st) /\
  l_count st <= l_count st' <= to_do /\
  file_length (inode_at k (l_fs st')) = file_length (inode_at k (l_fs st)) /\
  length (inodes (l_fs st')) = length (inodes (l_fs st)).
Proof.
  induction fuel as [|fuel IH]; intros st Hc.
  - cbn. repeat split; reflexivity || lia.
  - rewrite write_loop_step. cbv zeta.
    destruct (Z.ltb_spec (l_count st) to_do) as [Hlt|Hge];
      [|repeat split; reflexivity || lia].
    destruct (allocate_block MAX_BLOCKS k _ st) as [st1|] eqn:Ha;
      [|repeat split; reflexivity || lia].
    apply allocate_block_keeps in Ha as (Hp1 & Hc1 & Hf1 & Hl1).
    pose proof (copy_count_bounds
                  (u32 (current_position (l_file st) + l_count st))
                  (l_count st) ltac:(lia)) as Hcc.
    cbv zeta in Hcc.
    match goal with
    | |- context [write_loop MAX_BLOCKS fuel k to_do ?st2] =>
        specialize (IH st2);
        cbn [l_count l_file l_fs with_cache with_disk current_position
             inodes] in IH;
        destruct IH as (Hp & Hn & Hf & Hl); [lia|]
    end.
    rewrite Hp, Hf, Hl. rewrite load_block_position.
    unfold inode_at at 1. cbn [with_disk inodes]. fold (inode_at k (l_fs st1)).
    split; [exact Hp1|]. split; [lia|]. split; assumption.
Qed.

End Handle.

(** X30.  A handle whose position lies within its file, the file within
    the maximal size, stays so: [Read] reports at most the bytes asked for
    and at most those left before the end of the file, advances the
    position by what it reports and keeps the length of the caller's
    buffer; [Write] reports at most the bytes asked for, advances the
    position by what it reports, never past [MAX_BLOCKS] blocks, and leaves
    the file's length at the larger of its old length and the new
    position. *)
Theorem X30_handle_stays_within_the_file (MAX_BLOCKS : Z)
    (fs : FileSys.FileSystem) (f : FileSys.File) (k : nat) (_n : Z)
    (_buf : list Z) :
  FileSys.inode f = Some k ->
  (k < length (FileSys.inodes fs))%nat ->
  0 <= _n ->
  0 <= FileSys.current_position f
    <= FileSys.file_length (FileSys.inode_at k fs) ->
  FileSys.file_length (FileSys.inode_at k fs) <= MAX_BLOCKS * 512 ->
  MAX_BLOCKS * 512 < 2 ^ 32 ->
  (let '(n, out, f') := FileSys.Read _n _buf fs f in
   0 <= n <= _n /\
   FileSys.current_position f' = FileSys.current_position f + n /\
   FileSys.current_position f'
     <= FileSys.file_length (FileSys.inode_at k fs) /\
   length out = length _buf) /\
  (let '(n, fs', f') := FileSys.Write MAX_BLOCKS _n _buf fs f in
   0 <= n <= _n /\
   FileSys.current_position f' = FileSys.current_position f + n /\
   FileSys.current_position f' <= MAX_BLOCKS * 512 /\
   FileSys.file_length (FileSys.inode_at k fs')
   = Z.max (FileSys.file_length (FileSys.inode_at k fs))
       (FileSys.current_position f')).
Proof.
  intros Hino Hk Hn Hpos Hfl Hmax.
  set (pos := FileSys.current_position f) in *.
  set (FL := FileSys.file_length (FileSys.inode_at k fs)) in *.
  split.
  - unfold FileSys.Read. rewrite Hino.
    destruct (_ =? 0).
    { fold pos. repeat split; lia. }
    fold pos. fold FL. rewrite (u32_small (FL - pos)) by lia.
    set (to_read := if _n <? FL - pos then _n else FL - pos).
    assert (Htr : 0 <= to_read <= _n /\ to_read <= FL - pos).
    { unfold to_read. destruct (Z.ltb_spec _n (FL - pos)); lia. }
    match goal with
    | |- context [FileSys.read_loop ?fuel k to_read ?st0] =>
        pose proof (read_loop_bounds k to_read ltac:(lia) fuel st0
                      ltac:(cbn; lia)) as Hb;
        cbv zeta in Hb; cbn [FileSys.l_count FileSys.l_file FileSys.l_buf] in Hb;
        set (st' := FileSys.read_loop fuel k to_read st0) in *
    end.
    destruct Hb as (Hp & Hc & Hl). fold pos in Hp.
    cbn [FileSys.with_position FileSys.current_position].
    rewrite Hp. rewrite u32_small by lia.
    repeat split; lia.
  - unfold FileSys.Write. rewrite Hino.
    destruct (_ =? 0).
    { fold pos. fold FL. repeat split; lia. }
    fold pos. unfold SimpleDisk.BLOCK_SIZE.
    rewrite (u32_small (MAX_BLOCKS * 512)) by lia.
    rewrite (u32_small (MAX_BLOCKS * 512 - pos)) by lia.
    set (to_write := if _n <? MAX_BLOCKS * 512 - pos then _n
                     else MAX_BLOCKS * 512 - pos).
    assert (Htw : 0 <= to_write <= _n /\ to_write <= MAX_BLOCKS * 512 - pos).
    { unfold to_write. destruct (Z.ltb_spec _n (MAX_BLOCKS * 512 - pos)); lia. }
    match goal with
    | |- context [FileSys.write_loop MAX_BLOCKS ?fuel k to_write ?st0] =>
        pose proof (write_loop_bounds MAX_BLOCKS k to_write ltac:(lia) fuel st0
                      ltac:(cbn; lia)) as Hb;
        cbv zeta in Hb;
        cbn [FileSys.l_count FileSys.l_file FileSys.l_fs] in Hb;
        set (st' := FileSys.write_loop MAX_BLOCKS fuel k to_write st0) in *
    end.
    destruct Hb as (Hp & Hc & Hf & Hl). fold pos in Hp. fold FL in Hf.
    cbn [FileSys.with_position FileSys.current_position].
    rewrite Hp, Hf. rewrite u32_small by lia.
    split; [lia|]. split; [reflexivity|]. split; [lia|].
    destruct (Z.gtb_spec (pos + FileSys.l_count st') FL) as [Hgt|Hle].
    + unfold FileSys.inode_at at 1, FileSys.with_inode.
      cbn [FileSys.inodes].
      rewrite list_lookup_insert_eq by lia. cbn. lia.
    + fold FL. rewrite Hf. lia.
Qed.

Lemma X30_witness :
  fst (fst (FileSys.Write 128 3 [72; 105; 33]
              (snd (FileSys.CreateFile (fun _ => []) 7
                      (formatted 4 (8 * 512))))
              (FileSys.open 7
                 (snd (FileSys.CreateFile (fun _ => []) 7
                         (formatted 4 (8 * 512))))))) <= 3.
Proof.
  pose proof (X30_handle_stays_within_the_file 128
                (snd (FileSys.CreateFile (fun _ => []) 7
                        (formatted 4 (8 * 512))))
                (FileSys.open 7
                   (snd (FileSys.CreateFile (fun _ => []) 7
                           (formatted 4 (8 * 512)))))
                0%nat 3 [72; 105; 33]) as H.
  destruct H as [_ H].
  - vm_compute. reflexivity.
  - vm_compute. lia.
  - lia.
  - vm_compute. split; discriminate.
  - vm_compute. discriminate.
  - reflexivity.
  - destruct (FileSys.Write _ _ _ _ _) as [[n fs'] f']. cbn [fst].
    destruct H as [[_ H] _]. exact H.
Defined.
